(* ===== verification/_CoqProject ===== *)
-Q . S2P
Prelude.v
SortSpec.v
InsertSort.v
BubbleSort.v
ShellSort.v
HeapSort.v
BucketSort.v
MergeSort.v
QuickSort.v
CString.v
Memory.v
StringPiece.v
GHash.v
ConfText.v
ConfCore.v
ConfGet.v
LogConfCore.v
LogConf.v
IridiumLog.v
LocalTime.v
MuduoDate.v
TimeZone.v
Double.v
Timestamp.v
DoubleText.v
LogStream.v
ProcInfo.v
LogFile.v
AsyncLog.v
ClogConf.v
Clog.v
ClogDisk.v
Mutex.v
Monitor.v
BlockingQueue.v
Thread.v
CurrentThread.v
OnceLocal.v
ThreadPool.v
FileExt.v
GetTrace.v
OptEntry.v
RedisOpt.v
RedisThreads.v
ReadPacket.v
Sniffer.v
ProcName.v
WritePacket.v
SingleInstance.v
HardInfo.v
Days.v
Ipv4.v
LogStreamTest.v
Base64.v
OpenSsl.v
ErrLine.v
Tcp1.v
TimeZoneTest.v
QueueTest.v
PoolTest.v
ClientServer.v
LogTest.v
NodeThreads.v
BaseTests.v
Programs.v
