(* ===== verification/Prelude.v ===== *)
(** * lctools: a verification development

    The repository is a collection of C modules under [src/src]: sorting
    routines, a configuration reader, a logging library with its own
    configuration and clock, small utilities, and a C++ logging library behind
    a C interface. This library models their own code as executable functions,
    and the parts that run in several threads as step relations, and proves what
    each of them does.

    ** How C is modelled

    A computation is an [outcome] (this file): it returns, is undefined (with
    the reason: an access outside an object, through [NULL] or after [free], an
    int overflow, ...), or leaves the process by [exit]. Loops are [loop body]
    with a fuel; [NoFuel] is an artefact of the model, and every function comes
    with a proof that its fuel is enough, either inside the total-correctness
    statement [wp m Q] ("returns, and the value satisfies [Q]") or as [settled
    m]. The fuel of a loop over an array or a text is its length plus one; that
    of a recursion on a segment is the length of the segment. Arrays are lists
    read and written by [aget] and [aset], which check the bounds of the object.
    [int] arithmetic goes through [int_], unsigned and converted values through
    [to_u] and [to_s]. Effects thread their state; system calls and foreign
    libraries answer through an argument or an environment. GLib's hash table is
    the class [GHashTable] with the laws of its documentation (GHash.v) and the
    record locks of POSIX are the class [FileLocks] (SingleInstance.v); both
    have an instance by finite maps, with which the witnesses compute.
    CString.v has the characters, strings and number conversions of libc,
    Memory.v blocks of memory ([memcpy], [snprintf] into a buffer). A condition
    variable wakes any waiting thread ([notify], Monitor.v), a critical section
    under a mutex is one step, and a run is a sequence of steps that the
    theorems quantify over. The exception of the zone reader is a value of its
    reader monad (TimeZone.v).

    ** Parts, files and what is shown

    - Sorting, [csort/*.c]. SortSpec.v states the specification (a permutation
      of the segment, in order, the rest untouched). InsertSort.v, BubbleSort.v,
      HeapSort.v and MergeSort.v refine it; ShellSort.v sorts in descending
      order; QuickSort.v permutes and can fail to sort; BucketSort.v overruns
      its buckets on every input.
    - The configuration text, [utils/config/iridium_conf_core.c] and its copy
      [log/iridiumSysLog/iridiumlog_conf/iridium_conf_core.c]. ConfText.v has
      the parsing routines both share, ConfCore.v the manager and its table with
      key pointers into the values: a printed configuration is read back, every
      text is processed in bounded time and, with short mode lines, within
      bounds; duplicate modes, the closing switch and unclosed blocks leave the
      states the theorems describe. ConfGet.v has the typed getters of
      [utils/config/iridium_conf.c]: they return the printed number wrapped to
      their type. LogConfCore.v has what the copy does differently.
    - The logging library, [log/iridiumSysLog]. LogConf.v builds the table of
      log files of [iridiumlog_conf.c] from a configuration: it refines a
      description by the list of modes, and its identifiers, look-ups and
      destruction are exact. IridiumLog.v is [iridiumlog.c]: initialisation,
      filters, text of a line, node table and rotation as a state with a trace
      of system calls, LogTest.v writes sequences of messages with it, as
      [logtest/test.c] does: each file holds its messages in order. NodeThreads.v
      interleaves the calls of several threads over the table of file nodes, as
      [logtest/multiThreadTest.c] does: every file holds the messages of every
      thread in their order when no new file is shared, and two threads that are
      the first to write to a file can use a freed node. LocalTime.v is the clock
      thread of [get_localtime.c] with its readers as a step relation: a reader
      that gets the lock sees a stored time, and one that does not races.
    - The C++ logging library, [log/muduo-clog]. From the caller to the disk:
      Clog.v is the interface [clog/muduo_clog.cc] with [Logger]
      ([base/Logging.cc]), LogStream.v formats a line into its buffer
      ([LogStream.h], [LogStream.cc]), AsyncLog.v passes the lines from the
      callers to the background thread ([AsyncLogging.cc]), LogFile.v writes and
      rolls the files ([LogFile.cc], [AppendFile] of [FileUtil.cc]). ClogConf.v
      reads the level and the size ([utils/ConfFileRead.cc]). Each stage is
      proved against the interface of the next: AsyncLog.v against the class
      [LogBuffer], Clog.v by refinement to runs of AsyncLog.v;
      [log_reaches_files] joins AsyncLog.v and LogFile.v, and ClogDisk.v all of
      them: the messages above the level are the text of the files. The lines arrive
      complete and in order unless buffers were dropped, at most five steps of
      the thread write what waits, and [stop] and fatal messages lose lines.
      MuduoDate.v ([Date.cc]) and TimeZone.v ([TimeZone.cc]) have the calendar
      and the zones with their round trips, Timestamp.v ([Timestamp.cc]) the
      time stamps, the text of a time and, with the binary64 numbers of
      Double.v, differences and sums of times. DoubleText.v is what [printf]
      makes of a double, for LogStream.v. LogStreamTest.v and Days.v run the
      programs [tests/LogStream_test.cc] and, for any years,
      [tests/Date_unittest.cc]; TimeZoneTest.v runs [tests/TimeZone_unittest.cc]
      for any zone files that hold the historical rules. QueueTest.v and
      PoolTest.v put queue, latch and pool together as
      [tests/BlockingQueue_test.cc], [tests/BoundedBlockingQueue_test.cc] and
      [tests/ThreadPool_test.cc] do, and show that these programs end. BaseTests.v
      has smaller test programs: atomic counters, [fork], the objects of threads,
      a vector filled under a mutex, a histogram of time stamps; Programs.v the
      delays of the programs that measure. OnceLocal.v has the objects that are created
      once ([Singleton.h], [ThreadLocalSingleton.h]), the callbacks of
      [WeakCallback.h] and the open state of [GzipFile.h]. ProcInfo.v reads small files
      ([ReadSmallFile] of [FileUtil.cc]) and the entries of [/proc]
      ([ProcessInfo.cc]), StringPiece.v ([StringPiece.h]) decides the order
      of texts by [memcmp]. Mutex.v ([Mutex.h], [Condition.cc]) has the parts of
      a critical section as separate steps and shows that whole sections follow
      one another, which is why a section is one step in the other models.
      Thread.v is the latch and the start and join of a thread
      ([CountDownLatch.cc], [Thread.cc]), CurrentThread.v what a thread knows of
      itself ([CurrentThread.h], [Atomic.h], [ThreadLocal.h] and the ends of a
      thread in [Thread.cc]). BlockingQueue.v
      ([BlockingQueue.h], [BoundedBlockingQueue.h]) and ThreadPool.v
      ([ThreadPool.cc]) show for all runs of any number of threads that values
      come out in order, wake-ups are not lost, every call and every task comes
      to an end, and what [stop] leaves behind.
    - Utilities. FileExt.v is the extension filter of [utils/file_ext], against
      a description by the last dot of the name. OptEntry.v is the command line
      of [utils/opt_entry]. RedisOpt.v is the subscription client of
      [utils/redis]: callbacks are delivered in order, and its destruction joins
      detached threads; RedisThreads.v interleaves the listening thread with
      the registration of callbacks. ProcName.v splits the program's path
      ([get_proc_name.c], twice). SingleInstance.v has the lock wrappers, the
      single instance of a program as an invariant of every run, and the
      descriptors of a daemon. WritePacket.v saves one packet
      ([utils/write_packet]). GetTrace.v is the stack trace of
      [utils/get_trace]: its text, and the overrun of its buffer.
    - ReadPacket.v prints the TCP packets of a capture ([network/read_packet.c]):
      the printed fields are the header fields in network order; short captures,
      packets without flags and the static buffer of [inet_ntoa] are shown to
      misbehave. Sniffer.v has its first version ([trash/sniffer]). Tcp1.v
      builds and sends a packet ([network/libnet_code/tcp1.c]). ClientServer.v is
      the server and the clients of [network/client_server] as one step relation
      over their connections: every run comes to rest, and when messages
      arrive together server and clients wait for each other for ever. Programs.v lists the
      interfaces ([network/libpcap]).
    - Programs kept under [trash]. HardInfo.v ([get_hardinfo.c]) reads the
      names of [/proc/net/dev] into a table and shows that no hardware address
      ever gets out. OpenSsl.v ([aes_base64.c], [lc_rsa.c]) has activation codes
      and RSA messages over the class [OpenSslLaws], with their round trips;
      Base64.v is the encoding for its instance. Days.v and Ipv4.v are
      [compute_days.c] and [check_ipv4.c] with the [sscanf] it uses, ErrLine.v
      the error lines of [err.c].

    ** What is not modelled

    Of the C++ library: the checks of [pthread] results, the casts of [Types.h],
    the test programs that only print ([Thread_test.cc], [Singleton_test.cc],
    [LogStream_bench.cc], the timing of [Thread_bench.cc]) and those that no longer
    compile because they use the old macros of [Logging.h] ([Logging_test.cc],
    [LogFile_test.cc], [AsyncLogging_test.cc], [GzipFile_test.cc]). The socket
    programs under [trash], which do not compile either, the programs inside
    [#if 0], and the build files. The contents of external answers (hiredis,
    libpcap, libnet, OpenSSL, getopt, the system calls, [sscanf] with [%lf]) are
    arguments; headers outside the repository ([include/log.h], the generated
    [config.h]) appear as arguments where the code depends on them. *)

From stdpp Require Export base tactics numbers list gmap strings.
From Stdlib Require Export ZArith Lia.

Open Scope Z_scope.

(** ** Outcomes of C code *)

(** Why an execution has no defined result. *)
Inductive ub :=
  | OutOfBounds        (** access outside an object *)
  | NullDeref          (** access through NULL *)
  | UseAfterFree       (** access to a freed object *)
  | DoubleFree         (** second release of an object *)
  | SignedOverflow     (** int arithmetic out of range *)
  | BadConversion      (** atoi/sscanf on an unrepresentable number *)
  | BadJoin            (** pthread_join on a detached thread *)
  | BadFormat          (** data used as a printf format with directives *)
  | BadSize            (** variable-length array of negative size *)
  | Uninitialised.     (** read of an object that was never written *)

#[export] Instance ub_eq_dec : EqDecision ub.
Proof. solve_decision. Defined.

(** A computation returns, is undefined, leaves the process through
    [exit(code)], or (in the model only) runs out of fuel. *)
Inductive outcome (A : Type) :=
  | Ret (x : A)
  | Undef (u : ub)
  | Exited (code : Z)
  | NoFuel.
Arguments Ret {A} x.
Arguments Undef {A} u.
Arguments Exited {A} code.
Arguments NoFuel {A}.

#[export] Instance outcome_ret : MRet outcome := @Ret.
#[export] Instance outcome_bind : MBind outcome := λ A B f m,
  match m with
  | Ret x => f x
  | Undef u => Undef u
  | Exited c => Exited c
  | NoFuel => NoFuel
  end.

Lemma mret_bind {A B} (x : A) (f : A → outcome B) : mret x ≫= f = f x.
Proof. done. Qed.
Lemma Ret_bind {A B} (x : A) (f : A → outcome B) : Ret x ≫= f = f x.
Proof. done. Qed.

(** ** Loops *)

(** One turn of a loop continues with a new state or leaves with a result. *)
Inductive turn (S R : Type) :=
  | Next (s : S)
  | Stop (r : R).
Arguments Next {S R} s.
Arguments Stop {S R} r.

Fixpoint loop {S R} (fuel : nat) (body : S → outcome (turn S R)) (s : S)
    : outcome R :=
  match fuel with
  | O => NoFuel
  | Datatypes.S n =>
      t ← body s;
      match t with
      | Next s' => loop n body s'
      | Stop r => Ret r
      end
  end.

(** ** Total correctness *)

(** [wp m Q]: [m] returns a value, and the value satisfies [Q]. *)
Definition wp {A} (m : outcome A) (Q : A → Prop) : Prop :=
  match m with
  | Ret x => Q x
  | _ => False
  end.

Lemma wp_iff {A} (m : outcome A) Q : wp m Q ↔ ∃ x, m = Ret x ∧ Q x.
Proof.
  destruct m; simpl; split; [by eauto|intros (?&[= <-]&?); done|..];
    [done|intros (?&?&?); done|done|intros (?&?&?); done|done|
     intros (?&?&?); done].
Qed.

Lemma wp_ret {A} (x : A) (Q : A → Prop) : Q x → wp (Ret x) Q.
Proof. done. Qed.

Lemma wp_mret {A} (x : A) (Q : A → Prop) : Q x → wp (mret x) Q.
Proof. done. Qed.

Lemma wp_bind {A B} (m : outcome A) (f : A → outcome B) Q :
  wp m (λ x, wp (f x) Q) → wp (m ≫= f) Q.
Proof. by destruct m. Qed.

Lemma wp_mono {A} (m : outcome A) (P Q : A → Prop) :
  wp m P → (∀ x, P x → Q x) → wp m Q.
Proof. destruct m; simpl; auto. Qed.

(** The rule every loop proof goes through: an invariant, a measure that
    decreases, and a postcondition on the outcome of the loop. *)
Lemma loop_outcome {S R} (Inv : S → Prop) (m : S → nat)
    (Q : outcome R → Prop) (body : S → outcome (turn S R)) :
  (∀ s, Inv s →
     match body s with
     | Ret (Next s') => Inv s' ∧ (m s' < m s)%nat
     | Ret (Stop r) => Q (Ret r)
     | Undef u => Q (Undef u)
     | Exited c => Q (Exited c)
     | NoFuel => False
     end) →
  ∀ fuel s, Inv s → (m s < fuel)%nat → Q (loop fuel body s).
Proof.
  intros Hstep fuel. induction fuel as [|n IH]; intros s HI Hm; [lia|].
  simpl. specialize (Hstep s HI).
  destruct (body s) as [[s'|r]| | |]; simpl; try done.
  apply IH; [tauto|lia].
Qed.

(** Total correctness of a loop. *)
Lemma wp_loop {S R} (Inv : S → Prop) (m : S → nat) (Q : R → Prop)
    (body : S → outcome (turn S R)) fuel s :
  Inv s → (m s < fuel)%nat →
  (∀ s, Inv s →
     wp (body s) (λ t,
       match t with
       | Next s' => Inv s' ∧ (m s' < m s)%nat
       | Stop r => Q r
       end)) →
  wp (loop fuel body s) Q.
Proof.
  intros HI Hm Hstep.
  apply (loop_outcome Inv m (λ o, wp o Q)); [|done|done].
  intros s' HI'. specialize (Hstep s' HI').
  by destruct (body s') as [[]| | |].
Qed.

(** A loop that cannot leave normally and makes progress is undefined. *)
Lemma loop_undef {S R} (Inv : S → Prop) (m : S → nat) (u : ub)
    (body : S → outcome (turn S R)) fuel s :
  Inv s → (m s < fuel)%nat →
  (∀ s, Inv s →
     body s = Undef u ∨
     ∃ s', body s = Ret (Next s') ∧ Inv s' ∧ (m s' < m s)%nat) →
  loop fuel body s = Undef u.
Proof.
  intros HI Hm Hstep.
  apply (loop_outcome Inv m (λ o, o = Undef u)); [|done|done].
  intros s' HI'. destruct (Hstep s' HI') as [->|(s''&->&?&?)]; auto.
Qed.

(** ** Fuel *)

(** [m] did not run out of fuel: it returned, was undefined or left. *)
Definition settled {A} (m : outcome A) : Prop := m ≠ NoFuel.

Lemma settled_bind {A B} (m : outcome A) (f : A → outcome B) :
  settled m → (∀ x, settled (f x)) → settled (m ≫= f).
Proof. unfold settled. by destruct m; simpl; auto. Qed.

(** A turn [m] started with measure [k] ends, and a next state is smaller. *)
Definition advances {S R} (measure : S → nat) (k : nat) (m : outcome (turn S R))
    : Prop :=
  match m with
  | Ret (Next s) => (measure s < k)%nat
  | NoFuel => False
  | _ => True
  end.

Lemma advances_bind {A S R} (measure : S → nat) k (m : outcome A)
    (f : A → outcome (turn S R)) :
  settled m → (∀ x, m = Ret x → advances measure k (f x)) →
  advances measure k (m ≫= f).
Proof. unfold settled. by destruct m; simpl; auto. Qed.

Lemma advances_next {S R} (measure : S → nat) k s :
  (measure s < k)%nat → advances (R:=R) measure k (mret (Next s)).
Proof. done. Qed.

Lemma settled_loop {S R} (measure : S → nat) (body : S → outcome (turn S R))
    fuel s :
  (measure s < fuel)%nat → (∀ s, advances measure (measure s) (body s)) →
  settled (loop fuel body s).
Proof.
  intros Hm Hstep.
  apply (loop_outcome (λ _, True) measure (λ o, settled o)); [|done|done].
  intros s' _. specialize (Hstep s'). unfold advances, settled in *.
  by destruct (body s') as [[s''|r]| | |].
Qed.

(** [runs body s r]: the loop started in [s] leaves with [r]. *)
Definition runs {S R} (body : S → outcome (turn S R)) (s : S) (r : R) : Prop :=
  ∃ n, loop n body s = Ret r.

Lemma runs_next {S R} (body : S → outcome (turn S R)) s s' r :
  body s = Ret (Next s') → runs body s' r → runs body s r.
Proof. intros E [n Hn]. exists (Datatypes.S n). simpl. by rewrite E. Qed.

Lemma runs_stop {S R} (body : S → outcome (turn S R)) s r :
  body s = Ret (Stop r) → runs body s r.
Proof. intros E. exists 1%nat. simpl. by rewrite E. Qed.

(** What every returning loop preserves: partial correctness, from which
    [settled_loop] gives the rest. *)
Lemma loop_preserves {S R} (Inv : S → Prop) (Q : R → Prop)
    (body : S → outcome (turn S R)) fuel s r :
  loop fuel body s = Ret r → Inv s →
  (∀ s s', Inv s → body s = Ret (Next s') → Inv s') →
  (∀ s r, Inv s → body s = Ret (Stop r) → Q r) → Q r.
Proof.
  intros Hl HI Hn Hs. revert s Hl HI.
  induction fuel as [|n IH]; intros s Hl HI; simpl in Hl; [done|].
  destruct (body s) as [[s'|r']| | |] eqn:E; simpl in Hl; try done; eauto.
  injection Hl as ->. eauto.
Qed.

Lemma bind_Ret {A B} (m : outcome A) (f : A → outcome B) y :
  m ≫= f = Ret y → ∃ x, m = Ret x ∧ f x = Ret y.
Proof. destruct m; simpl; [by eauto|done..]. Qed.

(** Any sufficient fuel gives the result of the run. *)
Lemma runs_loop {S R} (body : S → outcome (turn S R)) s r fuel :
  runs body s r → settled (loop fuel body s) → loop fuel body s = Ret r.
Proof.
  intros [n Hn]. revert s fuel Hn. unfold settled.
  induction n as [|n IH]; intros s [|fuel] Hn Hs; simpl in *; [done..|].
  destruct (body s) as [[s'|r']| | |]; simpl in *; try done. by apply IH.
Qed.

(** The status of a process that [abort] or a failed [assert] ends. *)
Definition SIGABRT_status : Z := 134.
(** [assert]. *)
Definition assertion (c : bool) : outcome unit :=
  if c then mret tt else Exited SIGABRT_status.

(** ** Machine integers *)

Definition INT_MAX : Z := 2147483647.
Definition INT_MIN : Z := -2147483648.
Definition UINT_MAX : Z := 4294967295.
Definition LONG_MAX : Z := 9223372036854775807.
Definition LONG_MIN : Z := -9223372036854775808.
Definition ULONG_MAX : Z := 18446744073709551615.

Definition in_int (z : Z) : Prop := INT_MIN ≤ z ≤ INT_MAX.
#[export] Instance in_int_dec z : Decision (in_int z).
Proof. unfold in_int. apply _. Defined.

(** The value of a signed [int] expression, undefined out of range. *)
Definition int_ (z : Z) : outcome Z :=
  if decide (in_int z) then Ret z else Undef SignedOverflow.

(** The value of a [long] ([time_t]) expression. *)
Definition in_long (z : Z) : Prop := LONG_MIN ≤ z ≤ LONG_MAX.
#[export] Instance in_long_dec z : Decision (in_long z).
Proof. unfold in_long. apply _. Defined.
Definition long_ (z : Z) : outcome Z :=
  if decide (in_long z) then Ret z else Undef SignedOverflow.

(** Conversion to a [w]-bit unsigned or two's-complement type. *)
Definition to_u (w z : Z) : Z := z mod 2 ^ w.
Definition to_s (w z : Z) : Z := (z + 2 ^ (w - 1)) mod 2 ^ w - 2 ^ (w - 1).

Lemma wp_int z (Q : Z → Prop) : in_int z → Q z → wp (int_ z) Q.
Proof. intros. unfold int_. by rewrite decide_True. Qed.

Lemma int_ok z : in_int z → int_ z = Ret z.
Proof. intros. unfold int_. by rewrite decide_True. Qed.
Lemma int_bind {B} z (f : Z → outcome B) : in_int z → int_ z ≫= f = f z.
Proof. intros. by rewrite int_ok. Qed.

Lemma long_bind {B} z (f : Z → outcome B) : in_long z → long_ z ≫= f = f z.
Proof. intros. unfold long_. by rewrite decide_True. Qed.
Lemma wp_long z (Q : Z → Prop) : in_long z → Q z → wp (long_ z) Q.
Proof. intros. unfold long_. by rewrite decide_True. Qed.

Lemma to_u_small w z : 0 ≤ z < 2 ^ w → to_u w z = z.
Proof. apply Z.mod_small. Qed.

Lemma to_u_bounds w z : 0 ≤ w → 0 ≤ to_u w z < 2 ^ w.
Proof. intros. apply Z.mod_pos_bound. lia. Qed.

Lemma to_s_small w z : 0 < w → - 2 ^ (w - 1) ≤ z < 2 ^ (w - 1) → to_s w z = z.
Proof.
  intros Hw Hz. unfold to_s.
  assert (2 ^ w = 2 * 2 ^ (w - 1)).
  { rewrite <- Z.pow_succ_r by lia. f_equal. lia. }
  rewrite Z.mod_small; lia.
Qed.

Lemma to_s_bounds w z : 0 < w → - 2 ^ (w - 1) ≤ to_s w z < 2 ^ (w - 1).
Proof.
  intros Hw. unfold to_s.
  assert (2 ^ w = 2 * 2 ^ (w - 1)).
  { rewrite <- Z.pow_succ_r by lia. f_equal. lia. }
  pose proof (Z.mod_pos_bound (z + 2 ^ (w - 1)) (2 ^ w)). lia.
Qed.

(** ** C arrays *)

Section arrays.
Context {A : Type} `{!Inhabited A}.
Implicit Types (a : list A) (i : Z).

Definition zlen a : Z := Z.of_nat (length a).
(** The element at an index that is known to be in range. *)
Definition rd a i : A := a !!! Z.to_nat i.
Definition upd a i (v : A) : list A := <[Z.to_nat i := v]> a.

(** [a[i]] and [a[i] = v], with the bounds of the object. *)
Definition aget a i : outcome A :=
  if decide (0 ≤ i < zlen a) then Ret (rd a i) else Undef OutOfBounds.
Definition aset a i (v : A) : outcome (list A) :=
  if decide (0 ≤ i < zlen a) then Ret (upd a i v) else Undef OutOfBounds.

Lemma wp_aget a i Q : 0 ≤ i < zlen a → Q (rd a i) → wp (aget a i) Q.
Proof. intros. unfold aget. by rewrite decide_True. Qed.

Lemma wp_aset a i v Q : 0 ≤ i < zlen a → Q (upd a i v) → wp (aset a i v) Q.
Proof. intros. unfold aset. by rewrite decide_True. Qed.

Lemma zlen_upd a i v : zlen (upd a i v) = zlen a.
Proof. unfold zlen, upd. by rewrite length_insert. Qed.

Lemma rd_upd_eq a i v : 0 ≤ i < zlen a → rd (upd a i v) i = v.
Proof.
  unfold rd, upd, zlen. intros. apply list_lookup_total_insert_eq. lia.
Qed.

Lemma rd_upd_ne a i j v : 0 ≤ i → 0 ≤ j → i ≠ j → rd (upd a i v) j = rd a j.
Proof.
  unfold rd, upd. intros. apply list_lookup_total_insert_ne. lia.
Qed.

Lemma rd_upd a i j v :
  0 ≤ i < zlen a → 0 ≤ j →
  rd (upd a i v) j = if decide (i = j) then v else rd a j.
Proof.
  intros. case_decide; [subst; by apply rd_upd_eq|apply rd_upd_ne; lia].
Qed.

Lemma lookup_rd a i : 0 ≤ i < zlen a → a !! Z.to_nat i = Some (rd a i).
Proof.
  unfold zlen, rd. intros. apply list_lookup_lookup_total_lt. lia.
Qed.

Lemma upd_rd a i : 0 ≤ i < zlen a → upd a i (rd a i) = a.
Proof. intros. unfold upd. apply list_insert_id, lookup_rd. lia. Qed.

Lemma array_ext a b :
  zlen a = zlen b → (∀ i, 0 ≤ i < zlen a → rd a i = rd b i) → a = b.
Proof.
  intros Hlen Heq. apply list_eq_same_length with (length b).
  - done.
  - unfold zlen in *. lia.
  - intros i x y Hi Hx Hy. specialize (Heq (Z.of_nat i)).
    unfold rd, zlen in *. rewrite Nat2Z.id in Heq.
    rewrite (list_lookup_total_correct _ _ _ Hx),
      (list_lookup_total_correct _ _ _ Hy) in Heq.
    apply Heq. lia.
Qed.

Lemma aget_ok a i : 0 ≤ i < zlen a → aget a i = Ret (rd a i).
Proof. intros. unfold aget. by rewrite decide_True. Qed.
Lemma aset_ok a i v : 0 ≤ i < zlen a → aset a i v = Ret (upd a i v).
Proof. intros. unfold aset. by rewrite decide_True. Qed.

Lemma aget_head x l : aget (x :: l) 0 = Ret x.
Proof. unfold aget, zlen. rewrite decide_True; [done|]. simpl. lia. Qed.
Lemma aset_head x l v : aset (x :: l) 0 v = Ret (v :: l).
Proof. unfold aset, zlen. rewrite decide_True; [done|]. simpl. lia. Qed.

(** Moving the hole of an array from [i] to [k] keeps its contents. *)
Lemma hole_move a i k v :
  0 ≤ i < zlen a → 0 ≤ k < zlen a → i ≠ k →
  upd (upd a i (rd a k)) k v ≡ₚ upd a i v.
Proof.
  intros Hi Hk Hne. unfold upd. set (n := Z.to_nat i). set (p := Z.to_nat k).
  assert (Hnp : n ≠ p) by (subst n p; lia).
  set (b := <[n:=v]> a).
  assert (Hb1 : b !! n = Some v).
  { apply list_lookup_insert_eq. unfold zlen in Hi. lia. }
  assert (Hb2 : b !! p = Some (rd a k)).
  { unfold b. rewrite list_lookup_insert_ne by done. by apply lookup_rd. }
  transitivity (<[p:=v]> (<[n:=rd a k]> b)).
  - unfold b. by rewrite list_insert_insert_eq.
  - by apply Permutation_insert_swap.
Qed.
End arrays.

(** ** Proof automation *)

(** [wp_step] runs the goal's first statement; side conditions go to [lia]. *)
Ltac wp_side := simpl; rewrite ?zlen_upd; unfold in_int, INT_MAX, INT_MIN; lia.
Ltac wp_step :=
  match goal with
  | |- wp (_ ≫= _) _ => apply wp_bind
  | |- wp (mret _) _ => apply wp_mret
  | |- wp (Ret _) _ => apply wp_ret
  | |- wp (aget _ _) _ => apply wp_aget; [wp_side|]
  | |- wp (aset _ _ _) _ => apply wp_aset; [wp_side|]
  | |- wp (int_ _) _ => apply wp_int; [wp_side|]
  end.
Ltac wp_steps := repeat wp_step.

Lemma Ret_inj {A} (x y : A) : Ret x = Ret y → x = y.
Proof. by intros [= ->]. Qed.

(** [ret_inv H] follows the branches of a computation known to return. *)
Ltac ret_inv H :=
  repeat match type of H with
  | (_ ≫= _) = Ret _ =>
      let x := fresh "x" in let E := fresh "E" in
      apply bind_Ret in H as (x & E & H)
  | Undef _ = Ret _ => discriminate H
  | mret ?x = Ret ?y => change (Ret x = Ret y) in H
  | Ret _ = Ret _ => apply Ret_inj in H
  | (match ?x with _ => _ end) = Ret _ => destruct x eqn:?
  end; simplify_eq.

Create HintDb lctools.

Lemma aget_settled {A} `{!Inhabited A} (a : list A) i : settled (aget a i).
Proof. unfold aget. by case_decide. Qed.
Lemma aset_settled {A} `{!Inhabited A} (a : list A) i v : settled (aset a i v).
Proof. unfold aset. by case_decide. Qed.
Lemma int_settled z : settled (int_ z).
Proof. unfold int_. by case_decide. Qed.
#[export] Hint Extern 0 (settled (aget _ _)) => apply aget_settled : lctools.
#[export] Hint Extern 0 (settled (aset _ _ _)) => apply aset_settled : lctools.
#[export] Hint Resolve int_settled : lctools.

(** [settle] shows that a computation without an open loop does not run out of
    fuel ([settled]), or that a turn also decreases its measure ([advances];
    the measures are left to the caller), from the hints of [lctools]. *)
Ltac settle :=
  repeat match goal with
  | |- settled (_ ≫= _) => apply settled_bind; [|intros ?]
  | |- advances _ _ (_ ≫= _) => apply advances_bind; [|intros ? ?]
  | |- settled (mret _) => done
  | |- settled (Ret _) => done
  | |- settled (Undef _) => done
  | |- settled (Exited _) => done
  | |- advances _ _ (mret (Stop _)) => exact I
  | |- advances _ _ (Undef _) => exact I
  | |- advances _ _ (Exited _) => exact I
  | |- advances _ _ (mret (Next _)) => apply advances_next; cbv beta
  | |- settled _ => solve [auto with lctools]
  | |- settled (match ?x with _ => _ end) => destruct x eqn:?
  | |- advances _ _ (match ?x with _ => _ end) => destruct x eqn:?
  end.


(** [asimpl] reads through updates whose indices [lia] can compare. *)
Ltac asimpl :=
  repeat first
    [ rewrite zlen_upd
    | rewrite rd_upd_eq by (rewrite ?zlen_upd; lia)
    | rewrite rd_upd_ne by lia ].
Tactic Notation "asimpl" "in" hyp(H) :=
  repeat first
    [ rewrite zlen_upd in H
    | rewrite rd_upd_eq in H by (rewrite ?zlen_upd; lia)
    | rewrite rd_upd_ne in H by lia ].
