(* ===== verification/SortSpec.v ===== *)
(** Specifications shared by the sorting routines of [src/src/csort]:
    ascending and descending segments of an array, the frame of an in-place
    routine, and the swap and one-hole lemmas its proofs are made of.
    [ElementType] (def.h) is C [int], read here as [Z]: the routines only
    compare and move elements, so no value leaves the range of [int]. *)

From S2P Require Import Prelude.

Implicit Types a b c : list Z.

(** [a[lo..hi)] is in ascending (descending) order. *)
Definition ascending (a : list Z) (lo hi : Z) : Prop :=
  ∀ i j, lo ≤ i → i ≤ j → j < hi → rd a i ≤ rd a j.
Definition descending (a : list Z) (lo hi : Z) : Prop :=
  ∀ i j, lo ≤ i → i ≤ j → j < hi → rd a j ≤ rd a i.

(** [b] is [a] with the elements of [lo..hi) rearranged. *)
Definition rearranges (a b : list Z) (lo hi : Z) : Prop :=
  b ≡ₚ a ∧ ∀ i, 0 ≤ i → ¬ (lo ≤ i < hi) → rd b i = rd a i.

(** What a sorting routine promises: the first [len] elements rearranged into
    ascending order, the rest of the object untouched. *)
Definition sorts_prefix (a b : list Z) (len : Z) : Prop :=
  rearranges a b 0 len ∧ ascending b 0 len.

Lemma rearranges_refl a lo hi : rearranges a a lo hi.
Proof. by split. Qed.

Lemma rearranges_trans a b c lo hi :
  rearranges a b lo hi → rearranges b c lo hi → rearranges a c lo hi.
Proof.
  intros [P1 F1] [P2 F2]. split; [by etrans|].
  intros. rewrite F2, F1; auto.
Qed.

Lemma rearranges_weaken a b lo hi lo' hi' :
  rearranges a b lo hi → lo' ≤ lo → hi ≤ hi' → rearranges a b lo' hi'.
Proof. intros [P F] ??. split; [done|]. intros. apply F; lia. Qed.

Lemma perm_zlen a b : b ≡ₚ a → zlen b = zlen a.
Proof. intros P. unfold zlen. by rewrite P. Qed.

Lemma rearranges_zlen a b lo hi : rearranges a b lo hi → zlen b = zlen a.
Proof. intros [P _]. by apply perm_zlen. Qed.

Lemma swap_rearranges a i j lo hi :
  0 ≤ i < zlen a → 0 ≤ j < zlen a → lo ≤ i < hi → lo ≤ j < hi →
  rearranges a (upd (upd a i (rd a j)) j (rd a i)) lo hi.
Proof.
  intros Hi Hj Hi' Hj'. split.
  - destruct (decide (i = j)) as [->|Hne].
    + by rewrite upd_rd, upd_rd by (rewrite ?zlen_upd; lia).
    + rewrite hole_move by done. by rewrite upd_rd.
  - intros k Hk Hout. rewrite !rd_upd_ne by lia. done.
Qed.

Lemma rd_swap a i j k :
  0 ≤ i < zlen a → 0 ≤ j < zlen a → 0 ≤ k →
  rd (upd (upd a i (rd a j)) j (rd a i)) k =
    if decide (k = j) then rd a i else if decide (k = i) then rd a j else rd a k.
Proof.
  intros. repeat case_decide; subst; by asimpl.
Qed.

(** ** Segments as lists *)

Definition slice (a : list Z) (lo hi : Z) : list Z :=
  take (Z.to_nat (hi - lo)) (drop (Z.to_nat lo) a).

Lemma slice_split a lo hi :
  0 ≤ lo ≤ hi →
  a = take (Z.to_nat lo) a ++ slice a lo hi ++ drop (Z.to_nat hi) a.
Proof.
  intros H. unfold slice. rewrite <- (take_drop (Z.to_nat lo) a) at 1. f_equal.
  rewrite <- (take_drop (Z.to_nat (hi - lo)) (drop (Z.to_nat lo) a)) at 1.
  f_equal. rewrite drop_drop. f_equal. lia.
Qed.

Lemma slice_lookup a lo hi n :
  0 ≤ lo → lo + Z.of_nat n < hi → hi ≤ zlen a →
  slice a lo hi !! n = Some (rd a (lo + Z.of_nat n)).
Proof.
  intros. unfold slice. rewrite lookup_take_lt, lookup_drop by lia.
  rewrite <- lookup_rd by lia. f_equal. lia.
Qed.

Lemma slice_length a lo hi :
  0 ≤ lo ≤ hi → hi ≤ zlen a → length (slice a lo hi) = Z.to_nat (hi - lo).
Proof. unfold slice, zlen. intros. rewrite length_take, length_drop. lia. Qed.

Lemma slice_nil a lo : slice a lo lo = [].
Proof. unfold slice. by rewrite Z.sub_diag. Qed.

Lemma slice_app a lo mid hi :
  0 ≤ lo ≤ mid → mid ≤ hi → slice a lo mid ++ slice a mid hi = slice a lo hi.
Proof.
  intros. unfold slice.
  replace (Z.to_nat (hi - lo)) with (Z.to_nat (mid - lo) + Z.to_nat (hi - mid))%nat
    by lia.
  rewrite <- take_take_drop, drop_drop. do 3 f_equal. lia.
Qed.

Lemma slice_snoc a lo hi :
  0 ≤ lo ≤ hi → hi < zlen a → slice a lo (hi + 1) = slice a lo hi ++ [rd a hi].
Proof.
  intros. apply list_eq_same_length with (Z.to_nat (hi + 1 - lo)).
  - rewrite length_app, slice_length by lia. simpl. lia.
  - apply slice_length; lia.
  - intros n x y Hn. rewrite slice_lookup by lia. intros [= <-].
    destruct (decide (lo + Z.of_nat n < hi)).
    + rewrite lookup_app_l by (rewrite slice_length; lia).
      rewrite slice_lookup by lia. by intros [= <-].
    + rewrite lookup_app_r by (rewrite slice_length; lia).
      rewrite slice_length by lia.
      replace (n - Z.to_nat (hi - lo))%nat with 0%nat by lia.
      intros [= <-]. f_equal. lia.
Qed.

Lemma slice_ext a b lo lo' hi hi' :
  0 ≤ lo ≤ hi → 0 ≤ lo' → hi ≤ zlen a → hi' ≤ zlen b → hi - lo = hi' - lo' →
  (∀ k, 0 ≤ k < hi - lo → rd a (lo + k) = rd b (lo' + k)) →
  slice a lo hi = slice b lo' hi'.
Proof.
  intros ????? Heq. apply list_eq_same_length with (Z.to_nat (hi - lo)).
  - rewrite slice_length; lia.
  - apply slice_length; lia.
  - intros n x y ?. rewrite !slice_lookup by lia.
    rewrite (Heq (Z.of_nat n)) by lia. congruence.
Qed.

Lemma slice_elem a lo hi x :
  0 ≤ lo ≤ hi → hi ≤ zlen a →
  x ∈ slice a lo hi ↔ ∃ k, lo ≤ k < hi ∧ x = rd a k.
Proof.
  intros. rewrite list_elem_of_lookup. split.
  - intros [n Hn]. pose proof (lookup_lt_Some _ _ _ Hn) as Hl.
    rewrite slice_length in Hl by lia. rewrite slice_lookup in Hn by lia.
    exists (lo + Z.of_nat n). split; [lia|congruence].
  - intros (k & ? & ->). exists (Z.to_nat (k - lo)).
    rewrite slice_lookup by lia. do 2 f_equal. lia.
Qed.

(** Outside of its segment a framed array is literally the old one. *)
Lemma frame_take_drop a b lo hi :
  0 ≤ lo ≤ hi → zlen b = zlen a →
  (∀ i, 0 ≤ i → ¬ (lo ≤ i < hi) → rd b i = rd a i) →
  take (Z.to_nat lo) b = take (Z.to_nat lo) a ∧
  drop (Z.to_nat hi) b = drop (Z.to_nat hi) a.
Proof.
  intros Hr Hlen F.
  assert (Hsame : ∀ j : nat, Z.of_nat j < lo ∨ hi ≤ Z.of_nat j → b !! j = a !! j).
  { intros j Hj. destruct (decide (Z.of_nat j < zlen a)) as [Hlt|Hge].
    - rewrite <- (Nat2Z.id j), !lookup_rd by lia. by rewrite F by lia.
    - unfold zlen in *. rewrite !lookup_ge_None_2; [done|lia|lia]. }
  split; apply list_eq; intros j.
  - destruct (decide (j < Z.to_nat lo)%nat).
    + rewrite !lookup_take_lt by done. apply Hsame. lia.
    + by rewrite !lookup_take_ge by lia.
  - rewrite !lookup_drop. apply Hsame. lia.
Qed.

(** A rearrangement is a frame plus a permutation of the segment. *)
Lemma rearranges_slice a b lo hi :
  0 ≤ lo ≤ hi → zlen b = zlen a →
  (∀ i, 0 ≤ i → ¬ (lo ≤ i < hi) → rd b i = rd a i) →
  slice b lo hi ≡ₚ slice a lo hi ↔ rearranges a b lo hi.
Proof.
  intros Hr Hlen F. destruct (frame_take_drop a b lo hi) as [E1 E2]; [done..|].
  assert (b ≡ₚ a ↔ slice b lo hi ≡ₚ slice a lo hi) as Hiff.
  { rewrite (slice_split a lo hi), (slice_split b lo hi), E1, E2 at 1 by lia.
    split; [|by intros ->].
    by intros P%Permutation_app_inv_l%Permutation_app_inv_r. }
  split; [intros; split; tauto|]. intros [P _]. tauto.
Qed.

(** Every element of the segment of [b] comes from the segment of [a]. *)
Lemma rearranges_from a b lo hi i :
  rearranges a b lo hi → 0 ≤ lo → hi ≤ zlen a → lo ≤ i < hi →
  ∃ k, lo ≤ k < hi ∧ rd b i = rd a k.
Proof.
  intros Hre Hlo Hhi Hi. pose proof (rearranges_zlen _ _ _ _ Hre) as Hlen.
  apply slice_elem; [lia|done|]. pose proof (proj2 Hre) as F.
  apply rearranges_slice in Hre; [|lia|done..].
  rewrite <- Hre. apply slice_elem; [lia|lia|]. eauto.
Qed.
