(* ===== verification/InsertSort.v ===== *)
(** [src/src/csort/Insertsort.c]. The routine takes a pointer into an array
    (Quicksort.c passes [ori + left]), so the model has the array and the
    offset [base] of the pointer: [ori[i]] is element [base + i]. *)

From S2P Require Import Prelude SortSpec.

(** The inner loop [for(j = i; j > 0 && ori[j-1] > tmp; j--)]. *)
Definition Insertsort_shift (base tmp i : Z) (ori : list Z)
    : outcome (Z * list Z) :=
  loop (S (Z.to_nat i)) (λ '(j, ori),
    if decide (j > 0) then
      prev ← aget ori (base + (j - 1));
      if decide (prev > tmp) then
        x ← aget ori (base + (j - 1));
        ori ← aset ori (base + j) x;
        mret (Next (j - 1, ori))
      else mret (Stop (j, ori))
    else mret (Stop (j, ori))) (i, ori).

Definition Insertsort (ori : list Z) (base len : Z) : outcome (list Z) :=
  loop (S (Z.to_nat len)) (λ '(i, ori),
    if decide (i < len) then
      tmp ← aget ori (base + i);
      '(j, ori) ← Insertsort_shift base tmp i ori;
      ori ← aset ori (base + j) tmp;
      mret (Next (i + 1, ori))
    else mret (Stop ori)) (1, ori).

(** State of the inner loop: a hole at [j], everything right of the hole is
    larger than [tmp], and without the hole the prefix is in order. *)
Record shift_inv (a0 : list Z) (base tmp i j : Z) (a : list Z) : Prop := {
  si_range : 0 ≤ j ≤ i;
  si_perm : upd a (base + j) tmp ≡ₚ a0;
  si_left : ∀ k, 0 ≤ k → ¬ (base + j < k ≤ base + i) → rd a k = rd a0 k;
  si_shift : ∀ k, base + j < k ≤ base + i → rd a k = rd a0 (k - 1);
  si_large : ∀ k, base + j ≤ k < base + i → tmp < rd a0 k
}.

Lemma Insertsort_shift_spec a0 base i :
  0 ≤ base → 0 < i → base + i < zlen a0 → ascending a0 base (base + i) →
  wp (Insertsort_shift base (rd a0 (base + i)) i a0) (λ '(j, a),
    shift_inv a0 base (rd a0 (base + i)) i j a ∧
    (0 < j → rd a0 (base + (j - 1)) ≤ rd a0 (base + i))).
Proof.
  intros Hb Hi Hlen Hasc. set (tmp := rd a0 (base + i)).
  apply (wp_loop (λ '(j, a), shift_inv a0 base tmp i j a) (λ '(j, _), Z.to_nat j)).
  - split; [lia| |done|lia|lia]. unfold tmp. rewrite upd_rd; [done|lia].
  - lia.
  - intros [j a] [Hr Hp Hl Hs Hg]. case_decide; [|by wp_steps; split; [|lia]].
    assert (Hz : zlen a = zlen a0).
    { apply perm_zlen in Hp. by rewrite zlen_upd in Hp. }
    wp_steps. case_decide as Hc; wp_steps; simpl; [|split; [by split|]].
    + rewrite Hl in Hc |- * by lia. split; [|lia].
      split; [lia| | | |].
      * etrans; [|exact Hp]. rewrite <- (Hl (base + (j - 1))) by lia.
        apply hole_move; lia.
      * intros k ??. destruct (decide (k = base + j)); [lia|].
        asimpl. apply Hl; lia.
      * intros k ?. destruct (decide (k = base + j)) as [->|].
        -- asimpl. f_equal. lia.
        -- asimpl. apply Hs; lia.
      * intros k ?. destruct (decide (k = base + (j - 1))) as [->|]; [lia|].
        apply Hg. lia.
    + intros _. rewrite Hl in Hc by lia. lia.
Qed.

(** One turn of the outer loop inserts [ori[i]] into the sorted prefix. *)
Lemma shift_inv_insert a0 base i j a :
  0 ≤ base → 0 < i → base + i < zlen a0 → ascending a0 base (base + i) →
  shift_inv a0 base (rd a0 (base + i)) i j a →
  (0 < j → rd a0 (base + (j - 1)) ≤ rd a0 (base + i)) →
  let b := upd a (base + j) (rd a0 (base + i)) in
  rearranges a0 b base (base + i + 1) ∧ ascending b base (base + i + 1).
Proof.
  intros Hb Hi Hlen Hasc [Hr Hp Hl Hs Hg] Hle b.
  assert (Hz : zlen a = zlen a0).
  { apply perm_zlen in Hp. by rewrite zlen_upd in Hp. }
  assert (Hbv : ∀ k, base ≤ k ≤ base + i →
    rd b k = if decide (k = base + j) then rd a0 (base + i)
             else if decide (k < base + j) then rd a0 k else rd a0 (k - 1)).
  { intros k Hk. unfold b. repeat case_decide; subst; asimpl; auto.
    - apply Hl; lia.
    - apply Hs; lia. }
  split; [split; [done|]|].
  - intros k ??. unfold b. rewrite rd_upd_ne by lia. apply Hl; lia.
  - intros x y Hx Hxy Hy. rewrite !Hbv by lia. repeat case_decide; subst; try lia.
    + specialize (Hg (y - 1)). lia.
    + transitivity (rd a0 (base + (j - 1))); [apply Hasc; lia|apply Hle; lia].
    + apply Hasc; lia.
    + apply Hasc; lia.
    + apply Hasc; lia.
Qed.

(** Insertion sort on a sub-array: the rule Quicksort.c relies on. *)
Lemma Insertsort_spec a base len :
  0 ≤ base → base + len ≤ zlen a →
  wp (Insertsort a base len) (λ b,
    rearranges a b base (base + len) ∧ ascending b base (base + len)).
Proof.
  intros Hb Hlen.
  apply (wp_loop
    (λ '(i, b), 1 ≤ i ∧ (len ≤ 1 ∨ i ≤ len) ∧
       rearranges a b base (base + Z.max len 0) ∧ ascending b base (base + i))
    (λ '(i, _), Z.to_nat (len - i))).
  - split_and!; [lia|lia|apply rearranges_refl|].
    intros x y ???. replace y with x by lia. done.
  - lia.
  - intros [i b] (H1 & H2 & H3 & H4).
    pose proof (rearranges_zlen _ _ _ _ H3) as Hz. case_decide.
    + wp_steps.
      eapply wp_mono; [apply Insertsort_shift_spec; [lia..|done]|].
      intros [j c] [Hinv Hle]. simpl.
      assert (Hzc : zlen c = zlen b).
      { destruct Hinv as [_ Hp%perm_zlen _ _ _]. by rewrite zlen_upd in Hp. }
      pose proof (si_range _ _ _ _ _ _ Hinv).
      destruct (shift_inv_insert b base i j c) as [Hre Has]; [lia..|done|done|done|].
      wp_steps. split_and!; [lia|lia| |by rewrite Z.add_assoc|lia].
      eapply rearranges_trans; [done|].
      eapply rearranges_weaken; [done|lia|lia].
    + wp_steps. split.
      * destruct (decide (0 ≤ len)); [by rewrite Z.max_l in H3 by lia|].
        destruct H3 as [P F]. split; [done|]. intros. apply F; lia.
      * intros x y ???. apply H4; lia.
Qed.

(** ** Properties *)

(** Insertsort sorts: on any array and any length within it the call ends
    without undefined behaviour, the first [len] elements are the old ones in
    ascending order and the rest of the array is untouched. *)
Lemma Insertsort_sorts a len :
  len ≤ zlen a → wp (Insertsort a 0 len) (λ b, sorts_prefix a b len).
Proof. intros. by apply (Insertsort_spec a 0 len). Qed.

Lemma Insertsort_sorts_witness :
  3 ≤ zlen [3; 1; 2; 0] ∧
  wp (Insertsort [3; 1; 2; 0] 0 3) (λ b, sorts_prefix [3; 1; 2; 0] b 3).
Proof. split; [by compute|by apply (Insertsort_sorts [3; 1; 2; 0] 3)]. Defined.
