(* ===== verification/BubbleSort.v ===== *)
(** [src/src/csort/Bubblesort.c]. *)

From S2P Require Import Prelude SortSpec.

(** The inner loop [for(j = 0; j < i; j++)]: one bubbling pass. *)
Definition Bubblesort_pass (i : Z) (ori : list Z) : outcome (list Z) :=
  loop (S (Z.to_nat i)) (λ '(j, ori),
    if decide (j < i) then
      x ← aget ori j;
      y ← aget ori (j + 1);
      if decide (x > y) then
        tmp ← aget ori (j + 1);
        v ← aget ori j;
        ori ← aset ori (j + 1) v;
        ori ← aset ori j tmp;
        mret (Next (j + 1, ori))
      else mret (Next (j + 1, ori))
    else mret (Stop ori)) (0, ori).

Definition Bubblesort (ori : list Z) (len : Z) : outcome (list Z) :=
  i0 ← int_ (len - 1);
  loop (S (Z.to_nat len)) (λ '(i, ori),
    if decide (i > 0) then
      ori ← Bubblesort_pass i ori;
      mret (Next (i - 1, ori))
    else mret (Stop ori)) (i0, ori).

(** [m] bounds the segment [0..hi) from above. *)
Definition bounded_by (a : list Z) (hi m : Z) : Prop :=
  ∀ k, 0 ≤ k < hi → rd a k ≤ m.

Lemma bounded_by_rearranges a b hi m :
  rearranges a b 0 hi → hi ≤ zlen a → bounded_by a hi m → bounded_by b hi m.
Proof.
  intros Hre Hlen Hb k Hk.
  destruct (rearranges_from a b 0 hi k) as (k' & ? & ->); auto. lia.
Qed.

(** A pass carries the maximum of [0..i] to position [i]. *)
Lemma Bubblesort_pass_spec a i :
  0 ≤ i < zlen a →
  wp (Bubblesort_pass i a) (λ b,
    rearranges a b 0 (i + 1) ∧ bounded_by b (i + 1) (rd b i)).
Proof.
  intros Hi.
  apply (wp_loop
    (λ '(j, b), 0 ≤ j ≤ i ∧ rearranges a b 0 (i + 1) ∧ bounded_by b (j + 1) (rd b j))
    (λ '(j, _), Z.to_nat (i - j))).
  - split_and!; [lia|lia|apply rearranges_refl|].
    intros k ?. by replace k with 0 by lia.
  - lia.
  - intros [j b] (Hj & Hre & Hmax).
    pose proof (rearranges_zlen _ _ _ _ Hre) as Hz. case_decide.
    + wp_steps. case_decide; wp_steps; asimpl; split_and!; try lia.
      * eapply rearranges_trans; [done|]. apply swap_rearranges; lia.
      * intros k ?. rewrite rd_swap by lia.
        specialize (Hmax k). asimpl. repeat case_decide; subst; lia.
      * done.
      * intros k ?. specialize (Hmax k).
        destruct (decide (k = j + 1)) as [->|]; lia.
    + wp_steps. replace i with j by lia.
      split; [|done]. by replace (j + 1) with (i + 1) by lia.
Qed.

(** The array outside of [0..i] is in final position. *)
Lemma Bubblesort_spec a len :
  0 ≤ len ≤ zlen a → in_int len →
  wp (Bubblesort a len) (λ b, sorts_prefix a b len).
Proof.
  intros Hlen Hint. unfold in_int, INT_MIN, INT_MAX in Hint.
  unfold Bubblesort. wp_steps.
  apply (wp_loop
    (λ '(i, b), (i = -1 ∧ len = 0 ∨ 0 ≤ i < len) ∧ rearranges a b 0 len ∧
       ∀ x y, i < y → 0 ≤ x ≤ y → y < len → rd b x ≤ rd b y)
    (λ '(i, _), Z.to_nat i)).
  - split_and!; [lia|apply rearranges_refl|intros; lia].
  - lia.
  - intros [i b] (Hi & Hre & Hfin).
    pose proof (rearranges_zlen _ _ _ _ Hre) as Hz. case_decide.
    + wp_steps. eapply wp_mono; [apply Bubblesort_pass_spec; lia|].
      intros c [Hre' Hmax]. wp_steps. split_and!; [lia| | |lia].
      * eapply rearranges_trans; [done|].
        eapply rearranges_weaken; [done|lia|lia].
      * intros x y ???. destruct (decide (y = i)) as [->|].
        -- apply Hmax. lia.
        -- rewrite (proj2 Hre' y) by lia. destruct (decide (x ≤ i)).
           ++ destruct (rearranges_from b c 0 (i + 1) x) as (x' & ? & ->);
                [done|lia..|]. apply Hfin; lia.
           ++ rewrite (proj2 Hre' x) by lia. apply Hfin; lia.
    + wp_steps. split; [done|]. intros x y ???.
      destruct (decide (x = y)) as [->|]; [done|]. apply Hfin; lia.
Qed.

(** ** Properties *)

(** Bubblesort sorts: for any length that is an [int] within the array the
    call ends without undefined behaviour, the first [len] elements are the old
    ones in ascending order and the rest of the array is untouched. *)
Lemma Bubblesort_sorts a len :
  0 ≤ len ≤ zlen a → in_int len →
  wp (Bubblesort a len) (λ b, sorts_prefix a b len).
Proof. apply Bubblesort_spec. Qed.

Lemma Bubblesort_sorts_witness :
  0 ≤ 3 ≤ zlen [3; 1; 2; 0] ∧ in_int 3 ∧
  wp (Bubblesort [3; 1; 2; 0] 3) (λ b, sorts_prefix [3; 1; 2; 0] b 3).
Proof.
  split_and!; [by compute..|].
  by apply (Bubblesort_sorts [3; 1; 2; 0] 3); compute.
Defined.
