(* ===== verification/ShellSort.v ===== *)
(** [src/src/csort/Shellsort.c]: diminishing-increment insertion sort. *)

From S2P Require Import Prelude SortSpec.

(** [for(j = i; j >= increment; j-= increment)]. *)
Definition Shellsort_shift (increment tmp i : Z) (ori : list Z)
    : outcome (Z * list Z) :=
  loop (S (Z.to_nat i)) (λ '(j, ori),
    if decide (j >= increment) then
      x ← aget ori (j - increment);
      if decide (tmp > x) then
        x ← aget ori (j - increment);
        ori ← aset ori j x;
        mret (Next (j - increment, ori))
      else mret (Stop (j, ori))
    else mret (Stop (j, ori))) (i, ori).

(** [for(i = increment; i<len; i++)]: one pass. *)
Definition Shellsort_pass (increment : Z) (ori : list Z) (len : Z)
    : outcome (list Z) :=
  loop (S (Z.to_nat len)) (λ '(i, ori),
    if decide (i < len) then
      tmp ← aget ori i;
      '(j, ori) ← Shellsort_shift increment tmp i ori;
      ori ← aset ori j tmp;
      mret (Next (i + 1, ori))
    else mret (Stop ori)) (increment, ori).

Definition Shellsort (ori : list Z) (len : Z) : outcome (list Z) :=
  loop (S (Z.to_nat len)) (λ '(increment, ori),
    if decide (increment > 0) then
      ori ← Shellsort_pass increment ori len;
      mret (Next (increment `quot` 2, ori))
    else mret (Stop ori)) (len `quot` 2, ori).

(** Elements [g] apart in [0..hi) are in descending order. *)
Definition g_descending (a : list Z) (g hi : Z) : Prop :=
  ∀ k, g ≤ k < hi → rd a k ≤ rd a (k - g).

Record gshift_inv (a0 : list Z) (g tmp i j : Z) (a : list Z) : Prop := {
  gs_range : 0 ≤ j ≤ i;
  gs_class : (g | i - j);
  gs_perm : upd a j tmp ≡ₚ a0;
  gs_frame : ∀ k, 0 ≤ k → k < j ∨ i < k ∨ ¬ (g | i - k) → rd a k = rd a0 k;
  gs_shift : ∀ k, j < k ≤ i → (g | i - k) → rd a k = rd a0 (k - g);
  gs_small : ∀ k, j ≤ k < i → (g | i - k) → rd a0 k < tmp
}.

Lemma Shellsort_shift_spec a0 g i :
  0 < g ≤ i → i < zlen a0 →
  wp (Shellsort_shift g (rd a0 i) i a0) (λ '(j, a),
    gshift_inv a0 g (rd a0 i) i j a ∧ (g ≤ j → rd a0 i ≤ rd a0 (j - g))).
Proof.
  intros Hg Hi. set (tmp := rd a0 i).
  apply (wp_loop (λ '(j, a), gshift_inv a0 g tmp i j a) (λ '(j, _), Z.to_nat j)).
  - split; [lia| | |done|lia|lia].
    + replace (i - i) with 0 by lia. apply Z.divide_0_r.
    + unfold tmp. rewrite upd_rd; [done|lia].
  - lia.
  - intros [j a] [Hr Hc Hp Hf Hs Hm]. case_decide; [|wp_steps; split; [done|lia]].
    assert (Hz : zlen a = zlen a0).
    { apply perm_zlen in Hp. by rewrite zlen_upd in Hp. }
    assert (Hd : (g | i - (j - g))).
    { replace (i - (j - g)) with ((i - j) + g) by lia.
      apply Z.divide_add_r; [done|apply Z.divide_refl]. }
    assert (Hfj : rd a (j - g) = rd a0 (j - g)) by (apply Hf; lia).
    wp_steps. case_decide; wp_steps; simpl; [|split; [by split|lia]].
    split; [|lia]. split; [lia|done| | | |].
    + etrans; [|exact Hp]. apply hole_move; lia.
    + intros k ? Hk. destruct (decide (k = j)) as [->|].
      * destruct Hk as [?|[?|?]]; [lia..|done].
      * asimpl. apply Hf; [lia|]. destruct Hk as [?|[?|?]]; [left; lia|auto..].
    + intros k ? Hk. destruct (decide (k = j)) as [->|].
      * asimpl. done.
      * asimpl. apply Hs; [|done].
        destruct (decide (j < k)); [lia|]. exfalso.
        assert (Hdiv : (g | j - k)).
        { replace (j - k) with ((i - k) - (i - j)) by lia.
          by apply Z.divide_sub_r. }
        apply Z.divide_pos_le in Hdiv; lia.
    + intros k ? Hk. destruct (decide (k < j)) as [Hlt|]; [|apply Hm; [lia|done]].
      assert (Hdiv : (g | j - k)).
      { replace (j - k) with ((i - k) - (i - j)) by lia.
        by apply Z.divide_sub_r. }
      apply Z.divide_pos_le in Hdiv; [|lia].
      replace k with (j - g) by lia. lia.
Qed.

Lemma gshift_inv_insert a0 g i j a :
  0 < g ≤ i → i < zlen a0 → g_descending a0 g i →
  gshift_inv a0 g (rd a0 i) i j a → (g ≤ j → rd a0 i ≤ rd a0 (j - g)) →
  let b := upd a j (rd a0 i) in
  rearranges a0 b 0 (i + 1) ∧ g_descending b g (i + 1).
Proof.
  intros Hg Hi Hdesc [Hr Hc Hp Hf Hs Hm] Hle b.
  assert (Hz : zlen a = zlen a0).
  { apply perm_zlen in Hp. by rewrite zlen_upd in Hp. }
  assert (Hback : ∀ k, (g | i - k) → (g | i - (k - g))).
  { intros k ?. replace (i - (k - g)) with ((i - k) + g) by lia.
    apply Z.divide_add_r; [done|apply Z.divide_refl]. }
  assert (Hforth : ∀ k, (g | i - (k - g)) → (g | i - k)).
  { intros k ?. replace (i - k) with (i - (k - g) - g) by lia.
    apply Z.divide_sub_r; [done|apply Z.divide_refl]. }
  split; [split; [done|]|].
  - intros k ??. unfold b. rewrite rd_upd_ne by lia. apply Hf; lia.
  - intros k Hk. unfold b.
    destruct (decide (k = j)) as [->|Hkj];
      [asimpl; rewrite (Hf (j - g)) by lia; apply Hle; lia|].
    destruct (decide (k - g = j)) as [Hkg|Hkg].
    + subst j. asimpl. rewrite (Hs k) by (auto; lia).
      specialize (Hm (k - g)). lia || (apply Z.lt_le_incl, Hm; [lia|done]).
    + asimpl. destruct (Z.BoolSpec_divide g (i - k)) as [Hd|Hd].
      * destruct (decide (j < k)) as [?|?].
        -- assert (j < k - g).
           { assert (Hdiv : (g | k - j)).
             { replace (k - j) with ((i - j) - (i - k)) by lia.
               by apply Z.divide_sub_r. }
             apply Z.divide_pos_le in Hdiv; lia. }
           rewrite (Hs k), (Hs (k - g)) by (auto; lia).
           destruct (decide (g ≤ k - g)); [apply Hdesc; lia|].
           exfalso.
           assert (Hdiv : (g | k - g - j)).
           { replace (k - g - j) with ((i - j) - (i - (k - g))) by lia.
             apply Z.divide_sub_r; auto. }
           apply Z.divide_pos_le in Hdiv; lia.
        -- rewrite (Hf k), (Hf (k - g)) by (lia || (left; lia)). apply Hdesc; lia.
      * rewrite (Hf k), (Hf (k - g)) by (lia || (right; right; auto)).
        destruct (decide (k = i)) as [->|]; [|apply Hdesc; lia].
        exfalso. apply Hd. replace (i - i) with 0 by lia. apply Z.divide_0_r.
Qed.

Lemma Shellsort_pass_spec a g len :
  0 < g ≤ len → len ≤ zlen a →
  wp (Shellsort_pass g a len) (λ b, rearranges a b 0 len ∧ g_descending b g len).
Proof.
  intros Hg Hlen.
  apply (wp_loop
    (λ '(i, b), g ≤ i ≤ len ∧ rearranges a b 0 len ∧ g_descending b g i)
    (λ '(i, _), Z.to_nat (len - i))).
  - split_and!; [lia|lia|apply rearranges_refl|intros k ?; lia].
  - lia.
  - intros [i b] (Hi & Hre & Hd).
    pose proof (rearranges_zlen _ _ _ _ Hre) as Hz. case_decide.
    + wp_steps. eapply wp_mono; [apply Shellsort_shift_spec; lia|].
      intros [j c] [Hinv Hle].
      assert (zlen c = zlen b).
      { destruct Hinv as [_ _ Hp%perm_zlen _ _ _]. by rewrite zlen_upd in Hp. }
      pose proof (gs_range _ _ _ _ _ _ Hinv).
      destruct (gshift_inv_insert b g i j c) as [Hre' Hd']; [lia..|done|done|done|].
      wp_steps. split_and!; [lia|lia| |done|lia].
      eapply rearranges_trans; [done|]. eapply rearranges_weaken; [done|lia|lia].
    + wp_steps. split; [done|]. by replace len with i by lia.
Qed.

Lemma g_descending_1 a len : g_descending a 1 len → descending a 0 len.
Proof.
  intros Hd i j Hi Hij Hj.
  assert (∀ n, 0 ≤ n → i + n < len → rd a (i + n) ≤ rd a i) as H.
  { intros n Hn. pattern n. apply natlike_ind; [|intros x Hx IH ?|done].
    - intros. by rewrite Z.add_0_r.
    - etrans; [|apply IH; lia].
      replace (i + x) with (i + Z.succ x - 1) by lia. apply Hd. lia. }
  replace j with (i + (j - i)) by lia. apply H; lia.
Qed.

Lemma Shellsort_spec a len :
  0 ≤ len ≤ zlen a →
  wp (Shellsort a len) (λ b, rearranges a b 0 len ∧ descending b 0 len).
Proof.
  intros Hlen.
  apply (wp_loop
    (λ '(g, b), 0 ≤ g ≤ len ∧ rearranges a b 0 len ∧
       (g = 0 → len ≤ 1 ∨ g_descending b 1 len))
    (λ '(g, _), Z.to_nat g)).
  - split_and!; [|by rewrite Z.quot_div_nonneg by lia; apply Z.div_le_upper_bound; lia|
      apply rearranges_refl|].
    + apply Z.quot_pos; lia.
    + rewrite Z.quot_div_nonneg by lia. intros E. left.
      apply Z.div_small_iff in E; lia.
  - assert (len `quot` 2 ≤ len).
    { rewrite Z.quot_div_nonneg by lia. apply Z.div_le_upper_bound; lia. }
    lia.
  - intros [g b] (Hg & Hre & Hd).
    pose proof (rearranges_zlen _ _ _ _ Hre) as Hz. case_decide.
    + wp_steps. eapply wp_mono; [apply Shellsort_pass_spec; lia|].
      intros c [Hre' Hd']. wp_steps.
      rewrite Z.quot_div_nonneg by lia.
      assert (g / 2 < g) by (apply Z.div_lt_upper_bound; lia).
      assert (0 ≤ g / 2) by (apply Z.div_pos; lia).
      split_and!; [lia|lia|by eapply rearranges_trans| |lia].
      intros E. apply Z.div_small_iff in E; [|lia]. right.
      by replace g with 1 in Hd' by lia.
    + wp_steps. split; [done|]. destruct Hd as [?|?]; [lia| |by apply g_descending_1].
      intros i j ???. by replace j with i by lia.
Qed.

(** ** Properties *)

(** Shellsort sorts in DESCENDING order, whatever its comment says: the
    first [len] elements end up rearranged with each one at least its
    successor, and the rest of the array is untouched. *)
Lemma Shellsort_sorts_descending a len :
  0 ≤ len ≤ zlen a →
  wp (Shellsort a len) (λ b, rearranges a b 0 len ∧ descending b 0 len).
Proof. apply Shellsort_spec. Qed.

Lemma Shellsort_sorts_descending_witness :
  0 ≤ 3 ≤ zlen [1; 3; 2; 9] ∧
  wp (Shellsort [1; 3; 2; 9] 3) (λ b,
    rearranges [1; 3; 2; 9] b 0 3 ∧ descending b 0 3).
Proof.
  split; [by compute|].
  by apply (Shellsort_sorts_descending [1; 3; 2; 9] 3); compute.
Defined.
