(* ===== verification/HeapSort.v ===== *)
(** [src/src/csort/Heapsort.c]. [perceDownMax] and [perceDownMin] are one text
    with the comparison reversed, so both are instances of [perceDown]. *)

From S2P Require Import Prelude SortSpec.

(** [#define LeftChild(i) (2*(i)+1)], in [int] arithmetic. *)
Definition LeftChild (i : Z) : outcome Z :=
  d ← int_ (2 * i);
  int_ (d + 1).

(** The larger of the two children under the order [below]. *)
Definition pick_child (below : Z → Z → bool) (ori : list Z) (child len : Z)
    : outcome Z :=
  if decide (child < len - 1) then
    x ← aget ori child;
    y ← aget ori (child + 1);
    if below x y then mret (child + 1) else mret child
  else mret child.

Definition perceDown (below : Z → Z → bool) (ori : list Z) (pos len : Z)
    : outcome (list Z) :=
  tmp ← aget ori pos;
  '(i, ori) ← loop (S (Z.to_nat len)) (λ '(i, ori),
    lc ← LeftChild i;
    if decide (lc < len) then
      child ← LeftChild i;
      child ← pick_child below ori child len;
      x ← aget ori child;
      if below tmp x then
        x ← aget ori child;
        ori ← aset ori i x;
        mret (Next (child, ori))
      else mret (Stop (i, ori))
    else mret (Stop (i, ori))) (pos, ori);
  aset ori i tmp.

Definition perceDownMax := perceDown Z.ltb.
Definition perceDownMin := perceDown Z.gtb.

(** [for(i = len/2; i >= 0; i--)]: build the heap. *)
Definition Heapsort_build (ori : list Z) (len : Z) : outcome (list Z) :=
  loop (S (S (Z.to_nat len))) (λ '(i, ori),
    if decide (i >= 0) then
      ori ← perceDownMax ori i len;
      mret (Next (i - 1, ori))
    else mret (Stop ori)) (len `quot` 2, ori).

(** [for(i = len - 1; i>0; i--)]: delete the maximum repeatedly. *)
Definition Heapsort_delete (ori : list Z) (len : Z) : outcome (list Z) :=
  i0 ← int_ (len - 1);
  loop (S (Z.to_nat len)) (λ '(i, ori),
    if decide (i > 0) then
      tmp ← aget ori 0;
      x ← aget ori i;
      ori ← aset ori 0 x;
      ori ← aset ori i tmp;
      ori ← perceDownMax ori 0 i;
      mret (Next (i - 1, ori))
    else mret (Stop ori)) (i0, ori).

Definition Heapsort (ori : list Z) (len : Z) : outcome (list Z) :=
  ori ← Heapsort_build ori len;
  Heapsort_delete ori len.

(** Children of a node in the array layout. *)
Definition child_of (p c : Z) : Prop := c = 2 * p + 1 ∨ c = 2 * p + 2.

(** Largest array whose [LeftChild] indices stay in [int]. *)
Definition heap_len_ok (len : Z) : Prop := len ≤ 2 ^ 30.

Section perce.
(** The order is given by a key: the identity for [perceDownMax], the
    opposite for [perceDownMin]. *)
Context (below : Z → Z → bool) (key : Z → Z).
Context (Hbelow : ∀ x y, below x y = true ↔ key x < key y).

(** Every node from [lo] on dominates its children below [len]. *)
Definition heap_from (a : list Z) (lo len : Z) : Prop :=
  ∀ p c, lo ≤ p → child_of p c → c < len → key (rd a c) ≤ key (rd a p).

Lemma below_false x y : below x y = false → key y ≤ key x.
Proof.
  intros E. destruct (decide (key x < key y)) as [Hlt|]; [|lia].
  apply Hbelow in Hlt. congruence.
Qed.

Lemma pick_child_spec a i len :
  0 ≤ i → 2 * i + 1 < len → len ≤ zlen a →
  wp (pick_child below a (2 * i + 1) len) (λ c,
    child_of i c ∧ c < len ∧
    ∀ c', child_of i c' → c' < len → key (rd a c') ≤ key (rd a c)).
Proof.
  intros Hi Hc Hlen. unfold pick_child, child_of. case_decide.
  - wp_steps. destruct (below _ _) eqn:E; wp_steps.
    + apply Hbelow in E. split_and!; [lia|lia|]. intros c' [->| ->] ?; [lia|].
      by replace (2 * i + 1 + 1) with (2 * i + 2) by lia.
    + apply below_false in E. split_and!; [lia|lia|]. intros c' [->| ->] ?; [lia|].
      by replace (2 * i + 2) with (2 * i + 1 + 1) by lia.
  - wp_steps. split_and!; [lia|lia|]. intros c' [->| ->] ?; lia.
Qed.

(** State of the percolation: a hole at [i] that must receive [tmp]. *)
Record perce_inv (a0 : list Z) (tmp pos len i : Z) (a : list Z) : Prop := {
  pi_range : pos ≤ i < len;
  pi_perm : upd a i tmp ≡ₚ a0;
  pi_frame : ∀ k, 0 ≤ k → ¬ (pos ≤ k < len) → rd a k = rd a0 k;
  pi_heap : ∀ p c, pos ≤ p → p ≠ i → child_of p c → c < len → c ≠ i →
    key (rd a c) ≤ key (rd a p);
  pi_grand : ∀ p c, pos ≤ p → child_of p i → child_of i c → c < len →
    key (rd a c) ≤ key (rd a p);
  pi_tmp : ∀ p, pos ≤ p → child_of p i → key tmp ≤ key (rd a p)
}.

Lemma perce_inv_step a0 tmp pos len i a c :
  0 ≤ pos → len ≤ zlen a → perce_inv a0 tmp pos len i a →
  child_of i c → c < len →
  (∀ c', child_of i c' → c' < len → key (rd a c') ≤ key (rd a c)) →
  key tmp < key (rd a c) →
  perce_inv a0 tmp pos len c (upd a i (rd a c)).
Proof.
  intros Hpos Hlen [Hr Hp Hf Hh Hg Ht] Hc Hclen Hmax Htmp.
  assert (i < c) by (unfold child_of in Hc; lia).
  split; [lia| | | | |].
  - etrans; [apply hole_move; lia|done].
  - intros k ??. rewrite rd_upd_ne by lia. apply Hf; lia.
  - intros p d ?? Hd ??. unfold child_of in *.
    destruct (decide (p = i)) as [->|].
    + rewrite rd_upd_eq, rd_upd_ne by lia. apply Hmax; lia.
    + rewrite (rd_upd_ne _ _ p) by lia. destruct (decide (d = i)) as [->|].
      * rewrite rd_upd_eq by lia. apply Hg; lia.
      * rewrite rd_upd_ne by lia. apply Hh; lia.
  - intros p d ????. unfold child_of in *. assert (p = i) as -> by lia.
    rewrite rd_upd_eq, rd_upd_ne by lia. apply Hh; lia.
  - intros p ??. unfold child_of in *. assert (p = i) as -> by lia.
    rewrite rd_upd_eq by lia. lia.
Qed.

Lemma perce_inv_done a0 tmp pos len i a :
  0 ≤ pos → len ≤ zlen a → perce_inv a0 tmp pos len i a →
  (∀ c, child_of i c → c < len → key (rd a c) ≤ key tmp) →
  rearranges a0 (upd a i tmp) pos len ∧ heap_from (upd a i tmp) pos len.
Proof.
  intros Hpos Hlen [Hr Hp Hf Hh Hg Ht] Hend. split; [split; [done|]|].
  - intros k ??. rewrite rd_upd_ne by lia. apply Hf; lia.
  - intros p c ? Hc ?. pose proof Hc as Hc'. unfold child_of in Hc'.
    destruct (decide (p = i)) as [->|].
    + rewrite rd_upd_eq, rd_upd_ne by lia. by apply Hend.
    + rewrite (rd_upd_ne _ _ p) by lia. destruct (decide (c = i)) as [->|].
      * rewrite rd_upd_eq by lia. by apply Ht.
      * rewrite rd_upd_ne by lia. by apply Hh.
Qed.

Lemma LeftChild_spec i (Q : Z → Prop) :
  0 ≤ i < 2 ^ 30 → Q (2 * i + 1) → wp (LeftChild i) Q.
Proof. intros ??. unfold LeftChild. by wp_steps. Qed.

Lemma perceDown_spec a pos len :
  0 ≤ pos < len → len ≤ zlen a → heap_len_ok len → heap_from a (pos + 1) len →
  wp (perceDown below a pos len) (λ b,
    rearranges a b pos len ∧ heap_from b pos len).
Proof.
  intros Hpos Hlen Hok Hheap. unfold heap_len_ok in Hok.
  unfold perceDown. wp_steps. set (tmp := rd a pos).
  apply (wp_mono _ (λ '(i, b), perce_inv a tmp pos len i b ∧
    ∀ c, child_of i c → c < len → key (rd b c) ≤ key tmp)).
  2:{ intros [i b] [Hinv Hend]. pose proof (pi_range _ _ _ _ _ _ Hinv).
      assert (Hz : zlen b = zlen a).
      { pose proof (pi_perm _ _ _ _ _ _ Hinv) as Hz%perm_zlen.
        by rewrite zlen_upd in Hz. }
      wp_steps. apply perce_inv_done; auto; lia. }
  apply (wp_loop (λ '(i, b), perce_inv a tmp pos len i b)
    (λ '(i, _), Z.to_nat (len - i))).
  - split; [lia|unfold tmp; by rewrite upd_rd by lia|done| | |].
    + intros p c ?????. apply Hheap; [lia|done|done].
    + unfold child_of. lia.
    + unfold child_of. lia.
  - lia.
  - intros [i b] Hinv. pose proof (pi_range _ _ _ _ _ _ Hinv).
    assert (Hz : zlen b = zlen a).
    { pose proof (pi_perm _ _ _ _ _ _ Hinv) as Hz%perm_zlen.
      by rewrite zlen_upd in Hz. }
    wp_steps. apply LeftChild_spec; [lia|]. case_decide.
    + wp_steps. apply LeftChild_spec; [lia|]. wp_steps.
      eapply wp_mono; [apply pick_child_spec; lia|].
      intros c (Hc & Hcl & Hmax). pose proof Hc as Hc'. unfold child_of in Hc'.
      wp_steps. destruct (below _ _) eqn:E; wp_steps.
      * apply Hbelow in E. split; [apply perce_inv_step; auto; lia|lia].
      * apply below_false in E. split; [done|]. intros c' Hc1 Hc2.
        specialize (Hmax c' Hc1 Hc2). lia.
    + wp_steps. split; [done|]. unfold child_of. lia.
Qed.

(** The root dominates every node of a heap. *)
Lemma heap_root a len k :
  heap_from a 0 len → 0 ≤ k < len → key (rd a k) ≤ key (rd a 0).
Proof.
  intros Hh [Hk Hlen]. revert Hlen. pattern k.
  apply Z_lt_induction; [|done]. clear k Hk. intros k IH Hlen.
  destruct (decide (k ≤ 0)).
  - destruct (decide (k = 0)) as [->|]; [done|].
    unfold rd. by replace (Z.to_nat k) with (Z.to_nat 0) by lia.
  - set (p := (k - 1) / 2).
    assert (2 * p ≤ k - 1 < 2 * p + 2) as Hp.
    { unfold p. pose proof (Z.div_mod (k - 1) 2).
      pose proof (Z.mod_pos_bound (k - 1) 2). lia. }
    etrans; [apply (Hh p k); unfold child_of; lia|]. apply IH; lia.
Qed.
End perce.

Lemma below_max x y : (x <? y) = true ↔ id x < id y.
Proof. apply Z.ltb_lt. Qed.
Lemma below_min x y : (x >? y) = true ↔ - x < - y.
Proof. rewrite Z.gtb_lt. lia. Qed.

Lemma Heapsort_build_spec a len :
  0 < len ≤ zlen a → heap_len_ok len →
  wp (Heapsort_build a len) (λ b,
    rearranges a b 0 len ∧ heap_from id b 0 len).
Proof.
  intros Hlen Hok. unfold Heapsort_build.
  rewrite Z.quot_div_nonneg by lia.
  assert (0 ≤ len / 2 < len ∧ len < 2 * (len / 2) + 2) as Hhalf.
  { pose proof (Z.div_mod len 2). pose proof (Z.mod_pos_bound len 2). lia. }
  apply (wp_loop
    (λ '(i, b), -1 ≤ i < len ∧ rearranges a b 0 len ∧ heap_from id b (i + 1) len)
    (λ '(i, _), Z.to_nat (i + 1))).
  - split_and!; [lia|lia|apply rearranges_refl|].
    intros p c ? Hc ?. unfold child_of in Hc. lia.
  - lia.
  - intros [i b] (Hi & Hre & Hh). pose proof (rearranges_zlen _ _ _ _ Hre).
    case_decide; wp_steps.
    + eapply wp_mono; [eapply perceDown_spec; [apply below_max|lia..|done|done]|].
      intros c [Hre' Hh']. wp_steps. split_and!; [lia|lia| | |lia].
      * eapply rearranges_trans; [done|]. eapply rearranges_weaken; [done|lia..].
      * by replace (i - 1 + 1) with i by lia.
    + split; [done|]. by replace (i + 1) with 0 in Hh by lia.
Qed.

Lemma Heapsort_delete_spec a len :
  0 < len ≤ zlen a → heap_len_ok len → heap_from id a 0 len →
  wp (Heapsort_delete a len) (λ b, sorts_prefix a b len).
Proof.
  intros Hlen Hok Hheap. pose proof Hok as Hok'. unfold heap_len_ok in Hok'.
  unfold Heapsort_delete. wp_steps.
  apply (wp_loop
    (λ '(i, b), 0 ≤ i < len ∧ rearranges a b 0 len ∧ heap_from id b 0 (i + 1) ∧
       ∀ x y, i < y → 0 ≤ x ≤ y → y < len → rd b x ≤ rd b y)
    (λ '(i, _), Z.to_nat i)).
  - split_and!; [lia|lia|apply rearranges_refl| |intros; lia].
    by replace (len - 1 + 1) with len by lia.
  - lia.
  - intros [i b] (Hi & Hre & Hh & Hfin).
    pose proof (rearranges_zlen _ _ _ _ Hre) as Hz. case_decide.
    2:{ wp_steps. split; [done|]. intros x y ???.
        destruct (decide (x = y)) as [->|]; [done|]. apply Hfin; lia. }
    wp_steps. set (c := upd (upd b 0 (rd b i)) i (rd b 0)).
    assert (Hc : rearranges b c 0 (i + 1)) by (apply swap_rearranges; lia).
    eapply wp_mono; [eapply (perceDown_spec _ id); [apply below_max|lia| |
      unfold heap_len_ok; lia|]|].
    + rewrite (rearranges_zlen _ _ _ _ Hc). lia.
    + intros p d ? Hd ?. pose proof Hd as Hd'. unfold child_of in Hd'.
      unfold c. asimpl. apply Hh; [lia|done|lia].
    + intros d [Hre' Hh']. wp_steps.
      assert (Hbd : rearranges b d 0 (i + 1)).
      { eapply rearranges_trans; [done|]. eapply rearranges_weaken; [done|lia..]. }
      assert (Hdi : rd d i = rd b 0).
      { rewrite (proj2 Hre' i) by lia. unfold c. by asimpl. }
      split_and!; [lia|lia| | | |lia].
      * eapply rearranges_trans; [done|]. eapply rearranges_weaken; [done|lia..].
      * by replace (i - 1 + 1) with i by lia.
      * intros x y ???. destruct (decide (y = i)) as [->|].
        -- rewrite Hdi.
           destruct (rearranges_from b d 0 (i + 1) x) as (x' & ? & ->); [done|lia..|].
           apply (heap_root id b (i + 1) x'); [done|lia].
        -- rewrite (proj2 Hbd y) by lia. destruct (decide (x ≤ i)).
           ++ destruct (rearranges_from b d 0 (i + 1) x) as (x' & ? & ->);
                [done|lia..|]. apply Hfin; lia.
           ++ rewrite (proj2 Hbd x) by lia. apply Hfin; lia.
Qed.

(** ** Properties *)

(** C12: Heapsort sorts: for any nonempty prefix whose child indices stay in
    [int] (2^30 elements at most) the call ends without undefined behaviour,
    the first [len] elements are the old ones in ascending order and the rest
    of the array is untouched. *)
Theorem Heapsort_sorts a len :
  0 < len ≤ zlen a → heap_len_ok len →
  wp (Heapsort a len) (λ b, sorts_prefix a b len).
Proof.
  intros Hlen Hok. unfold Heapsort. apply wp_bind.
  eapply wp_mono; [by apply Heapsort_build_spec|]. intros b [Hr Hh].
  eapply wp_mono.
  - apply Heapsort_delete_spec; [|done|done].
    by rewrite (rearranges_zlen _ _ _ _ Hr).
  - intros c [Hr' Ha]. split; [by eapply rearranges_trans|done].
Qed.

Lemma Heapsort_sorts_witness :
  0 < 4 ≤ zlen [1; 3; 2; 5; 0] ∧ heap_len_ok 4 ∧
  wp (Heapsort [1; 3; 2; 5; 0] 4) (λ b, sorts_prefix [1; 3; 2; 5; 0] b 4).
Proof.
  split_and!; [by compute..|].
  by apply (Heapsort_sorts [1; 3; 2; 5; 0] 4); compute.
Defined.
