(* ===== verification/BucketSort.v ===== *)
(** [src/src/csort/Bucketsort.c]. The bucket array has [max] elements, so the
    largest element has no bucket. *)

From S2P Require Import Prelude SortSpec.

Definition GetMax (A : list Z) (N : Z) : outcome Z :=
  max ← aget A 0;
  loop (S (Z.to_nat N)) (λ '(i, max),
    if decide (i < N) then
      x ← aget A i;
      if decide (max < x) then
        x ← aget A i;
        mret (Next (i + 1, x))
      else mret (Next (i + 1, max))
    else mret (Stop max)) (1, max).

(** [malloc(max * sizeof(ElementType))] followed by [memset(buckets, -1, ...)]:
    the call fails when [malloc_ok] is false, and a negative [max] is a request
    for more than the address space, which always fails. *)
Definition Bucketsort_alloc (malloc_ok : bool) (max : Z) : outcome (list Z) :=
  if decide (0 ≤ max) then
    if malloc_ok then mret (replicate (Z.to_nat max) (-1))
    else if decide (max = 0) then mret [] else Undef NullDeref
  else Undef NullDeref.

(** [for(i = 0; i < N; i++) buckets[A[i]] = A[i];] *)
Definition Bucketsort_fill (A : list Z) (N : Z) (buckets : list Z)
    : outcome (list Z) :=
  loop (S (Z.to_nat N)) (λ '(i, buckets),
    if decide (i < N) then
      x ← aget A i;
      buckets ← aset buckets x x;
      mret (Next (i + 1, buckets))
    else mret (Stop buckets)) (0, buckets).

(** [for(i = 0; i < max; i++) if(buckets[i] != -1) A[j++] = buckets[i];] *)
Definition Bucketsort_collect (buckets : list Z) (max : Z) (A : list Z)
    : outcome (list Z) :=
  loop (S (Z.to_nat max)) (λ '(i, j, A),
    if decide (i < max) then
      x ← aget buckets i;
      if decide (x ≠ -1) then
        x ← aget buckets i;
        A ← aset A j x;
        mret (Next (i + 1, j + 1, A))
      else mret (Next (i + 1, j, A))
    else mret (Stop A)) (0, 0, A).

Definition Bucketsort (malloc_ok : bool) (A : list Z) (N : Z)
    : outcome (list Z) :=
  max ← GetMax A N;
  buckets ← Bucketsort_alloc malloc_ok max;
  buckets ← Bucketsort_fill A N buckets;
  Bucketsort_collect buckets max A.

(** [m] is the largest of the first [n] elements. *)
Definition is_max (A : list Z) (n m : Z) : Prop :=
  (∀ k, 0 ≤ k < n → rd A k ≤ m) ∧ ∃ k, 0 ≤ k < n ∧ rd A k = m.

Lemma GetMax_spec A N :
  0 < N ≤ zlen A → wp (GetMax A N) (is_max A N).
Proof.
  intros HN. unfold GetMax. wp_steps.
  apply (wp_loop (λ '(i, m), 1 ≤ i ≤ N ∧ is_max A i m)
    (λ '(i, _), Z.to_nat (N - i))).
  - split; [lia|]. split; [|exists 0; split; [lia|done]].
    intros k ?. by replace k with 0 by lia.
  - lia.
  - intros [i m] (Hi & Hub & k & Hk & Hm). case_decide.
    + wp_steps. case_decide; wp_steps; (split; [split; [lia|]|lia]).
      * split; [|exists i; split; [lia|done]]. intros k' ?.
        destruct (decide (k' = i)) as [->|]; [done|].
        etrans; [apply Hub; lia|lia].
      * split; [|exists k; split; [lia|done]]. intros k' ?.
        destruct (decide (k' = i)) as [->|]; [lia|apply Hub; lia].
    + wp_steps. replace N with i by lia. split; eauto.
Qed.

(** Filling the buckets never survives the largest element. *)
Lemma Bucketsort_fill_overruns A N m buckets :
  N ≤ zlen A → is_max A N m → zlen buckets ≤ m →
  Bucketsort_fill A N buckets = Undef OutOfBounds.
Proof.
  intros HN [Hub (k & Hk & Hm)] Hb.
  apply (loop_undef
    (λ '(i, b), 0 ≤ i ≤ k ∧ zlen b = zlen buckets) (λ '(i, _), Z.to_nat (k - i))).
  - lia.
  - lia.
  - intros [i b] [Hi Hz]. rewrite decide_True by lia.
    unfold aget. rewrite decide_True by lia. simpl. unfold aset.
    case_decide as Hin; simpl; [|by left].
    assert (i ≠ k) by (intros ->; lia).
    right. eexists (_, _). split; [done|]. rewrite zlen_upd. lia.
Qed.

(** ** Properties *)

(** Bucketsort never succeeds: for every nonempty array, whatever [malloc]
    answers, the call is undefined. The maximum itself indexes a bucket array
    of [max] entries (or the array is [NULL] or of negative size). *)
Lemma Bucketsort_overruns malloc_ok A N :
  0 < N ≤ zlen A → ∃ u, Bucketsort malloc_ok A N = Undef u.
Proof.
  intros HN. unfold Bucketsort.
  pose proof (GetMax_spec A N HN) as Hm. apply wp_iff in Hm as (m&->&Hm).
  simpl. unfold Bucketsort_alloc.
  case_decide as Hpos; [|by eexists].
  destruct malloc_ok; [|case_decide as Hz; [|by eexists]]; simpl.
  - rewrite (Bucketsort_fill_overruns A N m); [by eexists|lia|done|].
    unfold zlen. rewrite length_replicate. lia.
  - rewrite (Bucketsort_fill_overruns A N m); [by eexists|lia|done|].
    unfold zlen. simpl. lia.
Qed.

Lemma Bucketsort_overruns_witness :
  0 < 2 ≤ zlen [1; 3] ∧ ∃ u, Bucketsort true [1; 3] 2 = Undef u.
Proof.
  split; [by compute|by apply (Bucketsort_overruns true [1; 3] 2); compute].
Defined.
