(* ===== verification/MergeSort.v ===== *)
(** [src/src/csort/Mergesort.c]. *)

From S2P Require Import Prelude SortSpec.

(** [while(from <= to) tmpA[count++] = ori[from++];] *)
Definition Merge_rest (ori : list Z) (from to count : Z) (tmpA : list Z)
    : outcome (Z * list Z) :=
  loop (S (Z.to_nat (to + 1 - from))) (λ '(from, count, tmpA),
    if decide (from <= to) then
      x ← aget ori from;
      tmpA ← aset tmpA count x;
      mret (Next (from + 1, count + 1, tmpA))
    else mret (Stop (count, tmpA))) (from, count, tmpA).

(** The main loop; leaves [left], [right], [count] and [tmpA]. *)
Definition Merge_main (ori tmpA : list Z) (left leftEnd right rightEnd : Z)
    : outcome (Z * Z * Z * list Z) :=
  loop (S (Z.to_nat (rightEnd + 1 - left))) (λ '(left, right, count, tmpA),
    if decide (left <= leftEnd ∧ right <= rightEnd) then
      x ← aget ori left;
      y ← aget ori right;
      if decide (x < y) then
        x ← aget ori left;
        tmpA ← aset tmpA count x;
        mret (Next (left + 1, right, count + 1, tmpA))
      else
        y ← aget ori right;
        tmpA ← aset tmpA count y;
        mret (Next (left, right + 1, count + 1, tmpA))
    else mret (Stop (left, right, count, tmpA))) (left, right, 0, tmpA).

(** [for(j = count-1; j >=0; j--) ori[rightEnd--] = tmpA[j];] *)
Definition Merge_back (ori tmpA : list Z) (count rightEnd : Z)
    : outcome (list Z) :=
  loop (S (Z.to_nat count)) (λ '(j, rightEnd, ori),
    if decide (j >= 0) then
      x ← aget tmpA j;
      ori ← aset ori rightEnd x;
      mret (Next (j - 1, rightEnd - 1, ori))
    else mret (Stop ori)) (count - 1, rightEnd, ori).

Definition Merge (ori tmpA : list Z) (left right rightEnd : Z)
    : outcome (list Z * list Z) :=
  let leftEnd := right - 1 in
  '(left, right, count, tmpA) ← Merge_main ori tmpA left leftEnd right rightEnd;
  '(count, tmpA) ← Merge_rest ori left leftEnd count tmpA;
  '(count, tmpA) ← Merge_rest ori right rightEnd count tmpA;
  ori ← Merge_back ori tmpA count rightEnd;
  mret (ori, tmpA).

Fixpoint Msort (fuel : nat) (ori tmpA : list Z) (left right : Z)
    : outcome (list Z * list Z) :=
  match fuel with
  | O => NoFuel
  | S n =>
      if decide (left < right) then
        s ← int_ (left + right);
        let centor := s `quot` 2 in
        '(ori, tmpA) ← Msort n ori tmpA left centor;
        '(ori, tmpA) ← Msort n ori tmpA (centor + 1) right;
        Merge ori tmpA left (centor + 1) right
      else mret (ori, tmpA)
  end.

(** [tmpA] is what [malloc(len * sizeof(ElementType))] returns: [None] for
    NULL, else a block with arbitrary contents. *)
Definition Mergesort (tmpA : option (list Z)) (ori : list Z) (len : Z)
    : outcome (list Z) :=
  match tmpA with
  | None => mret ori
  | Some tmpA =>
      r ← int_ (len - 1);
      '(ori, _) ← Msort (S (Z.to_nat len)) ori tmpA 0 r;
      mret ori
  end.

(** What has been merged so far: [tmpA[0..count)] holds, in order, the elements
    taken from the two halves [lo..mid) and [mid..hi), and none of them
    exceeds a remaining one. *)
Record merge_inv (o : list Z) (lo mid hi left right count : Z) (t : list Z)
    : Prop := {
  mi_left : lo ≤ left ≤ mid;
  mi_right : mid ≤ right ≤ hi;
  mi_count : count = (left - lo) + (right - mid);
  mi_room : hi - lo ≤ zlen t;
  mi_perm : slice t 0 count ≡ₚ slice o lo left ++ slice o mid right;
  mi_asc : ascending t 0 count;
  mi_below : ∀ k m, 0 ≤ k < count → left ≤ m < mid ∨ right ≤ m < hi →
    rd t k ≤ rd o m
}.

Section merge.
Context (o : list Z) (lo mid hi : Z).
Context (Hrange : 0 ≤ lo ≤ mid) (Hmid : mid ≤ hi) (Hlen : hi ≤ zlen o).
Context (Hasc1 : ascending o lo mid) (Hasc2 : ascending o mid hi).

Lemma merge_inv_init t :
  hi - lo ≤ zlen t → merge_inv o lo mid hi lo mid 0 t.
Proof.
  intros. split; try lia.
  - by rewrite !slice_nil.
  - intros i j ???. lia.
Qed.

(** Appending one element [x] that is minimal among the remaining ones. *)
Lemma merge_append left right count t x :
  merge_inv o lo mid hi left right count t → count < hi - lo →
  (∀ k, 0 ≤ k < count → rd t k ≤ x) →
  slice (upd t count x) 0 (count + 1) = slice t 0 count ++ [x] ∧
  ascending (upd t count x) 0 (count + 1).
Proof.
  intros [? ? Hc Hroom Hp Ha Hb] Hlt Hx. split.
  - rewrite slice_snoc by (rewrite ?zlen_upd; lia). asimpl. f_equal.
    apply slice_ext; rewrite ?zlen_upd; try lia. intros k ?. by asimpl.
  - intros i j ???. destruct (decide (j = count)) as [->|].
    + rewrite rd_upd_eq by lia. destruct (decide (i = count)) as [->|].
      * by rewrite rd_upd_eq by lia.
      * rewrite rd_upd_ne by lia. apply Hx; lia.
    + asimpl. apply Ha; lia.
Qed.

Lemma merge_inv_left left right count t :
  merge_inv o lo mid hi left right count t → left < mid →
  (right < hi → rd o left ≤ rd o right) →
  merge_inv o lo mid hi (left + 1) right (count + 1) (upd t count (rd o left)).
Proof.
  intros Hinv Hl Hle. pose proof Hinv as [? ? Hc Hroom Hp Ha Hb].
  destruct (merge_append left right count t (rd o left)) as [E Ha'];
    [done|lia|intros; apply Hb; lia|].
  split; rewrite ?zlen_upd; try lia; try done.
  - rewrite E, Hp, slice_snoc by lia. solve_Permutation.
  - intros k m Hk Hm. assert (rd o left ≤ rd o m) as Hmin.
    { destruct Hm; [apply Hasc1; lia|].
      etrans; [apply Hle; lia|apply Hasc2; lia]. }
    destruct (decide (k = count)) as [->|]; asimpl; [done|].
    etrans; [apply (Hb k left); lia|done].
Qed.

Lemma merge_inv_right left right count t :
  merge_inv o lo mid hi left right count t → right < hi →
  (left < mid → rd o right ≤ rd o left) →
  merge_inv o lo mid hi left (right + 1) (count + 1) (upd t count (rd o right)).
Proof.
  intros Hinv Hl Hle. pose proof Hinv as [? ? Hc Hroom Hp Ha Hb].
  destruct (merge_append left right count t (rd o right)) as [E Ha'];
    [done|lia|intros; apply Hb; lia|].
  split; rewrite ?zlen_upd; try lia; try done.
  - rewrite E, Hp, slice_snoc by lia. by rewrite app_assoc.
  - intros k m Hk Hm. assert (rd o right ≤ rd o m) as Hmin.
    { destruct Hm; [|apply Hasc2; lia].
      etrans; [apply Hle; lia|apply Hasc1; lia]. }
    destruct (decide (k = count)) as [->|]; asimpl; [done|].
    etrans; [apply (Hb k right); lia|done].
Qed.

Lemma Merge_main_spec t :
  hi - lo ≤ zlen t →
  wp (Merge_main o t lo (mid - 1) mid (hi - 1)) (λ '(l, r, c, t'),
    merge_inv o lo mid hi l r c t' ∧ (l = mid ∨ r = hi) ∧ zlen t' = zlen t).
Proof.
  intros Ht.
  apply (wp_loop
    (λ '(l, r, c, t'), merge_inv o lo mid hi l r c t' ∧ zlen t' = zlen t)
    (λ '(l, r, c, t'), Z.to_nat (mid - l + (hi - r)))).
  - split; [by apply merge_inv_init|done].
  - lia.
  - intros [[[l r] c] t'] [Hinv Hz]. pose proof Hinv as [? ? Hc ? _ _ _].
    case_decide.
    + wp_steps. case_decide; wp_steps; rewrite zlen_upd.
      * split; [split; [apply merge_inv_left; auto; lia|done]|lia].
      * split; [split; [apply merge_inv_right; auto; lia|done]|lia].
    + wp_steps. split_and!; [done|lia|done].
Qed.

Lemma Merge_rest_left_spec l r c t :
  merge_inv o lo mid hi l r c t → r = hi ∨ l = mid →
  wp (Merge_rest o l (mid - 1) c t) (λ '(c', t'),
    merge_inv o lo mid hi mid r c' t' ∧ zlen t' = zlen t).
Proof.
  intros Hinv0 Hor.
  apply (wp_loop
    (λ '(l', c', t'), merge_inv o lo mid hi l' r c' t' ∧ zlen t' = zlen t ∧
       (r = hi ∨ l' = mid))
    (λ '(l', _, _), Z.to_nat (mid - l'))).
  - done.
  - pose proof (mi_left _ _ _ _ _ _ _ _ Hinv0). lia.
  - intros [[l' c'] t'] (Hinv & Hz & ?). pose proof Hinv as [? ? Hc ? _ _ _].
    case_decide; wp_steps; rewrite ?zlen_upd.
    + split_and!; [apply merge_inv_left; auto; lia|done|lia|lia].
    + by replace mid with l' in * by lia.
Qed.

Lemma Merge_rest_right_spec r c t :
  merge_inv o lo mid hi mid r c t →
  wp (Merge_rest o r (hi - 1) c t) (λ '(c', t'),
    merge_inv o lo mid hi mid hi c' t' ∧ zlen t' = zlen t).
Proof.
  intros Hinv0.
  apply (wp_loop
    (λ '(r', c', t'), merge_inv o lo mid hi mid r' c' t' ∧ zlen t' = zlen t)
    (λ '(r', _, _), Z.to_nat (hi - r'))).
  - done.
  - pose proof (mi_right _ _ _ _ _ _ _ _ Hinv0). lia.
  - intros [[r' c'] t'] (Hinv & Hz). pose proof Hinv as [? ? Hc ? _ _ _].
    case_decide; wp_steps; rewrite ?zlen_upd.
    + split_and!; [apply merge_inv_right; auto; lia|done|lia].
    + by replace hi with r' in * by lia.
Qed.

Lemma Merge_back_spec t :
  hi - lo ≤ zlen t →
  wp (Merge_back o t (hi - lo) (hi - 1)) (λ b, zlen b = zlen o ∧
    (∀ k, 0 ≤ k → ¬ (lo ≤ k < hi) → rd b k = rd o k) ∧
    ∀ k, 0 ≤ k < hi - lo → rd b (lo + k) = rd t k).
Proof.
  intros Ht.
  apply (wp_loop
    (λ '(j, re, b), -1 ≤ j < hi - lo ∧ re = lo + j ∧ zlen b = zlen o ∧
      (∀ k, 0 ≤ k → ¬ (lo ≤ k < hi) → rd b k = rd o k) ∧
      ∀ k, j < k < hi - lo → rd b (lo + k) = rd t k)
    (λ '(j, _, _), Z.to_nat (j + 1))).
  - split_and!; try done; intros; lia.
  - lia.
  - intros [[j re] b] (Hj & -> & Hz & Hf & Hc). case_decide; wp_steps.
    + rewrite zlen_upd. split_and!; try lia.
      * intros k ??. rewrite rd_upd_ne by lia. by apply Hf.
      * intros k ?. destruct (decide (k = j)) as [->|]; asimpl; [done|].
        apply Hc. lia.
    + split_and!; [done|done|]. intros k ?. apply Hc. lia.
Qed.

Lemma Merge_spec t :
  hi - lo ≤ zlen t →
  wp (Merge o t lo mid (hi - 1)) (λ '(b, t'),
    rearranges o b lo hi ∧ ascending b lo hi ∧ zlen t' = zlen t).
Proof.
  intros Ht. unfold Merge. wp_steps.
  eapply wp_mono; [by apply Merge_main_spec|]. intros [[[l r] c] t1] (H1 & ? & Hz1).
  wp_steps. eapply wp_mono; [apply Merge_rest_left_spec; [done|lia]|].
  intros [c2 t2] [H2 Hz2].
  wp_steps. eapply wp_mono; [by apply Merge_rest_right_spec|].
  intros [c3 t3] [[? ? -> ? Hp Ha _] Hz3].
  replace (mid - lo + (hi - mid)) with (hi - lo) in * by lia.
  wp_steps. eapply wp_mono; [apply Merge_back_spec; lia|].
  intros b (Hz & Hf & Hc). wp_steps. split_and!; [| |congruence].
  - apply rearranges_slice; [lia|done|done|].
    rewrite (slice_ext b t3 lo 0 hi (hi - lo)) by (auto; lia).
    by rewrite Hp, slice_app by lia.
  - intros i j ???. replace i with (lo + (i - lo)) by lia.
    replace j with (lo + (j - lo)) by lia. rewrite !Hc by lia. apply Ha; lia.
Qed.
End merge.

Lemma ascending_frame a b c lo hi lo' hi' :
  rearranges b c lo' hi' → hi ≤ lo' ∨ hi' ≤ lo → 0 ≤ lo →
  rearranges a b lo hi → ascending b lo hi → ascending c lo hi.
Proof.
  intros [_ F] ??? Ha i j ???. rewrite !F by lia. apply Ha; lia.
Qed.

Lemma Msort_spec fuel : ∀ o t left right,
  Z.max 1 (right + 1 - left) ≤ Z.of_nat fuel → 0 ≤ left → right < zlen o →
  right + 1 - left ≤ zlen t → right ≤ 2 ^ 30 →
  wp (Msort fuel o t left right) (λ '(b, t'),
    rearranges o b left (right + 1) ∧ ascending b left (right + 1) ∧
    zlen t' = zlen t).
Proof.
  induction fuel as [|n IH]; intros o t left right Hfuel Hl Hr Ht Hmax; [|simpl].
  { lia. }
  case_decide; [|wp_steps; split_and!; [apply rearranges_refl| |done]].
  2:{ intros i j ???. by replace j with i by lia. }
  wp_steps. rewrite Z.quot_div_nonneg by lia.
  set (c := (left + right) / 2).
  assert (left ≤ c < right) as Hc.
  { unfold c. pose proof (Z.div_mod (left + right) 2).
    pose proof (Z.mod_pos_bound (left + right) 2). lia. }
  wp_steps. eapply wp_mono; [apply IH; lia|]. intros [o1 t1] (Hre1 & Ha1 & Hz1).
  pose proof (rearranges_zlen _ _ _ _ Hre1).
  wp_steps. eapply wp_mono; [apply IH; lia|]. intros [o2 t2] (Hre2 & Ha2 & Hz2).
  pose proof (rearranges_zlen _ _ _ _ Hre2).
  replace right with (right + 1 - 1) at 1 by lia.
  eapply wp_mono; [apply Merge_spec; try lia|].
  - eapply ascending_frame; [exact Hre2|lia|lia|done|done].
  - done.
  - intros [b t3] (Hre3 & Ha3 & Hz3). split_and!; [|done|congruence].
    eapply rearranges_trans; [eapply rearranges_trans|done];
      (eapply rearranges_weaken; [done|lia|lia]).
Qed.

(** ** Properties *)


