(* ===== verification/QuickSort.v ===== *)
(** [src/src/csort/Quicksort.c]: median-of-three quicksort with insertion sort
    below [CUTOFF]. *)

From S2P Require Import Prelude SortSpec InsertSort.

(** [swap(&ori[x], &ori[y])]. *)
Definition swap (ori : list Z) (x y : Z) : outcome (list Z) :=
  tmp ← aget ori x;
  v ← aget ori y;
  ori ← aset ori x v;
  aset ori y tmp.

(** One guarded swap of [median3]: [if(ori[x] < ori[y]) swap(&ori[p], &ori[q])]. *)
Definition swap_if_less (ori : list Z) (x y p q : Z) : outcome (list Z) :=
  u ← aget ori x;
  v ← aget ori y;
  if decide (u < v) then swap ori p q else mret ori.

Definition median3 (ori : list Z) (left right : Z) : outcome (Z * list Z) :=
  s ← int_ (left + right);
  let centor := s `quot` 2 in
  ori ← swap_if_less ori centor left left right;
  ori ← swap_if_less ori right centor right centor;
  ori ← swap_if_less ori centor left centor left;
  ori ← swap ori centor (right - 1);
  pivot ← aget ori (right - 1);
  mret (pivot, ori).

Definition CUTOFF : Z := 3.

(** [while(ori[++i] < pivot);] and [while(ori[--j] > pivot);] *)
Definition scan_up (ori : list Z) (pivot i : Z) : outcome Z :=
  loop (S (length ori)) (λ i,
    x ← aget ori (i + 1);
    if decide (x < pivot) then mret (Next (i + 1)) else mret (Stop (i + 1))) i.
Definition scan_down (ori : list Z) (pivot j : Z) : outcome Z :=
  loop (S (length ori)) (λ j,
    x ← aget ori (j - 1);
    if decide (x > pivot) then mret (Next (j - 1)) else mret (Stop (j - 1))) j.

(** The [for(;;)] loop of [Qsort]; leaves [i] and the array. *)
Definition Qsort_partition (ori : list Z) (pivot left right : Z)
    : outcome (Z * list Z) :=
  loop (S (length ori)) (λ '(i, j, ori),
    i ← scan_up ori pivot i;
    j ← scan_down ori pivot j;
    if decide (i < j) then
      ori ← swap ori i j;
      mret (Next (i, j, ori))
    else mret (Stop (i, ori))) (left, right - 1, ori).

Fixpoint Qsort (fuel : nat) (ori : list Z) (left right : Z)
    : outcome (list Z) :=
  match fuel with
  | O => NoFuel
  | S n =>
      c ← int_ (left + CUTOFF);
      if decide (c <= right) then
        '(pivot, ori) ← median3 ori left right;
        '(i, ori) ← Qsort_partition ori pivot left right;
        ori ← swap ori i (right - 1);
        ori ← Qsort n ori left (i - 1);
        Qsort n ori (i + 1) right
      else Insertsort ori left (right - left + 1)
  end.

Definition Quicksort (ori : list Z) (len : Z) : outcome (list Z) :=
  r ← int_ (len - 1);
  Qsort (S (Z.to_nat len)) ori 0 r.

Lemma swap_spec a x y (Q : list Z → Prop) :
  0 ≤ x < zlen a → 0 ≤ y < zlen a →
  Q (upd (upd a x (rd a y)) y (rd a x)) → wp (swap a x y) Q.
Proof. intros. unfold swap. by wp_steps. Qed.

Lemma swap_if_less_spec a x y p q lo hi :
  lo ≤ p < hi → lo ≤ q < hi → 0 ≤ lo → hi ≤ zlen a →
  lo ≤ x < hi → lo ≤ y < hi →
  wp (swap_if_less a x y p q) (λ b, rearranges a b lo hi ∧
    ∀ k, 0 ≤ k → rd b k =
      if decide (rd a x < rd a y) then
        if decide (k = q) then rd a p else if decide (k = p) then rd a q else rd a k
      else rd a k).
Proof.
  intros. unfold swap_if_less. wp_steps. case_decide.
  - apply swap_spec; [lia..|]. split; [apply swap_rearranges; lia|].
    intros. by apply rd_swap; lia.
  - wp_steps. split; [apply rearranges_refl|done].
Qed.

(** Decide the comparisons of indices that [lia] settles. *)
Ltac decide_eqs :=
  repeat match goal with
  | |- context [decide (?x = ?y :> Z)] =>
      first [ rewrite (decide_True (P := x = y)) by lia
            | rewrite (decide_False (P := x = y)) by lia ]
  end.

(** What [median3] establishes, and when it leaves a last element that is
    smaller than the pivot. *)
Lemma median3_spec a left right :
  0 ≤ left → left + CUTOFF ≤ right → right < zlen a → right ≤ 2 ^ 30 →
  wp (median3 a left right) (λ '(pivot, b),
    rearranges a b left (right + 1) ∧
    rd b (right - 1) = pivot ∧ rd b left ≤ pivot ∧
    (rd b right < pivot ↔
     rd a ((left + right) / 2) < rd a left < rd a right)).
Proof.
  unfold CUTOFF. intros Hl Hlr Hr Hmax. unfold median3. wp_steps.
  rewrite Z.quot_div_nonneg by lia. set (c := (left + right) / 2).
  assert (left < c < right) as Hc.
  { unfold c. pose proof (Z.div_mod (left + right) 2).
    pose proof (Z.mod_pos_bound (left + right) 2). lia. }
  wp_steps. eapply wp_mono;
    [apply (swap_if_less_spec _ _ _ _ _ left (right + 1)); lia|].
  intros a1 [R1 E1]. pose proof (rearranges_zlen _ _ _ _ R1).
  wp_steps. eapply wp_mono;
    [apply (swap_if_less_spec _ _ _ _ _ left (right + 1)); lia|].
  intros a2 [R2 E2]. pose proof (rearranges_zlen _ _ _ _ R2).
  wp_steps. eapply wp_mono;
    [apply (swap_if_less_spec _ _ _ _ _ left (right + 1)); lia|].
  intros a3 [R3 E3]. pose proof (rearranges_zlen _ _ _ _ R3).
  wp_steps. apply swap_spec; [lia..|].
  set (b := upd (upd a3 c (rd a3 (right - 1))) (right - 1) (rd a3 c)).
  assert (Rb : rearranges a3 b left (right + 1)) by (apply swap_rearranges; lia).
  assert (zlen b = zlen a3) by (by eapply rearranges_zlen).
  wp_steps.
  assert (Hb : rd b (right - 1) = rd a3 c ∧ rd b left = rd a3 left ∧
               rd b right = rd a3 right).
  { unfold b. rewrite !rd_swap by lia. repeat case_decide; auto; lia. }
  destruct Hb as (-> & -> & ->).
  split_and!; [by repeat (eapply rearranges_trans; [done|])|done|..].
  all: rewrite ?E3, ?E2, ?E1 by lia; decide_eqs; repeat case_decide; lia.
Qed.

(** The scans stop inside [left..right-1]: the pivot at [right - 1] stops the
    upward one, the element at [left] the downward one. *)
Lemma scan_up_spec a pivot left right i :
  0 ≤ left ≤ i → i < right - 1 → right < zlen a → rd a (right - 1) = pivot →
  wp (scan_up a pivot i) (λ i', i < i' ≤ right - 1 ∧
    (∀ k, i < k < i' → rd a k < pivot) ∧ pivot ≤ rd a i').
Proof.
  intros ??? Hp.
  apply (wp_loop (λ i', i ≤ i' < right - 1 ∧ ∀ k, i < k ≤ i' → rd a k < pivot)
    (λ i', Z.to_nat (right - i'))).
  - split; [lia|intros; lia].
  - unfold zlen in *. lia.
  - intros i' [Hi Hlt]. wp_steps. case_decide; wp_steps.
    + assert (i' + 1 ≠ right - 1) by (intros E; rewrite E in *; lia).
      split; [|lia]. split; [lia|]. intros k ?.
      destruct (decide (k = i' + 1)) as [->|]; [done|apply Hlt; lia].
    + split_and!; [lia|lia| |lia]. intros k ?. apply Hlt. lia.
Qed.

Lemma scan_down_spec a pivot left right j :
  0 ≤ left → left < j ≤ right - 1 → right < zlen a → rd a left ≤ pivot →
  wp (scan_down a pivot j) (λ j', left ≤ j' < j ∧
    (∀ k, j' < k < j → pivot < rd a k) ∧ rd a j' ≤ pivot).
Proof.
  intros ??? Hp.
  apply (wp_loop (λ j', left < j' ≤ j ∧ ∀ k, j' ≤ k < j → pivot < rd a k)
    (λ j', Z.to_nat j')).
  - split; [lia|intros; lia].
  - unfold zlen in *. lia.
  - intros j' [Hj Hgt]. wp_steps. case_decide; wp_steps.
    + assert (j' - 1 ≠ left) by (intros E; rewrite E in *; lia).
      split; [|lia]. split; [lia|]. intros k ?.
      destruct (decide (k = j' - 1)) as [->|]; [lia|apply Hgt; lia].
    + split_and!; [lia|lia| |lia]. intros k ?. apply Hgt. lia.
Qed.

(** Partitioning: at most the pivot on the left of [i], at least the pivot on
    the right of it, as far as [right - 1]. *)
Lemma Qsort_partition_spec a pivot left right :
  0 ≤ left → left + CUTOFF ≤ right → right < zlen a →
  rd a (right - 1) = pivot → rd a left ≤ pivot →
  wp (Qsort_partition a pivot left right) (λ '(i, b),
    rearranges a b (left + 1) (right - 1) ∧ left < i ≤ right - 1 ∧
    (∀ k, left ≤ k < i → rd b k ≤ pivot) ∧
    (∀ k, i ≤ k ≤ right - 1 → pivot ≤ rd b k)).
Proof.
  unfold CUTOFF. intros Hl Hlr Hr Hpv Hleft.
  apply (wp_loop
    (λ '(i, j, b), left ≤ i < j ∧ j ≤ right - 1 ∧
       rearranges a b (left + 1) (right - 1) ∧
       (∀ k, left ≤ k ≤ i → rd b k ≤ pivot) ∧
       (∀ k, j ≤ k ≤ right - 1 → pivot ≤ rd b k))
    (λ '(i, j, b), Z.to_nat (right - i))).
  - split_and!; [lia..|apply rearranges_refl| |].
    + intros k ?. by replace k with left by lia.
    + intros k ?. replace k with (right - 1) by lia. lia.
  - unfold zlen in *. lia.
  - intros [[i j] b] (Hij & Hj & Hre & Hlo & Hhi).
    pose proof (rearranges_zlen _ _ _ _ Hre) as Hz.
    assert (rd b (right - 1) = pivot ∧ rd b left ≤ pivot) as [Hbp Hbl].
    { rewrite !(proj2 Hre) by lia. auto. }
    wp_steps. eapply wp_mono; [eapply (scan_up_spec b pivot left right); (done || lia)|].
    intros i' (Hi' & Hup & Hge).
    wp_steps. eapply wp_mono; [eapply (scan_down_spec b pivot left right); (done || lia)|].
    intros j' (Hj' & Hdown & Hle). case_decide; wp_steps.
    + apply swap_spec; [lia..|]. wp_steps. split; [|lia].
      split_and!; [lia..| | |].
      * eapply rearranges_trans; [done|]. apply swap_rearranges; lia.
      * intros k ?. rewrite rd_swap by lia. repeat case_decide; subst; try lia.
        destruct (decide (k ≤ i)); [apply Hlo; lia|].
        specialize (Hup k). lia.
      * intros k ?. rewrite rd_swap by lia. repeat case_decide; subst; try lia.
        destruct (decide (j ≤ k)); [apply Hhi; lia|].
        specialize (Hdown k). lia.
    + split_and!; [done|lia|lia| |].
      * intros k ?. destruct (decide (k ≤ i)); [apply Hlo; lia|].
        specialize (Hup k). lia.
      * intros k ?. destruct (decide (k = i')) as [->|]; [done|].
        destruct (decide (j ≤ k)); [apply Hhi; lia|].
        specialize (Hdown k). lia.
Qed.

Lemma Qsort_spec fuel : ∀ a left right,
  Z.max 1 (right + 1 - left) ≤ Z.of_nat fuel →
  0 ≤ left ≤ right + 1 → right < zlen a → right ≤ 2 ^ 30 →
  wp (Qsort fuel a left right) (λ b, rearranges a b left (right + 1)).
Proof.
  induction fuel as [|n IH]; intros a left right Hfuel Hl Hr Hmax; [lia|].
  simpl. unfold CUTOFF. wp_steps. case_decide.
  - wp_steps. eapply wp_mono; [apply median3_spec; unfold CUTOFF; lia|].
    intros [pivot b] (Hre1 & Hpv & Hleft & _).
    pose proof (rearranges_zlen _ _ _ _ Hre1).
    wp_steps. eapply wp_mono;
      [apply Qsort_partition_spec; unfold CUTOFF; (done || lia)|].
    intros [i c] (Hre2 & Hi & _ & _). pose proof (rearranges_zlen _ _ _ _ Hre2).
    wp_steps. apply swap_spec; [lia..|].
    set (d := upd (upd c i (rd c (right - 1))) (right - 1) (rd c i)).
    assert (Hre3 : rearranges c d left (right + 1)) by (apply swap_rearranges; lia).
    pose proof (rearranges_zlen _ _ _ _ Hre3).
    wp_steps. eapply wp_mono; [apply IH; lia|]. intros e Hre4.
    pose proof (rearranges_zlen _ _ _ _ Hre4).
    eapply wp_mono; [apply IH; lia|]. intros f Hre5.
    eapply rearranges_trans; [done|]. eapply rearranges_trans;
      [eapply rearranges_weaken; [exact Hre2|lia..]|].
    eapply rearranges_trans; [done|]. eapply rearranges_trans;
      [eapply rearranges_weaken; [exact Hre4|lia..]|].
    eapply rearranges_weaken; [exact Hre5|lia..].
  - eapply wp_mono; [apply Insertsort_spec; lia|]. intros b [Hre _].
    by replace (left + (right - left + 1)) with (right + 1) in Hre by lia.
Qed.

(** ** Properties *)

(** C36: Quicksort is memory safe and permutes: up to 2^30 elements the call
    ends, every access is inside the first [len] elements, which end up
    rearranged, and the rest of the array is untouched. *)
Theorem Quicksort_permutes a len :
  0 ≤ len ≤ zlen a → len ≤ 2 ^ 30 →
  wp (Quicksort a len) (λ b, rearranges a b 0 len).
Proof.
  intros Hlen Hok. unfold Quicksort. wp_steps.
  eapply wp_mono; [apply Qsort_spec; lia|]. simpl. intros b Hb.
  by replace (len - 1 + 1) with len in Hb by lia.
Qed.

Lemma Quicksort_permutes_witness :
  0 ≤ 4 ≤ zlen [4; 3; 2; 1; 7] ∧ 4 ≤ 2 ^ 30 ∧
  wp (Quicksort [4; 3; 2; 1; 7] 4) (λ b, rearranges [4; 3; 2; 1; 7] b 0 4).
Proof.
  split_and!; [by compute..|].
  by apply (Quicksort_permutes [4; 3; 2; 1; 7] 4); compute.
Defined.

(** Quicksort does not always sort: on four elements it leaves
    [0; 1; 3; 2]. The first comparison of [median3] tests the centre against
    the left end and then swaps the left and the RIGHT end, so the median is
    not the pivot and the right end may stay below it. *)
Lemma Quicksort_missorts :
  ∃ a b, Quicksort a 4 = Ret b ∧ zlen a = 4 ∧ ¬ ascending b 0 4.
Proof.
  exists [2; 1; 0; 3], [0; 1; 3; 2]. split_and!; [by vm_compute..|].
  intros H. specialize (H 2 3). by vm_compute in H; apply H.
Qed.

(** one call of [median3]: the result is a rearrangement of the segment,
    the pivot is stored in [right - 1] and the left end is at most the pivot;
    the right end is below the pivot exactly when, before the call,
    [ori[centor] < ori[left] < ori[right]]. *)
Lemma median3_pivot a left right :
  0 ≤ left → left + CUTOFF ≤ right → right < zlen a → right ≤ 2 ^ 30 →
  wp (median3 a left right) (λ '(pivot, b),
    rearranges a b left (right + 1) ∧
    rd b (right - 1) = pivot ∧ rd b left ≤ pivot ∧
    (rd b right < pivot ↔
     rd a ((left + right) / 2) < rd a left < rd a right)).
Proof. apply median3_spec. Qed.

Lemma median3_pivot_witness :
  0 ≤ 0 ∧ 0 + CUTOFF ≤ 3 ∧ 3 < zlen [2; 1; 0; 3] ∧ 3 ≤ 2 ^ 30 ∧
  wp (median3 [2; 1; 0; 3] 0 3) (λ '(pivot, b),
    rearranges [2; 1; 0; 3] b 0 (3 + 1) ∧
    rd b (3 - 1) = pivot ∧ rd b 0 ≤ pivot ∧
    (rd b 3 < pivot ↔
     rd [2; 1; 0; 3] ((0 + 3) / 2) < rd [2; 1; 0; 3] 0 < rd [2; 1; 0; 3] 3)).
Proof.
  split_and!; [by compute..|].
  by apply (median3_pivot [2; 1; 0; 3] 0 3); compute.
Defined.
