(* ===== verification/CString.v ===== *)
(** C strings and the conversions of libc the sources use: [strlen], [strchr],
    [strstr], [strncmp], [atoi]/[atol], [strtoul], [sscanf] with [%d], [%u] and
    [%lu], and the decimal output of [snprintf].

    Text is a list of characters. A C string is a list without NUL; [cstr]
    reads the string that starts a buffer. *)

From S2P Require Import Prelude.
From Stdlib Require Export Ascii.

Abbreviation bytes := (list ascii).

(** String literals of the sources. *)
Definition lit (s : string) : bytes := String.list_ascii_of_string s.

Definition NUL : ascii := zero.
Definition TAB : ascii := "009"%char.
Definition LF : ascii := "010"%char.
Definition CR : ascii := "013"%char.
Definition SP : ascii := " "%char.

#[export] Instance ascii_inhabited : Inhabited ascii := populate NUL.

Definition char_code (c : ascii) : Z := Z.of_N (N_of_ascii c).
Definition byte_of (v : Z) : ascii := ascii_of_N (Z.to_N v).

(** The separators the parsers skip: [' '] and ['\t']. *)
Definition is_blank (c : ascii) : bool :=
  bool_decide (c = SP) || bool_decide (c = TAB).
(** [isdigit] and [isspace] of the C locale. *)
Definition is_digit (c : ascii) : bool := (48 <=? char_code c) && (char_code c <=? 57).
Definition is_space (c : ascii) : bool :=
  bool_decide (c = SP) || ((9 <=? char_code c) && (char_code c <=? 13)).

Definition not_char (d c : ascii) : bool := negb (bool_decide (c = d)).

Section scan.
Context {A : Type} (f : A → bool).
Fixpoint take_while (l : list A) : list A :=
  match l with
  | x :: l => if f x then x :: take_while l else []
  | [] => []
  end.
Fixpoint drop_while (l : list A) : list A :=
  match l with
  | x :: l' => if f x then drop_while l' else l
  | [] => []
  end.

Lemma take_drop_while l : take_while l ++ drop_while l = l.
Proof. induction l as [|x l IH]; simpl; [done|]. destruct (f x); simpl; congruence. Qed.

Lemma take_while_all l : Forall (λ x, f x = true) (take_while l).
Proof. induction l as [|x l IH]; simpl; [done|]. destruct (f x) eqn:?; auto. Qed.

Lemma drop_while_length l : (length (drop_while l) ≤ length l)%nat.
Proof. induction l as [|x l IH]; simpl; [lia|]. destruct (f x); simpl; lia. Qed.

Lemma take_while_length l : (length (take_while l) ≤ length l)%nat.
Proof. induction l as [|x l IH]; simpl; [lia|]. destruct (f x); simpl; lia. Qed.

Lemma take_while_app l k :
  Forall (λ x, f x = true) l → take_while (l ++ k) = l ++ take_while k.
Proof. induction 1 as [|x l Hx _ IH]; simpl; [done|]. by rewrite Hx, IH. Qed.

Lemma drop_while_app l k :
  Forall (λ x, f x = true) l → drop_while (l ++ k) = drop_while k.
Proof. induction 1 as [|x l Hx _ IH]; simpl; [done|]. by rewrite Hx, IH. Qed.

Lemma drop_while_head l x k : drop_while l = x :: k → f x = false.
Proof.
  induction l as [|y l IH]; simpl; [done|].
  destruct (f y) eqn:E; [done|]. congruence.
Qed.

Lemma take_while_stop x k : f x = false → take_while (x :: k) = [].
Proof. simpl. by intros ->. Qed.
Lemma drop_while_stop x k : f x = false → drop_while (x :: k) = x :: k.
Proof. simpl. by intros ->. Qed.
End scan.

(** The C string at the start of a buffer. *)
Definition cstr (b : bytes) : bytes := take_while (not_char NUL) b.
Definition strlen (b : bytes) : Z := Z.of_nat (length (cstr b)).

(** A C string has no NUL. *)
Definition no_nul (s : bytes) : Prop := Forall (λ c, not_char NUL c = true) s.

(** [strchr(s, c)] as the offset of the first occurrence. *)
Fixpoint strchr (s : bytes) (d : ascii) : option nat :=
  match s with
  | [] => None
  | c :: s => if decide (c = d) then Some O else S <$> strchr s d
  end.

Fixpoint is_prefix (k s : bytes) : bool :=
  match k, s with
  | [], _ => true
  | x :: k, y :: s => bool_decide (x = y) && is_prefix k s
  | _ :: _, [] => false
  end.

(** [strstr(s, k) != NULL]. *)
Fixpoint strstr (s k : bytes) : bool :=
  is_prefix k s || match s with [] => false | _ :: s => strstr s k end.

Lemma not_char_true c d : not_char d c = true ↔ c ≠ d.
Proof. unfold not_char. by case_bool_decide. Qed.
Lemma not_char_false c d : not_char d c = false ↔ c = d.
Proof. unfold not_char. by case_bool_decide. Qed.

Lemma cstr_no_nul s : no_nul s → cstr s = s.
Proof.
  intros H. unfold cstr. rewrite <- (app_nil_r s), take_while_app by done.
  done.
Qed.

Lemma cstr_is_no_nul b : no_nul (cstr b).
Proof. apply take_while_all. Qed.

Lemma strchr_app_first s k d :
  Forall (λ c, c ≠ d) s → strchr (s ++ d :: k) d = Some (length s).
Proof.
  induction 1 as [|c s Hc _ IH]; simpl.
  - by rewrite decide_True.
  - by rewrite decide_False, IH.
Qed.

Lemma strchr_None s d : Forall (λ c, c ≠ d) s → strchr s d = None.
Proof. induction 1 as [|c s Hc _ IH]; simpl; [done|]. by rewrite decide_False, IH. Qed.

Lemma is_prefix_app k s : is_prefix k (k ++ s) = true.
Proof. induction k as [|c k IH]; simpl; [done|]. by rewrite bool_decide_eq_true_2. Qed.

(** ** Numbers *)

Definition digit_val (c : ascii) : Z := char_code c - 48.

Fixpoint scan_digits (v : Z) (s : bytes) : Z :=
  match s with
  | c :: s => if is_digit c then scan_digits (v * 10 + digit_val c) s else v
  | [] => v
  end.

(** White space, an optional sign and decimal digits: the sign and the
    magnitude, or [None] when there is no digit. *)
Definition scan_number (s : bytes) : option (bool * Z) :=
  let s := drop_while is_space s in
  let '(neg, s) :=
    match s with
    | c :: s' => if decide (c = "-"%char) then (true, s')
                 else if decide (c = "+"%char) then (false, s') else (false, s)
    | [] => (false, s)
    end in
  match s with
  | c :: _ => if is_digit c then Some (neg, scan_digits 0 s) else None
  | [] => None
  end.

Definition signed (n : bool * Z) : Z := if n.1 then - n.2 else n.2.

(** [atoi] and [atol]: 0 without a number, undefined out of range. *)
Definition atoi (s : bytes) : outcome Z :=
  match scan_number s with
  | None => mret 0
  | Some n => if decide (in_int (signed n)) then mret (signed n) else Undef BadConversion
  end.
Definition atol (s : bytes) : outcome Z :=
  match scan_number s with
  | None => mret 0
  | Some n => if decide (LONG_MIN ≤ signed n ≤ LONG_MAX) then mret (signed n)
              else Undef BadConversion
  end.

(** [strtoul(s, &stop, 10)]: saturates, and negates in [unsigned long]. *)
Definition strtoul (s : bytes) : Z :=
  match scan_number s with
  | None => 0
  | Some n => if decide (n.2 ≤ ULONG_MAX) then to_u 64 (signed n) else ULONG_MAX
  end.

(** [sscanf(s, "%d", &x)] and the like: [None] leaves [x] as it was. *)
Definition sscanf_d (s : bytes) : outcome (option Z) :=
  match scan_number s with
  | None => mret None
  | Some n => if decide (in_int (signed n)) then mret (Some (signed n))
              else Undef BadConversion
  end.
Definition sscanf_unsigned (w : Z) (s : bytes) : outcome (option Z) :=
  match scan_number s with
  | None => mret None
  | Some n => if decide (n.2 < 2 ^ w) then mret (Some (to_u w (signed n)))
              else Undef BadConversion
  end.
Definition sscanf_u := sscanf_unsigned 32.
Definition sscanf_lu := sscanf_unsigned 64.

(** Decimal output, enough for any 64-bit number. *)
Definition digit_char (d : Z) : ascii := ascii_of_N (Z.to_N (48 + d)).

Fixpoint print_digits (fuel : nat) (n : Z) (acc : bytes) : bytes :=
  match fuel with
  | O => acc
  | S f => let acc := digit_char (n mod 10) :: acc in
           if n <? 10 then acc else print_digits f (n / 10) acc
  end.
Definition print_u (n : Z) : bytes := print_digits 20 n [].
Definition print_d (n : Z) : bytes :=
  if n <? 0 then "-"%char :: print_u (- n) else print_u n.

Lemma char_code_range c : 0 ≤ char_code c < 256.
Proof. unfold char_code. pose proof (N_ascii_bounded c). lia. Qed.

Lemma digit_char_code d : 0 ≤ d < 10 → char_code (digit_char d) = 48 + d.
Proof. intros. unfold char_code, digit_char. rewrite N_ascii_embedding; lia. Qed.

Lemma digit_char_is_digit d : 0 ≤ d < 10 → is_digit (digit_char d) = true.
Proof. intros. unfold is_digit. rewrite digit_char_code by done. lia. Qed.

Lemma digit_val_char d : 0 ≤ d < 10 → digit_val (digit_char d) = d.
Proof. intros. unfold digit_val. rewrite digit_char_code by done. lia. Qed.

Lemma is_digit_not_space c : is_digit c = true → is_space c = false.
Proof.
  unfold is_digit, is_space. intros H.
  case_bool_decide as E; [subst c; done|]. simpl. lia.
Qed.

Lemma scan_print_digits f n acc :
  0 ≤ n < 10 ^ Z.of_nat f → (0 < f)%nat →
  scan_digits 0 (print_digits f n acc) = scan_digits n acc.
Proof.
  revert n acc. induction f as [|f IH]; intros n acc Hn Hf; [lia|].
  pose proof (Z.mod_pos_bound n 10 ltac:(lia)).
  cbn [print_digits]. destruct (Z.ltb_spec n 10).
  - cbn [scan_digits]. rewrite digit_char_is_digit, digit_val_char by lia.
    by rewrite Z.mod_small by lia.
  - assert (f ≠ 0)%nat by (intros ->; simpl in Hn; lia).
    rewrite Nat2Z.inj_succ, Z.pow_succ_r in Hn by lia.
    rewrite IH; [|split; [apply Z.div_pos; lia|apply Z.div_lt_upper_bound; lia]|lia].
    cbn [scan_digits]. rewrite digit_char_is_digit, digit_val_char by lia.
    f_equal. pose proof (Z.div_mod n 10). lia.
Qed.

Lemma print_digits_cons f n acc :
  0 ≤ n → (0 < f)%nat →
  ∃ c r, print_digits f n acc = c :: r ∧ is_digit c = true.
Proof.
  revert n acc. induction f as [|f IH]; intros n acc Hn Hf; [lia|].
  pose proof (Z.mod_pos_bound n 10 ltac:(lia)).
  cbn [print_digits]. destruct (Z.ltb_spec n 10).
  - eexists _, _. split; [done|]. by apply digit_char_is_digit.
  - destruct f as [|f]; [|apply IH; [apply Z.div_pos; lia|lia]].
    eexists _, _. split; [done|]. by apply digit_char_is_digit.
Qed.

Lemma print_digits_all f n acc :
  0 ≤ n → Forall (λ c, is_digit c = true) acc →
  Forall (λ c, is_digit c = true) (print_digits f n acc).
Proof.
  revert n acc. induction f as [|f IH]; intros n acc Hn Hacc; [done|].
  pose proof (Z.mod_pos_bound n 10 ltac:(lia)).
  assert (Forall (λ c, is_digit c = true) (digit_char (n mod 10) :: acc)).
  { constructor; [by apply digit_char_is_digit|done]. }
  cbn [print_digits]. destruct (n <? 10); [done|].
  apply IH; [apply Z.div_pos; lia|done].
Qed.

(** Reading back what [print_d] wrote. *)
Lemma scan_number_print n :
  - 10 ^ 20 < n < 10 ^ 20 → scan_number (print_d n) = Some (n <? 0, Z.abs n).
Proof.
  intros Hn. unfold scan_number, print_d.
  destruct (Z.ltb_spec n 0).
  - rewrite drop_while_stop by done. cbn match. rewrite decide_True by done.
    destruct (print_digits_cons 20 (- n) []) as (c & r & E & Hc); [lia|lia|].
    unfold print_u. rewrite E, Hc, <- E, scan_print_digits by lia.
    cbn [scan_digits]. do 2 f_equal. lia.
  - destruct (print_digits_cons 20 n []) as (c & r & E & Hc); [lia|lia|].
    unfold print_u. rewrite E, drop_while_stop by by apply is_digit_not_space.
    cbn match. rewrite !decide_False by (intros ->; done). cbn match.
    rewrite Hc, <- E, scan_print_digits by lia.
    cbn [scan_digits]. do 2 f_equal. lia.
Qed.

Lemma signed_print n : signed (n <? 0, Z.abs n) = n.
Proof. unfold signed. simpl. destruct (Z.ltb_spec n 0); lia. Qed.

Lemma atoi_print n : in_int n → atoi (print_d n) = Ret n.
Proof.
  intros Hn. unfold atoi, in_int, INT_MIN, INT_MAX in *.
  rewrite scan_number_print, signed_print by lia. by rewrite decide_True.
Qed.

(** The same with other text after the number. *)
Lemma print_digits_app f n acc rest :
  print_digits f n (acc ++ rest) = print_digits f n acc ++ rest.
Proof.
  revert n acc. induction f as [|f IH]; intros n acc; cbn [print_digits]; [done|].
  destruct (n <? 10); [done|]. rewrite <- IH. done.
Qed.

Lemma atoi_print_rest sp n rest :
  Forall (λ c, is_space c = true) sp → 0 ≤ n ≤ INT_MAX →
  match rest with [] => True | c :: _ => is_digit c = false end →
  atoi (sp ++ print_d n ++ rest) = Ret n.
Proof.
  intros Hsp Hn Hrest. unfold atoi, scan_number. rewrite drop_while_app by done.
  assert (print_d n ++ rest = print_digits 20 n rest) as ->.
  { unfold print_d, print_u. destruct (Z.ltb_spec n 0); [lia|].
    by rewrite <- print_digits_app. }
  destruct (print_digits_cons 20 n rest) as (c & r & E & Hc); [lia|lia|].
  rewrite E, drop_while_stop by by apply is_digit_not_space.
  cbn match. rewrite !decide_False by (intros ->; done). cbn match.
  rewrite Hc, <- E, scan_print_digits by (unfold INT_MAX in *; lia).
  assert (scan_digits n rest = n) as -> by (destruct rest as [|d rest]; cbn; [done|by rewrite Hrest]).
  unfold signed, in_int, INT_MIN, INT_MAX in *. cbn [fst snd]. by rewrite decide_True by lia.
Qed.

(** The characters of a number. *)
Lemma print_d_chars n : Forall (λ c, is_digit c = true ∨ c = "-"%char) (print_d n).
Proof.
  assert (∀ m, 0 ≤ m → Forall (λ c, is_digit c = true ∨ c = "-"%char) (print_u m)).
  { intros m Hm. eapply Forall_impl; [apply (print_digits_all 20 m []); [done|by constructor]|].
    by left. }
  unfold print_d. destruct (Z.ltb_spec n 0); [constructor; [by right|]|]; auto with lia.
Qed.

(** [strrchr(s, '/') + 1]. *)
Fixpoint after_slash (s : bytes) : option bytes :=
  match s with
  | [] => None
  | c :: s =>
      match after_slash s with
      | Some r => Some r
      | None => if decide (c = "/"%char) then Some s else None
      end
  end.

(** ** Formatted output *)

(** [snprintf(buf, n, ...)]: at most [n - 1] characters. *)
Definition snprintf (n : Z) (text : bytes) : bytes := take (Z.to_nat (n - 1)) text.

(** [%0wd]. *)
Definition print_pad (w n : Z) : bytes :=
  let digits := print_u (Z.abs n) in
  let sign := if decide (n < 0) then lit "-" else [] in
  sign ++ replicate (Z.to_nat (w - zlen sign - zlen digits)) "0"%char ++ digits.

Lemma print_digits_short f n acc : zlen (print_digits f n acc) ≤ Z.of_nat f + zlen acc.
Proof.
  revert n acc. induction f as [|f IH]; intros n acc; cbn [print_digits]; [lia|].
  destruct (n <? 10); [|etrans; [apply IH|]]; unfold zlen; cbn [length]; lia.
Qed.

Lemma print_d_short n : zlen (print_d n) ≤ 21.
Proof.
  pose proof (print_digits_short 20 n []). pose proof (print_digits_short 20 (- n) []).
  unfold print_d, print_u, zlen in *. destruct (n <? 0); cbn [length] in *; lia.
Qed.

Lemma print_pad_short w n : w ≤ 21 → zlen (print_pad w n) ≤ 21.
Proof.
  intros Hw. unfold print_pad, print_u. pose proof (print_digits_short 20 (Z.abs n) []).
  change (lit "-") with ["-"%char]. case_decide; unfold zlen in *;
    rewrite !length_app, length_replicate; cbn [length] in *; lia.
Qed.

Lemma print_pad_2 n : 0 ≤ n < 100 → zlen (print_pad 2 n) = 2.
Proof.
  intros Hn. assert (H : Forall (λ n, zlen (print_pad 2 n) = 2) (seqZ 0 100)).
  { apply (bool_decide_unpack _). by vm_compute. }
  rewrite Forall_forall in H. apply H, elem_of_seqZ. lia.
Qed.

(** [%wd]. *)
Definition print_space (w n : Z) : bytes :=
  let digits := print_d n in
  replicate (Z.to_nat (w - zlen digits)) SP ++ digits.

(** ** Copying strings *)

(** [strncpy(dst, s, n)]: [n] bytes are written. *)
Definition strncpy (n : nat) (s : bytes) : bytes :=
  take n s ++ replicate (n - length s) NUL.

(** The C string at the start of what is left of an object. *)
Definition c_string (b : bytes) : outcome bytes :=
  if decide (NUL ∈ b) then Ret (cstr b) else Undef OutOfBounds.

Lemma cstr_app_nul s k : no_nul s → cstr (s ++ NUL :: k) = s.
Proof. intros H. unfold cstr. rewrite take_while_app by done. by rewrite app_nil_r. Qed.

Lemma strncpy_short n s : no_nul s → (length s < n)%nat → cstr (strncpy n s) = s.
Proof.
  intros Hs Hl. unfold strncpy. rewrite take_ge by lia.
  destruct (n - length s)%nat eqn:E; [lia|]. by apply cstr_app_nul.
Qed.

Lemma strncpy_long n s : no_nul s → (n ≤ length s)%nat → NUL ∉ strncpy n s.
Proof.
  intros Hs Hl Hin. unfold strncpy in Hin.
  replace (n - length s)%nat with O in Hin by lia. simpl in Hin. rewrite app_nil_r in Hin.
  apply elem_of_take in Hin as (i & Hi & _).
  unfold no_nul in Hs. rewrite Forall_lookup in Hs. by apply Hs in Hi.
Qed.

Lemma c_string_app_nul s k : no_nul s → c_string (s ++ NUL :: k) = Ret s.
Proof.
  intros. unfold c_string. rewrite decide_True, cstr_app_nul; [done|done|].
  apply elem_of_app. right. by left.
Qed.

Lemma digit_no_nul ds : Forall (λ c, is_digit c = true) ds → no_nul ds.
Proof. intros H. eapply Forall_impl; [exact H|]. intros c Hc. apply not_char_true. by intros ->. Qed.

(** [strrchr(s, '.')]: what is before and behind the last dot. *)
Fixpoint last_dot (s : bytes) : option (bytes * bytes) :=
  match s with
  | [] => None
  | c :: s =>
      match last_dot s with
      | Some (b, e) => Some (c :: b, e)
      | None => if decide (c = "."%char) then Some ([], s) else None
      end
  end.

Lemma last_dot_none s : Forall (λ c, c ≠ "."%char) s → last_dot s = None.
Proof. induction 1 as [|c s Hc _ IH]; cbn; [done|]. by rewrite IH, decide_False. Qed.

Lemma last_dot_app b e :
  Forall (λ c, c ≠ "."%char) e → last_dot (b ++ "."%char :: e) = Some (b, e).
Proof.
  intros He. induction b as [|c b IH]; simpl; [by rewrite last_dot_none|by rewrite IH].
Qed.

Lemma last_dot_spec s :
  match last_dot s with
  | Some (b, e) => s = b ++ "."%char :: e ∧ Forall (λ c, c ≠ "."%char) e
  | None => Forall (λ c, c ≠ "."%char) s
  end.
Proof.
  induction s as [|c s IH]; simpl; [constructor|].
  destruct (last_dot s) as [[b e]|].
  - destruct IH as [-> He]. done.
  - case_decide; subst; [done|]. by constructor.
Qed.
