(* ===== verification/Memory.v ===== *)
(** Blocks of memory: [memcpy], [std::reverse] on characters and [snprintf] into
    a buffer, with the bounds of the object. *)

From S2P Require Import Prelude CString.

(** ** Blocks of memory *)

(** [data] with [s] written at [p]. *)
Definition blit (data : bytes) (p : Z) (s : bytes) : bytes :=
  take (Z.to_nat p) data ++ s ++ drop (Z.to_nat p + length s) data.

Definition memcpy (data : bytes) (p : Z) (s : bytes) : outcome bytes :=
  if decide (0 ≤ p ∧ p + zlen s ≤ zlen data) then Ret (blit data p s)
  else Undef OutOfBounds.

(** [std::reverse] on the elements from [a] to [b]. *)
Definition reverse_range (data : bytes) (a b : Z) : bytes :=
  take (Z.to_nat a) data ++
  rev (take (Z.to_nat b - Z.to_nat a) (drop (Z.to_nat a) data)) ++
  drop (Z.to_nat b) data.

Lemma zlen_app {A} (s t : list A) : zlen (s ++ t) = zlen s + zlen t.
Proof. unfold zlen. rewrite length_app. lia. Qed.
Lemma zlen_nonneg {A} (s : list A) : 0 ≤ zlen s.
Proof. unfold zlen. lia. Qed.

Lemma memcpy_ok data p s :
  0 ≤ p → p + zlen s ≤ zlen data → memcpy data p s = Ret (blit data p s).
Proof. intros. unfold memcpy. by rewrite decide_True. Qed.

Lemma zlen_blit data p s :
  0 ≤ p → p + zlen s ≤ zlen data → zlen (blit data p s) = zlen data.
Proof.
  unfold zlen, blit. intros. rewrite !length_app, length_take, length_drop. lia.
Qed.

Lemma upd_blit data p c : 0 ≤ p < zlen data → upd data p c = blit data p [c].
Proof.
  unfold zlen, blit, upd. intros. rewrite insert_take_drop by lia.
  simpl. by rewrite Nat.add_1_r.
Qed.

Lemma blit_app data p s t :
  0 ≤ p → p + zlen s + zlen t ≤ zlen data →
  blit (blit data p s) (p + zlen s) t = blit data p (s ++ t).
Proof.
  unfold zlen, blit. intros Hp Hl.
  replace (Z.to_nat (p + Z.of_nat (length s))) with (Z.to_nat p + length s)%nat by lia.
  rewrite !app_assoc. f_equal.
  - f_equal. rewrite take_app_le by (rewrite length_app, length_take; lia).
    by rewrite take_ge by (rewrite length_app, length_take; lia).
  - rewrite <- app_assoc, drop_app_ge, drop_app_ge
      by (rewrite ?length_app, ?length_take; lia).
    rewrite length_take, drop_drop, length_app. f_equal. lia.
Qed.

(** The same two blocks written in the other order. *)
Lemma blit_app_r data p s t :
  0 ≤ p → p + zlen s + zlen t ≤ zlen data →
  blit (blit data (p + zlen s) t) p s = blit data p (s ++ t).
Proof.
  unfold zlen, blit. intros Hp Hl.
  replace (Z.to_nat (p + Z.of_nat (length s))) with (Z.to_nat p + length s)%nat by lia.
  rewrite take_app_le by (rewrite length_take; lia).
  rewrite take_take, Nat.min_l by lia. f_equal.
  rewrite drop_app_ge by (rewrite length_take; lia).
  rewrite length_take, Nat.min_l, Nat.sub_diag, drop_0 by lia.
  rewrite length_app, <- !app_assoc. do 3 f_equal. lia.
Qed.

Lemma take_blit data p s :
  0 ≤ p → p + zlen s ≤ zlen data →
  take (Z.to_nat (p + zlen s)) (blit data p s) = take (Z.to_nat p) data ++ s.
Proof.
  unfold zlen, blit. intros. rewrite app_assoc, take_app_le
    by (rewrite length_app, length_take; lia).
  apply take_ge. rewrite length_app, length_take. lia.
Qed.

Lemma take_blit_before data p s q :
  0 ≤ q ≤ p → p ≤ zlen data →
  take (Z.to_nat q) (blit data p s) = take (Z.to_nat q) data.
Proof.
  unfold zlen, blit. intros. rewrite take_app_le by (rewrite length_take; lia).
  rewrite take_take. f_equal. lia.
Qed.

(** Reversing what was written. *)
Lemma reverse_blit data p s :
  0 ≤ p → p + zlen s ≤ zlen data →
  reverse_range (blit data p s) p (p + zlen s) = blit data p (rev s).
Proof.
  unfold zlen, blit, reverse_range. intros.
  replace (Z.to_nat (p + Z.of_nat (length s))) with (Z.to_nat p + length s)%nat by lia.
  rewrite length_rev. f_equal; [|f_equal].
  - rewrite take_app_le by (rewrite length_take; lia). rewrite take_take. f_equal. lia.
  - rewrite drop_app_ge by (rewrite length_take; lia). rewrite length_take.
    replace (Z.to_nat p - Z.to_nat p `min` length data)%nat with 0%nat by lia.
    rewrite drop_0, take_app_le by lia. rewrite take_ge by lia. done.
  - rewrite app_assoc, drop_app_ge by (rewrite length_app, length_take; lia).
    rewrite length_app, length_take, drop_drop. f_equal. lia.
Qed.

(** [snprintf(data + p, n, ...)] of a text: what fits, with its terminator, and
    the length of the whole text as result. [p] may be the end of the object. *)
Definition snprintf_at (data : bytes) (p n : Z) (text : bytes) : outcome (bytes * Z) :=
  if decide (0 ≤ p ≤ zlen data) then
    data ← (if n =? 0 then mret data else memcpy data p (snprintf n text ++ [NUL]));
    r ← int_ (zlen text);
    mret (data, r)
  else Undef OutOfBounds.

Lemma zlen_snprintf n text : 1 ≤ n → zlen (snprintf n text) = Z.min (n - 1) (zlen text).
Proof. intros. unfold snprintf, zlen. rewrite length_take. lia. Qed.

Lemma snprintf_short n text : zlen text < n → snprintf n text = text.
Proof. unfold snprintf, zlen. intros. apply take_ge. lia. Qed.

(** Inside the object it is defined, and keeps what is before [p]. *)
Lemma snprintf_at_ok data p n text :
  0 ≤ p → 0 ≤ n → p + n ≤ zlen data → zlen text ≤ INT_MAX →
  ∃ data', snprintf_at data p n text = Ret (data', zlen text) ∧ zlen data' = zlen data ∧
    (∀ q, 0 ≤ q ≤ p → take (Z.to_nat q) data' = take (Z.to_nat q) data) ∧
    (zlen text < n → data' = blit data p (text ++ [NUL])).
Proof.
  intros Hp Hn Hl Ht. unfold snprintf_at. rewrite decide_True by lia.
  pose proof (zlen_nonneg text) as H0.
  assert (in_int (zlen text)) as Hint by (unfold in_int, INT_MIN, INT_MAX in *; lia).
  destruct (Z.eqb_spec n 0) as [->|Hn0].
  - exists data. rewrite mret_bind, int_bind by done. split_and!; try done. lia.
  - pose proof (zlen_snprintf n text ltac:(lia)) as Hs.
    assert (zlen (snprintf n text ++ [NUL]) ≤ n) as Hlen
      by (rewrite zlen_app, Hs; unfold zlen at 2; cbn; lia).
    exists (blit data p (snprintf n text ++ [NUL])).
    rewrite memcpy_ok, Ret_bind, int_bind by (done || lia). split; [done|].
    split; [apply zlen_blit; lia|]. split.
    + intros q Hq. apply take_blit_before; lia.
    + intros. by rewrite snprintf_short.
Qed.
