(* ===== verification/StringPiece.v ===== *)
(** The pieces of strings of the C++ logging library:
    [src/src/log/muduo-clog/muduo/base/StringPiece.h].

    A piece is a pointer and a length. A pointer is [NULL] or an object with an
    offset; a piece only reads, so the object is its contents. The length is an
    [int] and becomes a [size_t] where it is passed to [memcmp] or [strlen]
    gives it. [memcmp] needs valid pointers for the whole length, and of its
    result only the sign is determined, by the first characters that differ. *)

From S2P Require Import Prelude CString Memory.

(** ** Reading through a pointer *)

Definition pointer : Type := option (bytes * Z).

Definition points_to (p : pointer) (n : Z) : outcome bytes :=
  match p with
  | None => Undef NullDeref
  | Some (object, off) =>
      if decide (0 ≤ off ∧ off + n ≤ zlen object) then
        Ret (take (Z.to_nat n) (drop (Z.to_nat off) object))
      else Undef OutOfBounds
  end.

Definition ptr_add (p : pointer) (n : Z) : outcome pointer :=
  match p with
  | None => if n =? 0 then Ret None else Undef NullDeref
  | Some (object, off) =>
      if decide (0 ≤ off + n ≤ zlen object) then Ret (Some (object, off + n))
      else Undef OutOfBounds
  end.

(** [strlen] finds its end inside the object. *)
Definition ptr_strlen (p : pointer) : outcome Z :=
  match p with
  | None => Undef NullDeref
  | Some (object, off) =>
      if decide (0 ≤ off ≤ zlen object) then
        let rest := drop (Z.to_nat off) object in
        if decide (strlen rest < zlen rest) then Ret (strlen rest) else Undef OutOfBounds
      else Undef OutOfBounds
  end.

(** ** The class *)

Record StringPiece := { ptr_ : pointer; length_ : Z }.

Definition StringPiece_empty : StringPiece := {| ptr_ := None; length_ := 0 |}.
Definition StringPiece_cstr (str : pointer) : outcome StringPiece :=
  n ← ptr_strlen str; mret {| ptr_ := str; length_ := to_s 32 n |}.
(** From a [string], whose [data()] is a pointer to its characters. *)
Definition StringPiece_string (str : bytes) : StringPiece :=
  {| ptr_ := Some (str, 0); length_ := to_s 32 (zlen str) |}.
Definition StringPiece_at (offset : pointer) (len : Z) : StringPiece :=
  {| ptr_ := offset; length_ := len |}.

Definition clear (p : StringPiece) : StringPiece := StringPiece_empty.
Definition empty (p : StringPiece) : bool := length_ p =? 0.
Definition piece_get (p : StringPiece) (i : Z) : outcome ascii :=
  q ← ptr_add (ptr_ p) i; s ← points_to q 1; aget s 0.

Definition remove_prefix (p : StringPiece) (n : Z) : outcome StringPiece :=
  q ← ptr_add (ptr_ p) n; len ← int_ (length_ p - n);
  mret {| ptr_ := q; length_ := len |}.
Definition remove_suffix (p : StringPiece) (n : Z) : outcome StringPiece :=
  len ← int_ (length_ p - n); mret {| ptr_ := ptr_ p; length_ := len |}.

(** [string(ptr, n)]: [None] is the exception [std::length_error], or
    [std::logic_error] for [NULL]. *)
Definition as_string (p : StringPiece) : outcome (option bytes) :=
  if decide (length_ p < 0) then mret None
  else match ptr_ p with
       | None => mret (if length_ p =? 0 then Some [] else None)
       | _ => s ← points_to (ptr_ p) (length_ p); mret (Some s)
       end.

Section order.
(** The value of [memcmp] at the first difference. *)
Context (delta : ascii → ascii → Z).

Fixpoint memcmp_text (s t : bytes) : Z :=
  match s, t with
  | c :: s, d :: t => if decide (c = d) then memcmp_text s t else delta c d
  | _, _ => 0
  end.

Definition memcmp (p q : pointer) (n : Z) : outcome Z :=
  s ← points_to p (to_u 64 n); t ← points_to q (to_u 64 n); mret (memcmp_text s t).

Definition piece_eq (p x : StringPiece) : outcome bool :=
  if length_ p =? length_ x then
    r ← memcmp (ptr_ p) (ptr_ x) (length_ p); mret (r =? 0)
  else mret false.
Definition piece_ne (p x : StringPiece) : outcome bool := b ← piece_eq p x; mret (negb b).

(** [STRINGPIECE_BINARY_PREDICATE(cmp, auxcmp)]. *)
Definition binary_predicate (cmp auxcmp : Z → Z → bool) (p x : StringPiece) : outcome bool :=
  r ← memcmp (ptr_ p) (ptr_ x)
        (if length_ p <? length_ x then length_ p else length_ x);
  mret (auxcmp r 0 || (r =? 0) && cmp (length_ p) (length_ x)).
Definition piece_lt := binary_predicate Z.ltb Z.ltb.
Definition piece_le := binary_predicate Z.leb Z.ltb.
Definition piece_ge := binary_predicate Z.geb Z.gtb.
Definition piece_gt := binary_predicate Z.gtb Z.gtb.

Definition compare (p x : StringPiece) : outcome Z :=
  r ← memcmp (ptr_ p) (ptr_ x)
        (if length_ p <? length_ x then length_ p else length_ x);
  mret (if r =? 0 then
          if length_ p <? length_ x then -1
          else if length_ p >? length_ x then 1 else r
        else r).

Definition starts_with (p x : StringPiece) : outcome bool :=
  if length_ p >=? length_ x then
    r ← memcmp (ptr_ p) (ptr_ x) (length_ x); mret (r =? 0)
  else mret false.
End order.

(** ** What a piece stands for *)

(** The piece is the text [s]. *)
Definition piece_is (p : StringPiece) (s : bytes) : Prop :=
  ∃ object off, ptr_ p = Some (object, off) ∧ 0 ≤ off ∧ length_ p = zlen s ∧
    zlen s ≤ INT_MAX ∧ off + zlen s ≤ zlen object ∧
    take (length s) (drop (Z.to_nat off) object) = s.

(** The order of texts: by the first difference, a proper prefix first. *)
Fixpoint text_compare (s t : bytes) : comparison :=
  match s, t with
  | [], [] => Eq
  | [], _ => Lt
  | _, [] => Gt
  | c :: s, d :: t =>
      match char_code c ?= char_code d with Eq => text_compare s t | o => o end
  end.

Lemma char_code_inj c d : char_code c = char_code d → c = d.
Proof.
  unfold char_code. intros H. apply N2Z.inj in H.
  by rewrite <- (ascii_N_embedding c), H, ascii_N_embedding.
Qed.

Lemma text_compare_eq s t : text_compare s t = Eq ↔ s = t.
Proof.
  revert t. induction s as [|c s IH]; intros [|d t]; cbn; try done.
  destruct (Z.compare_spec (char_code c) (char_code d)) as [E|E|E].
  - rewrite IH. apply char_code_inj in E as ->. split; [by intros ->|by intros [= ->]].
  - split; [done|]. intros [= -> ->]. lia.
  - split; [done|]. intros [= -> ->]. lia.
Qed.

Lemma text_compare_antisym s t : text_compare t s = CompOpp (text_compare s t).
Proof.
  revert t. induction s as [|c s IH]; intros [|d t]; cbn; try done.
  rewrite Z.compare_antisym. destruct (char_code c ?= char_code d); [apply IH|done..].
Qed.

Lemma text_compare_trans s t u :
  text_compare s t = Lt → text_compare t u = Lt → text_compare s u = Lt.
Proof.
  revert t u. induction s as [|c s IH]; intros [|d t] [|e u]; cbn; try done.
  destruct (Z.compare_spec (char_code c) (char_code d)) as [E|E|E]; try done;
    destruct (Z.compare_spec (char_code d) (char_code e)) as [F|F|F]; try done; intros H1 H2;
    destruct (Z.compare_spec (char_code c) (char_code e)); try done; try lia.
  by apply (IH t).
Qed.

Section order_laws.
Context (delta : ascii → ascii → Z).
Hypothesis delta_sign : ∀ c d, (delta c d ?= 0) = (char_code c ?= char_code d).

(** [memcmp] on the common length, then the lengths: the order of texts. *)
Lemma memcmp_text_compare s t :
  let k := Nat.min (length s) (length t) in
  let r := memcmp_text delta (take k s) (take k t) in
  text_compare s t = match r ?= 0 with Eq => zlen s ?= zlen t | o => o end.
Proof.
  revert t. unfold zlen. induction s as [|c s IH]; intros [|d t]; cbn -[Z.of_nat]; try done.
  specialize (IH t). cbn -[Z.of_nat] in IH. destruct (decide (c = d)) as [<-|Hcd].
  - rewrite Z.compare_refl, IH. destruct (_ ?= 0); try done.
    rewrite !Nat2Z.inj_succ. destruct (Z.compare_spec (Z.of_nat (length s)) (Z.of_nat (length t))); symmetry;
      [apply Z.compare_eq_iff|apply Z.compare_lt_iff|apply Z.compare_gt_iff]; lia.
  - rewrite delta_sign. destruct (Z.compare_spec (char_code c) (char_code d)); try done.
    by apply char_code_inj in H.
Qed.

Lemma points_to_piece p s n :
  piece_is p s → 0 ≤ n ≤ zlen s → points_to (ptr_ p) (to_u 64 n) = Ret (take (Z.to_nat n) s).
Proof.
  intros (o & off & -> & Hoff & Hl & Hmax & Ho & Hs) Hn. unfold points_to.
  rewrite to_u_small by (unfold INT_MAX in *; lia).
  rewrite decide_True by lia. f_equal. rewrite <- Hs, take_take. f_equal.
  unfold zlen in *. lia.
Qed.

Lemma memcmp_pieces p x s t n :
  piece_is p s → piece_is x t → 0 ≤ n ≤ zlen s → n ≤ zlen t →
  memcmp delta (ptr_ p) (ptr_ x) n =
  Ret (memcmp_text delta (take (Z.to_nat n) s) (take (Z.to_nat n) t)).
Proof.
  intros Hp Hx Hs Ht. unfold memcmp.
  rewrite (points_to_piece p s), (points_to_piece x t) by (done || lia). done.
Qed.

Lemma piece_length p s : piece_is p s → length_ p = zlen s.
Proof. intros (o & off & _ & _ & -> & _). done. Qed.

(** The common part of [compare] and the four comparisons. *)
Lemma memcmp_common p x s t :
  piece_is p s → piece_is x t →
  ∃ r, memcmp delta (ptr_ p) (ptr_ x)
         (if length_ p <? length_ x then length_ p else length_ x) = Ret r ∧
    text_compare s t = match r ?= 0 with Eq => zlen s ?= zlen t | o => o end.
Proof.
  intros Hp Hx. rewrite (piece_length p s), (piece_length x t) by done.
  replace (if zlen s <? zlen t then zlen s else zlen t)
    with (Z.of_nat (Nat.min (length s) (length t)))
    by (unfold zlen; destruct (Z.ltb_spec (Z.of_nat (length s)) (Z.of_nat (length t))); lia).
  eexists. rewrite (memcmp_pieces p x s t) by (done || unfold zlen; lia).
  split; [done|]. rewrite Nat2Z.id. apply memcmp_text_compare.
Qed.

(** The comparisons decide the order of the texts, whatever value [memcmp] has
    at a difference; [compare] has the sign of that order. *)
Lemma piece_order p x s t :
  piece_is p s → piece_is x t →
  piece_lt delta p x = Ret (bool_decide (text_compare s t = Lt)) ∧
  piece_le delta p x = Ret (bool_decide (text_compare s t ≠ Gt)) ∧
  piece_ge delta p x = Ret (bool_decide (text_compare s t ≠ Lt)) ∧
  piece_gt delta p x = Ret (bool_decide (text_compare s t = Gt)) ∧
  ∃ r, compare delta p x = Ret r ∧ (r ?= 0) = text_compare s t.
Proof.
  intros Hp Hx. destruct (memcmp_common p x s t Hp Hx) as (r & Hr & ->).
  unfold piece_lt, piece_le, piece_ge, piece_gt, binary_predicate, compare.
  rewrite Hr, !Ret_bind, (piece_length p s), (piece_length x t) by done.
  assert (r < 0 ∨ r = 0 ∨ 0 < r) as [H|[->|H]] by lia.
  - pose proof H as E. apply Z.compare_lt_iff in E as ->.
    assert ((r <? 0) = true) as -> by lia. assert ((r =? 0) = false) as -> by lia.
    assert ((r >? 0) = false) as -> by lia. split_and!; try done. exists r. by split.
  - rewrite Z.compare_refl. destruct (Z.compare_spec (zlen s) (zlen t)) as [E|E|E].
    + rewrite E. unfold Z.geb, Z.gtb, Z.leb. rewrite Z.compare_refl.
      split_and!; rewrite ?Z.ltb_irrefl; try done. by exists 0.
    + assert ((zlen s <? zlen t) = true) as -> by lia.
      assert ((zlen s <=? zlen t) = true) as -> by lia.
      assert ((zlen s >=? zlen t) = false) as -> by lia.
      assert ((zlen s >? zlen t) = false) as -> by lia. split_and!; try done; by eexists.
    + assert ((zlen s <? zlen t) = false) as -> by lia.
      assert ((zlen s <=? zlen t) = false) as -> by lia.
      assert ((zlen s >=? zlen t) = true) as -> by lia.
      assert ((zlen s >? zlen t) = true) as -> by lia. split_and!; try done; by eexists.
  - pose proof H as E. apply Z.compare_gt_iff in E as ->.
    assert ((r <? 0) = false) as -> by lia. assert ((r =? 0) = false) as -> by lia.
    assert ((r >? 0) = true) as -> by lia. split_and!; try done. exists r.
    split; [done|by apply Z.compare_gt_iff].
Qed.

Lemma memcmp_text_zero s t :
  length s = length t → (memcmp_text delta s t =? 0) = bool_decide (s = t).
Proof.
  revert t. induction s as [|c s IH]; intros [|d t] Hl; cbn; try done.
  case_decide as Hcd; subst.
  - rewrite IH by (cbn in Hl; lia). apply bool_decide_ext. naive_solver.
  - rewrite bool_decide_false by congruence. apply Z.eqb_neq. intros H0.
    pose proof (delta_sign c d) as Hd. rewrite H0 in Hd. symmetry in Hd.
    by apply Z.compare_eq_iff, char_code_inj in Hd.
Qed.

(** Equality of pieces is equality of the texts, and [starts_with] is the prefix
    relation. *)
Lemma piece_eq_text p x s t :
  piece_is p s → piece_is x t → piece_eq delta p x = Ret (bool_decide (s = t)).
Proof.
  intros Hp Hx. unfold piece_eq. rewrite (piece_length p s), (piece_length x t) by done.
  destruct (Z.eqb_spec (zlen s) (zlen t)) as [E|E].
  - rewrite (memcmp_pieces p x s t) by (done || unfold zlen in *; lia).
    unfold zlen in *. rewrite Ret_bind, Nat2Z.id, take_ge, take_ge by lia.
    by rewrite memcmp_text_zero by lia.
  - by rewrite bool_decide_false by congruence.
Qed.

Lemma starts_with_prefix p x s t :
  piece_is p s → piece_is x t →
  starts_with delta p x = Ret (bool_decide (t `prefix_of` s)).
Proof.
  intros Hp Hx. unfold starts_with. rewrite (piece_length p s), (piece_length x t) by done.
  rewrite Z.geb_leb. destruct (Z.leb_spec (zlen t) (zlen s)) as [E|E].
  - rewrite (memcmp_pieces p x s t) by (done || unfold zlen in *; lia).
    unfold zlen in *. rewrite Ret_bind, Nat2Z.id, (take_ge t) by lia.
    rewrite memcmp_text_zero by (rewrite length_take; lia). unfold mret, outcome_ret.
    f_equal. apply bool_decide_ext. split.
    + intros <-. apply prefix_take.
    + intros [k ->]. by rewrite take_app_length.
  - rewrite bool_decide_false; [done|]. intros Hpre%prefix_length. unfold zlen in *. lia.
Qed.
End order_laws.

(** ** Construction and shrinking *)

Lemma StringPiece_string_is s : zlen s ≤ INT_MAX → piece_is (StringPiece_string s) s.
Proof.
  intros Hs. exists s, 0. cbn. unfold INT_MAX in *. pose proof (zlen_nonneg s).
  rewrite to_s_small by (cbn; lia). split_and!; try done; try lia. by rewrite take_ge.
Qed.

(** Of a text of 2^31 characters or more the length is not the text's. *)
Lemma StringPiece_string_wraps s :
  INT_MAX < zlen s < 2 ^ 32 → length_ (StringPiece_string s) < 0.
Proof.
  intros Hs. cbn. unfold to_s, INT_MAX in *. change (2 ^ (32 - 1)) with 2147483648.
  change (2 ^ 32) with 4294967296 in *.
  rewrite (Z.mod_eq _ 4294967296) by done.
  assert ((zlen s + 2147483648) / 4294967296 = 1) as ->; [|lia].
  symmetry. apply (Z.div_unique _ _ _ (zlen s - 2147483648)); lia.
Qed.

Lemma StringPiece_cstr_is s rest :
  no_nul s → zlen s ≤ INT_MAX →
  ∃ p, StringPiece_cstr (Some (s ++ NUL :: rest, 0)) = Ret p ∧ piece_is p s.
Proof.
  intros Hs Hmax. pose proof (zlen_nonneg s). unfold StringPiece_cstr, ptr_strlen.
  rewrite decide_True by (pose proof (zlen_nonneg (s ++ NUL :: rest)); lia).
  change (drop (Z.to_nat 0) (s ++ NUL :: rest)) with (s ++ NUL :: rest).
  assert (cstr (s ++ NUL :: rest) = s) as Hc
    by (unfold cstr; by rewrite take_while_app, take_while_stop, app_nil_r).
  unfold strlen. rewrite Hc.
  assert (zlen (s ++ NUL :: rest) = zlen s + 1 + zlen rest) as Hl
    by (rewrite zlen_app; unfold zlen; cbn; lia).
  pose proof (zlen_nonneg rest). rewrite decide_True by (unfold zlen in *; lia).
  eexists. split; [done|]. exists (s ++ NUL :: rest), 0. cbn [ptr_ length_].
  rewrite to_s_small by (unfold INT_MAX, zlen in *; cbn; lia).
  split_and!; try done; try lia. apply take_app_length.
Qed.

Lemma remove_prefix_is p s n :
  piece_is p s → 0 ≤ n ≤ zlen s →
  ∃ q, remove_prefix p n = Ret q ∧ piece_is q (drop (Z.to_nat n) s).
Proof.
  intros (o & off & Hp & Hoff & Hl & Hmax & Ho & Hs) Hn. unfold remove_prefix, ptr_add.
  rewrite Hp, Hl, decide_True by lia. rewrite Ret_bind.
  rewrite int_bind by (unfold in_int, INT_MIN, INT_MAX in *; lia).
  eexists. split; [done|]. exists o, (off + n). cbn [ptr_ length_].
  assert (zlen (drop (Z.to_nat n) s) = zlen s - n) as Hlen
    by (unfold zlen in *; rewrite length_drop; lia).
  rewrite Hlen. split_and!; try done; try lia.
  rewrite <- Hs at 2. rewrite length_drop, skipn_firstn_comm, drop_drop. f_equal.
  f_equal. lia.
Qed.

Lemma remove_suffix_is p s n :
  piece_is p s → 0 ≤ n ≤ zlen s →
  ∃ q, remove_suffix p n = Ret q ∧ piece_is q (take (length s - Z.to_nat n) s).
Proof.
  intros (o & off & Hp & Hoff & Hl & Hmax & Ho & Hs) Hn. unfold remove_suffix.
  rewrite Hl, int_bind by (unfold in_int, INT_MIN, INT_MAX in *; lia).
  eexists. split; [done|]. exists o, off. cbn [ptr_ length_].
  assert (zlen (take (length s - Z.to_nat n) s) = zlen s - n) as Hlen
    by (unfold zlen in *; rewrite length_take; lia).
  rewrite Hlen. split_and!; try done; try lia.
  rewrite length_take, <- take_take. by rewrite Hs.
Qed.

Lemma as_string_is p s : piece_is p s → as_string p = Ret (Some s).
Proof.
  intros Hp. pose proof Hp as (o & off & Hpp & Hoff & Hl & Hmax & Ho & Hs).
  pose proof (zlen_nonneg s). unfold as_string. rewrite Hpp, Hl, decide_False by lia.
  unfold points_to. rewrite decide_True by lia. rewrite Ret_bind.
  unfold zlen. by rewrite Nat2Z.id, Hs.
Qed.

(** Taking off more than there is leaves a negative length, and the next
    comparison with it reads outside the object. *)
Lemma remove_suffix_overruns delta p s n o off :
  piece_is p s → ptr_ p = Some (o, off) → zlen o < 2 ^ 63 → zlen s < n ≤ INT_MAX →
  ∃ q, remove_suffix p n = Ret q ∧ length_ q < 0 ∧ as_string q = Ret None ∧
    piece_eq delta q q = Undef OutOfBounds.
Proof.
  intros Hps Hp Ho63 Hn. pose proof (piece_length p s Hps) as Hl.
  pose proof (zlen_nonneg s). unfold remove_suffix.
  rewrite Hl, int_bind by (unfold in_int, INT_MIN, INT_MAX in *; lia).
  eexists. split; [done|]. cbn [ptr_ length_]. split; [lia|]. split.
  - unfold as_string. cbn [ptr_ length_]. by rewrite decide_True by lia.
  - unfold piece_eq, memcmp, points_to. cbn [ptr_ length_]. rewrite Z.eqb_refl, Hp.
    rewrite decide_False; [done|]. unfold to_u, INT_MAX in *.
    rewrite <- (Z.mod_add _ 1 (2 ^ 64)), Z.mod_small by lia. lia.
Qed.

(** A piece without text is [NULL], which [memcmp] must not be given. *)
Lemma empty_piece_undefined delta :
  piece_eq delta StringPiece_empty StringPiece_empty = Undef NullDeref.
Proof. done. Qed.
