(* ===== verification/GHash.v ===== *)
(** The interface of GLib's [GHashTable], which the sources use with
    [g_str_hash] and [g_str_equal]: a table from the text of a key to the key
    pointer it was stored under and its value. The operations are a parameter
    of the components that use them; the laws state GLib's documentation:

    - [g_hash_table_insert] on a key that is already there replaces the value
      and keeps the key pointer stored first;
    - [g_hash_table_foreach] visits every entry once, in an order that the
      documentation leaves open. *)

From S2P Require Import Prelude CString.

Class GHashTable (T : Type → Type → Type) := {
  gh_new : ∀ {K V : Type}, T K V;
  gh_insert : ∀ {K V : Type}, bytes → K → V → T K V → T K V;
  gh_lookup : ∀ {K V : Type}, bytes → T K V → option (K * V);
  gh_foreach : ∀ {K V : Type}, T K V → list (bytes * (K * V))
}.

Class GHashTableLaws (T : Type → Type → Type) `{!GHashTable T} := {
  gh_lookup_new : ∀ K V s, gh_lookup (K:=K) (V:=V) s gh_new = None;
  gh_lookup_insert : ∀ K V s (k : K) (v : V) (t : T K V),
    gh_lookup s (gh_insert s k v t) =
      Some (match gh_lookup s t with Some (k0, _) => k0 | None => k end, v);
  gh_lookup_insert_ne : ∀ K V s s' (k : K) (v : V) (t : T K V),
    s ≠ s' → gh_lookup s' (gh_insert s k v t) = gh_lookup s' t;
  gh_foreach_nodup : ∀ K V (t : T K V), NoDup (gh_foreach t).*1;
  gh_foreach_lookup : ∀ K V (t : T K V) s e,
    (s, e) ∈ gh_foreach t ↔ gh_lookup s t = Some e
}.

(** Finite maps are a hash table in this sense: the instance the witnesses
    compute with. *)
Definition gmap_table (K V : Type) : Type := gmap bytes (K * V).

#[export] Instance gmap_GHashTable : GHashTable gmap_table := {
  gh_new K V := ∅;
  gh_insert K V s k v t :=
    let k0 := match (t : gmap bytes (K * V)) !! s with
              | Some (k0, _) => k0
              | None => k
              end in
    <[s := (k0, v)]> (t : gmap bytes (K * V));
  gh_lookup K V s t := (t : gmap bytes (K * V)) !! s;
  gh_foreach K V t := map_to_list (t : gmap bytes (K * V))
}.

#[export] Instance gmap_GHashTableLaws : GHashTableLaws gmap_table.
Proof.
  split; unfold gmap_table; simpl; intros.
  - apply (lookup_empty (M:=gmap bytes)).
  - by rewrite (lookup_insert_eq (M:=gmap bytes)).
  - by rewrite (lookup_insert_ne (M:=gmap bytes)).
  - apply (NoDup_fst_map_to_list (M:=gmap bytes)).
  - apply (elem_of_map_to_list (M:=gmap bytes)).
Qed.

(** A table with one key: what a lookup sees after an insertion. *)
Lemma gh_lookup_insert_case `{GHashTableLaws T} K V s s' (k : K) (v : V)
    (t : T K V) :
  gh_lookup s' (gh_insert s k v t) =
    if decide (s = s')
    then Some (match gh_lookup s t with Some (k0, _) => k0 | None => k end, v)
    else gh_lookup s' t.
Proof.
  case_decide as E; [subst; apply gh_lookup_insert|by apply gh_lookup_insert_ne].
Qed.
