(* ===== verification/ConfText.v ===== *)
(** The text format of the configuration files, as both readers parse it:
    [src/src/utils/config/iridium_conf_core.c] and
    [src/src/log/iridiumSysLog/iridiumlog_conf/iridium_conf_core.c] share the
    routines below word for word (apart from log messages). What differs, the
    handling of the switch line and of a missing [-end], is a parameter of
    [conf_turn]; ConfCore.v and LogConfCore.v fill it in.

    A pointer into the file buffer is the part of the file from there on; a
    [char] field of a record is the C string it holds, the rest of the array
    being zero since the record was cleared by [memset]. *)

From S2P Require Import Prelude CString.

Definition MAX_CONF_FILE_SIZE : Z := 1024 * 1024 * 2.
Definition MAX_LINE_LEN : Z := 1024.
Definition CONF_STRING_MAX_LEN : Z := 128.
Definition CONF_MAX_NODE_NUM : Z := 64.

Record single_conf_pair := { name : bytes; value : bytes }.
Record conf_pairs := {
  mode_name : bytes;
  pairs : list single_conf_pair;
  cur_pos : Z
}.

#[export] Instance single_conf_pair_inhabited : Inhabited single_conf_pair :=
  populate {| name := []; value := [] |}.

(** A record after [memset(conf_pairs, 0, sizeof(conf_pairs_t))]. *)
Definition new_conf_pairs (mode : bytes) : conf_pairs :=
  {| mode_name := mode;
     pairs := replicate (Z.to_nat CONF_MAX_NODE_NUM) inhabitant;
     cur_pos := 0 |}.

(** [char line[256]; memset; memcpy(line, src, len); line[len] = '\0';] read
    back as a C string. *)
Definition copy_line (src : bytes) (len : Z) : outcome bytes :=
  if decide (0 ≤ len ≤ 255 ∧ len ≤ zlen src)
  then mret (cstr (take (Z.to_nat len) src))
  else Undef OutOfBounds.

(** Byte 127 of a [char[CONF_STRING_MAX_LEN]] field. *)
Definition last_byte (f : bytes) : ascii := default NUL (f !! 127%nat).

(** The first word of a line. *)
Definition first_word (line : bytes) : bytes :=
  take_while (λ c, negb (is_blank c)) (drop_while is_blank line).

(** [get_string(dst, src, len)]: the new contents of [dst], [None] for -1.
    [before] is the byte in front of [dst], when the record has one: an empty
    word makes the code inspect [dst[-1]]. *)
Definition get_string (before : option ascii) (src : bytes) (len : Z)
    : outcome (option bytes) :=
  let len := if decide (len = -1) then strlen src else len in
  line ← copy_line src len;
  let word := first_word line in
  if decide (zlen word < CONF_STRING_MAX_LEN - 1) then
    match last word, before with
    | Some c, _ => mret (Some (if decide (c = CR)
                               then take (length word - 1) word else word))
    | None, None => Undef OutOfBounds
    | None, Some b => if decide (b = CR) then Undef OutOfBounds
                      else mret (Some [])
    end
  else mret None.

(** The valid length of a line: 0 for a comment line. *)
Definition check_comment_line (start : bytes) (len : Z) : outcome Z :=
  if decide (0 ≤ len < MAX_LINE_LEN ∧ len ≤ zlen start) then
    let buf := cstr (take (Z.to_nat len) start) in
    match strchr buf "#"%char with
    | Some m => mret (if forallb is_blank (take m buf) then 0 else Z.of_nat m)
    | None => mret len
    end
  else Undef OutOfBounds.

(** One [key = value] line; [None] for -1. *)
Definition iri_conf_line_handle (before : ascii) (buf : bytes) (len : Z)
    : outcome (option single_conf_pair) :=
  if decide (len > 255) then mret None else
  line ← copy_line buf len;
  match strchr line "="%char with
  | None => mret None
  | Some mid =>
      n ← get_string (Some before) line (Z.of_nat mid);
      match n with
      | None => mret None
      | Some n =>
          v ← get_string (Some (last_byte n)) (drop (S mid) line) (-1);
          match v with
          | None => mret None
          | Some v => mret (Some {| name := n; value := v |})
          end
      end
  end.

(** The byte in front of [pairs[cur_pos].name]. *)
Definition byte_before (cp : conf_pairs) : ascii :=
  if decide (cur_pos cp = 0) then last_byte (mode_name cp)
  else last_byte (value (rd (pairs cp) (cur_pos cp - 1))).

Definition take_line (p : bytes) : bytes := take_while (not_char LF) p.
Definition drop_line (p : bytes) : bytes := drop_while (not_char LF) p.

(** One line of [handle_conf_block]; the state is [p] and [conf_pairs]. *)
Definition block_turn (alloc_ok : bool) (s : bytes * option conf_pairs)
    : outcome (turn (bytes * option conf_pairs) (option conf_pairs)) :=
  let '(p, conf) := s in
  match p with
  | [] => mret (Stop conf)
  | _ =>
      let line := take_line p in
      match drop_line p with
      | [] => mret (Stop conf)
      | _ :: next =>
          if decide (zlen line > MAX_LINE_LEN - 1) then mret (Stop conf) else
          len ← check_comment_line p (zlen line);
          if decide (len > 0) then
            match conf with
            | None =>
                if alloc_ok then
                  r ← get_string None p len;
                  match r with
                  | None => mret (Stop None)
                  | Some m => mret (Next (next, Some (new_conf_pairs m)))
                  end
                else mret (Stop None)
            | Some cp =>
                r ← iri_conf_line_handle (byte_before cp) p len;
                match r with
                | None => mret (Stop None)
                | Some kv =>
                    ps ← aset (pairs cp) (cur_pos cp) kv;
                    let cp := {| mode_name := mode_name cp; pairs := ps;
                                 cur_pos := cur_pos cp + 1 |} in
                    if decide (cur_pos cp >= CONF_MAX_NODE_NUM)
                    then mret (Stop (Some cp))
                    else mret (Next (next, Some cp))
                end
            end
          else mret (Next (next, conf))
      end
  end.

(** [handle_conf_block(start, end)] on the text between the two pointers. *)
Definition handle_conf_block (alloc_ok : bool) (start : option bytes)
    : outcome (option conf_pairs) :=
  match start with
  | None => mret None
  | Some blk => loop (S (length blk)) (block_turn alloc_ok) (blk, None)
  end.

(** [get_value(conf_pairs, name)]. *)
Definition get_value (cp : conf_pairs) (nm : bytes) : outcome (option bytes) :=
  loop (S (Z.to_nat (cur_pos cp))) (λ i,
    if decide (i < cur_pos cp) then
      kv ← aget (pairs cp) i;
      if decide (nm = name kv) then mret (Stop (Some (value kv)))
      else mret (Next (i + 1))
    else mret (Stop None)) 0.

(** The character that decides a switch line [@KEY = c]: [buf] is what
    [log_switch_buf] holds, [None] when the line is not a switch. *)
Definition switch_char (key buf : bytes) : option ascii :=
  if strstr (cstr buf) key then
    match drop_while is_blank (drop 1 (drop_while (not_char "="%char) buf)) with
    | c :: _ => Some c
    | [] => None
    end
  else None.

Section conf_scan.
(** [M]: the manager. [on_switch]: what a switch character does, continuing
    or leaving with a return value. [bad_end]: leaving on a [-] line that is
    not [-end]. [full]: the file filled the buffer, so that reading at its
    end leaves the buffer. [alloc]: the outcome of the allocation made with
    that many bytes left. *)
Context {M : Type}.
Context (switch_str : bytes) (on_switch : ascii → M → M + Z * M).
Context (bad_end : outcome Z) (insert : conf_pairs → M → outcome M).
Context (full : bool) (alloc : nat → bool).

Definition deref (p : bytes) : outcome ascii :=
  match p with
  | c :: _ => mret c
  | [] => if full then Undef OutOfBounds else mret NUL
  end.

(** The [-] lines: [p] after them, the open block and the manager. *)
Definition block_line (p : bytes) (start : option bytes) (m : M) (c : ascii)
    : outcome (bytes * option bytes * M + Z * M) :=
  if decide (c = "-"%char) then
    match start with
    | Some blk =>
        (* strncmp reads on past a full buffer that ends in a part of "-end" *)
        if full && negb (is_prefix (lit "-end") p) && is_prefix p (lit "-end")
        then Undef OutOfBounds
        else if is_prefix (lit "-end") p then
          r ← handle_conf_block (alloc (length p))
                (Some (take (length blk - length p) blk));
          match r with
          | None => mret (inl (p, None, m))
          | Some cp => m ← insert cp m; mret (inl (p, None, m))
          end
        else ret ← bad_end; mret (inr (ret, m))
    | None => mret (inl (drop 1 p, Some (drop 1 p), m))
    end
  else mret (inl (p, start, m)).

(** One line of the reading loop. The state is [p], [block_start] (with
    [block_start_flag] 0 exactly when a block is open) and the manager. *)
Definition conf_turn (s : bytes * option bytes * M)
    : outcome (turn (bytes * option bytes * M) (Z * M)) :=
  let '(p, start, m) := s in
  match p with
  | [] => mret (Stop (0, m))
  | _ =>
      let p := drop_while is_blank p in
      c ← deref p;
      let p := if decide (c = "#"%char) then drop_line p else p in
      c ← deref p;
      if decide (c = "@"%char) then
        let line := take_line (drop 1 p) in
        let next := drop 1 (drop_line (drop 1 p)) in
        match switch_char switch_str (take 125 line) with
        | Some d =>
            match on_switch d m with
            | inl m => mret (Next (next, start, m))
            | inr r => mret (Stop r)
            end
        | None => mret (Next (next, start, m))
        end
      else
        r ← block_line p start m c;
        match r with
        | inr r => mret (Stop r)
        | inl (p, start, m) =>
            match drop_line p with
            | [] => mret (Stop (0, m))
            | _ :: next => mret (Next (next, start, m))
            end
        end
  end.

Definition conf_scan (file : bytes) (m : M) : outcome (Z * M) :=
  loop (S (length file)) conf_turn (file, None, m).
End conf_scan.

(** ** Every line is handled in bounded time *)

Lemma copy_line_settled src len : settled (copy_line src len).
Proof. unfold copy_line. settle. Qed.
#[export] Hint Resolve copy_line_settled : lctools.

Lemma get_string_settled before src len : settled (get_string before src len).
Proof. unfold get_string. settle. Qed.
#[export] Hint Resolve get_string_settled : lctools.

Lemma check_comment_line_settled p len : settled (check_comment_line p len).
Proof. unfold check_comment_line. settle. Qed.
#[export] Hint Resolve check_comment_line_settled : lctools.

Lemma iri_conf_line_handle_settled b p len : settled (iri_conf_line_handle b p len).
Proof. unfold iri_conf_line_handle. settle. Qed.
#[export] Hint Resolve iri_conf_line_handle_settled : lctools.

Lemma drop_line_next p c next :
  drop_line p = c :: next → (length next < length p)%nat.
Proof.
  intros E. pose proof (drop_while_length (not_char LF) p).
  unfold drop_line in E. rewrite E in *. simpl in *. lia.
Qed.

Lemma handle_conf_block_settled alloc_ok start :
  settled (handle_conf_block alloc_ok start).
Proof.
  destruct start as [blk|]; [|done]. unfold handle_conf_block.
  apply (settled_loop (λ s, length s.1)); [simpl; lia|]. intros [p conf].
  unfold block_turn. settle; subst; eapply drop_line_next; done.
Qed.
#[export] Hint Resolve handle_conf_block_settled : lctools.

Lemma get_value_settled cp nm : settled (get_value cp nm).
Proof.
  unfold get_value. apply (settled_loop (λ i, Z.to_nat (cur_pos cp - i))); [lia|].
  intros i. settle; lia.
Qed.
#[export] Hint Resolve get_value_settled : lctools.

Section conf_scan_settled.
Context {M : Type}.
Context (switch_str : bytes) (on_switch : ascii → M → M + Z * M).
Context (bad_end : outcome Z) (insert : conf_pairs → M → outcome M).
Context (full : bool) (alloc : nat → bool).
Hypothesis bad_end_settled : settled bad_end.
Hypothesis insert_settled : ∀ cp m, settled (insert cp m).

Lemma deref_settled p : settled (deref full p).
Proof. unfold deref. settle. Qed.

Lemma block_line_settled p start m c :
  settled (block_line bad_end insert full alloc p start m c).
Proof using All. unfold block_line. settle. Qed.

(** The part of the file behind a [-] line is no longer than before it. *)
Lemma block_line_length p start m c p' start' m' :
  block_line bad_end insert full alloc p start m c = Ret (inl (p', start', m')) →
  (length p' ≤ length p)%nat.
Proof.
  unfold block_line. case_decide; [|by intros [= <- <- <-]].
  destruct start as [blk|].
  - case_match; [done|]. case_match.
    + destruct (handle_conf_block _ _) as [[cp|]| | |]; simpl; try done.
      * destruct (insert cp m); simpl; try done. by intros [= <- <- <-].
      * by intros [= <- <- <-].
    + destruct bad_end; done.
  - intros [= <- <- <-]. rewrite length_drop. lia.
Qed.

Lemma switch_line_length r :
  deref full r = Ret "@"%char →
  (length (drop 1 (drop_line (drop 1 r))) < length r)%nat.
Proof.
  destruct r as [|c r]; unfold deref; [by destruct full|].
  intros _. pose proof (drop_while_length (not_char LF) r).
  unfold drop_line in *.
  rewrite length_drop. simpl. rewrite drop_0. lia.
Qed.

Lemma conf_scan_settled file m :
  settled (conf_scan switch_str on_switch bad_end insert full alloc file m).
Proof using All.
  unfold conf_scan. apply (settled_loop (λ s, length s.1.1)); [simpl; lia|].
  intros [[p start] m']. unfold conf_turn.
  destruct p as [|c0 p0]; [exact I|]. set (p := c0 :: p0).
  pose proof (drop_while_length is_blank p).
  set (q := drop_while is_blank p) in *.
  apply advances_bind; [apply deref_settled|]. intros c Hc.
  set (r := if decide (c = "#"%char) then drop_line q else q).
  assert (length r ≤ length q)%nat.
  { subst r. case_decide; [apply drop_while_length|lia]. }
  apply advances_bind; [apply deref_settled|]. intros d Hd. clearbody p q r.
  cbn zeta. settle; subst; simpl.
  - apply switch_line_length in Hd. lia.
  - apply switch_line_length in Hd. lia.
  - apply block_line_settled.
  - apply block_line_length in H1. pose proof (drop_line_next _ _ _ Heql0). lia.
Qed.
End conf_scan_settled.

(** ** Writing a configuration, and reading it back *)

(** A word of a configuration: what [get_string] stores without change. *)
Definition word_char (c : ascii) : bool :=
  negb (is_blank c) && not_char LF c && not_char NUL c && not_char CR c &&
  not_char "#"%char c.
Definition is_word (w : bytes) : Prop :=
  w ≠ [] ∧ zlen w < CONF_STRING_MAX_LEN - 1 ∧ Forall (λ c, word_char c = true) w.
(** A key also has no ['='] and starts neither like a [-] nor a [@] line. *)
Definition is_key (w : bytes) : Prop :=
  is_word w ∧ Forall (λ c, c ≠ "="%char) w ∧
  head w ≠ Some "-"%char ∧ head w ≠ Some "@"%char.

#[export] Instance is_word_dec w : Decision (is_word w).
Proof. unfold is_word. apply _. Defined.

Definition well_formed_pair (kv : single_conf_pair) : Prop :=
  is_key (name kv) ∧ is_word (value kv).
#[export] Instance well_formed_pair_dec kv : Decision (well_formed_pair kv).
Proof. unfold well_formed_pair, is_key. apply _. Defined.

Definition render_pair (kv : single_conf_pair) : bytes :=
  name kv ++ lit " = " ++ value kv ++ [LF].
Definition render_mode (mode : bytes * list single_conf_pair) : bytes :=
  "-"%char :: mode.1 ++ LF :: concat (render_pair <$> mode.2) ++
  lit "-end" ++ [LF].
Definition render_conf (modes : list (bytes * list single_conf_pair)) : bytes :=
  concat (render_mode <$> modes).

(** The record that holds a mode: at most 64 pairs, the rest is zero. *)
Definition pairs_of (mode : bytes) (kvs : list single_conf_pair) : conf_pairs :=
  {| mode_name := mode;
     pairs := kvs ++ replicate (64 - length kvs) inhabitant;
     cur_pos := zlen kvs |}.

Lemma word_char_spec c :
  word_char c = true ↔
  is_blank c = false ∧ c ≠ LF ∧ c ≠ NUL ∧ c ≠ CR ∧ c ≠ "#"%char.
Proof.
  unfold word_char. rewrite !andb_true_iff, negb_true_iff, !not_char_true. tauto.
Qed.

Lemma is_word_app_first_word w k :
  Forall (λ c, word_char c = true) w → (k = [] ∨ ∃ k', k = SP :: k') →
  take_while (λ c, negb (is_blank c)) (w ++ k) = w.
Proof.
  intros Hw Hk. rewrite take_while_app.
  - destruct Hk as [->|[k' ->]]; by rewrite app_nil_r.
  - eapply Forall_impl; [done|]. intros c Hc%word_char_spec. simpl.
    by destruct Hc as [-> _].
Qed.

Lemma word_head w : is_word w → ∃ c w', w = c :: w' ∧ word_char c = true.
Proof. intros (Hne&_&Hw). destruct Hw as [|c w']; [done|]. eauto. Qed.

Lemma word_last w : is_word w → ∃ c, last w = Some c ∧ word_char c = true.
Proof.
  intros (Hne&_&Hw). destruct (last w) as [c|] eqn:E.
  - exists c. split; [done|]. rewrite Forall_forall in Hw. apply Hw.
    by apply last_Some_elem_of.
  - by apply last_None in E.
Qed.

Lemma word_no_nul w : Forall (λ c, word_char c = true) w → no_nul w.
Proof.
  intros Hw. eapply Forall_impl; [done|]. intros c Hc%word_char_spec.
  apply not_char_true. tauto.
Qed.

(** [get_string] on a word between blanks. *)
Lemma get_string_word before src len pre w post :
  is_word w → 0 ≤ len ≤ 255 → len ≤ zlen src →
  take (Z.to_nat len) src = pre ++ w ++ post →
  Forall (λ c, c = SP) pre → (post = [] ∨ post = [SP]) →
  get_string before src len = Ret (Some w).
Proof.
  intros Hw Hlen Hsrc Htake Hpre Hpost. unfold get_string.
  rewrite decide_False by lia. unfold copy_line.
  rewrite decide_True by lia. cbn [mbind outcome_bind mret outcome_ret].
  rewrite Htake. destruct (word_last w Hw) as (c&Hlast&Hc%word_char_spec).
  destruct (word_head w Hw) as (h&w'&Heq&Hh%word_char_spec).
  destruct Hw as (_&Hl&Hchars).
  rewrite cstr_no_nul.
  2: { unfold no_nul. rewrite !Forall_app. split_and!.
       - eapply Forall_impl; [done|]. by intros ? ->.
       - by apply word_no_nul.
       - destruct Hpost as [->| ->]; repeat constructor. }
  assert (Hfw : first_word (pre ++ w ++ post) = w).
  { unfold first_word. rewrite drop_while_app.
    - rewrite Heq at 1. cbn [app]. rewrite drop_while_stop by tauto.
      change (h :: w' ++ post) with ((h :: w') ++ post). rewrite <- Heq.
      apply is_word_app_first_word; [done|].
      destruct Hpost as [->| ->]; [by left|right; by eexists].
    - eapply Forall_impl; [done|]. by intros ? ->. }
  rewrite Hfw, decide_True by done. cbn zeta.
  rewrite Hlast, decide_False by tauto. done.
Qed.

Lemma strlen_no_nul s : no_nul s → strlen s = zlen s.
Proof. intros H. unfold strlen. by rewrite cstr_no_nul. Qed.

Lemma get_string_word_all before src pre w :
  is_word w → zlen src ≤ 255 → src = pre ++ w → Forall (λ c, c = SP) pre →
  get_string before src (-1) = Ret (Some w).
Proof.
  intros Hw Hlen Hsrc Hpre.
  assert (no_nul src).
  { subst src. unfold no_nul. rewrite Forall_app. split.
    - eapply Forall_impl; [done|]. by intros ? ->.
    - apply word_no_nul, Hw. }
  transitivity (get_string before src (zlen src)).
  { unfold get_string. rewrite decide_True by done.
    rewrite decide_False by (unfold zlen; lia). by rewrite strlen_no_nul. }
  eapply (get_string_word _ _ _ pre w []);
    [done|unfold zlen in *; lia|lia| |done|by left].
  unfold zlen. rewrite Nat2Z.id, firstn_all, Hsrc. by rewrite app_nil_r.
Qed.

(** What is left in front of the line feed of a pair's line. *)
Definition pair_line (kv : single_conf_pair) : bytes :=
  name kv ++ lit " = " ++ value kv.

Lemma pair_line_length kv :
  well_formed_pair kv → 0 < zlen (pair_line kv) ≤ 255.
Proof.
  intros [[(?&?&?) ?] (?&?&?)]. unfold pair_line, zlen, CONF_STRING_MAX_LEN in *.
  rewrite !length_app. simpl. lia.
Qed.

Lemma pair_line_Forall kv (P : ascii → Prop) :
  well_formed_pair kv → P SP → P "="%char →
  (∀ c, word_char c = true → P c) → Forall P (pair_line kv).
Proof.
  intros [[(?&?&?) ?] (?&?&?)] ?? HP. unfold pair_line. simpl.
  rewrite !Forall_app. repeat (split || constructor); try done;
    eapply Forall_impl; [done|auto|done|auto].
Qed.

Lemma iri_conf_line_handle_pair b kv rest :
  well_formed_pair kv →
  iri_conf_line_handle b (pair_line kv ++ rest) (zlen (pair_line kv)) = Ret (Some kv).
Proof.
  intros Hkv. pose proof (pair_line_length kv Hkv) as Hlen.
  unfold iri_conf_line_handle. rewrite decide_False by lia.
  unfold copy_line at 1. rewrite decide_True.
  2: { unfold zlen in *. rewrite length_app. lia. }
  cbn [mbind outcome_bind mret outcome_ret].
  rewrite take_app_length' by (unfold zlen; lia).
  rewrite cstr_no_nul.
  2: { apply pair_line_Forall; [done..|]. intros c Hc%word_char_spec.
       apply not_char_true. tauto. }
  destruct Hkv as [(Hn&Heq&_) Hv]. unfold pair_line.
  change (lit " = ") with ([SP] ++ "="%char :: [SP]). rewrite <- !app_assoc.
  rewrite (app_assoc (name kv)). cbn [app]. rewrite strchr_app_first.
  2: { rewrite Forall_app. split; [done|]. by repeat constructor. }
  rewrite (get_string_word _ _ _ [] (name kv) [SP]); [|done|..].
  - cbn [mbind outcome_bind].
    rewrite (get_string_word_all _ _ [SP] (value kv)); [..|by repeat constructor].
    + cbn [mbind outcome_bind]. by destruct kv.
    + done.
    + rewrite drop_app_ge by lia. revert Hlen. unfold pair_line, zlen.
      rewrite Nat.sub_succ_l, Nat.sub_diag by lia. simpl.
      rewrite !length_app. simpl. lia.
    + rewrite drop_app_ge by lia. by rewrite Nat.sub_succ_l, Nat.sub_diag by lia.
  - revert Hlen. unfold pair_line, zlen. rewrite !length_app. simpl. lia.
  - unfold zlen. rewrite !length_app. simpl. lia.
  - rewrite Nat2Z.id, take_app_length' by done. done.
  - done.
  - by right.
Qed.

Lemma line_split l rest :
  Forall (λ c, c ≠ LF) l →
  take_line (l ++ LF :: rest) = l ∧ drop_line (l ++ LF :: rest) = LF :: rest.
Proof.
  intros H. assert (Forall (λ c, not_char LF c = true) l).
  { eapply Forall_impl; [done|]. intros c Hc. by apply not_char_true. }
  unfold take_line, drop_line. rewrite take_while_app, drop_while_app by done.
  simpl. by rewrite app_nil_r.
Qed.

Lemma check_comment_line_plain l rest :
  Forall (λ c, c ≠ "#"%char) l → no_nul l → zlen l < MAX_LINE_LEN →
  check_comment_line (l ++ rest) (zlen l) = Ret (zlen l).
Proof.
  intros Hc Hn Hl. unfold check_comment_line. rewrite decide_True.
  2: { unfold zlen in *. rewrite length_app. lia. }
  rewrite take_app_length' by (unfold zlen; lia).
  by rewrite cstr_no_nul, strchr_None.
Qed.

Lemma upd_pairs (kvs : list single_conf_pair) kv n :
  upd (kvs ++ replicate (S n) inhabitant) (zlen kvs) kv =
    (kvs ++ [kv]) ++ replicate n inhabitant.
Proof.
  unfold upd, zlen. rewrite Nat2Z.id, insert_app_r_alt by lia.
  rewrite Nat.sub_diag. simpl. by rewrite <- app_assoc.
Qed.

Lemma block_turn_pair ok mode done kv rest :
  well_formed_pair kv → (length done < 64)%nat →
  block_turn ok (render_pair kv ++ rest, Some (pairs_of mode done)) =
    Ret (if decide (64 ≤ length (done ++ [kv]))%nat
         then Stop (Some (pairs_of mode (done ++ [kv])))
         else Next (rest, Some (pairs_of mode (done ++ [kv])))).
Proof.
  intros Hkv Hdone. pose proof (pair_line_length kv Hkv) as Hlen.
  assert (Hline : render_pair kv ++ rest = pair_line kv ++ LF :: rest).
  { unfold render_pair, pair_line. rewrite <- !app_assoc. done. }
  destruct (line_split (pair_line kv) rest) as [Ht Hd].
  { apply pair_line_Forall; [done..|]. intros c Hc%word_char_spec. tauto. }
  unfold block_turn. rewrite Hline.
  destruct (pair_line kv ++ LF :: rest) as [|c0 l0] eqn:E; [by destruct (pair_line kv)|].
  rewrite Hd, Ht, <- E.
  rewrite decide_False by (unfold MAX_LINE_LEN; lia).
  rewrite check_comment_line_plain; [|..].
  2: { apply pair_line_Forall; [done..|]. intros c Hc%word_char_spec. tauto. }
  2: { apply pair_line_Forall; [done..|]. intros c Hc%word_char_spec.
       apply not_char_true. tauto. }
  2: { unfold MAX_LINE_LEN. lia. }
  cbn [mbind outcome_bind]. rewrite decide_True by lia.
  rewrite iri_conf_line_handle_pair by done. cbn [mbind outcome_bind].
  cbn [pairs_of pairs cur_pos mode_name]. unfold aset. rewrite decide_True.
  2: { unfold zlen. rewrite length_app, length_replicate. lia. }
  cbn [mbind outcome_bind cur_pos mode_name].
  replace (64 - length done)%nat with (S (63 - length done)) by lia.
  rewrite upd_pairs.
  assert (Hp : {| mode_name := mode;
                  pairs := (done ++ [kv]) ++ replicate (63 - length done) inhabitant;
                  cur_pos := zlen done + 1 |} = pairs_of mode (done ++ [kv])).
  { unfold pairs_of. f_equal.
    - do 2 f_equal. rewrite length_app. simpl. lia.
    - unfold zlen. rewrite length_app. simpl. lia. }
  rewrite Hp. rewrite length_app. unfold zlen, CONF_MAX_NODE_NUM. simpl.
  do 2 case_decide; try lia; done.
Qed.

Lemma block_pairs_run ok mode kvs : ∀ done,
  Forall well_formed_pair kvs → (length done < 64)%nat →
  runs (block_turn ok) (concat (render_pair <$> kvs), Some (pairs_of mode done))
    (Some (pairs_of mode (take 64 (done ++ kvs)))).
Proof.
  induction kvs as [|kv kvs IH]; intros done Hkvs Hdone; simpl.
  - apply runs_stop. rewrite app_nil_r, take_ge by lia. done.
  - apply Forall_cons in Hkvs as [Hkv Hkvs].
    replace (done ++ kv :: kvs) with ((done ++ [kv]) ++ kvs)
      by (by rewrite <- app_assoc).
    pose proof (block_turn_pair ok mode done kv (concat (render_pair <$> kvs)) Hkv Hdone)
      as Hturn. case_decide as Hfull.
    + rewrite length_app in Hfull. simpl in Hfull.
      rewrite take_app_length' by (rewrite length_app; simpl; lia).
      by apply runs_stop.
    + eapply runs_next; [done|]. apply IH; [done|].
      rewrite length_app in *. simpl in *. lia.
Qed.

(** A well-formed block is stored exactly, up to its first 64 pairs. *)
Lemma handle_conf_block_render mode kvs :
  is_word mode → Forall well_formed_pair kvs →
  handle_conf_block true (Some (mode ++ LF :: concat (render_pair <$> kvs))) =
    Ret (Some (pairs_of mode (take 64 kvs))).
Proof.
  intros Hm Hkvs. set (blk := mode ++ LF :: _).
  apply (runs_loop _ _ _ (S (length blk))).
  2: { apply (handle_conf_block_settled true (Some blk)). }
  destruct (word_head mode Hm) as (c&w'&Heq&_).
  pose proof Hm as (_&Hl&Hw). unfold CONF_STRING_MAX_LEN in Hl.
  eapply runs_next; [|apply (block_pairs_run true mode kvs []); [done|simpl; lia]].
  destruct (line_split mode (concat (render_pair <$> kvs))) as [Ht Hd].
  { eapply Forall_impl; [done|]. intros d Hd%word_char_spec. tauto. }
  unfold block_turn. fold blk in Ht, Hd.
  destruct blk as [|c0 l0] eqn:E; [by destruct mode|]. rewrite Hd, Ht, <- E.
  subst blk. rewrite decide_False by (unfold MAX_LINE_LEN; lia).
  rewrite check_comment_line_plain; [|..].
  2: { eapply Forall_impl; [done|]. intros d Hd'%word_char_spec. tauto. }
  2: { by apply word_no_nul. }
  2: { unfold MAX_LINE_LEN. lia. }
  cbn [mbind outcome_bind]. rewrite decide_True by (rewrite Heq; unfold zlen; simpl; lia).
  rewrite (get_string_word None _ _ [] mode []); [done|done|unfold zlen in *; lia|..].
  - unfold zlen. rewrite length_app. lia.
  - unfold zlen. rewrite Nat2Z.id, take_app_length' by done. by rewrite app_nil_r.
  - done.
  - by left.
Qed.

(** [insert_modes insert modes m]: the modes inserted one after the other. *)
Fixpoint insert_modes {M} (insert : conf_pairs → M → outcome M)
    (modes : list (bytes * list single_conf_pair)) (m : M) : outcome M :=
  match modes with
  | [] => mret m
  | (mode, kvs) :: modes =>
      m ← insert (pairs_of mode (take 64 kvs)) m;
      insert_modes insert modes m
  end.

(** Inserting through a view [g] of the state. *)
Lemma insert_modes_map {M N} (insert1 : conf_pairs → M → outcome M)
    (insert2 : conf_pairs → N → outcome N) (g : N → M) modes s :
  (∀ cp s, insert1 cp (g s) = (s' ← insert2 cp s; mret (g s'))) →
  insert_modes insert1 modes (g s) = (s' ← insert_modes insert2 modes s; mret (g s')).
Proof.
  intros H. revert s. induction modes as [|[mode kvs] modes IH]; intros s; [done|].
  cbn [insert_modes]. rewrite H.
  destruct (insert2 _ s) as [s'| | |]; cbn [mbind outcome_bind mret outcome_ret]; [|done..].
  apply IH.
Qed.

Definition well_formed_mode (mode : bytes * list single_conf_pair) : Prop :=
  is_word mode.1 ∧ Forall well_formed_pair mode.2.
#[export] Instance well_formed_mode_dec mode : Decision (well_formed_mode mode).
Proof. unfold well_formed_mode. apply _. Defined.

Section conf_scan_render.
Context {M : Type}.
Context (switch_str : bytes) (on_switch : ascii → M → M + Z * M).
Context (bad_end : outcome Z) (insert : conf_pairs → M → outcome M).
Context (full : bool) (alloc : nat → bool).
Hypothesis bad_end_settled : settled bad_end.
Hypothesis insert_settled : ∀ cp m, settled (insert cp m).
Hypothesis alloc_ok : ∀ n, alloc n = true.

Local Abbreviation conf_turn :=
  (conf_turn switch_str on_switch bad_end insert full alloc).
Local Abbreviation conf_scan :=
  (conf_scan switch_str on_switch bad_end insert full alloc).

(** A line that starts with neither a blank nor one of [#@-]. *)
Lemma conf_turn_plain c l rest start m :
  is_blank c = false → c ≠ "#"%char → c ≠ "@"%char → c ≠ "-"%char →
  Forall (λ c, c ≠ LF) (c :: l) →
  conf_turn ((c :: l) ++ LF :: rest, start, m) = Ret (Next (rest, start, m)).
Proof.
  intros Hb Hc1 Hc2 Hc3 Hl. destruct (line_split (c :: l) rest Hl) as [_ Hd].
  unfold ConfText.conf_turn. cbn [app] in *.
  rewrite drop_while_stop by done. unfold deref.
  cbn [mbind outcome_bind mret outcome_ret]. rewrite (decide_False (P:=c = "#"%char)) by done.
  cbn [mbind outcome_bind mret outcome_ret]. rewrite (decide_False (P:=c = "@"%char)) by done.
  unfold block_line. rewrite (decide_False (P:=c = "-"%char)) by done.
  cbn [mbind outcome_bind mret outcome_ret]. by rewrite Hd.
Qed.

Lemma conf_turn_pair kv rest start m :
  well_formed_pair kv →
  conf_turn (render_pair kv ++ rest, start, m) = Ret (Next (rest, start, m)).
Proof.
  intros Hkv. pose proof Hkv as [(Hw&Heq&Hh) Hv].
  assert (Hl : Forall (λ c, c ≠ LF) (pair_line kv)).
  { apply pair_line_Forall; [done..|]. intros c Hc%word_char_spec. tauto. }
  destruct (word_head (name kv) Hw) as (c&n'&En&Hc%word_char_spec).
  rewrite En in Hh. simpl in Hh.
  replace (render_pair kv ++ rest) with (pair_line kv ++ LF :: rest)
    by (unfold render_pair, pair_line; by rewrite <- !app_assoc).
  assert (Hp : pair_line kv = c :: n' ++ lit " = " ++ value kv).
  { unfold pair_line. by rewrite En. }
  rewrite Hp in *. apply conf_turn_plain; try tauto; intros ->; tauto.
Qed.

Lemma conf_turn_dash q start m :
  conf_turn ("-"%char :: q, start, m) =
    (r ← block_line bad_end insert full alloc ("-"%char :: q) start m "-"%char;
     match r with
     | inr r => mret (Stop r)
     | inl (p, start, m) =>
         match drop_line p with
         | [] => mret (Stop (0, m))
         | _ :: next => mret (Next (next, start, m))
         end
     end).
Proof. done. Qed.

Lemma conf_turn_open mode rest m :
  is_word mode →
  conf_turn ("-"%char :: mode ++ LF :: rest, None, m) =
    Ret (Next (rest, Some (mode ++ LF :: rest), m)).
Proof.
  intros (_&_&Hw). destruct (line_split mode rest) as [_ Hd].
  { eapply Forall_impl; [done|]. intros d Hd'%word_char_spec. tauto. }
  rewrite conf_turn_dash. unfold block_line.
  rewrite (decide_True (P:="-"%char = "-"%char)) by done.
  cbn [mbind outcome_bind mret outcome_ret]. simpl drop. rewrite drop_0.
  by rewrite Hd.
Qed.

Lemma block_line_close body rest cp m m' :
  handle_conf_block true (Some body) = Ret (Some cp) → insert cp m = Ret m' →
  let p := lit "-end" ++ rest in
  block_line bad_end insert full alloc p (Some (body ++ p)) m "-"%char =
    Ret (inl (p, None, m')).
Proof.
  intros Hb Hi p. unfold block_line. rewrite (decide_True (P:="-"%char = "-"%char)) by done.
  assert (is_prefix (lit "-end") p = true) as -> by apply is_prefix_app.
  rewrite andb_false_r, alloc_ok. cbn [andb].
  rewrite take_app_length' by (rewrite length_app; lia).
  rewrite Hb. cbn [mbind outcome_bind mret outcome_ret]. by rewrite Hi.
Qed.

Lemma conf_turn_close mode kvs rest m m' :
  is_word mode → Forall well_formed_pair kvs →
  insert (pairs_of mode (take 64 kvs)) m = Ret m' →
  conf_turn (lit "-end" ++ LF :: rest,
    Some ((mode ++ LF :: concat (render_pair <$> kvs)) ++ lit "-end" ++ LF :: rest), m) =
    Ret (Next (rest, None, m')).
Proof.
  intros Hm Hkvs Hi.
  change (lit "-end" ++ LF :: rest) with ("-"%char :: lit "end" ++ LF :: rest) at 1.
  rewrite conf_turn_dash.
  change ("-"%char :: lit "end" ++ LF :: rest) with (lit "-end" ++ LF :: rest).
  rewrite (block_line_close _ _ (pairs_of mode (take 64 kvs)) m m');
    [|by apply handle_conf_block_render|done].
  cbn [mbind outcome_bind mret outcome_ret].
  destruct (line_split (lit "-end") rest) as [_ ->]; [by repeat constructor|].
  done.
Qed.

Lemma conf_pairs_run kvs : ∀ start rest m r,
  Forall well_formed_pair kvs →
  runs conf_turn (rest, start, m) r →
  runs conf_turn (concat (render_pair <$> kvs) ++ rest, start, m) r.
Proof.
  induction kvs as [|kv kvs IH]; intros start rest m r Hkvs Hr; simpl; [done|].
  apply Forall_cons in Hkvs as [Hkv Hkvs]. rewrite <- app_assoc.
  eapply runs_next; [by apply conf_turn_pair|]. by apply IH.
Qed.

Lemma conf_modes_run modes : ∀ m m',
  Forall well_formed_mode modes → insert_modes insert modes m = Ret m' →
  runs conf_turn (render_conf modes, None, m) (0, m').
Proof.
  induction modes as [|[mode kvs] modes IH]; intros m m' Hmodes Hi; simpl.
  - apply runs_stop. simpl in Hi. by injection Hi as ->.
  - apply Forall_cons in Hmodes as [[Hm Hkvs] Hmodes]. simpl in Hi.
    destruct (insert _ m) as [m1| | |] eqn:E; try done.
    assert (Heq : render_conf ((mode, kvs) :: modes) =
      "-"%char :: mode ++ LF :: concat (render_pair <$> kvs) ++
        lit "-end" ++ LF :: render_conf modes).
    { unfold render_conf, render_mode. simpl.
      rewrite <- !app_assoc. simpl. by rewrite <- !app_assoc. }
    rewrite Heq. eapply runs_next; [by apply conf_turn_open|].
    apply conf_pairs_run; [done|].
    eapply runs_next; [|by apply IH].
    rewrite (app_comm_cons _ _ LF), app_assoc. by apply conf_turn_close.
Qed.

(** Reading a rendered configuration inserts its modes, in order. *)
Lemma conf_scan_render modes m m' :
  Forall well_formed_mode modes → insert_modes insert modes m = Ret m' →
  conf_scan (render_conf modes) m = Ret (0, m').
Proof using All.
  intros Hmodes Hi. apply runs_loop; [by apply conf_modes_run|].
  by apply conf_scan_settled.
Qed.
End conf_scan_render.

(** ** Reading a value *)

(** The value of the first pair with that key. *)
Fixpoint first_value (nm : bytes) (kvs : list single_conf_pair) : option bytes :=
  match kvs with
  | [] => None
  | kv :: kvs => if decide (nm = name kv) then Some (value kv) else first_value nm kvs
  end.

Lemma rd_app_middle {A} `{!Inhabited A} (l k : list A) x :
  rd (l ++ x :: k) (zlen l) = x.
Proof.
  unfold rd, zlen. rewrite Nat2Z.id. by apply list_lookup_total_middle.
Qed.

(** [get_value] finds the first pair with the key. *)
Lemma get_value_pairs_of mode kvs nm :
  get_value (pairs_of mode kvs) nm = Ret (first_value nm kvs).
Proof.
  apply runs_loop; [|apply (get_value_settled (pairs_of mode kvs) nm)].
  cut (∀ done todo, kvs = done ++ todo →
    runs (λ i, if decide (i < cur_pos (pairs_of mode kvs)) then
                 kv ← aget (pairs (pairs_of mode kvs)) i;
                 if decide (nm = name kv) then mret (Stop (Some (value kv)))
                 else mret (Next (i + 1))
               else mret (Stop None)) (zlen done) (first_value nm todo)).
  { intros H. by apply (H [] kvs). }
  intros done todo. revert done.
  induction todo as [|kv todo IH]; intros done Heq; cbn [first_value].
  - apply runs_stop. rewrite app_nil_r in Heq. subst.
    rewrite decide_False by (cbn [cur_pos pairs_of]; lia). done.
  - assert (Hlt : zlen done < zlen kvs).
    { subst kvs. unfold zlen. rewrite length_app. simpl. lia. }
    assert (Hget : aget (pairs (pairs_of mode kvs)) (zlen done) = Ret kv).
    { cbn [pairs pairs_of]. unfold aget. rewrite decide_True.
      - f_equal. subst kvs. rewrite <- app_assoc. simpl. apply rd_app_middle.
      - unfold zlen in *. rewrite length_app. lia. }
    case_decide as Hn.
    + apply runs_stop. rewrite decide_True by done. rewrite Hget.
      cbn [mbind outcome_bind]. by rewrite decide_True.
    + eapply runs_next.
      * rewrite decide_True by done. rewrite Hget.
        cbn [mbind outcome_bind]. by rewrite decide_False.
      * replace (zlen done + 1) with (zlen (done ++ [kv]))
          by (unfold zlen; rewrite length_app; simpl; lia).
        apply IH. by rewrite <- app_assoc.
Qed.

(** ** What a file can leave in a record *)

(** A string that fits a [char[128]] field. *)
Definition field_ok (f : bytes) : Prop :=
  zlen f < CONF_STRING_MAX_LEN - 1 ∧ no_nul f.
Definition pair_ok (kv : single_conf_pair) : Prop :=
  field_ok (name kv) ∧ field_ok (value kv).
Definition conf_pairs_ok (cp : conf_pairs) : Prop :=
  field_ok (mode_name cp) ∧ zlen (pairs cp) = CONF_MAX_NODE_NUM ∧
  0 ≤ cur_pos cp ≤ CONF_MAX_NODE_NUM ∧ Forall pair_ok (pairs cp).

Lemma no_nul_take n s : no_nul s → no_nul (take n s).
Proof. apply Forall_take. Qed.

Lemma first_word_no_nul s : no_nul s → no_nul (first_word s).
Proof.
  intros H. unfold first_word, no_nul in *.
  rewrite <- (take_drop_while is_blank s), Forall_app in H. destruct H as [_ H].
  rewrite <- (take_drop_while (λ c, negb (is_blank c)) (drop_while is_blank s)),
    Forall_app in H. tauto.
Qed.

Lemma get_string_ok before src len f :
  get_string before src len = Ret (Some f) → field_ok f.
Proof.
  unfold get_string. intros H. set (n := if decide (len = -1) then _ else _) in H.
  ret_inv H; [|by split; [|constructor]..].
  all: assert (no_nul (first_word x)) by
    (apply first_word_no_nul; unfold copy_line in *; ret_inv E; apply cstr_is_no_nul).
  destruct (decide (a = CR)); [|by split].
  split; [|by apply no_nul_take]. unfold zlen in *. rewrite length_take. lia.
Qed.

Lemma iri_conf_line_handle_ok b p len kv :
  iri_conf_line_handle b p len = Ret (Some kv) → pair_ok kv.
Proof.
  unfold iri_conf_line_handle. intros H. ret_inv H. split; by eapply get_string_ok.
Qed.

Lemma new_conf_pairs_ok mode : field_ok mode → conf_pairs_ok (new_conf_pairs mode).
Proof.
  intros H. unfold conf_pairs_ok, new_conf_pairs, CONF_MAX_NODE_NUM. simpl.
  split_and!; [done|done|lia|lia|]. by repeat constructor.
Qed.

Lemma add_pair_ok cp kv ps :
  conf_pairs_ok cp → pair_ok kv → aset (pairs cp) (cur_pos cp) kv = Ret ps →
  conf_pairs_ok {| mode_name := mode_name cp; pairs := ps; cur_pos := cur_pos cp + 1 |}.
Proof.
  intros (Hm&Hl&Hc&Hf) Hkv. unfold aset. case_decide; [|done]. intros [= <-].
  split_and!; simpl; [done|by rewrite zlen_upd|lia|lia|].
  unfold upd. by apply Forall_insert.
Qed.

Definition conf_ok (conf : option conf_pairs) : Prop :=
  match conf with Some cp => conf_pairs_ok cp | None => True end.

Lemma handle_conf_block_ok ok start cp :
  handle_conf_block ok start = Ret (Some cp) → conf_pairs_ok cp.
Proof.
  destruct start as [blk|]; [|done]. unfold handle_conf_block. intros Hl.
  change (conf_ok (Some cp)).
  eapply (loop_preserves (λ s, conf_ok s.2) conf_ok); [exact Hl|done|..].
  - intros [p conf] [p' conf'] HP H. unfold block_turn in H. ret_inv H; simpl in *;
      eauto using add_pair_ok, iri_conf_line_handle_ok, new_conf_pairs_ok, get_string_ok.
  - intros [p conf] r HP H. unfold block_turn in H. ret_inv H; simpl in *;
      eauto using add_pair_ok, iri_conf_line_handle_ok.
Qed.

Section conf_scan_preserves.
Context {M : Type} (P : M → Prop) (Q : Z * M → Prop).
Context (switch_str : bytes) (on_switch : ascii → M → M + Z * M).
Context (bad_end : outcome Z) (insert : conf_pairs → M → outcome M).
Context (full : bool) (alloc : nat → bool).
Hypothesis on_switch_next : ∀ c m m', P m → on_switch c m = inl m' → P m'.
Hypothesis on_switch_stop : ∀ c m r, P m → on_switch c m = inr r → Q r.
Hypothesis insert_P : ∀ cp m m',
  conf_pairs_ok cp → P m → insert cp m = Ret m' → P m'.
Hypothesis P_Q : ∀ r m, P m → Q (r, m).

Lemma block_line_preserves p start m c t :
  P m → block_line bad_end insert full alloc p start m c = Ret t →
  match t with inl (_, _, m') => P m' | inr r => Q r end.
Proof using insert_P P_Q.
  intros HP H. unfold block_line in H. ret_inv H; auto.
  eapply insert_P; [|done..]. by eapply handle_conf_block_ok.
Qed.

(** What the insertion and a switch that goes on preserve holds of the manager
    at the end, and [Q] at the end if it holds where a switch stops. *)
Lemma conf_scan_preserves file m r :
  conf_scan switch_str on_switch bad_end insert full alloc file m = Ret r → P m → Q r.
Proof using insert_P on_switch_next on_switch_stop P_Q.
  intros Hl HP.
  eapply (loop_preserves (λ s, P s.2) Q); [exact Hl|done|..].
  - intros [[p start] m1] s' HP1 H. unfold conf_turn in H. ret_inv H; simpl in *;
      eauto; by eapply (block_line_preserves _ _ _ _ (inl (_, _, _))).
  - intros [[p start] m1] r1 HP1 H. unfold conf_turn in H.
    ret_inv H; simpl in *; try (by eauto);
      first [by eapply (block_line_preserves _ _ _ _ (inr _))
            |apply P_Q; by eapply (block_line_preserves _ _ _ _ (inl (_, _, _)))].
Qed.
End conf_scan_preserves.

(** A scan that stops at its first line. *)
Lemma conf_scan_stop {M} switch_str on_switch bad_end insert full alloc file (m : M) r :
  conf_turn switch_str on_switch bad_end insert full alloc (file, None, m) =
    Ret (Stop r) →
  conf_scan switch_str on_switch bad_end insert full alloc file m = Ret r.
Proof. intros H. unfold conf_scan. cbn [loop]. by rewrite H. Qed.

(** A switch line that stops the scan. *)
Lemma conf_turn_switch_stop {M} switch_str on_switch bad_end insert full alloc
    line rest start (m : M) c r :
  Forall (λ c, c ≠ LF) line → switch_char switch_str (take 125 line) = Some c →
  on_switch c m = inr r →
  conf_turn switch_str on_switch bad_end insert full alloc
    ("@"%char :: line ++ LF :: rest, start, m) = Ret (Stop r).
Proof.
  intros Hl Hs Hr. destruct (line_split line rest Hl) as [Ht Hd].
  unfold conf_turn, deref. simpl drop_while. cbn [mbind outcome_bind mret outcome_ret].
  rewrite (decide_False (P:="@"%char = "#"%char)) by done.
  cbn [mbind outcome_bind mret outcome_ret].
  rewrite (decide_True (P:="@"%char = "@"%char)) by done. simpl drop. rewrite drop_0.
  by rewrite Ht, Hs, Hr.
Qed.
