(* ===== verification/ConfCore.v ===== *)
(** The configuration manager of [src/src/utils/config/iridium_conf_core.c]:
    a hash table from mode names to their key-value pairs, filled from a file.

    The table stores the pointer [conf_pairs->mode_name] as the key and
    [conf_pairs] as the value, so the key lives inside the value. A block
    allocated by [handle_conf_block] is named by the number of blocks stored
    before it; an entry is a key pointer (the block it points into) and a value
    (its block and its contents). Inserting a mode twice frees the first block
    while its name stays the key: the entry's key dangles, and comparing or
    printing it is a use after free. *)

From S2P Require Import Prelude CString GHash ConfText.

(** [conf_manager->iri_conf]: [NULL], a table, or a pointer to a destroyed one. *)
Inductive table_ptr (T : Type) :=
  | TNull
  | TLive (t : T)
  | TFreed.
Arguments TNull {T}.
Arguments TLive {T} t.
Arguments TFreed {T}.

Definition REPEAT_INIT_ERR : Z := -3.
Definition OPEN_FILE_ERR : Z := -4.
Definition READ_FILE_ERR : Z := -5.
Definition MALLOC_BUF_ERR : Z := -6.
Definition CONF_CLOSE_ALL : Z := -9.
Definition IRI_CONF_FINISH_INIT : Z := 1.
Definition LOG_SWITCH_STR : bytes := lit "CONF_SWITCH".

(** What the system answers while a file is read: its contents ([None]: it
    cannot be opened), whether the 2 MB buffer can be allocated, and whether a
    record can be allocated with that many bytes left to read. *)
Record conf_env := {
  conf_file : option bytes;
  buf_ok : bool;
  block_ok : nat → bool
}.

(** [fread(rd_buf, 1, MAX_CONF_FILE_SIZE, fp)]. *)
Definition fread_conf (file : bytes) : bytes :=
  if decide (zlen file ≤ MAX_CONF_FILE_SIZE) then file
  else take (Z.to_nat MAX_CONF_FILE_SIZE) file.
Definition fills_buffer (file : bytes) : bool :=
  bool_decide (MAX_CONF_FILE_SIZE ≤ zlen file).

Lemma fread_conf_all file : zlen file ≤ MAX_CONF_FILE_SIZE → fread_conf file = file.
Proof. intros. unfold fread_conf. by rewrite decide_True. Qed.

Lemma fread_conf_line l rest :
  zlen l < MAX_CONF_FILE_SIZE →
  ∃ rest', fread_conf (l ++ LF :: rest) = l ++ LF :: rest'.
Proof.
  unfold fread_conf. generalize MAX_CONF_FILE_SIZE as n. intros n Hn.
  case_decide; [by eexists|].
  unfold zlen in Hn. rewrite take_app, take_ge by lia.
  destruct (Z.to_nat n - length l)%nat eqn:E; [lia|]. simpl. eauto.
Qed.

(** [is_level_true(c)]. *)
Definition is_level_true (c : ascii) : Z :=
  if is_digit c then
    let ret := digit_val c in
    if decide (ret = 1) then 1 else if decide (ret = 0) then 0 else -1
  else -1.

Section conf_core.
Context {T : Type → Type → Type} `{!GHashTable T}.

Definition conf_table : Type := T Z (Z * conf_pairs).

Record iri_conf_manager_t := {
  iri_conf : table_ptr conf_table;
  mode_count : Z;
  init_flag : Z
}.

(** A manager after [memset]. *)
Definition zero_manager : iri_conf_manager_t :=
  {| iri_conf := TNull; mode_count := 0; init_flag := 0 |}.

(** The entry a lookup of [mode] compares keys with. *)
Definition table_entry (t : conf_table) (mode : bytes)
    : outcome (option (Z * conf_pairs)) :=
  match gh_lookup mode t with
  | None => mret None
  | Some (key, v) => if decide (key = v.1) then mret (Some v)
                     else Undef UseAfterFree
  end.

(** [g_hash_table_insert(table, conf_pairs->mode_name, conf_pairs)] for the
    [n]th block. *)
Definition table_insert (n : Z) (cp : conf_pairs) (t : conf_table)
    : outcome conf_table :=
  _ ← table_entry t (mode_name cp);
  mret (gh_insert (mode_name cp) n (n, cp) t).

Definition insert_new_node (cp : conf_pairs) (m : iri_conf_manager_t)
    : outcome iri_conf_manager_t :=
  match iri_conf m with
  | TNull => mret m
  | TFreed => Undef UseAfterFree
  | TLive t =>
      t ← table_insert (mode_count m) cp t;
      mret {| iri_conf := TLive t;
              mode_count := mode_count m; init_flag := init_flag m |}
  end.

(** [insert_new_node(...); conf_manager->mode_count++;]. A file of 2 MB has
    far fewer than 2^31 blocks. *)
Definition add_mode (cp : conf_pairs) (m : iri_conf_manager_t)
    : outcome iri_conf_manager_t :=
  m ← insert_new_node cp m;
  mret {| iri_conf := iri_conf m; mode_count := mode_count m + 1;
          init_flag := init_flag m |}.

Definition init_manager : iri_conf_manager_t :=
  {| iri_conf := TLive gh_new; mode_count := 0; init_flag := IRI_CONF_FINISH_INIT |}.

(** The pointer is not cleared. *)
Definition destroy_iri_conf (m : iri_conf_manager_t) : outcome iri_conf_manager_t :=
  match iri_conf m with
  | TNull => mret m
  | TLive _ => mret {| iri_conf := TFreed; mode_count := mode_count m;
                       init_flag := init_flag m |}
  | TFreed => Undef UseAfterFree
  end.

Definition get_conf_pairs (m : iri_conf_manager_t) (mode : bytes)
    : outcome (option conf_pairs) :=
  match iri_conf m with
  | TNull => mret None
  | TFreed => Undef UseAfterFree
  | TLive t =>
      e ← table_entry t mode;
      match e with
      | Some (_, cp) => mret (Some cp)
      | None => mret None
      end
  end.

(** What a switch line does: [0] closes the whole configuration. *)
Definition on_switch (c : ascii) (m : iri_conf_manager_t)
    : iri_conf_manager_t + Z * iri_conf_manager_t :=
  if decide (is_level_true c = 0) then inr (CONF_CLOSE_ALL, m) else inl m.

(** The lines from [while(p < end)] to the exit label: a [-] line that is not
    [-end] inside a block leaves with [ret = 0]. *)
Definition scan_conf (env : conf_env) (file : bytes) (m : iri_conf_manager_t)
    : outcome (Z * iri_conf_manager_t) :=
  conf_scan LOG_SWITCH_STR on_switch (mret 0) add_mode (fills_buffer file)
    (block_ok env) (fread_conf file) m.

(** Conversion unfolds [scan_conf] rather than the loop over the file. *)
Strategy expand [scan_conf].

Definition get_conf_info_from_file (env : conf_env) (m : iri_conf_manager_t)
    : outcome (Z * iri_conf_manager_t) :=
  if decide (init_flag m = IRI_CONF_FINISH_INIT) then mret (REPEAT_INIT_ERR, m) else
  let m := init_manager in
  match conf_file env with
  | None => mret (OPEN_FILE_ERR, m)
  | Some file =>
      if buf_ok env then
        '(ret, m) ← scan_conf env file m;
        if decide (ret = 0) then mret (ret, m)
        else m ← destroy_iri_conf m; mret (ret, m)
      else mret (MALLOC_BUF_ERR, m)
  end.

(** [print_key_value] on one entry: the lines it prints. *)
Definition print_key_value (e : bytes * (Z * (Z * conf_pairs)))
    : outcome (bytes * list single_conf_pair) :=
  let '(key, (owner, (block, cp))) := e in
  if decide (owner = block) then
    mret (key, take (Z.to_nat (cur_pos cp)) (pairs cp))
  else Undef UseAfterFree.

Definition go_through_conf_manager (m : iri_conf_manager_t)
    : outcome (list (bytes * list single_conf_pair)) :=
  match iri_conf m with
  | TNull => mret []   (* GLib warns and returns *)
  | TFreed => Undef UseAfterFree
  | TLive t => mapM print_key_value (gh_foreach t)
  end.
End conf_core.

(** ** Reading a file *)

Section conf_core_facts.
Context {T : Type → Type → Type} `{!GHashTable T, !GHashTableLaws T}.
Implicit Types (m : iri_conf_manager_t (T:=T)) (t : conf_table (T:=T)).

Lemma table_entry_settled t mode : settled (table_entry t mode).
Proof. unfold table_entry. settle. Qed.
#[local] Hint Resolve table_entry_settled : lctools.

Lemma table_insert_settled n cp t : settled (table_insert n cp t).
Proof. unfold table_insert. settle. Qed.
#[local] Hint Resolve table_insert_settled : lctools.

Lemma add_mode_settled cp m : settled (add_mode cp m).
Proof. unfold add_mode, insert_new_node. settle. Qed.

Lemma scan_conf_settled env file m : settled (scan_conf env file m).
Proof. apply conf_scan_settled; [done|apply add_mode_settled]. Qed.
#[local] Hint Resolve scan_conf_settled : lctools.

Lemma destroy_iri_conf_settled m : settled (destroy_iri_conf m).
Proof. unfold destroy_iri_conf. settle. Qed.
#[local] Hint Resolve destroy_iri_conf_settled : lctools.

(** The table and the number of blocks stored so far: what storing a block
    does, whatever else the manager holds. *)
Definition store_block (cp : conf_pairs) (s : conf_table (T:=T) * Z)
    : outcome (conf_table (T:=T) * Z) :=
  t ← table_insert s.2 cp s.1;
  mret (t, s.2 + 1).

Lemma store_block_new cp t n :
  gh_lookup (mode_name cp) t = None →
  store_block cp (t, n) = Ret (gh_insert (mode_name cp) n (n, cp) t, n + 1).
Proof. intros H. unfold store_block, table_insert, table_entry. simpl. by rewrite H. Qed.

(** Modes with different names are all stored. *)
Lemma store_modes_fresh modes : ∀ t n,
  NoDup modes.*1 → (∀ mode, mode ∈ modes.*1 → gh_lookup mode t = None) →
  ∃ t', insert_modes store_block modes (t, n) = Ret (t', n + zlen modes) ∧
    (∀ mode kvs, (mode, kvs) ∈ modes → ∃ id,
       gh_lookup mode t' = Some (id, (id, pairs_of mode (take 64 kvs)))) ∧
    (∀ s, s ∉ modes.*1 → gh_lookup s t' = gh_lookup s t).
Proof.
  induction modes as [|[mode kvs] modes IH]; intros t n Hnd Hnew; cbn [insert_modes].
  - exists t. split_and!; [|by intros ?? ?%elem_of_nil|done].
    cbn [mret outcome_ret]. do 2 f_equal. unfold zlen. simpl. lia.
  - cbn in Hnd, Hnew. apply NoDup_cons in Hnd as [Hni Hnd].
    rewrite store_block_new by (apply Hnew, elem_of_cons; by left).
    cbn [mbind outcome_bind mode_name pairs_of].
    set (t1 := gh_insert mode n _ t).
    assert (Hself : gh_lookup mode t1 =
      Some (n, (n, pairs_of mode (take 64 kvs)))).
    { unfold t1. rewrite gh_lookup_insert.
      rewrite (Hnew mode) by (apply elem_of_cons; by left). done. }
    assert (Hother : ∀ s, s ≠ mode → gh_lookup s t1 = gh_lookup s t).
    { intros s Hs. unfold t1. by rewrite gh_lookup_insert_ne. }
    destruct (IH t1 (n + 1) Hnd) as (t'&Hins&Hin&Hout).
    { intros s Hs. rewrite Hother by (intros ->; done).
      apply Hnew, elem_of_cons. by right. }
    exists t'. split_and!.
    + etransitivity; [exact Hins|]. do 2 f_equal. unfold zlen. simpl. lia.
    + intros s ks [[= -> ->]|Hs]%elem_of_cons; [|by apply Hin].
      exists n. by rewrite Hout.
    + intros s Hs. cbn in Hs. rewrite not_elem_of_cons in Hs.
      rewrite Hout by tauto. apply Hother. tauto.
Qed.

(** A mode stored twice keeps the key of the first block. *)
Lemma store_modes_twice mode kvs1 kvs2 :
  ∃ t, insert_modes store_block [(mode, kvs1); (mode, kvs2)] (gh_new, 0) = Ret (t, 2) ∧
    table_entry t mode = Undef UseAfterFree.
Proof.
  cbn [insert_modes]. rewrite store_block_new by apply gh_lookup_new.
  cbn [mbind outcome_bind mode_name pairs_of].
  set (t1 := gh_insert mode 0 _ gh_new).
  assert (H1 : gh_lookup mode t1 = Some (0, (0, pairs_of mode (take 64 kvs1)))).
  { unfold t1. by rewrite gh_lookup_insert, gh_lookup_new. }
  unfold store_block, table_insert. cbn [fst snd mode_name pairs_of].
  unfold table_entry at 1. rewrite H1. rewrite decide_True by done.
  cbn [mbind outcome_bind mret outcome_ret]. eexists. split; [done|].
  unfold table_entry. rewrite gh_lookup_insert, H1. by rewrite decide_False.
Qed.

(** Every record fits its fields and is filed under its name. *)
Definition table_ok (t : conf_table (T:=T)) : Prop :=
  ∀ s key id cp, gh_lookup s t = Some (key, (id, cp)) →
    conf_pairs_ok cp ∧ mode_name cp = s.

Lemma table_ok_new : table_ok gh_new.
Proof. intros s key id cp. by rewrite gh_lookup_new. Qed.

Lemma table_ok_insert n cp t t' :
  conf_pairs_ok cp → table_ok t → table_insert n cp t = Ret t' → table_ok t'.
Proof.
  unfold table_insert. intros Hcp Ht H. ret_inv H.
  intros s key id cp'. rewrite gh_lookup_insert_case. case_decide as Hs; [|apply Ht].
  intros H'. simplify_eq. done.
Qed.

Lemma table_entry_found t mode id cp :
  gh_lookup mode t = Some (id, (id, cp)) → table_entry t mode = Ret (Some (id, cp)).
Proof. intros H. unfold table_entry. rewrite H. by rewrite decide_True. Qed.

Lemma table_entry_absent t mode :
  gh_lookup mode t = None → table_entry t mode = Ret None.
Proof. intros H. unfold table_entry. by rewrite H. Qed.

(** The manager that [init_manager] leaves, with another table. *)
Definition live (s : conf_table (T:=T) * Z) : iri_conf_manager_t (T:=T) :=
  {| iri_conf := TLive s.1; mode_count := s.2; init_flag := IRI_CONF_FINISH_INIT |}.

Lemma add_mode_live cp s :
  add_mode cp (live s) = (s' ← store_block cp s; mret (live s')).
Proof.
  unfold add_mode, insert_new_node, store_block, live. simpl.
  by destruct (table_insert _ _ _).
Qed.

Lemma get_conf_pairs_live s mode :
  get_conf_pairs (live s) mode =
    (e ← table_entry s.1 mode;
     match e with Some (_, cp) => mret (Some cp) | None => mret None end).
Proof. done. Qed.

Lemma scan_conf_render env modes s :
  (∀ n, block_ok env n = true) → zlen (render_conf modes) ≤ MAX_CONF_FILE_SIZE →
  Forall well_formed_mode modes → insert_modes store_block modes (gh_new, 0) = Ret s →
  scan_conf env (render_conf modes) init_manager = Ret (0, live s).
Proof.
  intros Hok Hlen Hwf Hi. unfold scan_conf. rewrite fread_conf_all by done.
  apply conf_scan_render; [done|apply add_mode_settled|done..|].
  change init_manager with (live (gh_new, 0)).
  rewrite (insert_modes_map _ store_block live) by (intros; apply add_mode_live).
  by rewrite Hi.
Qed.

Lemma read_rendered env modes m :
  Forall well_formed_mode modes → NoDup modes.*1 →
  zlen (render_conf modes) ≤ MAX_CONF_FILE_SIZE →
  conf_file env = Some (render_conf modes) → buf_ok env = true →
  (∀ n, block_ok env n = true) → init_flag m ≠ IRI_CONF_FINISH_INIT →
  wp (get_conf_info_from_file env m) (λ '(ret, m'),
    ret = 0 ∧ mode_count m' = zlen modes ∧
    (∀ mode kvs, (mode, kvs) ∈ modes →
       get_conf_pairs m' mode = Ret (Some (pairs_of mode (take 64 kvs)))) ∧
    (∀ mode, mode ∉ modes.*1 → get_conf_pairs m' mode = Ret None)).
Proof.
  intros Hwf Hnd Hlen Hfile Hbuf Hok Hinit. unfold get_conf_info_from_file.
  rewrite decide_False by done. cbn zeta. rewrite Hfile, Hbuf.
  destruct (store_modes_fresh modes gh_new 0 Hnd)
    as (t'&Hins&Hin&Hout); [intros; apply gh_lookup_new|].
  erewrite scan_conf_render; [|done..].
  cbn [mbind outcome_bind]. rewrite decide_True by done. simpl.
  split_and!; [done|lia|..].
  - intros mode kvs Hmode. destruct (Hin mode kvs Hmode) as [id Hid].
    rewrite get_conf_pairs_live. cbn [fst]. by rewrite (table_entry_found _ _ _ _ Hid).
  - intros mode Hmode. rewrite get_conf_pairs_live. cbn [fst].
    by rewrite table_entry_absent by by rewrite Hout, gh_lookup_new.
Qed.

(** ** Properties *)

(** C1: a configuration file is read back. For any list of modes with
    different names, each with pairs of words, the file that renders them is
    read with result 0; then every mode is found with exactly its first 64
    pairs, and no other mode is found. *)
Theorem get_conf_info_from_file_roundtrip env modes m :
  Forall well_formed_mode modes → NoDup modes.*1 →
  zlen (render_conf modes) ≤ MAX_CONF_FILE_SIZE →
  conf_file env = Some (render_conf modes) → buf_ok env = true →
  (∀ n, block_ok env n = true) → init_flag m ≠ IRI_CONF_FINISH_INIT →
  wp (get_conf_info_from_file env m) (λ '(ret, m'),
    ret = 0 ∧ mode_count m' = zlen modes ∧
    (∀ mode kvs, (mode, kvs) ∈ modes →
       get_conf_pairs m' mode = Ret (Some (pairs_of mode (take 64 kvs)))) ∧
    (∀ mode, mode ∉ modes.*1 → get_conf_pairs m' mode = Ret None)).
Proof. apply read_rendered. Qed.

(** Reading a configuration always ends: whatever the file holds, the
    loops over lines, blocks and pairs leave within the fuel the model gives
    them, one turn for each byte of the file. *)
Theorem get_conf_info_from_file_ends env m : settled (get_conf_info_from_file env m).
Proof. unfold get_conf_info_from_file. settle. Qed.

(** A mode that appears twice poisons the table: the file is read with
    result 0, but the name of the freed first block stays the key, so looking
    that mode up is a use after free. *)
Lemma duplicate_mode_dangles env mode kvs1 kvs2 m :
  well_formed_mode (mode, kvs1) → well_formed_mode (mode, kvs2) →
  zlen (render_conf [(mode, kvs1); (mode, kvs2)]) ≤ MAX_CONF_FILE_SIZE →
  conf_file env = Some (render_conf [(mode, kvs1); (mode, kvs2)]) →
  buf_ok env = true → (∀ n, block_ok env n = true) →
  init_flag m ≠ IRI_CONF_FINISH_INIT →
  wp (get_conf_info_from_file env m) (λ '(ret, m'),
    ret = 0 ∧ get_conf_pairs m' mode = Undef UseAfterFree).
Proof.
  intros Hwf1 Hwf2 Hlen Hfile Hbuf Hok Hinit. unfold get_conf_info_from_file.
  rewrite decide_False by done. cbn zeta. rewrite Hfile, Hbuf.
  destruct (store_modes_twice mode kvs1 kvs2) as (t&Hi&Ht).
  erewrite scan_conf_render; [|done|done|by repeat (apply Forall_cons; split)|done].
  cbn [mbind outcome_bind]. rewrite decide_True by done. simpl.
  split; [done|]. rewrite get_conf_pairs_live. cbn [fst]. by rewrite Ht.
Qed.

(** Every record of the table fits its fields and is filed under its name. *)
Definition manager_ok m : Prop :=
  init_flag m = IRI_CONF_FINISH_INIT ∧ 0 ≤ mode_count m ∧
  ∃ t, iri_conf m = TLive t ∧ table_ok t.

Lemma init_manager_ok : manager_ok init_manager.
Proof. split_and!; [done|done|]. eexists. split; [done|apply table_ok_new]. Qed.

Lemma add_mode_ok cp m m' :
  conf_pairs_ok cp → manager_ok m → add_mode cp m = Ret m' → manager_ok m'.
Proof.
  intros Hcp (Hf&Hc&t&Ht&Hall) H. unfold add_mode, insert_new_node in H.
  rewrite Ht in H. ret_inv H. ret_inv E.
  split_and!; [done|simpl; lia|]. eexists. split; [done|]. by eapply table_ok_insert.
Qed.

Lemma scan_conf_ok env file m r m' :
  scan_conf env file m = Ret (r, m') → manager_ok m → manager_ok m'.
Proof.
  intros H Hm. unfold scan_conf in H.
  apply (conf_scan_preserves manager_ok (λ r, manager_ok r.2)) in H; [done|..|done].
  - intros c m1 m2 Hm1. unfold on_switch. case_decide; intros; by simplify_eq.
  - intros c m1 m2 Hm1. unfold on_switch. case_decide; intros; by simplify_eq.
  - apply add_mode_ok.
  - done.
Qed.

(** whatever the file, when it is read with result 0 the manager holds a
    live table in which every record is filed under its own mode name, has at
    most 64 pairs, and keeps every name and value within its [char[128]]
    field with room for the NUL. *)
Theorem get_conf_info_from_file_fits env m m' :
  get_conf_info_from_file env m = Ret (0, m') → manager_ok m'.
Proof.
  unfold get_conf_info_from_file. intros H. ret_inv H.
  eapply scan_conf_ok; [done|apply init_manager_ok].
Qed.

(** A manager is used once: after any call that returns, whatever its
    result (a file that could not be opened included), every further call
    answers [REPEAT_INIT_ERR] and changes nothing. *)
Lemma get_conf_info_from_file_once env env' m ret m' :
  get_conf_info_from_file env m = Ret (ret, m') →
  get_conf_info_from_file env' m' = Ret (REPEAT_INIT_ERR, m').
Proof.
  intros H. assert (init_flag m' = IRI_CONF_FINISH_INIT) as Hf.
  { unfold get_conf_info_from_file in H. ret_inv H; try done;
      apply scan_conf_ok in E as (?&_&t&Ht&_); try done; try apply init_manager_ok.
    unfold destroy_iri_conf in E0. rewrite Ht in E0. by ret_inv E0. }
  unfold get_conf_info_from_file. by rewrite decide_True.
Qed.

(** C40: a switch line [@CONF_SWITCH = 0] at the top of the file gives
    [CONF_CLOSE_ALL] and destroys the table without clearing the pointer:
    every lookup afterwards, and destroying the manager as a caller does, is
    a use after free. *)
Theorem close_all_dangles env m line rest :
  Forall (λ c, c ≠ LF) line →
  switch_char LOG_SWITCH_STR (take 125 line) = Some "0"%char →
  conf_file env = Some ("@"%char :: line ++ LF :: rest) → buf_ok env = true →
  zlen line + 2 ≤ MAX_CONF_FILE_SIZE → init_flag m ≠ IRI_CONF_FINISH_INIT →
  wp (get_conf_info_from_file env m) (λ '(ret, m'),
    ret = CONF_CLOSE_ALL ∧ destroy_iri_conf m' = Undef UseAfterFree ∧
    ∀ mode, get_conf_pairs m' mode = Undef UseAfterFree).
Proof.
  intros Hl Hs Hfile Hbuf Hlen Hinit. unfold get_conf_info_from_file.
  rewrite decide_False by done. cbn zeta. rewrite Hfile, Hbuf.
  assert (Hscan : scan_conf env ("@"%char :: line ++ LF :: rest) init_manager =
            Ret (CONF_CLOSE_ALL, init_manager)).
  { destruct (fread_conf_line ("@"%char :: line) rest) as [rest' Hr].
    { unfold zlen in *. simpl. lia. }
    unfold scan_conf. rewrite app_comm_cons, Hr. apply conf_scan_stop.
    by apply (conf_turn_switch_stop _ _ _ _ _ _ _ _ _ _ _ _ Hl Hs). }
  rewrite Hscan. cbn [mbind outcome_bind]. by rewrite decide_False.
Qed.

(** A block that another [-] line interrupts ends the reading with result
    0, although the error is printed: the interrupted mode is not stored and
    neither is anything behind it. *)
Lemma bad_end_reports_success env m mode kvs c rest :
  well_formed_mode (mode, kvs) → c ≠ "e"%char →
  let file := "-"%char :: mode ++ LF :: concat (render_pair <$> kvs) ++
              "-"%char :: c :: rest in
  conf_file env = Some file → buf_ok env = true → zlen file < MAX_CONF_FILE_SIZE →
  init_flag m ≠ IRI_CONF_FINISH_INIT →
  wp (get_conf_info_from_file env m) (λ '(ret, m'),
    ret = 0 ∧ mode_count m' = 0 ∧ ∀ s, get_conf_pairs m' s = Ret None).
Proof.
  intros [Hm Hkvs] Hc file Hfile Hbuf Hlen Hinit. unfold get_conf_info_from_file.
  rewrite decide_False by done. cbn zeta. rewrite Hfile, Hbuf.
  assert (Hscan : scan_conf env file init_manager = Ret (0, init_manager)).
  { unfold scan_conf. rewrite fread_conf_all by lia.
    assert (fills_buffer file = false) as ->.
    { unfold fills_buffer. apply bool_decide_eq_false_2. lia. }
    apply runs_loop; [|apply conf_scan_settled; [done|apply add_mode_settled]].
    eapply runs_next; [by apply conf_turn_open|].
    apply conf_pairs_run; [done|]. apply runs_stop.
    rewrite conf_turn_dash. unfold block_line.
    rewrite (decide_True (P:="-"%char = "-"%char)) by done.
    assert (is_prefix (lit "-end") ("-"%char :: c :: rest) = false) as ->.
    { simpl. rewrite bool_decide_eq_false_2; [done|congruence]. }
    done. }
  rewrite Hscan. cbn [mbind outcome_bind]. rewrite decide_True by done. simpl.
  split_and!; [done..|]. intros s. unfold get_conf_pairs, table_entry. simpl.
  by rewrite gh_lookup_new.
Qed.
End conf_core_facts.

(** the value of a key is the value of the first pair that has it. *)
Lemma get_value_first mode kvs nm :
  get_value (pairs_of mode kvs) nm = Ret (first_value nm kvs).
Proof. apply get_value_pairs_of. Qed.

(** ** Witnesses *)

Definition sample_modes : list (bytes * list single_conf_pair) :=
  [(lit "DB", [{| name := lit "host"; value := lit "localhost" |};
               {| name := lit "port"; value := lit "6379" |}]);
   (lit "LOG", [])].
Definition sample_env (file : bytes) : conf_env :=
  {| conf_file := Some file; buf_ok := true; block_ok := λ _, true |}.
Abbreviation sample_manager := (zero_manager (T:=gmap_table)).

Ltac by_decide := apply (bool_decide_unpack _); vm_compute; exact I.

Lemma get_conf_info_from_file_roundtrip_witness :
  wp (get_conf_info_from_file (sample_env (render_conf sample_modes)) sample_manager)
    (λ '(ret, m'),
      ret = 0 ∧ mode_count m' = zlen sample_modes ∧
      (∀ mode kvs, (mode, kvs) ∈ sample_modes →
         get_conf_pairs m' mode = Ret (Some (pairs_of mode (take 64 kvs)))) ∧
      (∀ mode, mode ∉ sample_modes.*1 → get_conf_pairs m' mode = Ret None)).
Proof.
  apply (get_conf_info_from_file_roundtrip (T:=gmap_table)); [by_decide..|done|done|done|done].
Defined.

Lemma duplicate_mode_dangles_witness :
  let kvs := [{| name := lit "k"; value := lit "v" |}] in
  wp (get_conf_info_from_file
        (sample_env (render_conf [(lit "M", kvs); (lit "M", kvs)])) sample_manager)
    (λ '(ret, m'), ret = 0 ∧ get_conf_pairs m' (lit "M") = Undef UseAfterFree).
Proof.
  intros kvs. apply (duplicate_mode_dangles (T:=gmap_table) _ (lit "M") kvs kvs);
    [by_decide..|done|done|done|done].
Defined.

Lemma get_conf_info_from_file_fits_witness :
  ∃ m', get_conf_info_from_file (sample_env (lit "-M")) sample_manager = Ret (0, m') ∧
        manager_ok m'.
Proof.
  eexists. split; [vm_compute; reflexivity|].
  by apply (get_conf_info_from_file_fits (T:=gmap_table) (sample_env (lit "-M"))
              sample_manager).
Defined.

Lemma get_conf_info_from_file_once_witness :
  let env := {| conf_file := None; buf_ok := true; block_ok := λ _, true |} in
  ∃ m', get_conf_info_from_file env sample_manager = Ret (OPEN_FILE_ERR, m') ∧
        get_conf_info_from_file (sample_env []) m' = Ret (REPEAT_INIT_ERR, m').
Proof.
  intros env. eexists. split; [reflexivity|].
  by apply (get_conf_info_from_file_once (T:=gmap_table) env _ sample_manager
              OPEN_FILE_ERR).
Defined.

Lemma close_all_dangles_witness :
  wp (get_conf_info_from_file
        (sample_env ("@"%char :: lit "CONF_SWITCH = 0" ++ LF :: [])) sample_manager)
    (λ '(ret, m'),
      ret = CONF_CLOSE_ALL ∧ destroy_iri_conf m' = Undef UseAfterFree ∧
      ∀ mode, get_conf_pairs m' mode = Undef UseAfterFree).
Proof.
  apply (close_all_dangles (T:=gmap_table) _ _ (lit "CONF_SWITCH = 0") []);
    [by_decide|done|done|done|by_decide|done].
Defined.

Lemma bad_end_reports_success_witness :
  wp (get_conf_info_from_file
        (sample_env ("-"%char :: lit "M" ++ LF :: concat [] ++ lit "-x")) sample_manager)
    (λ '(ret, m'),
      ret = 0 ∧ mode_count m' = 0 ∧ ∀ s, get_conf_pairs m' s = Ret None).
Proof.
  apply (bad_end_reports_success (T:=gmap_table) _ _ (lit "M") [] "x"%char []);
    [by_decide|done|done|done|by_decide|done].
Defined.
