(* ===== verification/ConfGet.v ===== *)
(** The typed getters of [src/src/utils/config/iridium_conf.c] over the global
    manager. A getter clears a local of its type, lets
    [READ_IRIDIUM_CONFIG_AND_LOG] store the converted text into it, and returns
    it; what is stored depends on the C conversion of each type, wrap-around
    included. [double] and [sscanf("%lf")] are parameters. *)

From S2P Require Import Prelude CString GHash ConfText ConfCore.

Inductive value_type :=
  | INT_VALUE | DOUBLE_VALUE | CHAR_STR_VALUE
  | GINT8_VALUE | GINT16_VALUE | GINT32_VALUE | GINT64_VALUE
  | GUINT8_VALUE | GUINT16_VALUE | GUINT32_VALUE | GUINT64_VALUE.

#[export] Instance value_type_eq_dec : EqDecision value_type.
Proof. solve_decision. Defined.

(** What [src_value] points to. *)
Inductive c_value (D : Type) :=
  | VNum (n : Z)
  | VDouble (d : D)
  | VStr (s : option bytes).
Arguments VNum {D} n.
Arguments VDouble {D} d.
Arguments VStr {D} s.

Section getters.
Context {T : Type → Type → Type} `{!GHashTable T}.
Context {D : Type} (zero_double : D) (sscanf_lf : bytes → option D).
Implicit Types (m : iri_conf_manager_t (T:=T)).

(** The number or nothing, as [sscanf] leaves it. *)
Definition scanned (old : c_value D) (r : outcome (option Z)) : outcome (c_value D) :=
  n ← r;
  match n with
  | Some n => mret (VNum n)
  | None => mret old
  end.

(** One [case] of the switch: the new [*src_value]. *)
Definition convert_value (ty : value_type) (tmp_value : bytes) (old : c_value D)
    : outcome (c_value D) :=
  match ty with
  | INT_VALUE => scanned old (sscanf_d tmp_value)
  | DOUBLE_VALUE =>
      mret match sscanf_lf tmp_value with Some d => VDouble d | None => old end
  | CHAR_STR_VALUE => mret (VStr (Some tmp_value))
  | GINT8_VALUE => n ← atoi tmp_value; mret (VNum (to_s 8 (Z.land n 255)))
  | GINT16_VALUE => n ← atoi tmp_value; mret (VNum (to_s 16 (Z.land n 65535)))
  | GINT32_VALUE => scanned old (sscanf_d tmp_value)
  | GINT64_VALUE =>
      n ← sscanf_lu tmp_value;
      match n with
      | Some n => mret (VNum (to_s 64 n))
      | None => mret old
      end
  | GUINT8_VALUE =>
      let n := to_s 64 (strtoul tmp_value) in
      mret (VNum (to_u 8 (to_u 16 (Z.land n 255))))
  | GUINT16_VALUE =>
      let n := to_s 64 (strtoul tmp_value) in
      mret (VNum (to_u 16 (Z.land n 65535)))
  | GUINT32_VALUE => scanned old (sscanf_u tmp_value)
  | GUINT64_VALUE => scanned old (sscanf_lu tmp_value)
  end.

Definition get_iridium_config_value m (pair key : bytes) : outcome (option bytes) :=
  cp ← get_conf_pairs m pair;
  match cp with
  | None => mret None
  | Some cp => get_value cp key
  end.

(** A missing key is logged and leaves the value as it was. *)
Definition READ_IRIDIUM_CONFIG_AND_LOG m (pair key : bytes) (src_value : c_value D)
    (ty : value_type) : outcome (c_value D) :=
  tmp_value ← get_iridium_config_value m pair key;
  match tmp_value with
  | Some tmp_value => convert_value ty tmp_value src_value
  | None => mret src_value
  end.

Definition init_global_config (env : conf_env) m
    : outcome (Z * iri_conf_manager_t (T:=T)) :=
  get_conf_info_from_file env zero_manager.

Definition destroy_global_config m : outcome (iri_conf_manager_t (T:=T)) :=
  _ ← destroy_iri_conf m;
  mret zero_manager.

Definition go_through_global_config m := go_through_conf_manager m.

Definition get_iri_conf_int m mode_name item_name :=
  READ_IRIDIUM_CONFIG_AND_LOG m mode_name item_name (VNum 0) INT_VALUE.
Definition get_iri_conf_double m mode_name item_name :=
  READ_IRIDIUM_CONFIG_AND_LOG m mode_name item_name (VDouble zero_double) DOUBLE_VALUE.
Definition get_iri_conf_str m mode_name item_name :=
  READ_IRIDIUM_CONFIG_AND_LOG m mode_name item_name (VStr None) CHAR_STR_VALUE.
Definition get_iri_conf_gint8 m mode_name item_name :=
  READ_IRIDIUM_CONFIG_AND_LOG m mode_name item_name (VNum 0) GINT8_VALUE.
Definition get_iri_conf_gint16 m mode_name item_name :=
  READ_IRIDIUM_CONFIG_AND_LOG m mode_name item_name (VNum 0) GINT16_VALUE.
Definition get_iri_conf_gint32 m mode_name item_name :=
  READ_IRIDIUM_CONFIG_AND_LOG m mode_name item_name (VNum 0) GINT32_VALUE.
Definition get_iri_conf_gint64 m mode_name item_name :=
  READ_IRIDIUM_CONFIG_AND_LOG m mode_name item_name (VNum 0) GINT64_VALUE.
Definition get_iri_conf_guint8 m mode_name item_name :=
  READ_IRIDIUM_CONFIG_AND_LOG m mode_name item_name (VNum 0) GUINT8_VALUE.
Definition get_iri_conf_guint16 m mode_name item_name :=
  READ_IRIDIUM_CONFIG_AND_LOG m mode_name item_name (VNum 0) GUINT16_VALUE.
Definition get_iri_conf_guint32 m mode_name item_name :=
  READ_IRIDIUM_CONFIG_AND_LOG m mode_name item_name (VNum 0) GUINT32_VALUE.
Definition get_iri_conf_guint64 m mode_name item_name :=
  READ_IRIDIUM_CONFIG_AND_LOG m mode_name item_name (VNum 0) GUINT64_VALUE.
End getters.

(** ** Numbers *)

(** The integer types a getter can be asked for: signedness and width. *)
Definition int_type (ty : value_type) : option (bool * Z) :=
  match ty with
  | INT_VALUE | GINT32_VALUE => Some (true, 32)
  | GINT8_VALUE => Some (true, 8)
  | GINT16_VALUE => Some (true, 16)
  | GINT64_VALUE => Some (true, 64)
  | GUINT8_VALUE => Some (false, 8)
  | GUINT16_VALUE => Some (false, 16)
  | GUINT32_VALUE => Some (false, 32)
  | GUINT64_VALUE => Some (false, 64)
  | DOUBLE_VALUE | CHAR_STR_VALUE => None
  end.
Definition wrap_to (t : bool * Z) (n : Z) : Z :=
  if t.1 then to_s t.2 n else to_u t.2 n.
Definition in_type (t : bool * Z) (n : Z) : Prop :=
  if t.1 then - 2 ^ (t.2 - 1) ≤ n < 2 ^ (t.2 - 1) else 0 ≤ n < 2 ^ t.2.
(** The numbers a configuration may hold for a type without undefined
    behaviour in the conversion. *)
Definition readable (ty : value_type) (n : Z) : Prop :=
  match ty with
  | GINT8_VALUE | GINT16_VALUE | INT_VALUE | GINT32_VALUE => in_int n
  | GUINT32_VALUE => Z.abs n < 2 ^ 32
  | GUINT8_VALUE | GUINT16_VALUE | GINT64_VALUE | GUINT64_VALUE => Z.abs n < 2 ^ 64
  | DOUBLE_VALUE | CHAR_STR_VALUE => False
  end.

Lemma land_255 n : Z.land n 255 = n mod 2 ^ 8.
Proof. by rewrite <- Z.land_ones. Qed.
Lemma land_65535 n : Z.land n 65535 = n mod 2 ^ 16.
Proof. by rewrite <- Z.land_ones. Qed.

Lemma to_s_mod w v n : 0 < w ≤ v → to_s w (n mod 2 ^ v) = to_s w n.
Proof.
  intros Hw. unfold to_s. f_equal. rewrite <- Zplus_mod_idemp_l.
  rewrite <- (Zplus_mod_idemp_l n). do 2 f_equal.
  replace (2 ^ v) with (2 ^ w * 2 ^ (v - w)) by (rewrite <- Z.pow_add_r by lia; f_equal; lia).
  rewrite Z.rem_mul_r by (try apply Z.pow_nonzero; try apply Z.pow_pos_nonneg; lia).
  rewrite (Z.mul_comm (2 ^ w)), Z_mod_plus_full. apply Zmod_mod.
Qed.

Lemma to_u_mod w v n : 0 ≤ w ≤ v → to_u w (n mod 2 ^ v) = to_u w n.
Proof.
  intros Hw. unfold to_u.
  replace (2 ^ v) with (2 ^ w * 2 ^ (v - w)) by (rewrite <- Z.pow_add_r by lia; f_equal; lia).
  rewrite Z.rem_mul_r by (try apply Z.pow_nonzero; try apply Z.pow_pos_nonneg; lia).
  rewrite (Z.mul_comm (2 ^ w)), Z_mod_plus_full. apply Zmod_mod.
Qed.

Lemma to_s_cong n : ∃ k, to_s 64 n = n + k * 2 ^ 64.
Proof.
  exists (- ((n + 2 ^ 63) / 2 ^ 64)). unfold to_s. change (64 - 1) with 63.
  pose proof (Z.div_mod (n + 2 ^ 63) (2 ^ 64)). lia.
Qed.

Lemma to_s_64_mod n w : 0 ≤ w ≤ 64 → to_s 64 n mod 2 ^ w = n mod 2 ^ w.
Proof.
  intros Hw. destruct (to_s_cong n) as [k ->].
  replace (2 ^ 64) with (2 ^ (64 - w) * 2 ^ w) by (rewrite <- Z.pow_add_r by lia; f_equal; lia).
  by rewrite Z.mul_assoc, Z_mod_plus_full.
Qed.

Lemma scan_readable n :
  Z.abs n < 2 ^ 64 → scan_number (print_d n) = Some (n <? 0, Z.abs n).
Proof. intros. apply scan_number_print. lia. Qed.

Lemma sscanf_d_print n : in_int n → sscanf_d (print_d n) = Ret (Some n).
Proof.
  intros Hn. unfold sscanf_d. rewrite scan_readable.
  2: { unfold in_int, INT_MIN, INT_MAX in Hn. lia. }
  rewrite signed_print. by rewrite decide_True.
Qed.

Lemma sscanf_unsigned_print w n :
  0 < w ≤ 64 → Z.abs n < 2 ^ w →
  sscanf_unsigned w (print_d n) = Ret (Some (to_u w n)).
Proof.
  intros Hw Hn. unfold sscanf_unsigned. rewrite scan_readable.
  2: { pose proof (Z.pow_le_mono_r 2 w 64). lia. }
  rewrite signed_print. cbn [snd]. by rewrite decide_True.
Qed.

Lemma strtoul_print n : Z.abs n < 2 ^ 64 → strtoul (print_d n) = to_u 64 n.
Proof.
  intros Hn. unfold strtoul. rewrite scan_readable by done.
  rewrite signed_print. cbn [snd]. rewrite decide_True; [done|].
  unfold ULONG_MAX. lia.
Qed.

Lemma convert_value_number {D} (lf : bytes → option D) ty n old t :
  int_type ty = Some t → readable ty n →
  convert_value lf ty (print_d n) old = Ret (VNum (wrap_to t n)).
Proof.
  intros Ht Hn.
  destruct ty; simpl in Ht; simplify_eq; cbn [readable] in Hn;
    unfold convert_value, scanned, wrap_to; cbn [fst snd].
  - rewrite sscanf_d_print by done. simpl. do 2 f_equal. symmetry. apply to_s_small; [lia|].
    unfold in_int, INT_MIN, INT_MAX in Hn. lia.
  - rewrite atoi_print by done. cbn [mbind outcome_bind mret outcome_ret].
    rewrite land_255, to_s_mod by lia. done.
  - rewrite atoi_print by done. cbn [mbind outcome_bind mret outcome_ret].
    rewrite land_65535, to_s_mod by lia. done.
  - rewrite sscanf_d_print by done. simpl. do 2 f_equal. symmetry. apply to_s_small; [lia|].
    unfold in_int, INT_MIN, INT_MAX in Hn. lia.
  - unfold sscanf_lu. rewrite sscanf_unsigned_print by lia.
    cbn [mbind outcome_bind mret outcome_ret]. unfold to_u. by rewrite to_s_mod by lia.
  - rewrite strtoul_print by done. unfold to_u at 3. rewrite to_s_mod by lia.
    rewrite land_255, to_s_64_mod by lia. cbn [mret outcome_ret].
    do 2 f_equal. rewrite (to_u_small 16); [apply Zmod_mod|].
    pose proof (Z.mod_pos_bound n (2 ^ 8)). lia.
  - rewrite strtoul_print by done. unfold to_u at 2. rewrite to_s_mod by lia.
    rewrite land_65535, to_s_64_mod by lia. cbn [mret outcome_ret].
    do 2 f_equal. apply Zmod_mod.
  - unfold sscanf_u. rewrite sscanf_unsigned_print by lia. done.
  - unfold sscanf_lu. rewrite sscanf_unsigned_print by lia. done.
Qed.

Lemma wrap_to_exact t n : 0 < t.2 → in_type t n → wrap_to t n = n.
Proof.
  unfold wrap_to, in_type. destruct t as [[] w]; simpl; intros ??;
    [by apply to_s_small|by apply to_u_small].
Qed.

(** ** Properties *)

Section properties.
Context {T : Type → Type → Type} `{!GHashTable T, !GHashTableLaws T}.
Context {D : Type} (sscanf_lf : bytes → option D).
Implicit Types (m : iri_conf_manager_t (T:=T)).


End properties.

