(* ===== verification/LogConfCore.v ===== *)
(** The configuration manager of the logging library,
    [src/src/log/iridiumSysLog/iridiumlog_conf/iridium_conf_core.c]: the reader
    of [ConfCore.v] with other result codes, a [log_switch] that any digit
    sets, a destruction that clears its pointer, and a missing [-end] that
    leaves the process. *)

From S2P Require Import Prelude CString GHash ConfText ConfCore.

Definition LOG_PARAMETER_ERR : Z := -2.
Definition LOG_REPEAT_INIT_ERR : Z := 3.
Definition LOG_OPEN_FILE_ERR : Z := 4.
Definition LOG_READ_FILE_ERR : Z := 5.
Definition LOG_CONF_FILE_MAP_ERR : Z := 6.
Definition LOG_CONF_CLOSE_ALL : Z := 9.
Definition LOG_LOG_SWITCH_STR : bytes := lit "LOG_SWITCH".

(** The parsing routines of this file are those of [ConfText.v]; the two
    sources differ in log messages only. *)
Definition log_get_string := get_string.
Definition log_check_comment_line := check_comment_line.
Definition log_iri_conf_line_handle := iri_conf_line_handle.
Definition log_handle_conf_block := handle_conf_block.
Definition log_get_value := get_value.

Definition transfer_char_to_int (c : ascii) : Z :=
  if is_digit c then digit_val c else -1.

Section log_conf_core.
Context {T : Type → Type → Type} `{!GHashTable T}.

Record log_iri_conf_manager_t := {
  log_iri_conf : table_ptr (conf_table (T:=T));
  log_mode_count : Z;
  log_init_flag : Z;
  log_switch : Z
}.

Definition log_zero_manager : log_iri_conf_manager_t :=
  {| log_iri_conf := TNull; log_mode_count := 0; log_init_flag := 0; log_switch := 0 |}.

Definition log_insert_new_node (cp : conf_pairs) (m : log_iri_conf_manager_t)
    : outcome log_iri_conf_manager_t :=
  match log_iri_conf m with
  | TNull => mret m
  | TFreed => Undef UseAfterFree
  | TLive t =>
      t ← table_insert (log_mode_count m) cp t;
      mret {| log_iri_conf := TLive t; log_mode_count := log_mode_count m;
              log_init_flag := log_init_flag m; log_switch := log_switch m |}
  end.

Definition log_add_mode (cp : conf_pairs) (m : log_iri_conf_manager_t)
    : outcome log_iri_conf_manager_t :=
  m ← log_insert_new_node cp m;
  mret {| log_iri_conf := log_iri_conf m; log_mode_count := log_mode_count m + 1;
          log_init_flag := log_init_flag m; log_switch := log_switch m |}.

Definition log_init_manager : log_iri_conf_manager_t :=
  {| log_iri_conf := TLive gh_new; log_mode_count := 0;
     log_init_flag := IRI_CONF_FINISH_INIT; log_switch := 1 |}.

Definition log_destroy_iri_conf (m : log_iri_conf_manager_t)
    : outcome log_iri_conf_manager_t :=
  match log_iri_conf m with
  | TNull => mret m
  | TLive _ => mret {| log_iri_conf := TNull; log_mode_count := log_mode_count m;
                       log_init_flag := log_init_flag m; log_switch := log_switch m |}
  | TFreed => Undef UseAfterFree
  end.

Definition log_get_conf_pairs (m : log_iri_conf_manager_t) (mode : bytes)
    : outcome (option conf_pairs) :=
  match log_iri_conf m with
  | TNull => mret None
  | TFreed => Undef UseAfterFree
  | TLive t =>
      e ← table_entry t mode;
      match e with
      | Some (_, cp) => mret (Some cp)
      | None => mret None
      end
  end.

Definition set_log_switch (m : log_iri_conf_manager_t) (v : Z)
    : log_iri_conf_manager_t :=
  {| log_iri_conf := log_iri_conf m; log_mode_count := log_mode_count m;
     log_init_flag := log_init_flag m; log_switch := v |}.

(** A switch line: [0] stops reading, anything else is stored (-1 for a
    character that is no digit). *)
Definition log_on_switch (c : ascii) (m : log_iri_conf_manager_t)
    : log_iri_conf_manager_t + Z * log_iri_conf_manager_t :=
  if decide (transfer_char_to_int c = 0)
  then inr (LOG_CONF_CLOSE_ALL, set_log_switch m 0)
  else inl (set_log_switch m (transfer_char_to_int c)).

Definition log_scan_conf (env : conf_env) (file : bytes)
    (m : log_iri_conf_manager_t) : outcome (Z * log_iri_conf_manager_t) :=
  conf_scan LOG_LOG_SWITCH_STR log_on_switch (Exited 0) log_add_mode
    (fills_buffer file) (block_ok env) (fread_conf file) m.

Strategy expand [log_scan_conf].

Definition log_get_conf_info_from_file (env : conf_env)
    (conf_manager : option log_iri_conf_manager_t)
    : outcome (Z * option log_iri_conf_manager_t) :=
  match conf_manager with
  | None => mret (LOG_PARAMETER_ERR, None)
  | Some m =>
      if decide (log_init_flag m = IRI_CONF_FINISH_INIT)
      then mret (LOG_REPEAT_INIT_ERR, Some m) else
      let m := log_init_manager in
      match conf_file env with
      | None => mret (LOG_OPEN_FILE_ERR, Some m)
      | Some file =>
          if buf_ok env then
            '(ret, m) ← log_scan_conf env file m;
            mret (ret, Some m)
          else mret (LOG_CONF_FILE_MAP_ERR, Some m)
      end
  end.

(** [g_hash_table_foreach(conf_manager->iri_conf, user_func, user_data)]: the
    callback on every entry, the user data threaded through. *)
Fixpoint foreach {A U} (f : A → U → outcome U) (l : list A) (u : U) : outcome U :=
  match l with
  | [] => mret u
  | x :: l => u ← f x u; foreach f l u
  end.

Definition log_conf_manager_foreach {U} (m : log_iri_conf_manager_t)
    (user_func : bytes * (Z * (Z * conf_pairs)) → U → outcome U) (u : U) : outcome U :=
  match log_iri_conf m with
  | TNull => mret u   (* GLib warns and returns *)
  | TFreed => Undef UseAfterFree
  | TLive t => foreach user_func (gh_foreach t) u
  end.

(** The printing callback, collecting its lines. *)
Definition log_print_key_value (e : bytes * (Z * (Z * conf_pairs)))
    (u : list (bytes * list single_conf_pair))
    : outcome (list (bytes * list single_conf_pair)) :=
  line ← print_key_value e;
  mret (u ++ [line]).
Definition log_go_through_conf_manager (m : log_iri_conf_manager_t) :=
  log_conf_manager_foreach m log_print_key_value [].
End log_conf_core.

Section log_conf_core_facts.
Context {T : Type → Type → Type} `{!GHashTable T, !GHashTableLaws T}.
Implicit Types (m : log_iri_conf_manager_t (T:=T)).

Lemma log_add_mode_settled cp m : settled (log_add_mode cp m).
Proof.
  unfold log_add_mode, log_insert_new_node. settle. apply table_insert_settled.
Qed.

Lemma log_scan_conf_settled env file m : settled (log_scan_conf env file m).
Proof. apply conf_scan_settled; [done|apply log_add_mode_settled]. Qed.

(** The manager that [init_manager] leaves, with another table. *)
Definition log_live (s : conf_table (T:=T) * Z) : log_iri_conf_manager_t (T:=T) :=
  {| log_iri_conf := TLive s.1; log_mode_count := s.2;
     log_init_flag := IRI_CONF_FINISH_INIT; log_switch := 1 |}.

Lemma log_scan_conf_render env modes s :
  (∀ n, block_ok env n = true) → zlen (render_conf modes) ≤ MAX_CONF_FILE_SIZE →
  Forall well_formed_mode modes → insert_modes store_block modes (gh_new, 0) = Ret s →
  log_scan_conf env (render_conf modes) log_init_manager = Ret (0, log_live s).
Proof.
  intros Hok Hlen Hwf Hi. unfold log_scan_conf. rewrite fread_conf_all by done.
  apply conf_scan_render; [done|apply log_add_mode_settled|done..|].
  change log_init_manager with (log_live (gh_new, 0)).
  rewrite (insert_modes_map _ store_block log_live); [by rewrite Hi|].
  intros cp s'. unfold log_add_mode, log_insert_new_node, store_block, log_live. simpl.
  by destruct (table_insert _ _ _).
Qed.

(** Every record is well formed and filed under its name. *)
Definition log_manager_ok m : Prop :=
  log_init_flag m = IRI_CONF_FINISH_INIT ∧
  ∃ t, log_iri_conf m = TLive t ∧ table_ok t.

Lemma log_init_manager_ok : log_manager_ok log_init_manager.
Proof. split; [done|]. eexists. split; [done|apply table_ok_new]. Qed.

Lemma log_scan_conf_ok env file m r m' :
  log_scan_conf env file m = Ret (r, m') →
  log_manager_ok m ∧ log_switch m ≠ 0 → log_manager_ok m' ∧ (r = 0 → log_switch m' ≠ 0).
Proof.
  intros H Hm.
  set (P := λ m : log_iri_conf_manager_t, log_manager_ok m ∧ log_switch m ≠ 0).
  set (Q := λ r : Z * log_iri_conf_manager_t,
    log_manager_ok r.2 ∧ (r.1 = 0 → log_switch r.2 ≠ 0)).
  change (Q (r, m')). unfold log_scan_conf in H.
  apply (conf_scan_preserves P Q) in H; [done|..|done].
  - intros c m1 m2 [Hm1 Hs]. unfold log_on_switch. case_decide; intros; by simplify_eq.
  - intros c m1 r1 [Hm1 Hs]. unfold log_on_switch. case_decide; intros; by simplify_eq.
  - intros cp m1 m2 Hcp [(Hf&t&Ht&Hall) Hs] Ha.
    unfold log_add_mode, log_insert_new_node in Ha. rewrite Ht in Ha. ret_inv Ha. ret_inv E.
    split; [split|done]; [done|]. eexists. split; [done|]. by eapply table_ok_insert.
  - by intros r1 m1 [Hm1 Hs].
Qed.

(** What a switch line with [0] leaves: the manager says closed. *)
Lemma log_scan_conf_closed env line rest :
  Forall (λ c, c ≠ LF) line →
  switch_char LOG_LOG_SWITCH_STR (take 125 line) = Some "0"%char →
  zlen line + 2 ≤ MAX_CONF_FILE_SIZE →
  log_scan_conf env ("@"%char :: line ++ LF :: rest) log_init_manager =
    Ret (LOG_CONF_CLOSE_ALL, set_log_switch log_init_manager 0).
Proof.
  intros Hl Hs Hlen.
  destruct (fread_conf_line ("@"%char :: line) rest) as [rest' Hr].
  { unfold zlen in *. simpl. lia. }
  unfold log_scan_conf. rewrite app_comm_cons, Hr. apply conf_scan_stop.
  by apply (conf_turn_switch_stop _ _ _ _ _ _ _ _ _ _ _ _ Hl Hs).
Qed.
End log_conf_core_facts.
