(* ===== verification/LogConf.v ===== *)
(** The per-file log settings,
    [src/src/log/iridiumSysLog/iridiumlog_conf/iridiumlog_conf.c]: one record
    per configured log file in the growing array [sinfo], whose first three
    slots are reserved, and a hash table from file names to slots.

    A key of [names] points at the [name] field of a record; records are named
    by their slot. [g_malloc] does not return on failure. A slot that was
    allocated but never assigned reads as [None]; no operation reads one below
    [len] (see [infos_ok]). *)

From S2P Require Import Prelude CString GHash ConfText ConfCore LogConfCore.

Definition FILE_NAME_LEN : Z := 128.
Definition DEFAULT_LOG_CONF_FILES_MEM : Z := 50.
Definition DEFAULT_LOG_ROLLBACK_NUMBER : Z := 5.
Definition DEFAULT_LOG_SINGLE_MAX_SIZE : Z := 30 * 1024 * 1024.
Definition TOTAL_SWITCH_MODE_NAME : bytes := lit "TOTAL_SWITCH".
Definition TOTAL_SWITCH_IS_VALID : bytes := lit "IS_VALID".
Definition TOTAL_SWITCH_TIMER : bytes := lit "TIMMER".
Definition DEFAULT_LOG_FILE_NAME : bytes := lit "iridium_default".

(** [log_file_line_level], the indices of [info_head]. *)
Definition INDEX_LOG_LEVEL : nat := 0.
Definition INDEX_LOG_FILE : nat := 1.
Definition INDEX_LOG_TERMINAL : nat := 2.
Definition INDEX_LOG_ROLLBAKC_NUM : nat := 3.
Definition INDEX_LOG_SINGLE_MAX_SIZE : nat := 4.
Definition INDEX_LOG_IS_PROCESS_LOCK : nat := 5.

(** [infos_special_index]. *)
Definition INFOS_ID_CTL : Z := 0.
Definition INFOS_ID_TOTAL_SWITCH : Z := 1.
Definition INFOS_ID_DEFAULT : Z := 2.
Definition INFOS_ID_START : Z := 3.

(** One-bit fields: only 0 and 1 are stored. *)
Record irilog_switch_t := {
  p_file : Z; p_func : Z; p_line : Z; p_date : Z;
  f_file : Z; f_func : Z; f_line : Z; f_date : Z;
  log_terminal : Z; log_file : Z;
  sw_debug : Z; sw_info : Z; sw_err : Z; sw_fatal : Z
}.

Record single_log_conf_info_t := {
  si_log_switch : Z;
  is_valid : Z;
  si_name : bytes;
  timer : Z;
  irilog_switch : irilog_switch_t;
  loginfo_max_len : Z;
  rollback_num : Z;
  single_max_size : Z;
  is_process_lock : Z
}.

Definition zero_switch : irilog_switch_t :=
  {| p_file := 0; p_func := 0; p_line := 0; p_date := 0;
     f_file := 0; f_func := 0; f_line := 0; f_date := 0;
     log_terminal := 0; log_file := 0;
     sw_debug := 0; sw_info := 0; sw_err := 0; sw_fatal := 0 |}.

(** [memset(info, 0, sizeof(single_log_conf_info_t))]. *)
Definition zero_info : single_log_conf_info_t :=
  {| si_log_switch := 0; is_valid := 0; si_name := []; timer := 0;
     irilog_switch := zero_switch; loginfo_max_len := 0; rollback_num := 0;
     single_max_size := 0; is_process_lock := 0 |}.

(** Field assignments. *)
Definition set_switch (i : single_log_conf_info_t) (sw : irilog_switch_t) :=
  {| si_log_switch := si_log_switch i; is_valid := is_valid i; si_name := si_name i;
     timer := timer i; irilog_switch := sw; loginfo_max_len := loginfo_max_len i;
     rollback_num := rollback_num i; single_max_size := single_max_size i;
     is_process_lock := is_process_lock i |}.
Definition set_numbers (i : single_log_conf_info_t) (rollback size lock : Z) :=
  {| si_log_switch := si_log_switch i; is_valid := is_valid i; si_name := si_name i;
     timer := timer i; irilog_switch := irilog_switch i;
     loginfo_max_len := loginfo_max_len i; rollback_num := rollback;
     single_max_size := size; is_process_lock := lock |}.
Definition set_control (i : single_log_conf_info_t) (switch valid time : Z) :=
  {| si_log_switch := switch; is_valid := valid; si_name := si_name i;
     timer := time; irilog_switch := irilog_switch i;
     loginfo_max_len := loginfo_max_len i; rollback_num := rollback_num i;
     single_max_size := single_max_size i; is_process_lock := is_process_lock i |}.
Definition set_name (i : single_log_conf_info_t) (n : bytes) :=
  {| si_log_switch := si_log_switch i; is_valid := is_valid i; si_name := n;
     timer := timer i; irilog_switch := irilog_switch i;
     loginfo_max_len := loginfo_max_len i; rollback_num := rollback_num i;
     single_max_size := single_max_size i; is_process_lock := is_process_lock i |}.

(** The assignments of the three inner switches, by [remember_seq]. *)
Definition set_levels (seq v : Z) (sw : irilog_switch_t) : irilog_switch_t :=
  let '(Build_irilog_switch_t pf pu pl pd ff fu fl fd lt lf d i e f) := sw in
  if decide (seq = 0) then Build_irilog_switch_t pf pu pl pd ff fu fl fd lt lf v i e f
  else if decide (seq = 1) then Build_irilog_switch_t pf pu pl pd ff fu fl fd lt lf d v e f
  else if decide (seq = 2) then Build_irilog_switch_t pf pu pl pd ff fu fl fd lt lf d i v f
  else if decide (seq = 3) then Build_irilog_switch_t pf pu pl pd ff fu fl fd lt lf d i e v
  else sw.
Definition set_file (seq v : Z) (sw : irilog_switch_t) : irilog_switch_t :=
  let '(Build_irilog_switch_t pf pu pl pd ff fu fl fd lt lf d i e f) := sw in
  if decide (seq = 0) then Build_irilog_switch_t pf pu pl pd ff fu fl fd lt v d i e f
  else if decide (seq = 1) then Build_irilog_switch_t pf pu pl pd v fu fl fd lt lf d i e f
  else if decide (seq = 2) then Build_irilog_switch_t pf pu pl pd ff v fl fd lt lf d i e f
  else if decide (seq = 3) then Build_irilog_switch_t pf pu pl pd ff fu v fd lt lf d i e f
  else if decide (seq = 4) then Build_irilog_switch_t pf pu pl pd ff fu fl v lt lf d i e f
  else sw.
Definition set_terminal (seq v : Z) (sw : irilog_switch_t) : irilog_switch_t :=
  let '(Build_irilog_switch_t pf pu pl pd ff fu fl fd lt lf d i e f) := sw in
  if decide (seq = 0) then Build_irilog_switch_t pf pu pl pd ff fu fl fd v lf d i e f
  else if decide (seq = 1) then Build_irilog_switch_t v pu pl pd ff fu fl fd lt lf d i e f
  else if decide (seq = 2) then Build_irilog_switch_t pf v pl pd ff fu fl fd lt lf d i e f
  else if decide (seq = 3) then Build_irilog_switch_t pf pu v pd ff fu fl fd lt lf d i e f
  else if decide (seq = 4) then Build_irilog_switch_t pf pu pl v ff fu fl fd lt lf d i e f
  else sw.

(** The loops of the three switch lines: [max] is the last [remember_seq]. The
    result says whether the line was accepted; the fields assigned before an
    error stay assigned. *)
Fixpoint read_switches (max : Z) (set : Z → Z → irilog_switch_t → irilog_switch_t)
    (value : bytes) (remember_seq : Z) (sw : irilog_switch_t) : bool * irilog_switch_t :=
  match value with
  | [] => (true, sw)
  | c :: value =>
      if decide (c = "."%char) then read_switches max set value remember_seq sw
      else if decide (remember_seq > max) then (true, sw)
      else
        let ret := is_level_true c in
        if decide (ret < 0) then (false, sw)
        else read_switches max set value (remember_seq + 1) (set remember_seq ret sw)
  end.

Definition info_head : list bytes :=
  [lit "DEBUG.INFO.ERR.FATAL"; lit "LOG_FILE.FILE.FUNC.LINE.DATE";
   lit "LOG_TERMINAL.FILE.FUNC.LINE.DATE"; lit "ROLLBACK_NUMBER";
   lit "SINGLE_MAX_SIZE"; lit "IS_PROCESS_LOCK"].

(** The index of the first matching head. *)
Fixpoint head_index (nm : bytes) (heads : list bytes) (i : nat) : option nat :=
  match heads with
  | [] => None
  | h :: heads => if decide (nm = h) then Some i else head_index nm heads (S i)
  end.

Definition switch_line (max : Z) (set : Z → Z → irilog_switch_t → irilog_switch_t)
    (info : single_log_conf_info_t) (value : bytes) : Z * single_log_conf_info_t :=
  let '(ok, sw) := read_switches max set value 0 (irilog_switch info) in
  (if ok then 0 else -1, set_switch info sw).

Definition irilog_conf_line_handle (info : single_log_conf_info_t) (nm value : bytes)
    : outcome (Z * single_log_conf_info_t) :=
  match head_index nm info_head 0 with
  | None => mret (0, info)
  | Some i =>
      if decide (i = INDEX_LOG_LEVEL) then mret (switch_line 3 set_levels info value)
      else if decide (i = INDEX_LOG_FILE) then mret (switch_line 4 set_file info value)
      else if decide (i = INDEX_LOG_TERMINAL)
      then mret (switch_line 4 set_terminal info value)
      else if decide (i = INDEX_LOG_ROLLBAKC_NUM) then
        n ← sscanf_d value;
        mret (0, set_numbers info (default (rollback_num info) n)
                   (single_max_size info) (is_process_lock info))
      else if decide (i = INDEX_LOG_SINGLE_MAX_SIZE) then
        n ← sscanf_u value;
        mret (0, set_numbers info (rollback_num info)
                   (default (single_max_size info) n) (is_process_lock info))
      else
        n ← sscanf_d value;
        mret (0, set_numbers info (rollback_num info) (single_max_size info)
                   (default (is_process_lock info) n))
  end.

(** The results of the lines are ignored. *)
Fixpoint handle_pairs (kvs : list single_conf_pair) (info : single_log_conf_info_t)
    : outcome single_log_conf_info_t :=
  match kvs with
  | [] => mret info
  | kv :: kvs =>
      '(_, info) ← irilog_conf_line_handle info (name kv) (value kv);
      handle_pairs kvs info
  end.
Definition get_info_from_conf_pairs (cp : conf_pairs) (info : single_log_conf_info_t)
    : outcome single_log_conf_info_t :=
  handle_pairs (take (Z.to_nat (cur_pos cp)) (pairs cp)) info.

Definition set_default_single_log_conf_info (info : single_log_conf_info_t)
    : single_log_conf_info_t :=
  {| si_log_switch := si_log_switch info; is_valid := 0; si_name := si_name info;
     timer := timer info;
     irilog_switch :=
       {| p_file := 0; p_func := 0; p_line := 0; p_date := 0;
          f_file := 1; f_func := 1; f_line := 1; f_date := 1;
          log_terminal := 0; log_file := 1;
          sw_debug := 0; sw_info := 1; sw_err := 1; sw_fatal := 1 |};
     loginfo_max_len := loginfo_max_len info;
     rollback_num := DEFAULT_LOG_ROLLBACK_NUMBER;
     single_max_size := DEFAULT_LOG_SINGLE_MAX_SIZE;
     is_process_lock := is_process_lock info |}.

Section log_conf.
Context {T : Type → Type → Type} `{!GHashTable T}.

Definition names_table : Type := T Z Z.

Record log_conf_infos_t := {
  len : Z;
  allocated_len : Z;
  sinfo : option (list (option single_log_conf_info_t));
  names : names_table
}.

(** [sinfo[id] = info], in bounds. *)
Definition store_info (infos : log_conf_infos_t) (id : Z)
    (info : option single_log_conf_info_t) : outcome log_conf_infos_t :=
  match sinfo infos with
  | None => Undef NullDeref
  | Some a =>
      a ← aset a id info;
      mret {| len := len infos; allocated_len := allocated_len infos;
              sinfo := Some a; names := names infos |}
  end.

(** [sinfo[id]->...], a record. *)
Definition load_info (infos : log_conf_infos_t) (id : Z)
    : outcome single_log_conf_info_t :=
  match sinfo infos with
  | None => Undef NullDeref
  | Some a =>
      i ← aget a id;
      match i with
      | Some i => mret i
      | None => Undef NullDeref
      end
  end.

(** Make room: the first allocation holds 50 slots and clears the three
    reserved ones, later ones add 10. *)
Definition grow_infos (infos : log_conf_infos_t) : log_conf_infos_t :=
  if decide (len infos >= allocated_len infos) then
    match sinfo infos with
    | None =>
        {| len := INFOS_ID_START; allocated_len := DEFAULT_LOG_CONF_FILES_MEM;
           sinfo := Some (replicate (Z.to_nat DEFAULT_LOG_CONF_FILES_MEM) None);
           names := names infos |}
    | Some a =>
        {| len := len infos; allocated_len := allocated_len infos + 10;
           sinfo := Some (a ++ replicate 10 None); names := names infos |}
    end
  else infos.

(** [lci_add_info]: the id of the new record. *)
Definition lci_add_info (infos : log_conf_infos_t) (info : single_log_conf_info_t)
    (special_id : Z) : outcome (Z * log_conf_infos_t) :=
  let infos := grow_infos infos in
  if decide (special_id >= INFOS_ID_START) then
    let id := len infos in
    infos ← store_info infos id (Some info);
    mret (id, {| len := len infos + 1; allocated_len := allocated_len infos;
                 sinfo := sinfo infos; names := names infos |})
  else
    infos ← store_info infos special_id (Some info);
    mret (special_id, infos).

(** [g_hash_table_insert(names, info->name, int_value)]. *)
Definition insert_name (infos : log_conf_infos_t) (nm : bytes) (id : Z)
    : log_conf_infos_t :=
  {| len := len infos; allocated_len := allocated_len infos; sinfo := sinfo infos;
     names := gh_insert nm id id (names infos) |}.

(** [strncpy(info->name, s, FILE_NAME_LEN - 1)] into a cleared record. *)
Definition copy_name (s : bytes) : bytes := take (Z.to_nat (FILE_NAME_LEN - 1)) s.

Definition log_conf_infos_init : outcome log_conf_infos_t :=
  let infos := {| len := 0; allocated_len := 0; sinfo := None; names := gh_new |} in
  '(_, infos) ← lci_add_info infos (set_control zero_info 1 0 0) INFOS_ID_CTL;
  '(_, infos) ← lci_add_info infos (set_default_single_log_conf_info zero_info)
                  INFOS_ID_TOTAL_SWITCH;
  let info := set_default_single_log_conf_info
                (set_name zero_info (copy_name DEFAULT_LOG_FILE_NAME)) in
  '(id, infos) ← lci_add_info infos info INFOS_ID_DEFAULT;
  mret (insert_name infos (si_name info) id).

(** The control fields of the [TOTAL_SWITCH] mode; a missing or invalid one
    leaves the process. *)
Definition total_switch_control (cp : conf_pairs) (info : single_log_conf_info_t)
    : outcome single_log_conf_info_t :=
  value ← log_get_value cp TOTAL_SWITCH_IS_VALID;
  match value with
  | None => Exited 0
  | Some value =>
      let valid := is_level_true (default NUL (head value)) in
      if decide (valid < 0) then Exited 0 else
      value ← log_get_value cp TOTAL_SWITCH_TIMER;
      match value with
      | None => Exited 0
      | Some value =>
          time ← atoi value;
          if decide (time < 0) then Exited 0
          else mret (set_control info (si_log_switch info) valid time)
      end
  end.

(** The callback on one mode of the file. *)
Definition fill_log_conf_infos (e : bytes * (Z * (Z * conf_pairs)))
    (infos : log_conf_infos_t) : outcome log_conf_infos_t :=
  let '(key, (owner, (block, cp))) := e in
  if decide (owner = block) then
    info ← get_info_from_conf_pairs cp (set_name zero_info (copy_name key));
    '(id, infos) ← (if decide (si_name info = TOTAL_SWITCH_MODE_NAME) then
                      info ← total_switch_control cp info;
                      lci_add_info infos info INFOS_ID_TOTAL_SWITCH
                    else lci_add_info infos info INFOS_ID_START);
    mret (insert_name infos (si_name info) id)
  else Undef UseAfterFree.

Definition get_log_conf_infos (env : conf_env) : outcome log_conf_infos_t :=
  infos ← log_conf_infos_init;
  '(ret, m) ← log_get_conf_info_from_file env (Some (log_zero_manager (T:=T)));
  match m with
  | None => Undef NullDeref
  | Some m =>
      infos ← (if decide (ret = 0) then
                 ctl ← load_info infos INFOS_ID_CTL;
                 infos ← store_info infos INFOS_ID_CTL
                           (Some (set_control ctl (log_switch m) (is_valid ctl) (timer ctl)));
                 log_conf_manager_foreach m fill_log_conf_infos infos
               else mret infos);
      total ← load_info infos INFOS_ID_TOTAL_SWITCH;
      ctl ← load_info infos INFOS_ID_CTL;
      infos ← store_info infos INFOS_ID_CTL
                (Some (set_control ctl (si_log_switch ctl) (is_valid total) (timer ctl)));
      _ ← log_destroy_iri_conf m;
      mret infos
  end.

Definition get_log_conf_info (infos : option log_conf_infos_t) (id : Z)
    : outcome (option single_log_conf_info_t) :=
  match infos with
  | None => mret None
  | Some infos =>
      if decide (id < 0 ∨ id >= len infos) then mret None
      else match sinfo infos with
           | None => Undef NullDeref
           | Some a => aget a id
           end
  end.

(** What [go_through_log_conf_infos] prints of one record. *)
Definition shown_info (i : Z) (info : single_log_conf_info_t) : bytes :=
  let sw := irilog_switch info in
  if decide (i = INFOS_ID_CTL) then
    lit "---LOG_SWITCH: " ++ print_d (si_log_switch info) ++ lit ", IS_VALID:" ++
    print_d (is_valid info) ++ [LF]
  else
    (if decide (i = INFOS_ID_TOTAL_SWITCH)
     then lit "---timer:" ++ print_d (timer info) ++ lit "," else []) ++
    (if decide (i > INFOS_ID_TOTAL_SWITCH) then lit "---" else lit "  ") ++
    lit "file_name: " ++
    (if decide (i = INFOS_ID_TOTAL_SWITCH) then lit "TOTAL_SWITCH[no file name]"
     else cstr (si_name info)) ++ [LF] ++
    [TAB] ++ lit "rollback_num: " ++ print_d (rollback_num info) ++ [LF] ++
    [TAB] ++ lit "single_max_size: " ++ print_u (single_max_size info) ++ [LF] ++
    [TAB] ++ lit "is_process_lock: " ++
      (if decide (is_process_lock info = 0) then lit "N" else lit "Y") ++ [LF] ++
    [TAB; TAB] ++ lit "debug:" ++ print_u (sw_debug sw) ++ lit ", info:" ++
      print_u (sw_info sw) ++ lit ", err:" ++ print_u (sw_err sw) ++ lit ", fatal:" ++
      print_u (sw_fatal sw) ++ [LF] ++
    [TAB; TAB] ++ lit "log_terminal:" ++ print_u (log_terminal sw) ++ lit ", log_file:" ++
      print_u (log_file sw) ++ [LF] ++
    [TAB; TAB] ++ lit "f_file:" ++ print_u (f_file sw) ++ lit ", f_func:" ++
      print_u (f_func sw) ++ lit ", f_line:" ++ print_u (f_line sw) ++ lit ", f_date:" ++
      print_u (f_date sw) ++ [LF] ++
    [TAB; TAB] ++ lit "p_file:" ++ print_u (p_file sw) ++ lit ", p_func:" ++
      print_u (p_func sw) ++ lit ", p_line:" ++ print_u (p_line sw) ++ lit ", p_date:" ++
      print_u (p_date sw) ++ [LF; LF].

Fixpoint shown_infos (n : nat) (i : Z) (infos : log_conf_infos_t) : outcome bytes :=
  match n with
  | O => mret []
  | S n =>
      info ← load_info infos i;
      rest ← shown_infos n (i + 1) infos;
      mret (shown_info i info ++ rest)
  end.

(** The text [go_through_log_conf_infos] prints. *)
Definition go_through_log_conf_infos (infos : option log_conf_infos_t) : outcome bytes :=
  match infos with
  | None => Exited 0
  | Some infos =>
      rest ← shown_infos (Z.to_nat (len infos)) 0 infos;
      mret (lit "************ count : " ++ print_d (len infos) ++ [LF; LF] ++ rest)
  end.

(** [log_conf_infos_destroy]: the slots it frees, in order. The records, the
    array, the table and [infos] itself are gone afterwards; the caller's
    pointer is not cleared. *)
Definition log_conf_infos_destroy (infos : option log_conf_infos_t)
    : outcome (list Z) :=
  match infos with
  | None => mret []
  | Some infos =>
      match sinfo infos with
      | None => mret []
      | Some a =>
          '(_, freed) ← loop (S (Z.to_nat (len infos))) (λ '(i, (a, freed)),
            if decide (i < len infos) then
              x ← aget a i;
              match x with
              | Some _ => a ← aset a i None; mret (Next (i + 1, (a, freed ++ [i])))
              | None => mret (Next (i + 1, (a, freed)))
              end
            else mret (Stop (a, freed))) (0, (a, []));
          mret freed
      end
  end.
End log_conf.

#[export] Instance irilog_switch_inhabited : Inhabited irilog_switch_t :=
  populate zero_switch.
#[export] Instance single_log_conf_info_inhabited : Inhabited single_log_conf_info_t :=
  populate zero_info.

(** ** Facts *)

Section log_conf_facts.
Context {T : Type → Type → Type} `{!GHashTable T, !GHashTableLaws T}.
Implicit Types (infos : log_conf_infos_t (T:=T)).

(** The record in a slot. *)
Definition slot infos (i : Z) : option single_log_conf_info_t :=
  match sinfo infos with
  | Some a => if decide (0 ≤ i) then (a !! Z.to_nat i) ≫= id else None
  | None => None
  end.

(** The array is allocated, [len] is within it and every slot below it holds a
    record. *)
Definition slots_ok infos : Prop :=
  ∃ a, sinfo infos = Some a ∧ zlen a = allocated_len infos ∧
       INFOS_ID_START ≤ len infos ≤ allocated_len infos ∧
       ∀ i, 0 ≤ i < len infos → is_Some (slot infos i).
(** Every name leads to a record of that name. *)
Definition names_ok infos : Prop :=
  ∀ s k id, gh_lookup s (names infos) = Some (k, id) →
    INFOS_ID_TOTAL_SWITCH ≤ id < len infos ∧
    (id = INFOS_ID_TOTAL_SWITCH → s = TOTAL_SWITCH_MODE_NAME) ∧
    ∃ info, slot infos id = Some info ∧ si_name info = s.
Definition infos_ok infos : Prop := slots_ok infos ∧ names_ok infos.

Lemma slot_aget infos a i x :
  sinfo infos = Some a → slot infos i = Some x → aget a i = Ret (Some x).
Proof.
  unfold slot. intros -> H. case_decide; [|done].
  destruct (a !! Z.to_nat i) as [[y|]|] eqn:E; simplify_eq/=.
  unfold aget. rewrite decide_True.
  - f_equal. unfold rd. by apply list_lookup_total_correct.
  - apply lookup_lt_Some in E. unfold zlen. lia.
Qed.

Lemma load_info_slot infos i x : slot infos i = Some x → load_info infos i = Ret x.
Proof.
  intros H. unfold load_info. destruct (sinfo infos) as [a|] eqn:E.
  - by erewrite slot_aget by done.
  - unfold slot in H. by rewrite E in H.
Qed.

Lemma load_info_inv infos i x : load_info infos i = Ret x → slot infos i = Some x.
Proof.
  unfold load_info, slot. destruct (sinfo infos) as [a|]; [|done]. intros H. ret_inv H.
  unfold aget in E. ret_inv E. rewrite decide_True by lia.
  by rewrite lookup_rd by lia.
Qed.

(** Storing a record in a slot of the array. *)
Lemma store_info_spec infos i x a :
  sinfo infos = Some a → 0 ≤ i < zlen a →
  ∃ infos', store_info infos i (Some x) = Ret infos' ∧
    len infos' = len infos ∧ allocated_len infos' = allocated_len infos ∧
    names infos' = names infos ∧ (∃ a', sinfo infos' = Some a' ∧ zlen a' = zlen a) ∧
    ∀ j, slot infos' j = if decide (j = i) then Some x else slot infos j.
Proof.
  intros Ha Hi. unfold store_info, aset. rewrite Ha, decide_True by done.
  cbn [mbind outcome_bind mret outcome_ret].
  eexists. split; [done|]. simpl. split_and!; [done..| |].
  - eexists. split; [done|apply zlen_upd].
  - intros j. unfold slot. simpl. rewrite Ha. unfold upd.
    destruct (decide (j = i)) as [->|].
    + rewrite decide_True by lia.
      by rewrite list_lookup_insert_eq by (unfold zlen in Hi; lia).
    + case_decide; [|done]. by rewrite list_lookup_insert_ne by lia.
Qed.

Lemma slots_ok_store infos i x :
  slots_ok infos → 0 ≤ i < len infos →
  ∃ infos', store_info infos i (Some x) = Ret infos' ∧ slots_ok infos' ∧
    len infos' = len infos ∧ names infos' = names infos ∧
    ∀ j, slot infos' j = if decide (j = i) then Some x else slot infos j.
Proof.
  intros (a&Ha&Hz&Hl&Hs) Hi.
  destruct (store_info_spec infos i x a) as (infos'&Hst&Hlen&Hall&Hn&(a'&Ha'&Hz')&Hj);
    [done|lia|].
  exists infos'. split_and!; [done| |done..]. exists a'. split_and!; [done|lia|lia|lia|].
  intros j Hj'. rewrite Hj. case_decide; [done|]. apply Hs. lia.
Qed.

Lemma grow_infos_spec infos :
  slots_ok infos →
  let infos' := grow_infos infos in
  slots_ok infos' ∧ len infos' = len infos ∧ len infos' < allocated_len infos' ∧
  names infos' = names infos ∧ ∀ j, 0 ≤ j < len infos → slot infos' j = slot infos j.
Proof.
  intros Hok. pose proof Hok as (a&Ha&Hz&Hl&Hs). unfold grow_infos. rewrite Ha.
  case_decide as Hfull; [|split_and!; try done; lia].
  assert (Hsl : ∀ j, 0 ≤ j < len infos →
    slot {| len := len infos; allocated_len := allocated_len infos + 10;
            sinfo := Some (a ++ replicate 10 None); names := names infos |} j = slot infos j).
  { intros j Hj. unfold slot. simpl. rewrite Ha, decide_True by lia.
    rewrite lookup_app_l by (unfold zlen in Hz; lia). by rewrite decide_True by lia. }
  simpl. split_and!; [|done|lia|done|done]. eexists. split_and!; [done|..]; simpl.
  - unfold zlen in *. rewrite length_app. simpl. lia.
  - lia.
  - lia.
  - intros j Hj. rewrite Hsl by done. by apply Hs.
Qed.

(** The contract of [lci_add_info]: the id of a slot that now holds the record,
    a new one for [INFOS_ID_START], every other record where it was. *)
Lemma lci_add_info_spec infos info special :
  slots_ok infos → 0 ≤ special →
  ∃ id infos', lci_add_info infos info special = Ret (id, infos') ∧
    slots_ok infos' ∧ names infos' = names infos ∧
    id = (if decide (special >= INFOS_ID_START) then len infos else special) ∧
    len infos' = (if decide (special >= INFOS_ID_START) then len infos + 1 else len infos) ∧
    slot infos' id = Some info ∧
    ∀ j, 0 ≤ j < len infos → j ≠ id → slot infos' j = slot infos j.
Proof.
  intros Hok Hsp. destruct (grow_infos_spec infos Hok) as (Hg&Hlen&Hroom&Hn&Hsl).
  unfold lci_add_info. set (g := grow_infos infos) in *. clearbody g.
  pose proof Hg as (a&Ha&Hz&Hl&Hs).
  case_decide as Hst.
  - destruct (store_info_spec g (len g) info a) as (g'&Hst'&Hlen'&Hall&Hn'&(a'&Ha'&Hz')&Hj);
      [done|unfold INFOS_ID_START in *; lia|].
    rewrite Hst'. cbn [mbind outcome_bind mret outcome_ret].
    eexists _, _. split; [done|].
    assert (Hslot : ∀ j, slot {| len := len g' + 1; allocated_len := allocated_len g';
      sinfo := sinfo g'; names := names g' |} j = slot g' j) by done.
    split_and!; simpl; [|congruence|done|lia|..].
    + exists a'. simpl. split_and!; [done|lia|lia|lia|].
      intros j Hj'. rewrite Hslot, Hj. case_decide; [done|]. apply Hs. lia.
    + rewrite Hslot, Hj. by rewrite decide_True.
    + intros j Hj' Hne. rewrite Hslot, Hj, decide_False by congruence. by apply Hsl.
  - destruct (slots_ok_store g special info Hg) as (g'&Hst'&Hok'&Hlen'&Hn'&Hj).
    { unfold INFOS_ID_START in *. lia. }
    rewrite Hst'. cbn [mbind outcome_bind mret outcome_ret].
    eexists _, _. split_and!; [done|done|congruence|done|congruence|..].
    + rewrite Hj. by rewrite decide_True.
    + intros j Hj' Hne. rewrite Hj, decide_False by congruence. by apply Hsl.
Qed.

(** What the lines of a mode make of its record. *)
Definition settings_of (key : bytes) (cp : conf_pairs) : outcome single_log_conf_info_t :=
  info ← get_info_from_conf_pairs cp (set_name zero_info (copy_name key));
  if decide (si_name info = TOTAL_SWITCH_MODE_NAME) then total_switch_control cp info
  else mret info.

Definition special_id (nm : bytes) : Z :=
  if decide (nm = TOTAL_SWITCH_MODE_NAME) then INFOS_ID_TOTAL_SWITCH else INFOS_ID_START.

Lemma irilog_conf_line_handle_name info nm v r info' :
  irilog_conf_line_handle info nm v = Ret (r, info') → si_name info' = si_name info.
Proof.
  unfold irilog_conf_line_handle, switch_line. intros H. ret_inv H; try done;
    destruct (read_switches _ _ _ _ _); by simplify_eq.
Qed.

Lemma handle_pairs_name kvs : ∀ info info',
  handle_pairs kvs info = Ret info' → si_name info' = si_name info.
Proof.
  induction kvs as [|kv kvs IH]; intros info info' H; simpl in H; [by ret_inv H|].
  apply bind_Ret in H as ([r i]&E&H). apply IH in H.
  apply irilog_conf_line_handle_name in E. congruence.
Qed.

Lemma settings_of_name key cp info :
  zlen key < CONF_STRING_MAX_LEN - 1 → settings_of key cp = Ret info →
  si_name info = key.
Proof.
  intros Hk H. unfold settings_of in H. apply bind_Ret in H as (i&Hi&H).
  unfold get_info_from_conf_pairs in Hi. apply handle_pairs_name in Hi. simpl in Hi.
  unfold copy_name in Hi. rewrite take_ge in Hi.
  2: { unfold zlen, CONF_STRING_MAX_LEN, FILE_NAME_LEN in *. lia. }
  case_decide; [|by ret_inv H].
  unfold total_switch_control in H. ret_inv H; done.
Qed.

(** One callback: the settings of the mode go to a slot that its name leads to. *)
Lemma fill_log_conf_infos_eq key id cp infos :
  zlen key < CONF_STRING_MAX_LEN - 1 →
  fill_log_conf_infos (key, (id, (id, cp))) infos =
    (info ← settings_of key cp;
     '(id, infos) ← lci_add_info infos info (special_id key);
     mret (insert_name infos key id)).
Proof.
  intros Hk. unfold fill_log_conf_infos. rewrite decide_True by done.
  pose proof (settings_of_name key cp) as Hname. unfold settings_of in *.
  destruct (get_info_from_conf_pairs _ _) as [i| | |] eqn:E;
    cbn [mbind outcome_bind] in *; [|done..].
  assert (si_name i = key) as Hi.
  { unfold get_info_from_conf_pairs in E. apply handle_pairs_name in E.
    rewrite E. unfold copy_name. apply take_ge.
    unfold zlen, CONF_STRING_MAX_LEN, FILE_NAME_LEN in *. simpl. lia. }
  rewrite Hi in *. unfold special_id. case_decide as Ht.
  - destruct (total_switch_control cp i) as [i'| | |]; cbn [mbind outcome_bind]; [|done..].
    destruct (lci_add_info _ _ _) as [[]| | |]; cbn [mbind outcome_bind]; [|done..].
    by do 2 f_equal.
  - done.
Qed.

(** Naming a slot that holds a record of that name. *)
Lemma insert_name_ok infos nm id info :
  infos_ok infos → INFOS_ID_TOTAL_SWITCH ≤ id < len infos →
  (id = INFOS_ID_TOTAL_SWITCH → nm = TOTAL_SWITCH_MODE_NAME) →
  slot infos id = Some info → si_name info = nm → infos_ok (insert_name infos nm id).
Proof.
  intros [(a&Ha&Hz&Hl&Hs) Hn] Hid Htot Hslot Hname. split.
  - exists a. simpl. by split_and!; [done|done|lia|lia|exact Hs].
  - intros s k i. unfold insert_name. simpl. rewrite gh_lookup_insert_case.
    case_decide as E; [|apply Hn]. intros H. simplify_eq.
    split_and!; [lia|lia|done|]. by exists info.
Qed.

Lemma fill_spec key id cp infos info :
  infos_ok infos → zlen key < CONF_STRING_MAX_LEN - 1 → settings_of key cp = Ret info →
  ∃ infos' i k, fill_log_conf_infos (key, (id, (id, cp))) infos = Ret infos' ∧
    infos_ok infos' ∧ gh_lookup key (names infos') = Some (k, i) ∧
    slot infos' i = Some info ∧
    i = (if decide (key = TOTAL_SWITCH_MODE_NAME) then INFOS_ID_TOTAL_SWITCH
         else len infos) ∧
    len infos ≤ len infos' ∧
    (∀ s, s ≠ key → gh_lookup s (names infos') = gh_lookup s (names infos)) ∧
    (∀ j, 0 ≤ j < len infos → j ≠ i → slot infos' j = slot infos j).
Proof.
  intros [Hok Hn] Hk Hset. pose proof (settings_of_name key cp info Hk Hset) as Hname.
  rewrite fill_log_conf_infos_eq, Hset by done. cbn [mbind outcome_bind].
  destruct (lci_add_info_spec infos info (special_id key) Hok)
    as (i&infos1&Hadd&Hok1&Hn1&Hi&Hlen1&Hslot&Hother).
  { unfold special_id. by case_decide. }
  rewrite Hadd. cbn [mbind outcome_bind mret outcome_ret].
  pose proof Hok as (a0&_&_&Hl0&_). pose proof Hok1 as (a&_&_&Hl&_).
  assert (Hi' : i = if decide (key = TOTAL_SWITCH_MODE_NAME) then INFOS_ID_TOTAL_SWITCH
                    else len infos).
  { rewrite Hi. unfold special_id. destruct (decide (key = _)).
    - by rewrite decide_False by (unfold INFOS_ID_TOTAL_SWITCH, INFOS_ID_START; lia).
    - by rewrite decide_True by lia. }
  assert (Hlen : len infos ≤ len infos1) by (rewrite Hlen1; destruct (decide (special_id key >= INFOS_ID_START)); lia).
  assert (Hrange : INFOS_ID_TOTAL_SWITCH ≤ i < len infos1).
  { rewrite Hi'. unfold special_id in Hlen1.
    unfold INFOS_ID_TOTAL_SWITCH, INFOS_ID_START in *.
    repeat case_decide; simpl in *; lia. }
  exists (insert_name infos1 key i), i,
    match gh_lookup key (names infos1) with Some (k, _) => k | None => i end.
  split_and!; [done| | | |done|done| |].
  - apply (insert_name_ok _ _ _ info); [|done|..|done|done].
    + split; [done|]. intros s k j Hs. rewrite Hn1 in Hs.
      destruct (Hn s k j Hs) as (Hj&Ht&info'&Hsj&Hs'). split_and!; [lia|lia|done|].
      destruct (decide (j = i)) as [->|Hne]; [|exists info'; rewrite Hother by (unfold INFOS_ID_TOTAL_SWITCH in *; lia); done].
      exists info. split; [done|]. rewrite Hname.
      destruct (decide (key = TOTAL_SWITCH_MODE_NAME)); [|lia]. by rewrite Ht.
    + intros ->. destruct (decide (key = TOTAL_SWITCH_MODE_NAME)); [done|].
      unfold INFOS_ID_TOTAL_SWITCH, INFOS_ID_START in *. lia.
  - simpl. by rewrite gh_lookup_insert.
  - done.
  - intros s Hs. simpl. rewrite gh_lookup_insert_ne by done. by rewrite Hn1.
  - done.
Qed.

(** The name leads to the record; only [TOTAL_SWITCH] uses the reserved slot. *)
Definition found infos (key : bytes) (info : single_log_conf_info_t) : Prop :=
  ∃ k i, gh_lookup key (names infos) = Some (k, i) ∧ slot infos i = Some info ∧
    0 ≤ i < len infos ∧ (i = INFOS_ID_TOTAL_SWITCH ↔ key = TOTAL_SWITCH_MODE_NAME).

Lemma fill_found key id cp infos info :
  infos_ok infos → zlen key < CONF_STRING_MAX_LEN - 1 → settings_of key cp = Ret info →
  ∃ infos', fill_log_conf_infos (key, (id, (id, cp))) infos = Ret infos' ∧
    infos_ok infos' ∧ found infos' key info ∧ len infos ≤ len infos' ∧
    (∀ s, s ≠ key → gh_lookup s (names infos') = gh_lookup s (names infos)) ∧
    (∀ j, 0 ≤ j < len infos →
       (j = INFOS_ID_TOTAL_SWITCH → key ≠ TOTAL_SWITCH_MODE_NAME) →
       slot infos' j = slot infos j).
Proof.
  intros Hok Hk Hset.
  destruct (fill_spec key id cp infos info Hok Hk Hset)
    as (infos'&i&k&Hf&Hok'&Hl&Hs&Hi&Hlen&Hn&Ho).
  exists infos'. split_and!; [done|done| |done|done|].
  - exists k, i. destruct Hok' as [_ Hn']. destruct (Hn' _ _ _ Hl) as (?&?&_).
    destruct Hok as [(a&_&_&Hl0&_) _].
    unfold INFOS_ID_TOTAL_SWITCH, INFOS_ID_START in *.
    split_and!; [done|done|lia|lia|]. split; [done|].
    intros Hkey. by rewrite decide_True in Hi.
  - intros j Hj Htot. apply Ho; [done|]. rewrite Hi.
    destruct (decide (key = TOTAL_SWITCH_MODE_NAME)); [intros ->; by apply Htot|lia].
Qed.

(** The callback over the entries of the table, in any order. *)
Lemma foreach_fill l : ∀ infos,
  infos_ok infos → NoDup l.*1 →
  (∀ key v, (key, v) ∈ l → zlen key < CONF_STRING_MAX_LEN - 1 ∧
     ∃ id cp info, v = (id, (id, cp)) ∧ settings_of key cp = Ret info) →
  ∃ infos', foreach fill_log_conf_infos l infos = Ret infos' ∧ infos_ok infos' ∧
    len infos ≤ len infos' ∧
    (∀ key id cp info, (key, (id, (id, cp))) ∈ l → settings_of key cp = Ret info →
       found infos' key info) ∧
    (∀ s, s ∉ l.*1 → gh_lookup s (names infos') = gh_lookup s (names infos)) ∧
    (∀ j, 0 ≤ j < len infos →
       (j = INFOS_ID_TOTAL_SWITCH → TOTAL_SWITCH_MODE_NAME ∉ l.*1) →
       slot infos' j = slot infos j).
Proof.
  induction l as [|[key v] l IH]; intros infos Hok Hnd Hall; cbn [foreach].
  - exists infos. split_and!; try done. by intros ???? ?%elem_of_nil.
  - cbn in Hnd. apply NoDup_cons in Hnd as [Hni Hnd].
    destruct (Hall key v) as (Hk&id&cp&info&->&Hset); [by left|].
    destruct (fill_found key id cp infos info Hok Hk Hset)
      as (infos1&Hf&Hok1&Hfound&Hlen1&Hn1&Ho1).
    rewrite Hf. cbn [mbind outcome_bind].
    destruct (IH infos1 Hok1 Hnd) as (infos'&Hfe&Hok'&Hlen'&Hin&Hn'&Ho').
    { intros key' v' Hin. apply Hall. by right. }
    exists infos'. split_and!; [done|done|lia|..].
    + intros key' id' cp' info' Hin' Hset'.
      apply elem_of_cons in Hin' as [[= -> -> _ ->]|Hin']; [|by eapply Hin].
      rewrite Hset in Hset'. injection Hset' as <-.
      destruct Hfound as (k&i&Hl&Hs&Hi&Htot). exists k, i.
      rewrite Hn', Ho'; [split_and!; try done; lia|done|by rewrite Htot; intros ->|done].
    + intros s Hs. cbn in Hs. rewrite not_elem_of_cons in Hs.
      rewrite Hn' by tauto. apply Hn1. tauto.
    + intros j Hj Htot. cbn in Htot. setoid_rewrite not_elem_of_cons in Htot.
      rewrite Ho'; [apply Ho1; [done|]|lia|]; intros Hj'; destruct (Htot Hj'); auto.
Qed.

(** The same for a traversal that is only known to return. *)
Lemma foreach_fill_returns l : ∀ infos infos',
  foreach fill_log_conf_infos l infos = Ret infos' → infos_ok infos →
  (∀ key v, (key, v) ∈ l → zlen key < CONF_STRING_MAX_LEN - 1) →
  infos_ok infos' ∧ slot infos' INFOS_ID_CTL = slot infos INFOS_ID_CTL.
Proof.
  induction l as [|[key [owner [block cp]]] l IH]; intros infos infos' H Hok Hall;
    cbn [foreach] in H; [by ret_inv H|].
  apply bind_Ret in H as (infos1&Hf&H).
  assert (Hk : zlen key < CONF_STRING_MAX_LEN - 1) by (eapply Hall; by left).
  assert (owner = block) as ->.
  { unfold fill_log_conf_infos in Hf. destruct (decide (owner = block)); [done|by ret_inv Hf]. }
  pose proof Hf as Hf'. rewrite fill_log_conf_infos_eq in Hf' by done.
  apply bind_Ret in Hf' as (info&Hset&_).
  destruct (fill_found key block cp infos info Hok Hk Hset)
    as (infos2&Hf2&Hok2&_&_&_&Ho). rewrite Hf in Hf2. injection Hf2 as <-.
  destruct (IH infos1 infos' H Hok2) as [Hok' Hs].
  { intros key' v' Hin. eapply Hall. by right. }
  split; [done|]. rewrite Hs. apply Ho; [|done].
  destruct Hok as [(a&_&_&Hl&_) _]. unfold INFOS_ID_CTL, INFOS_ID_START in *. lia.
Qed.

Lemma log_conf_infos_init_spec :
  ∃ infos, log_conf_infos_init = Ret infos ∧ infos_ok infos ∧ len infos = 3 ∧
    slot infos INFOS_ID_CTL = Some (set_control zero_info 1 0 0).
Proof.
  eexists. split; [reflexivity|]. split_and!; [split|done|done].
  - eexists. simpl. split_and!; [done|done|done|done|].
    intros i Hi. cbv [len] in Hi. unfold INFOS_ID_START in Hi. assert (i = 0 ∨ i = 1 ∨ i = 2) as [->|[->| ->]] by lia; by eexists.
  - intros s k id. simpl. rewrite gh_lookup_insert_case. case_decide as E.
    + rewrite gh_lookup_new. intros [= <- <-]. split_and!; [done|done|done|].
      eexists. split; [done|]. done.
    + by rewrite gh_lookup_new.
Qed.

(** Taking the switch of the manager over. *)
Lemma set_ctl_ok infos ctl x :
  infos_ok infos → slot infos INFOS_ID_CTL = Some ctl →
  ∃ infos', store_info infos INFOS_ID_CTL (Some x) = Ret infos' ∧ infos_ok infos' ∧
    len infos' = len infos ∧ names infos' = names infos ∧
    slot infos' INFOS_ID_CTL = Some x ∧
    ∀ j, j ≠ INFOS_ID_CTL → slot infos' j = slot infos j.
Proof.
  intros [Hok Hn] Hctl. pose proof Hok as (a&_&_&Hl&_).
  destruct (slots_ok_store infos INFOS_ID_CTL x Hok) as (infos'&Hst&Hok'&Hlen&Hn'&Hj).
  { unfold INFOS_ID_CTL, INFOS_ID_START in *. lia. }
  exists infos'. split_and!; [done|split; [done|]|done|done|by rewrite Hj, decide_True|
    by intros j Hne; rewrite Hj, decide_False].
  intros s k id. rewrite Hn'. intros Hs. destruct (Hn s k id Hs) as (Hid&Ht&info&Hi&Hni).
  split_and!; [lia|lia|done|]. exists info. rewrite Hj, decide_False; [done|].
  unfold INFOS_ID_CTL, INFOS_ID_TOTAL_SWITCH in *. lia.
Qed.

(** The end of [get_log_conf_infos]: the validity of the total switch is copied
    into the control record. *)
Lemma copy_validity infos ctl :
  infos_ok infos → slot infos INFOS_ID_CTL = Some ctl →
  ∃ infos' total, load_info infos INFOS_ID_TOTAL_SWITCH = Ret total ∧
    load_info infos INFOS_ID_CTL = Ret ctl ∧
    store_info infos INFOS_ID_CTL
      (Some (set_control ctl (si_log_switch ctl) (is_valid total) (timer ctl))) = Ret infos' ∧
    infos_ok infos' ∧ len infos' = len infos ∧ names infos' = names infos ∧
    slot infos' INFOS_ID_CTL =
      Some (set_control ctl (si_log_switch ctl) (is_valid total) (timer ctl)) ∧
    ∀ j, j ≠ INFOS_ID_CTL → slot infos' j = slot infos j.
Proof.
  intros Hok Hctl. pose proof Hok as [(a&_&_&Hl&Hs) _].
  destruct (Hs INFOS_ID_TOTAL_SWITCH) as [total Htotal].
  { unfold INFOS_ID_TOTAL_SWITCH, INFOS_ID_START in *. lia. }
  destruct (set_ctl_ok infos ctl
    (set_control ctl (si_log_switch ctl) (is_valid total) (timer ctl)) Hok Hctl)
    as (infos'&H).
  exists infos', total. split; [by apply load_info_slot|].
  split; [by apply load_info_slot|]. exact H.
Qed.

Lemma log_get_conf_info_from_file_render env modes t :
  Forall well_formed_mode modes → zlen (render_conf modes) ≤ MAX_CONF_FILE_SIZE →
  conf_file env = Some (render_conf modes) → buf_ok env = true →
  (∀ n, block_ok env n = true) →
  insert_modes store_block modes (gh_new, 0) = Ret t →
  log_get_conf_info_from_file env (Some log_zero_manager) = Ret (0, Some (log_live t)).
Proof.
  intros Hwf Hlen Hfile Hbuf Hok Hi. unfold log_get_conf_info_from_file.
  rewrite decide_False by done. cbn zeta. rewrite Hfile, Hbuf.
  by erewrite log_scan_conf_render.
Qed.

(** ** Properties *)

(** C5: the log settings of a configuration file are read back: for any file
    of modes with different names whose lines can be converted, every mode's
    name leads to one record holding what its lines say, [TOTAL_SWITCH] alone
    to the reserved slot; the array invariant holds, and the control record
    takes over the validity of the total switch. The order in which GLib visits
    the modes does not matter. *)
Theorem get_log_conf_infos_reads env modes :
  Forall well_formed_mode modes → NoDup modes.*1 →
  zlen (render_conf modes) ≤ MAX_CONF_FILE_SIZE →
  conf_file env = Some (render_conf modes) → buf_ok env = true →
  (∀ n, block_ok env n = true) →
  (∀ mode kvs, (mode, kvs) ∈ modes →
     ∃ info, settings_of mode (pairs_of mode (take 64 kvs)) = Ret info) →
  wp (get_log_conf_infos (T:=T) env) (λ infos, infos_ok infos ∧
    (∀ mode kvs info, (mode, kvs) ∈ modes →
       settings_of mode (pairs_of mode (take 64 kvs)) = Ret info →
       found infos mode info) ∧
    ∃ ctl total, slot infos INFOS_ID_CTL = Some ctl ∧
      slot infos INFOS_ID_TOTAL_SWITCH = Some total ∧
      is_valid ctl = is_valid total ∧ si_log_switch ctl = 1).
Proof.
  intros Hwf Hnd Hlen Hfile Hbuf Hal Hset.
  destruct (store_modes_fresh (T:=T) modes gh_new 0 Hnd) as (t&Hins&Hin&Hout).
  { intros. apply gh_lookup_new. }
  destruct log_conf_infos_init_spec as (infos0&Hinit&Hok0&Hlen0&Hctl0).
  destruct (set_ctl_ok infos0 _ (set_control (set_control zero_info 1 0 0) 1 0 0) Hok0 Hctl0)
    as (infos1&Hst1&Hok1&Hlen1&Hn1&Hctl1&Ho1).
  assert (Hent : ∀ key v, (key, v) ∈ gh_foreach t → ∃ kvs id, (key, kvs) ∈ modes ∧
    v = (id, (id, pairs_of key (take 64 kvs)))).
  { intros key v Hv%gh_foreach_lookup.
    destruct (decide (key ∈ modes.*1)) as [Hk|Hk];
      [|by rewrite Hout, gh_lookup_new in Hv].
    apply list_elem_of_fmap in Hk as ([k kvs]&->&Hk). cbn in Hv.
    destruct (Hin k kvs Hk) as [id Hid]. rewrite Hid in Hv. injection Hv as <-. by eauto. }
  destruct (foreach_fill (gh_foreach t) infos1 Hok1) as (infos2&Hfe&Hok2&Hlen2&Hin2&_&Ho2).
  { apply gh_foreach_nodup. }
  { intros key v Hv. destruct (Hent key v Hv) as (kvs&id&Hk&->). split.
    - rewrite Forall_forall in Hwf. apply (Hwf _ Hk).
    - destruct (Hset key kvs Hk) as [info Hi]. by eauto 10. }
  assert (Hctl2 : slot infos2 INFOS_ID_CTL =
    Some (set_control (set_control zero_info 1 0 0) 1 0 0)).
  { rewrite Ho2; [done| |done]. rewrite Hlen1, Hlen0. done. }
  destruct (copy_validity infos2 _ Hok2 Hctl2)
    as (infos3&total&Hlt&Hlc&Hst3&Hok3&Hlen3&Hn3&Hctl3&Ho3).
  unfold get_log_conf_infos. rewrite Hinit. cbn [mbind outcome_bind].
  rewrite (log_get_conf_info_from_file_render env modes _ Hwf Hlen Hfile Hbuf Hal Hins).
  cbn [mbind outcome_bind]. rewrite decide_True by done.
  rewrite (load_info_slot _ _ _ Hctl0). cbn [mbind outcome_bind].
  match goal with |- context [store_info infos0 INFOS_ID_CTL ?x] =>
    change x with (Some (set_control (set_control zero_info 1 0 0) 1 0 0)) end.
  rewrite Hst1. cbn [mbind outcome_bind].
  unfold log_conf_manager_foreach. cbn [log_iri_conf log_live fst].
  rewrite Hfe. cbn [mbind outcome_bind]. rewrite Hlt. cbn [mbind outcome_bind].
  rewrite Hlc. cbn [mbind outcome_bind]. rewrite Hst3. cbn [mbind outcome_bind].
  unfold log_destroy_iri_conf. cbn [log_iri_conf log_live mbind outcome_bind mret outcome_ret wp].
  split; [done|]. split.
  - intros mode kvs info Hm Hi. destruct (Hin mode kvs Hm) as [id Hid].
    destruct (Hin2 mode id (pairs_of mode (take 64 kvs)) info) as (k&i&Hl&Hs&Hr&Ht).
    { by apply gh_foreach_lookup. }
    { done. }
    exists k, i. rewrite Hn3, Hlen3, Ho3; [done|].
    intros ->. destruct Hok2 as [_ Hn2]. destruct (Hn2 _ _ _ Hl) as [? _].
    unfold INFOS_ID_CTL, INFOS_ID_TOTAL_SWITCH in *. lia.
  - eexists _, total. split; [exact Hctl3|]. rewrite Ho3 by done.
    split; [by apply load_info_inv|done].
Qed.

(** The documented switch that closes the log, [@LOG_SWITCH=0], cannot:
    whatever the configuration file, the control record that
    [iridium_init_log] tests is never 0. The reader answers [CONF_CLOSE_ALL]
    for [0], and only a result of 0 copies the switch. *)
Lemma log_switch_never_closes env infos ctl :
  get_log_conf_infos (T:=T) env = Ret infos → load_info infos INFOS_ID_CTL = Ret ctl →
  si_log_switch ctl ≠ 0.
Proof.
  intros H Hctl. destruct log_conf_infos_init_spec as (infos0&Hinit&Hok0&Hlen0&Hctl0).
  unfold get_log_conf_infos in H. rewrite Hinit in H. cbn [mbind outcome_bind] in H.
  apply bind_Ret in H as ([ret [m|]]&Hget&H); [|done].
  apply bind_Ret in H as (infos1&Hfill&H).
  assert (Hmid : infos_ok infos1 ∧ ∃ ctl1, slot infos1 INFOS_ID_CTL = Some ctl1 ∧
                   si_log_switch ctl1 ≠ 0).
  { case_decide as Hret; [|ret_inv Hfill; split; [done|by eexists]].
    rewrite (load_info_slot _ _ _ Hctl0) in Hfill. cbn [mbind outcome_bind] in Hfill.
    destruct (set_ctl_ok infos0 _ (set_control (set_control zero_info 1 0 0)
      (log_switch m) 0 0) Hok0 Hctl0) as (infos2&Hst2&Hok2&_&_&Hctl2&_).
    match type of Hfill with context [store_info infos0 INFOS_ID_CTL ?x] =>
      change x with (Some (set_control (set_control zero_info 1 0 0) (log_switch m) 0 0))
        in Hfill end.
    rewrite Hst2 in Hfill. cbn [mbind outcome_bind] in Hfill.
    unfold log_get_conf_info_from_file in Hget. rewrite decide_False in Hget by done.
    cbn zeta in Hget. ret_inv Hget.
    apply log_scan_conf_ok in E as [(_&t&Ht&Htok) Hsw];
      [|split; [apply log_init_manager_ok|done]].
    unfold log_conf_manager_foreach in Hfill. rewrite Ht in Hfill.
    apply foreach_fill_returns in Hfill as [Hok1 Hs1]; [|done|].
    - split; [done|]. exists (set_control (set_control zero_info 1 0 0) (log_switch m) 0 0).
      rewrite Hs1. split; [done|]. by apply Hsw.
    - intros key [k [id cp]] Hv%gh_foreach_lookup. apply Htok in Hv as [((Hl&_)&_) <-]. done. }
  destruct Hmid as (Hok1&ctl1&Hctl1&Hne).
  destruct (copy_validity infos1 ctl1 Hok1 Hctl1)
    as (infos3&total&Hlt&Hlc&Hst3&_&_&_&Hctl3&_).
  rewrite Hlt, Hlc in H. cbn [mbind outcome_bind] in H. rewrite Hst3 in H.
  cbn [mbind outcome_bind] in H. apply bind_Ret in H as (m'&_&H). ret_inv H.
  apply load_info_inv in Hctl. rewrite Hctl3 in Hctl. by injection Hctl as <-.
Qed.
End log_conf_facts.

(** A switch line as it is documented: bits between dots. *)
Definition bit (b : bool) : Z := if b then 1 else 0.
Fixpoint render_bits (bs : list bool) : bytes :=
  match bs with
  | [] => []
  | [b] => [if b then "1"%char else "0"%char]
  | b :: bs => (if b then "1"%char else "0"%char) :: "."%char :: render_bits bs
  end.

(** the documented lines set exactly the switches they name, in their
    order, and nothing else: [DEBUG.INFO.ERR.FATAL] the levels,
    [LOG_FILE.FILE.FUNC.LINE.DATE] the file side,
    [LOG_TERMINAL.FILE.FUNC.LINE.DATE] the terminal side; a size line takes any
    unsigned number of 32 bits. *)
Theorem documented_lines_set info (b1 b2 b3 b4 b5 : bool) n :
  0 ≤ n < 2 ^ 32 →
  let sw := irilog_switch info in
  irilog_conf_line_handle info (lit "DEBUG.INFO.ERR.FATAL") (render_bits [b1; b2; b3; b4]) =
    Ret (0, set_switch info
      {| p_file := p_file sw; p_func := p_func sw; p_line := p_line sw; p_date := p_date sw;
         f_file := f_file sw; f_func := f_func sw; f_line := f_line sw; f_date := f_date sw;
         log_terminal := log_terminal sw; log_file := log_file sw;
         sw_debug := bit b1; sw_info := bit b2; sw_err := bit b3; sw_fatal := bit b4 |}) ∧
  irilog_conf_line_handle info (lit "LOG_FILE.FILE.FUNC.LINE.DATE")
      (render_bits [b1; b2; b3; b4; b5]) =
    Ret (0, set_switch info
      {| p_file := p_file sw; p_func := p_func sw; p_line := p_line sw; p_date := p_date sw;
         f_file := bit b2; f_func := bit b3; f_line := bit b4; f_date := bit b5;
         log_terminal := log_terminal sw; log_file := bit b1;
         sw_debug := sw_debug sw; sw_info := sw_info sw;
         sw_err := sw_err sw; sw_fatal := sw_fatal sw |}) ∧
  irilog_conf_line_handle info (lit "LOG_TERMINAL.FILE.FUNC.LINE.DATE")
      (render_bits [b1; b2; b3; b4; b5]) =
    Ret (0, set_switch info
      {| p_file := bit b2; p_func := bit b3; p_line := bit b4; p_date := bit b5;
         f_file := f_file sw; f_func := f_func sw; f_line := f_line sw; f_date := f_date sw;
         log_terminal := bit b1; log_file := log_file sw;
         sw_debug := sw_debug sw; sw_info := sw_info sw;
         sw_err := sw_err sw; sw_fatal := sw_fatal sw |}) ∧
  irilog_conf_line_handle info (lit "SINGLE_MAX_SIZE") (print_u n) =
    Ret (0, set_numbers info (rollback_num info) n (is_process_lock info)).
Proof.
  intros Hn sw. subst sw. destruct info as [? ? ? ? [] ? ? ? ?].
  split; [by destruct b1, b2, b3, b4|].
  split; [by destruct b1, b2, b3, b4, b5|].
  split; [by destruct b1, b2, b3, b4, b5|].
  unfold irilog_conf_line_handle. change (head_index _ _ _) with (Some INDEX_LOG_SINGLE_MAX_SIZE).
  cbn -[sscanf_u print_u set_numbers].
  assert (Hs : sscanf_u (print_u n) = Ret (Some n)).
  { unfold sscanf_u, sscanf_unsigned. replace (print_u n) with (print_d n).
    - rewrite scan_number_print by lia. rewrite signed_print. cbn [snd].
      rewrite decide_True by lia. by rewrite to_u_small.
    - unfold print_d. by rewrite (proj2 (Z.ltb_ge n 0)) by lia. }
  by rewrite Hs.
Qed.

Lemma documented_lines_set_witness :
  0 ≤ 524288000 < 2 ^ 32 ∧
  irilog_conf_line_handle zero_info (lit "SINGLE_MAX_SIZE") (print_u 524288000) =
    Ret (0, set_numbers zero_info 0 524288000 0).
Proof.
  assert (H : 0 ≤ 524288000 < 2 ^ 32) by lia. split; [exact H|].
  exact (proj2 (proj2 (proj2
    (documented_lines_set zero_info true false true false true 524288000 H)))).
Defined.

Section log_conf_lookup.
Context {T : Type → Type → Type} `{!GHashTable T, !GHashTableLaws T}.
Implicit Types (infos : log_conf_infos_t (T:=T)).

(** On settings that satisfy the array invariant, the lookup by id is total
    and exact: a record for the ids of [0..len), [NULL] for every other [int];
    no id reads outside the array. *)
Lemma get_log_conf_info_exact infos id :
  infos_ok infos →
  ∃ r, get_log_conf_info (Some infos) id = Ret r ∧ (is_Some r ↔ 0 ≤ id < len infos) ∧
       r = (if decide (0 ≤ id < len infos) then slot infos id else None).
Proof.
  intros [(a&Ha&Hz&Hl&Hs) _]. unfold get_log_conf_info. rewrite Ha.
  destruct (decide (id < 0 ∨ id >= len infos)) as [Hout|Hin].
  - eexists. split; [done|]. rewrite decide_False by lia. split; [|done].
    split; [by intros []|lia].
  - destruct (Hs id) as [x Hx]; [lia|]. rewrite (slot_aget _ _ _ _ Ha Hx).
    eexists. split; [done|]. rewrite decide_True by lia. rewrite Hx. split; [|done].
    split; [lia|eauto].
Qed.

(** Destroying settings that satisfy the array invariant frees every
    record exactly once and no slot beyond [len]. *)
Lemma log_conf_infos_destroy_frees infos :
  infos_ok infos →
  log_conf_infos_destroy (Some infos) = Ret (seqZ 0 (len infos)).
Proof.
  intros [(a0&Ha&Hz&Hl&Hs) _]. unfold log_conf_infos_destroy. rewrite Ha.
  set (body := λ '(i, (a, freed)), _).
  assert (wp (loop (S (Z.to_nat (len infos))) body (0, (a0, [])))
    (λ '(_, freed), freed = seqZ 0 (len infos))) as Hwp.
  { apply (wp_loop (λ '(i, (a, freed)),
      0 ≤ i ≤ len infos ∧ zlen a = allocated_len infos ∧ freed = seqZ 0 i ∧
      ∀ j, i ≤ j < len infos → is_Some (rd a j)) (λ s, Z.to_nat (len infos - s.1))).
    - unfold INFOS_ID_START in *. split_and!; try done; [lia|]. intros j Hj.
      destruct (Hs j Hj) as [x Hx].
      pose proof (slot_aget _ _ _ _ Ha Hx) as Hg. unfold aget in Hg. ret_inv Hg. rewrite Hg. eauto.
    - simpl. lia.
    - intros [i [a freed]] (Hi&Hza&->&Hrest). subst body. cbn beta iota.
      case_decide as Hlt; [|wp_steps; f_equal; lia].
      wp_steps. destruct (Hrest i) as [x ->]; [lia|]. wp_steps. simpl.
      split_and!; [lia|lia|rewrite zlen_upd; lia| | |lia].
      + rewrite (seqZ_app 0 i 1) by lia. done.
      + intros j Hj. rewrite rd_upd_ne by lia. apply Hrest. lia. }
  apply wp_iff in Hwp as ([a freed]&->&->). done.
Qed.

(** Such settings can be printed: every record below [len] exists. *)
Lemma go_through_prints infos :
  infos_ok infos → ∃ text, go_through_log_conf_infos (Some infos) = Ret text.
Proof.
  intros [(a&Ha&Hz&Hl&Hs) _]. unfold go_through_log_conf_infos.
  assert (∀ n i, 0 ≤ i → i + Z.of_nat n ≤ len infos →
    ∃ text, shown_infos n i infos = Ret text) as Hshown.
  { induction n as [|n IH]; intros i Hi Hn; [by eexists|]. cbn [shown_infos].
    destruct (Hs i) as [x Hx]; [lia|]. rewrite (load_info_slot _ _ _ Hx), Ret_bind.
    destruct (IH (i + 1)) as [text ->]; [lia..|]. by eexists. }
  destruct (Hshown (Z.to_nat (len infos)) 0) as [text ->]; [lia|unfold INFOS_ID_START in *; lia|].
  by eexists.
Qed.
End log_conf_lookup.

(** ** Witnesses *)

Definition log_modes : list (bytes * list single_conf_pair) :=
  [(TOTAL_SWITCH_MODE_NAME,
     [{| name := TOTAL_SWITCH_IS_VALID; value := lit "0" |};
      {| name := TOTAL_SWITCH_TIMER; value := lit "10" |}]);
   (lit "app", [{| name := lit "SINGLE_MAX_SIZE"; value := lit "524288000" |}])].

Lemma get_log_conf_infos_reads_witness :
  wp (get_log_conf_infos (T:=gmap_table) (sample_env (render_conf log_modes))) (λ infos,
    infos_ok infos ∧
    (∀ mode kvs info, (mode, kvs) ∈ log_modes →
       settings_of mode (pairs_of mode (take 64 kvs)) = Ret info →
       found infos mode info) ∧
    ∃ ctl total, slot infos INFOS_ID_CTL = Some ctl ∧
      slot infos INFOS_ID_TOTAL_SWITCH = Some total ∧
      is_valid ctl = is_valid total ∧ si_log_switch ctl = 1).
Proof.
  apply (get_log_conf_infos_reads (T:=gmap_table) _ log_modes);
    [by_decide|by_decide|by_decide|done|done|done|].
  intros mode kvs [[= -> ->]|[[= -> ->]|[]%elem_of_nil]%elem_of_cons]%elem_of_cons;
    eexists; vm_compute; reflexivity.
Defined.

Definition returned {A} (default : A) (m : outcome A) : A :=
  match m with Ret x => x | _ => default end.
Definition closed_env : conf_env := sample_env (lit "@LOG_SWITCH=0").
Definition closed_infos : log_conf_infos_t (T:=gmap_table) :=
  returned {| len := 0; allocated_len := 0; sinfo := None; names := gh_new |}
    (get_log_conf_infos closed_env).

Lemma log_switch_never_closes_witness :
  get_log_conf_infos (T:=gmap_table) closed_env = Ret closed_infos ∧
  load_info closed_infos INFOS_ID_CTL = Ret (set_control zero_info 1 0 0) ∧ 1 ≠ 0.
Proof.
  assert (H1 : get_log_conf_infos (T:=gmap_table) closed_env = Ret closed_infos)
    by (vm_cast_no_check (eq_refl (Ret closed_infos))).
  assert (H2 : load_info closed_infos INFOS_ID_CTL = Ret (set_control zero_info 1 0 0))
    by (vm_compute; reflexivity).
  split; [exact H1|]. split; [exact H2|].
  exact (log_switch_never_closes (T:=gmap_table) closed_env closed_infos
    (set_control zero_info 1 0 0) H1 H2).
Defined.

Definition sample_infos : log_conf_infos_t (T:=gmap_table) :=
  returned {| len := 0; allocated_len := 0; sinfo := None; names := gh_new |}
    log_conf_infos_init.

Lemma get_log_conf_info_exact_witness :
  infos_ok sample_infos ∧ ∃ r, get_log_conf_info (Some sample_infos) 2 = Ret r ∧
    (is_Some r ↔ 0 ≤ 2 < len sample_infos) ∧
    r = (if decide (0 ≤ 2 < len sample_infos) then slot sample_infos 2 else None).
Proof.
  assert (infos_ok sample_infos) as H.
  { destruct (log_conf_infos_init_spec (T:=gmap_table)) as (i&Hi&Hok&_).
    unfold sample_infos. by rewrite Hi. }
  split; [exact H|]. by apply (get_log_conf_info_exact sample_infos 2).
Defined.

Lemma log_conf_infos_destroy_frees_witness :
  infos_ok sample_infos ∧
  log_conf_infos_destroy (Some sample_infos) = Ret (seqZ 0 (len sample_infos)).
Proof.
  assert (infos_ok sample_infos) as H.
  { destruct (log_conf_infos_init_spec (T:=gmap_table)) as (i&Hi&Hok&_).
    unfold sample_infos. by rewrite Hi. }
  split; [exact H|]. by apply (log_conf_infos_destroy_frees sample_infos).
Defined.
