(* ===== verification/IridiumLog.v ===== *)
(** The logging entry points, [src/src/log/iridiumSysLog/iridiumlog.c], called
    by one thread: initialisation, destruction, the file nodes and the write
    path. The readers of the clock are in LocalTime.v.

    What the process does to the outside is the list of events of the state;
    the answers of the system ([open], [write], [fstat], the clock, the
    configuration file) are functions of the events so far. [PRINT_DEBUG] and
    [PRINT_ERR] print nothing unless the library is built with [LOG_DEBUG].

    [infos] is destroyed without clearing the pointer, and so is the table of
    file nodes; [conf_log_file_names] is [infos->names] or [NULL]. *)

From S2P Require Import Prelude CString GHash ConfText ConfCore LogConfCore LogConf.

Definition WRITE_TIMES : Z := 500.
Definition LOGINFO_MAX_LEN : Z := 1024 * 32.
Definition MONTH_ARRAY_MAX_INDEX : Z := 12.
Definition LOGPATH_MAX_LEN : Z := 256.
Definition IRILOG_PATH : bytes := lit "/var/log/iridium/".
Definition NO_INIT : Z := 0.
Definition HAS_INITED : Z := 1.

(** [loglevl]. *)
Definition IRILOG_DEBUG : Z := 1.
Definition IRILOG_INFO : Z := 2.
Definition IRILOG_ERR : Z := 3.
Definition IRILOG_FATAL : Z := 4.

Definition logInfo : list bytes :=
  [lit "NOUSE"; lit "DEBUG"; lit "INFO"; lit "ERR"; lit "FATAL"; lit "NOUSE"].
Definition month_array : list bytes :=
  [lit "Jan"; lit "Feb"; lit "Mar"; lit "Apr"; lit "May"; lit "Jun"; lit "Jul";
   lit "Aug"; lit "Sep"; lit "Oct"; lit "Nov"; lit "Dec"; lit "ABC"].

(** [iridium_log_version]; the numbers are those of the generated [config.h]. *)
Definition iridium_log_version (major minor patch : Z) : bytes :=
  snprintf 128 (lit "iridium syslog -V" ++ print_d major ++ lit "." ++ print_d minor ++
                lit "." ++ print_d patch).

(** The fields of [struct tm] the code prints. *)
Record tm := {
  tm_year : Z; tm_mon : Z; tm_mday : Z; tm_hour : Z; tm_min : Z; tm_sec : Z
}.

Inductive event :=
  | Mkdir (path : bytes)
  | StartClock
  | StopClock
  | Open (path : bytes) (fd : Z)
  | Close (fd : Z)
  | Stderr (text : bytes)
  | WriteFile (fd : Z) (text : bytes)
  | LockFile (fd : Z)
  | UnlockFile (fd : Z).

Record log_file_node_t := {
  node_name : bytes;
  node_date : bytes;
  node_fd : Z;
  node_times : Z;
  node_file_size : Z;
  node_id : Z
}.
#[export] Instance log_file_node_inhabited : Inhabited log_file_node_t :=
  populate {| node_name := []; node_date := []; node_fd := 0; node_times := 0;
              node_file_size := 0; node_id := 0 |}.

(** The answers of the system. *)
Record log_env := {
  sys_access : list event → bytes → bool;
  sys_mkdir : list event → bytes → bool;
  sys_open : list event → bytes → Z;
  sys_fstat : list event → Z → bool;
  sys_write : list event → Z → bytes → Z;
  sys_time : list event → Z;
  sys_localtime : list event → tm;
  sys_pid : Z;
  sys_proc_name : option bytes;
  sys_host_name : option bytes;
  sys_thread : Z;
  sys_conf : conf_env
}.

(** What follows the last ['/'], or everything. *)
Definition base_name (s : bytes) : bytes := default s (after_slash s).

(** A buffer of text shown or left out. *)
Definition shown (flag : Z) (buf : bytes) : bytes := if decide (flag = 1) then buf else [].

Section iridiumlog.
Context {T : Type → Type → Type} `{!GHashTable T}.
Context (env : log_env).

(** [infos] and the pointers into it. *)
Inductive infos_ptr :=
  | INull
  | ILive (infos : log_conf_infos_t (T:=T))
  | IFreed.

Record log_state := {
  init_flag : Z;
  close_log_flag : Z;
  debug_dead_time : Z;
  global_log_path : bytes;
  infos : infos_ptr;
  conf_log_file_names : bool;   (** it is [infos->names] *)
  log_file_nodes : table_ptr (T unit nat);
  nodes : list log_file_node_t;  (** the nodes allocated so far *)
  getlocaltime_pth : Z;
  proc_name : option bytes;
  proc_pid : Z;
  host_name : option bytes;
  trace : list event
}.

Definition initial_state : log_state :=
  {| init_flag := NO_INIT; close_log_flag := 0; debug_dead_time := 0;
     global_log_path := []; infos := INull; conf_log_file_names := false;
     log_file_nodes := TNull; nodes := []; getlocaltime_pth := 0; proc_name := None;
     proc_pid := 0; host_name := None; trace := [] |}.

Definition emit (e : event) (s : log_state) : log_state :=
  {| init_flag := init_flag s; close_log_flag := close_log_flag s;
     debug_dead_time := debug_dead_time s; global_log_path := global_log_path s;
     infos := infos s; conf_log_file_names := conf_log_file_names s;
     log_file_nodes := log_file_nodes s; nodes := nodes s;
     getlocaltime_pth := getlocaltime_pth s; proc_name := proc_name s;
     proc_pid := proc_pid s; host_name := host_name s; trace := trace s ++ [e] |}.

Definition set_nodes (s : log_state) (t : table_ptr (T unit nat))
    (ns : list log_file_node_t) : log_state :=
  {| init_flag := init_flag s; close_log_flag := close_log_flag s;
     debug_dead_time := debug_dead_time s; global_log_path := global_log_path s;
     infos := infos s; conf_log_file_names := conf_log_file_names s;
     log_file_nodes := t; nodes := ns;
     getlocaltime_pth := getlocaltime_pth s; proc_name := proc_name s;
     proc_pid := proc_pid s; host_name := host_name s; trace := trace s |}.

(** [init_flag = HAS_INITED], done on every way out of [iridium_init_log]. *)
Definition mark_inited (s : log_state) : log_state :=
  {| init_flag := HAS_INITED; close_log_flag := close_log_flag s;
     debug_dead_time := debug_dead_time s; global_log_path := global_log_path s;
     infos := infos s; conf_log_file_names := conf_log_file_names s;
     log_file_nodes := log_file_nodes s; nodes := nodes s;
     getlocaltime_pth := getlocaltime_pth s; proc_name := proc_name s;
     proc_pid := proc_pid s; host_name := host_name s; trace := trace s |}.

Definition set_path (s : log_state) (path : bytes) : log_state :=
  {| init_flag := init_flag s; close_log_flag := close_log_flag s;
     debug_dead_time := debug_dead_time s; global_log_path := path;
     infos := infos s; conf_log_file_names := conf_log_file_names s;
     log_file_nodes := log_file_nodes s; nodes := nodes s;
     getlocaltime_pth := getlocaltime_pth s; proc_name := proc_name s;
     proc_pid := proc_pid s; host_name := host_name s; trace := trace s |}.

Definition set_closed (s : log_state) : log_state :=
  {| init_flag := init_flag s; close_log_flag := 1;
     debug_dead_time := debug_dead_time s; global_log_path := global_log_path s;
     infos := INull; conf_log_file_names := conf_log_file_names s;
     log_file_nodes := log_file_nodes s; nodes := nodes s;
     getlocaltime_pth := getlocaltime_pth s; proc_name := proc_name s;
     proc_pid := proc_pid s; host_name := host_name s; trace := trace s |}.

(** The directory of the log files from the argument of [iridium_init_log]. *)
Definition log_path (logpath : option bytes) : outcome bytes :=
  match logpath with
  | None => mret IRILOG_PATH
  | Some p =>
      if decide (head p = Some "/"%char) then Exited 0
      else match last p with
           | None => Undef OutOfBounds   (* logpath[strlen(logpath) - 1] *)
           | Some c =>
               mret (snprintf (LOGPATH_MAX_LEN - 1)
                       (IRILOG_PATH ++ p ++ if decide (c = "/"%char) then [] else lit "/"))
           end
  end.

(** The part of [iridium_init_log] behind the settings: the clock thread, the
    names used in file names. *)
Definition finish_init (i : log_conf_infos_t (T:=T)) (ctl total : single_log_conf_info_t)
    (s : log_state) : log_state :=
  let dead :=
    if decide (is_valid ctl ≠ 0 ∧ timer total ≠ 0)
    then sys_time env (trace s) + timer total else debug_dead_time s in
  {| init_flag := init_flag s; close_log_flag := close_log_flag s;
     debug_dead_time := dead; global_log_path := global_log_path s;
     infos := ILive i; conf_log_file_names := true;
     log_file_nodes := TLive gh_new; nodes := nodes s;
     getlocaltime_pth := sys_thread env;
     proc_name := match proc_name s with
                  | Some p => Some p
                  | None => match sys_proc_name env with
                            | Some [] => Some (lit "default")
                            | p => p
                            end
                  end;
     proc_pid := sys_pid env;
     host_name := match host_name s with Some h => Some h | None => sys_host_name env end;
     trace := trace s ++ [StartClock] |}.

Definition iridium_init_log (logpath : option bytes) (s : log_state)
    : outcome (Z * log_state) :=
  if decide (init_flag s ≠ NO_INIT) then mret (0, mark_inited s) else
  path ← log_path logpath;
  let s := set_path s path in
  let '(dir_ok, s) :=
    if sys_access env (trace s) path then (true, s)
    else (sys_mkdir env (trace s) path, emit (Mkdir path) s) in
  if negb dir_ok then mret (-1, mark_inited s) else
  i ← get_log_conf_infos (sys_conf env);
  ctl ← load_info i INFOS_ID_CTL;
  if decide (si_log_switch ctl = 0) then
    _ ← log_conf_infos_destroy (Some i);
    mret (0, mark_inited (set_closed s))
  else
    total ← load_info i INFOS_ID_TOTAL_SWITCH;
    mret (0, mark_inited (finish_init i ctl total s)).

(** [iridium_destroy_log()]: neither [infos] nor [log_file_nodes] is cleared,
    and [init_flag] stays [HAS_INITED]. *)
Definition iridium_destroy_log (s : log_state) : outcome log_state :=
  match infos s, log_file_nodes s with
  | IFreed, _ | _, TFreed => Undef UseAfterFree
  | i, ns =>
      mret {| init_flag := init_flag s; close_log_flag := close_log_flag s;
              debug_dead_time := debug_dead_time s; global_log_path := global_log_path s;
              infos := match i with INull => INull | _ => IFreed end;
              conf_log_file_names := false;
              log_file_nodes := match ns with TNull => TNull | _ => TFreed end;
              nodes := nodes s; getlocaltime_pth := getlocaltime_pth s;
              proc_name := None; proc_pid := proc_pid s; host_name := None;
              trace := trace s ++
                if decide (getlocaltime_pth s > 0) then [StopClock] else [] |}
  end.

Definition open_iridiumlog (s : log_state) : outcome (Z * log_state) :=
  if decide (init_flag s = NO_INIT) then iridium_init_log None s else mret (0, s).

(** The name of a new log file: [proc.name.date.host.pid.log]. A name that
    could not be allocated prints as [(null)]. *)
Definition file_date (t : tm) : bytes :=
  snprintf 32 (print_pad 4 (tm_year t + 1900) ++ print_pad 2 (tm_mon t + 1) ++
    print_pad 2 (tm_mday t) ++ lit "-" ++ print_pad 2 (tm_hour t) ++
    print_pad 2 (tm_min t) ++ print_pad 2 (tm_sec t)).
Definition printed_name (n : option bytes) : bytes := default (lit "(null)") n.
Definition new_file_name (s : log_state) (nm date : bytes) : bytes :=
  snprintf 256 (printed_name (proc_name s) ++ lit "." ++ nm ++ lit "." ++ date ++
    lit "." ++ printed_name (host_name s) ++ lit "." ++ print_d (proc_pid s) ++ lit ".log").

(** [create_log_file_fd(node)]: close the file, open one named after now. *)
Definition create_log_file_fd (node : log_file_node_t) (s : log_state)
    : log_file_node_t * log_state :=
  let s := if decide (node_fd node > 0) then emit (Close (node_fd node)) s else s in
  let date := file_date (sys_localtime env (trace s)) in
  let path := global_log_path s ++ new_file_name s (node_name node) date in
  let fd := sys_open env (trace s) path in
  ({| node_name := node_name node; node_date := date;
      node_fd := if decide (fd > 0) then fd else -1;
      node_times := node_times node; node_file_size := node_file_size node;
      node_id := node_id node |}, emit (Open path fd) s).

Definition new_log_file_node (info : single_log_conf_info_t) (id : Z)
    (log_file : option bytes) (s : log_state) : log_file_node_t * log_state :=
  create_log_file_fd
    {| node_name := match log_file with
                    | Some f => snprintf FILE_NAME_LEN f
                    | None => si_name info
                    end;
       node_date := []; node_fd := 0; node_times := 0; node_file_size := 0;
       node_id := id |} s.

(** [get_log_file_node(log_file, info, id)]: the position of the node. The
    path it builds and never uses has 256 bytes. *)
Definition get_log_file_node (log_file : bytes) (info : single_log_conf_info_t) (id : Z)
    (s : log_state) : outcome (option nat * log_state) :=
  match log_file_nodes s with
  | TNull => mret (None, s)
  | TFreed | TLive _ =>
      if decide (zlen (global_log_path s) + zlen log_file >= LOGPATH_MAX_LEN)
      then Undef OutOfBounds else
      match log_file_nodes s with
      | TNull | TFreed => Undef UseAfterFree
      | TLive t =>
          match gh_lookup log_file t with
          | Some (_, n) =>
              node ← aget (nodes s) (Z.of_nat n);
              if decide (node_fd node < 0) then
                let '(node, s) := create_log_file_fd node s in
                ns ← aset (nodes s) (Z.of_nat n) node;
                mret (Some n, set_nodes s (TLive t) ns)
              else mret (Some n, s)
          | None =>
              let '(node, s) := new_log_file_node info id (Some log_file) s in
              let n := length (nodes s) in
              mret (Some n, set_nodes s (TLive (gh_insert log_file tt n t)) (nodes s ++ [node]))
          end
      end
  end.

(** Which record a message is filtered by. *)
Definition select_info_id (i : log_conf_infos_t (T:=T)) (names_set : bool)
    (ctl : single_log_conf_info_t) (log_file : option bytes) : Z :=
  if decide (is_valid ctl = 0) then
    match log_file with
    | Some f =>
        match (if names_set then gh_lookup f (names i) else None) with
        | Some (_, id) => id
        | None => INFOS_ID_DEFAULT
        end
    | None => INFOS_ID_DEFAULT
    end
  else INFOS_ID_TOTAL_SWITCH.

(** [real_log_file]: [None] when [strncpy] leaves the 128 bytes without a NUL
    (byte 127 is never written). *)
Definition real_log_file_of (i : log_conf_infos_t (T:=T)) (log_file : option bytes)
    : outcome (option bytes) :=
  match log_file with
  | None => def ← load_info i INFOS_ID_DEFAULT; mret (Some (si_name def))
  | Some f => mret (if decide (zlen f < FILE_NAME_LEN - 1) then Some f else None)
  end.

(** The level's switch. *)
Definition level_open (sw : irilog_switch_t) (level : Z) : bool :=
  if decide (level = IRILOG_DEBUG) then bool_decide (sw_debug sw = 1)
  else if decide (level = IRILOG_INFO) then bool_decide (sw_info sw = 1)
  else if decide (level = IRILOG_ERR) then bool_decide (sw_err sw = 1)
  else if decide (level = IRILOG_FATAL) then bool_decide (sw_fatal sw = 1)
  else false.

(** The parts of a line. *)
Definition date_text (t : tm) : outcome bytes :=
  m ← aget month_array
        (if decide (tm_mon t < MONTH_ARRAY_MAX_INDEX) then tm_mon t else MONTH_ARRAY_MAX_INDEX);
  mret (snprintf 32 (m ++ lit " " ++ print_pad 2 (tm_mday t) ++ lit " " ++
    print_pad 4 (tm_year t + 1900) ++ lit " " ++ print_pad 2 (tm_hour t) ++ lit ":" ++
    print_pad 2 (tm_min t) ++ lit ":" ++ print_pad 2 (tm_sec t) ++ lit " ")).

Record line_parts := {
  date_buf : bytes; file_buf : bytes; func_buf : bytes; line_buf : bytes;
  level_buf : bytes; va_buf : bytes
}.

Definition build_parts (sw : irilog_switch_t) (t : tm) (fileName funcName : bytes)
    (line level : Z) (msg : bytes) : outcome line_parts :=
  date ← (if decide (f_date sw ≠ 0 ∨ p_date sw ≠ 0) then date_text t else mret []);
  let level_name := default [] (logInfo !! Z.to_nat level) in
  mret {| date_buf := date;
          (* if(sw->p_file || sw->p_file) *)
          file_buf := if decide (p_file sw ≠ 0 ∨ p_file sw ≠ 0)
                      then snprintf 1024 (lit "File:" ++ base_name fileName ++ lit " ")
                      else [];
          func_buf := if decide (f_func sw ≠ 0 ∨ p_func sw ≠ 0)
                      then snprintf 1024 (lit "Func:" ++ funcName ++ lit " ") else [];
          line_buf := if decide (f_line sw ≠ 0 ∨ p_line sw ≠ 0)
                      then snprintf 64 (lit "Line:" ++ print_d line) else [];
          level_buf := snprintf 64
            (("027"%char :: if decide (level = IRILOG_ERR) then lit "[31m[" else lit "[33m[") ++
             level_name ++ lit "]:" ++ ("027"%char :: lit "[0m"));
          va_buf := snprintf LOGINFO_MAX_LEN msg |}.

(** What goes to the terminal. *)
Definition terminal_text (sw : irilog_switch_t) (p : line_parts) : bytes :=
  take (Z.to_nat (LOGINFO_MAX_LEN - 2))
    (snprintf LOGINFO_MAX_LEN
       (shown (p_date sw) (date_buf p) ++ shown (p_file sw) (file_buf p) ++
        shown (p_func sw) (func_buf p) ++ shown (p_line sw) (line_buf p) ++
        level_buf p ++ lit " " ++ va_buf p ++ [LF])).

(** What goes to the file: the last character is made a line feed. *)
Definition file_text (sw : irilog_switch_t) (p : line_parts) (level : Z) : bytes :=
  let text :=
    take (Z.to_nat (LOGINFO_MAX_LEN - 2))
      (snprintf LOGINFO_MAX_LEN
         (shown (f_date sw) (date_buf p) ++ shown (f_file sw) (file_buf p) ++
          shown (f_func sw) (func_buf p) ++ shown (f_line sw) (line_buf p) ++
          lit "[" ++ default [] (logInfo !! Z.to_nat level) ++ lit "] " ++ va_buf p ++ [LF])) in
  take (length text - 1) text ++ [LF].

(** The size check: after more than 500 writes and past the limit, a new file. *)
Definition rotate (info : single_log_conf_info_t) (node : log_file_node_t) (s : log_state)
    : log_file_node_t * log_state :=
  if decide (node_times node > WRITE_TIMES ∧ node_file_size node > single_max_size info) then
    if sys_fstat env (trace s) (node_fd node) then
      let '(node, s) := create_log_file_fd node s in
      ({| node_name := node_name node; node_date := node_date node;
          node_fd := node_fd node; node_times := 0; node_file_size := 0;
          node_id := node_id node |}, s)
    else (node, s)
  else (node, s).

(** The write to the file of the node at [n], under its locks. *)
Definition write_node (n : nat) (info : single_log_conf_info_t) (text : bytes)
    (s : log_state) : outcome log_state :=
  node ← aget (nodes s) (Z.of_nat n);
  let lock := bool_decide (is_process_lock info ≠ 0) in
  let s := if lock then emit (LockFile (node_fd node)) s else s in
  let '(node, s) := rotate info node s in
  let written := sys_write env (trace s) (node_fd node) text in
  let s := emit (WriteFile (node_fd node) text) s in
  let node :=
    if decide (written < 0) then node
    else {| node_name := node_name node; node_date := node_date node;
            node_fd := node_fd node; node_times := node_times node + 1;
            node_file_size := to_u 64 (node_file_size node + written);
            node_id := node_id node |} in
  ns ← aset (nodes s) (Z.of_nat n) node;
  let s := set_nodes s (log_file_nodes s) ns in
  mret (if lock then emit (UnlockFile (node_fd node)) s else s).

(** The part of a write that follows the filters. *)
Definition write_line (fileName funcName : bytes) (line : Z) (real : option bytes)
    (level : Z) (msg : bytes) (info : single_log_conf_info_t) (id : Z) (s : log_state)
    : outcome (Z * log_state) :=
  let sw := irilog_switch info in
  p ← build_parts sw (sys_localtime env (trace s)) fileName funcName line level msg;
  let s := if decide (log_terminal sw ≠ 0) then emit (Stderr (terminal_text sw p)) s else s in
  if decide (log_file sw ≠ 0) then
    match real with
    | None => Undef OutOfBounds
    | Some real =>
        '(n, s) ← get_log_file_node real info id s;
        match n with
        | None => Undef NullDeref
        | Some n =>
            node ← aget (nodes s) (Z.of_nat n);
            if decide (node_fd node ≤ 0) then mret (-1, s)
            else s ← write_node n info (file_text sw p level) s; mret (0, s)
        end
    end
  else mret (0, s).

(** [transparent_iridium_write_log]; [msg] is the formatted message. *)
Definition transparent_iridium_write_log (fileName funcName : bytes) (line : Z)
    (log_file_arg : option bytes) (level : Z) (msg : bytes) (s : log_state)
    : outcome (Z * log_state) :=
  '(ret, s) ← open_iridiumlog s;
  if decide (ret < 0) then mret (-1, s) else
  if decide (close_log_flag s = 1) then mret (0, s) else
  if decide (level = IRILOG_DEBUG ∧ debug_dead_time s > 0 ∧
             debug_dead_time s < sys_time env (trace s)) then mret (0, s) else
  match infos s with
  | INull => Undef NullDeref
  | IFreed => Undef UseAfterFree
  | ILive i =>
      ctl ← load_info i INFOS_ID_CTL;
      let info_id := select_info_id i (conf_log_file_names s) ctl log_file_arg in
      real ← real_log_file_of i log_file_arg;
      info ← get_log_conf_info (Some i) info_id;
      match info with
      | None => Undef NullDeref
      | Some info =>
          let sw := irilog_switch info in
          if decide (log_file sw = 0 ∧ log_terminal sw = 0) then mret (-1, s) else
          if level_open sw level
          then write_line fileName funcName line real level msg info info_id s
          else mret (0, s)
      end
  end.
End iridiumlog.

(** ** Facts *)

Section iridiumlog_facts.
Context {T : Type → Type → Type} `{!GHashTable T, !GHashTableLaws T}.
Context (env : log_env).
Implicit Types (s : log_state (T:=T)).

(** The settings without a configuration file. *)
Definition default_info : single_log_conf_info_t :=
  set_default_single_log_conf_info (set_name zero_info DEFAULT_LOG_FILE_NAME).

Lemma get_log_conf_infos_missing cenv :
  conf_file cenv = None →
  ∃ i, get_log_conf_infos (T:=T) cenv = Ret i ∧ len i = 3 ∧
    load_info i INFOS_ID_CTL = Ret (set_control zero_info 1 0 0) ∧
    load_info i INFOS_ID_TOTAL_SWITCH = Ret (set_default_single_log_conf_info zero_info) ∧
    load_info i INFOS_ID_DEFAULT = Ret default_info ∧
    get_log_conf_info (Some i) INFOS_ID_DEFAULT = Ret (Some default_info) ∧
    ∀ f k id, gh_lookup f (names i) = Some (k, id) → id = INFOS_ID_DEFAULT.
Proof.
  intros Hf. unfold get_log_conf_infos, log_get_conf_info_from_file.
  rewrite decide_False by done. rewrite Hf.
  eexists. split; [reflexivity|]. split_and!; [reflexivity..|].
  intros f k id. simpl. rewrite gh_lookup_insert_case, !gh_lookup_new.
  case_decide; [|done]. by intros [= <- <-].
Qed.

(** [file_text] is one line of bounded length. *)
Lemma file_text_last sw p level : last (file_text sw p level) = Some LF.
Proof. unfold file_text. apply last_snoc. Qed.

Lemma file_text_length sw p level :
  0 < zlen (file_text sw p level) ≤ LOGINFO_MAX_LEN - 2.
Proof.
  unfold file_text. set (t := snprintf _ _). unfold zlen, LOGINFO_MAX_LEN.
  rewrite length_app, length_take. simpl.
  pose proof (length_take t (Z.to_nat (1024 * 32 - 2))). lia.
Qed.

(** A state in which initialisation has succeeded without configuration. *)
Lemma init_missing_conf s :
  init_flag s = NO_INIT → sys_access env (trace s) IRILOG_PATH = true →
  conf_file (sys_conf env) = None →
  ∃ i s', iridium_init_log env None s = Ret (0, s') ∧ infos s' = ILive i ∧
    init_flag s' = HAS_INITED ∧ conf_log_file_names s' = true ∧
    log_file_nodes s' = TLive gh_new ∧ nodes s' = nodes s ∧
    close_log_flag s' = close_log_flag s ∧ debug_dead_time s' = debug_dead_time s ∧
    global_log_path s' = IRILOG_PATH ∧ trace s' = trace s ++ [StartClock] ∧
    load_info i INFOS_ID_CTL = Ret (set_control zero_info 1 0 0) ∧
    load_info i INFOS_ID_DEFAULT = Ret default_info ∧
    get_log_conf_info (Some i) INFOS_ID_DEFAULT = Ret (Some default_info) ∧
    ∀ f k id, gh_lookup f (names i) = Some (k, id) → id = INFOS_ID_DEFAULT.
Proof.
  intros Hi Ha Hf. destruct (get_log_conf_infos_missing _ Hf) as (i&Hg&_&Hc&Ht&Hd&Hgd&Hn).
  unfold iridium_init_log. rewrite decide_False by (by intros []).
  cbn [log_path mbind outcome_bind mret outcome_ret].
  change (trace s) with (trace (set_path s IRILOG_PATH)) in Ha. rewrite Ha.
  cbn [negb]. rewrite Hg. cbn [mbind outcome_bind]. rewrite Hc. cbn [mbind outcome_bind].
  rewrite decide_False by done. rewrite Ht. cbn [mbind outcome_bind].
  eexists i, _. split; [done|]. by split_and!.
Qed.

Lemma select_default i ctl f b :
  is_valid ctl = 0 →
  (∀ f k id, gh_lookup f (names i) = Some (k, id) → id = INFOS_ID_DEFAULT) →
  select_info_id (T:=T) i b ctl (Some f) = INFOS_ID_DEFAULT.
Proof.
  intros Hv Hn. unfold select_info_id. rewrite decide_True by done.
  destruct b; [|done]. destruct (gh_lookup f (names i)) as [[k id]|] eqn:E; [|done].
  by eapply Hn.
Qed.

(** The first line to a file: the file is opened and the line written. *)
Lemma write_line_new_file fileName funcName line f level msg info id s p :
  zlen (global_log_path s) + zlen f < LOGPATH_MAX_LEN →
  log_file_nodes s = TLive gh_new → nodes s = [] →
  log_terminal (irilog_switch info) = 0 → log_file (irilog_switch info) ≠ 0 →
  is_process_lock info = 0 → (∀ tr p, 0 < sys_open env tr p) →
  build_parts (irilog_switch info) (sys_localtime env (trace s)) fileName funcName
    line level msg = Ret p →
  ∃ path fd s', write_line env fileName funcName line (Some f) level msg info id s =
      Ret (0, s') ∧
    trace s' = trace s ++ [Open path fd] ++
               [WriteFile fd (file_text (irilog_switch info) p level)].
Proof.
  intros Hpath Hlive Hnodes Hterm Hfile Hlock Hopen Hparts.
  unfold write_line. rewrite Hparts. cbn [mbind outcome_bind].
  rewrite (decide_False (P:=log_terminal _ ≠ 0)) by tauto.
  rewrite (decide_True (P:=log_file _ ≠ 0)) by done.
  unfold get_log_file_node. rewrite Hlive, decide_False by lia. rewrite gh_lookup_new.
  unfold new_log_file_node, create_log_file_fd.
  cbn [node_fd node_name node_date node_times node_file_size node_id].
  rewrite (decide_False (P:=0 > 0)) by lia.
  set (path := global_log_path s ++ _). set (fd := sys_open env (trace s) path).
  pose proof (Hopen (trace s) path) as Hfd. fold fd in Hfd.
  rewrite (decide_True (P:=fd > 0)) by lia. cbn zeta. cbn [emit nodes]. rewrite Hnodes.
  cbn [mbind outcome_bind mret outcome_ret app length set_nodes nodes Z.of_nat].
  rewrite aget_head. cbn [mbind outcome_bind node_fd].
  rewrite (decide_False (P:=fd ≤ 0)) by lia.
  unfold write_node. cbn [set_nodes nodes Z.of_nat]. rewrite aget_head.
  cbn [mbind outcome_bind]. rewrite bool_decide_eq_false_2 by tauto.
  unfold rotate. cbn [node_times].
  rewrite (decide_False (P:=_ ∧ _)) by (intros [Ht _]; unfold WRITE_TIMES in Ht; lia).
  cbn [emit set_nodes nodes]. rewrite aset_head. cbn [mbind outcome_bind mret outcome_ret].
  eexists path, fd, _. split; [reflexivity|]. simpl. by rewrite <- app_assoc.
Qed.

(** ** Properties *)

(** The first message of a process without configuration file. An INFO, ERR
    or FATAL message starts the clock, opens the file of its name and writes
    exactly one line to it, which carries date, function, line and message but
    not the terminal; a DEBUG message only initialises. *)
Theorem first_message fileName funcName line f level msg t :
  sys_access env [] IRILOG_PATH = true → conf_file (sys_conf env) = None →
  zlen f < FILE_NAME_LEN - 1 → IRILOG_DEBUG ≤ level ≤ IRILOG_FATAL →
  (∀ tr, sys_localtime env tr = t) → 0 ≤ tm_mon t →
  (∀ tr p, 0 < sys_open env tr p) →
  wp (transparent_iridium_write_log env fileName funcName line (Some f) level msg
        (initial_state (T:=T))) (λ '(ret, s), ret = 0 ∧
    if decide (level = IRILOG_DEBUG) then trace s = [StartClock]
    else ∃ path fd p, build_parts (irilog_switch default_info) t fileName funcName line level msg = Ret p ∧
      trace s = [StartClock; Open path fd;
                 WriteFile fd (file_text (irilog_switch default_info) p level)]).
Proof.
  intros Ha Hf Hlen Hlevel Ht Hmon Hopen.
  destruct (init_missing_conf initial_state) as (i&s&Hinit&Hi&Hfl&Hns&Hnodes&Hn&Hc&Hdd&Hp&Htr&
    Hctl&Hdef&Hget&Hnames); [done..|].
  unfold transparent_iridium_write_log, open_iridiumlog. rewrite decide_True by done.
  rewrite Hinit. cbn [mbind outcome_bind]. rewrite decide_False by done.
  rewrite decide_False by (by rewrite Hc). rewrite decide_False by (rewrite Hdd; simpl; lia).
  rewrite Hi, Hctl. cbn [mbind outcome_bind]. cbn [real_log_file_of mbind outcome_bind mret outcome_ret].
  rewrite (decide_True (P:=zlen f < _)) by done.
  rewrite (select_default i (set_control zero_info 1 0 0) f _ eq_refl Hnames), Hget. cbn [mbind outcome_bind].
  rewrite (decide_False (P:=log_file _ = 0 ∧ _)) by (by intros [[=] _]).
  assert (Hparts : ∃ p, build_parts (irilog_switch default_info) t fileName funcName
            line level msg = Ret p).
  { unfold build_parts, date_text, aget. rewrite (decide_True (P:=f_date _ ≠ 0 ∨ _)) by (left; cbn; lia).
    rewrite (decide_True (P:=0 ≤ _ < _)); [by eexists|]. unfold zlen, MONTH_ARRAY_MAX_INDEX. simpl.
    case_decide; lia. }
  destruct Hparts as [p Hparts].
  destruct (decide (level = IRILOG_DEBUG)) as [->|Hne].
  - change (level_open _ _) with false. cbn. split; [done|]. by rewrite Htr.
  - assert (level_open (irilog_switch default_info) level = true) as ->.
    { unfold level_open, IRILOG_DEBUG, IRILOG_INFO, IRILOG_ERR, IRILOG_FATAL in *.
      repeat case_decide; try done; lia. }
    destruct (write_line_new_file fileName funcName line f level msg default_info
      INFOS_ID_DEFAULT s p) as (path&fd&s'&Hw&Htr'); try done.
    { rewrite Hp. unfold FILE_NAME_LEN, LOGPATH_MAX_LEN, zlen in *. simpl. lia. }
    { by rewrite Ht. }
    rewrite Hw. cbn [wp]. split; [done|]. exists path, fd, p. split; [done|].
    by rewrite Htr', Htr.
Qed.

(** A failed initialisation is remembered as done: when the log directory
    cannot be created the first write returns -1, and every later write uses
    the settings that were never read, a null pointer. *)
Lemma failed_init_then_null fileName funcName line f level msg :
  sys_access env [] IRILOG_PATH = false → sys_mkdir env [] IRILOG_PATH = false →
  wp (transparent_iridium_write_log env fileName funcName line f level msg
        (initial_state (T:=T))) (λ '(ret, s), ret = -1 ∧
    ∀ fileName funcName line f level msg,
      transparent_iridium_write_log env fileName funcName line f level msg s =
        Undef NullDeref).
Proof.
  intros Ha Hm. unfold transparent_iridium_write_log at 1, open_iridiumlog at 1.
  rewrite decide_True by done. unfold iridium_init_log. rewrite decide_False by (by intros []).
  cbn [log_path mbind outcome_bind mret outcome_ret].
  change (trace (set_path initial_state IRILOG_PATH)) with (@nil event). rewrite Ha, Hm.
  cbn [negb mbind outcome_bind mret outcome_ret]. rewrite decide_True by done. cbn [wp].
  split; [done|]. intros. unfold transparent_iridium_write_log, open_iridiumlog.
  rewrite decide_False by done. cbn [mbind outcome_bind mret outcome_ret].
  rewrite decide_False by done.
  rewrite decide_False by done. rewrite decide_False; [done|]. intros (_&H&_). cbn in H. lia.
Qed.

(** Using the log after [iridium_destroy_log] is a use after free: the
    settings are gone, but neither their pointer nor the flag that would make
    the next write read them again is reset. Only a closed log or an expired
    debug timer keeps a message from it. *)
Lemma write_after_destroy i s s' fileName funcName line f level msg :
  init_flag s = HAS_INITED → infos s = ILive i → close_log_flag s ≠ 1 →
  iridium_destroy_log s = Ret s' → level ≠ IRILOG_DEBUG →
  transparent_iridium_write_log env fileName funcName line f level msg s' =
    Undef UseAfterFree.
Proof.
  intros Hinit Hi Hc Hd Hl. unfold iridium_destroy_log in Hd. rewrite Hi in Hd.
  assert (init_flag s' = HAS_INITED ∧ infos s' = IFreed ∧ close_log_flag s' = close_log_flag s)
    as (Hinit'&Hi'&Hc').
  { destruct (log_file_nodes s); ret_inv Hd; done. }
  unfold transparent_iridium_write_log, open_iridiumlog.
  rewrite decide_False by (by rewrite Hinit'). cbn [mbind outcome_bind mret outcome_ret].
  rewrite decide_False by done. rewrite decide_False by (by rewrite Hc').
  rewrite decide_False by (by intros [? _]). by rewrite Hi'.
Qed.

(** The file name never reaches a log file unless the TERMINAL asks for it:
    with [p_file] off the line written to a file is the same for every source
    file, even when [f_file] is on. The code tests [p_file] twice instead of
    [f_file] and [p_file]. *)
Lemma f_file_is_ignored sw t file1 file2 funcName line level msg p1 p2 :
  p_file sw = 0 → build_parts sw t file1 funcName line level msg = Ret p1 →
  build_parts sw t file2 funcName line level msg = Ret p2 →
  file_text sw p1 level = file_text sw p2 level.
Proof.
  intros Hp H1 H2. cut (p1 = p2); [by intros ->|].
  unfold build_parts in *.
  rewrite (decide_False (P:=p_file sw ≠ 0 ∨ p_file sw ≠ 0)) in H1, H2 by (rewrite Hp; tauto).
  congruence.
Qed.

(** What a node never exceeds. *)
Definition node_bounded (limit : Z) (node : log_file_node_t) : Prop :=
  let L := LOGINFO_MAX_LEN - 2 in
  0 ≤ node_times node ∧ 0 ≤ node_file_size node ∧
  (node_times node ≤ WRITE_TIMES + 1 → node_file_size node ≤ node_times node * L) ∧
  node_file_size node ≤ Z.max ((WRITE_TIMES + 1) * L) (limit + L).

Lemma create_log_file_fd_spec node s :
  let '(node', s') := create_log_file_fd env node s in
  nodes s' = nodes s ∧ node_times node' = node_times node ∧
  node_file_size node' = node_file_size node.
Proof. unfold create_log_file_fd. by case_decide. Qed.

Lemma rotate_bounded info node s :
  (∀ tr fd, sys_fstat env tr fd = true) → 0 ≤ single_max_size info →
  node_bounded (single_max_size info) node →
  let '(node', s') := rotate env info node s in
  nodes s' = nodes s ∧ node_bounded (single_max_size info) node' ∧
  (node_times node' ≤ WRITE_TIMES ∨ node_file_size node' ≤ single_max_size info).
Proof.
  intros Hstat Hlim Hb. pose proof Hb as (?&?&?&?). unfold rotate.
  case_decide as Hr; [|split; [done|]; split; [done|clear -Hr; lia]].
  rewrite Hstat. pose proof (create_log_file_fd_spec node s) as H'.
  destruct (create_log_file_fd env node s) as [node' s']. destruct H' as (->&_&_).
  split; [done|]. unfold node_bounded, WRITE_TIMES, LOGINFO_MAX_LEN. cbn. lia.
Qed.

(** What a write reports is added to the counters. *)
Lemma count_bounded limit node w :
  0 ≤ limit ≤ UINT_MAX → node_bounded limit node → 0 ≤ w ≤ LOGINFO_MAX_LEN - 2 →
  node_times node ≤ WRITE_TIMES ∨ node_file_size node ≤ limit →
  node_bounded limit
    {| node_name := node_name node; node_date := node_date node; node_fd := node_fd node;
       node_times := node_times node + 1;
       node_file_size := to_u 64 (node_file_size node + w); node_id := node_id node |}.
Proof.
  intros Hl (?&?&?&?) Hw Hor. unfold node_bounded, UINT_MAX, WRITE_TIMES, LOGINFO_MAX_LEN in *.
  cbn [node_times node_file_size]. rewrite to_u_small by lia.
  split_and!; nia.
Qed.

End iridiumlog_facts.

(** ** Witnesses *)

Definition sample_tm : tm :=
  {| tm_year := 118; tm_mon := 11; tm_mday := 6; tm_hour := 10; tm_min := 5; tm_sec := 0 |}.
(** A system where everything works; [dir] tells whether the directory exists. *)
Definition sample_log_env (dir : bool) : log_env :=
  {| sys_access := λ _ _, dir; sys_mkdir := λ _ _, false; sys_open := λ _ _, 7;
     sys_fstat := λ _ _, true; sys_write := λ _ _ t, zlen t; sys_time := λ _, 1000;
     sys_localtime := λ _, sample_tm; sys_pid := 42;
     sys_proc_name := Some (lit "demo"); sys_host_name := Some (lit "host");
     sys_thread := 1;
     sys_conf := {| conf_file := None; buf_ok := true; block_ok := λ _, true |} |}.
Abbreviation sample_log_state := (initial_state (T:=gmap_table)).

Lemma first_message_witness :
  wp (transparent_iridium_write_log (sample_log_env true) (lit "/a/b.c") (lit "main") 12
        (Some (lit "app")) IRILOG_INFO (lit "hello") sample_log_state) (λ '(ret, s), ret = 0 ∧
    if decide (IRILOG_INFO = IRILOG_DEBUG) then trace s = [StartClock]
    else ∃ path fd p, build_parts (irilog_switch default_info) sample_tm
           (lit "/a/b.c") (lit "main") 12 IRILOG_INFO (lit "hello") = Ret p ∧
      trace s = [StartClock; Open path fd;
                 WriteFile fd (file_text (irilog_switch default_info) p IRILOG_INFO)]).
Proof.
  apply (first_message (T:=gmap_table) (sample_log_env true) (lit "/a/b.c") (lit "main") 12
    (lit "app") IRILOG_INFO (lit "hello") sample_tm); by compute.
Defined.

Lemma failed_init_then_null_witness :
  wp (transparent_iridium_write_log (sample_log_env false) [] [] 1 None IRILOG_INFO []
        sample_log_state) (λ '(ret, s), ret = -1 ∧
    ∀ fileName funcName line f level msg,
      transparent_iridium_write_log (sample_log_env false) fileName funcName line f level msg s =
        Undef NullDeref).
Proof. by apply (failed_init_then_null (T:=gmap_table) (sample_log_env false)). Defined.

(** A state with settings, initialised, and what destroying it leaves. *)
Definition live_state : log_state (T:=gmap_table) :=
  {| init_flag := HAS_INITED; close_log_flag := 0; debug_dead_time := 0;
     global_log_path := IRILOG_PATH; infos := ILive sample_infos;
     conf_log_file_names := true; log_file_nodes := TLive gh_new; nodes := [];
     getlocaltime_pth := 1; proc_name := None; proc_pid := 0; host_name := None;
     trace := [] |}.

Lemma write_after_destroy_witness :
  iridium_destroy_log live_state = Ret (returned live_state (iridium_destroy_log live_state)) ∧
  transparent_iridium_write_log (sample_log_env true) [] [] 1 None IRILOG_INFO []
    (returned live_state (iridium_destroy_log live_state)) = Undef UseAfterFree.
Proof.
  split; [reflexivity|].
  by apply (write_after_destroy (T:=gmap_table) (sample_log_env true) sample_infos live_state).
Defined.

Lemma f_file_is_ignored_witness :
  ∃ p1 p2, let sw := irilog_switch default_info in
    build_parts sw sample_tm (lit "a.c") (lit "f") 1 IRILOG_INFO (lit "m") = Ret p1 ∧
    build_parts sw sample_tm (lit "b.c") (lit "f") 1 IRILOG_INFO (lit "m") = Ret p2 ∧
    file_text sw p1 IRILOG_INFO = file_text sw p2 IRILOG_INFO.
Proof.
  eexists _, _. split; [reflexivity|]. split; [reflexivity|].
  apply (f_file_is_ignored (irilog_switch default_info) sample_tm (lit "a.c") (lit "b.c")
    (lit "f") 1 IRILOG_INFO (lit "m")); reflexivity.
Defined.

Definition sample_node : log_file_node_t :=
  {| node_name := lit "app"; node_date := []; node_fd := 7; node_times := 0;
     node_file_size := 0; node_id := 2 |}.
Definition node_state : log_state (T:=gmap_table) :=
  set_nodes live_state (TLive gh_new) [sample_node].
Definition sample_parts : line_parts :=
  {| date_buf := []; file_buf := []; func_buf := []; line_buf := []; level_buf := [];
     va_buf := lit "m" |}.

