(* ===== verification/LocalTime.v ===== *)
(** The shared clock of the logging library,
    [src/src/log/iridiumSysLog/get_localtime/get_localtime.c]: one thread
    stores the broken-down time every half second, any number of threads read
    it, and everybody takes [localtime_lock] with [trylock] only.

    The model interleaves the threads statement by statement. A reader that
    gets the lock copies [iridium_tm_now] to its buffer and to
    [iridium_tm_last]; one that does not reads [iridium_tm_last] without the
    lock. A [memcpy] of a [struct tm] is one step; [conflict] states where two
    threads are about to access the same object, one of them writing, which the
    C standard calls a data race. *)

From S2P Require Import Prelude.
From stdpp Require Import relations.

Section localtime.
(** [struct tm]. *)
Context {tm : Type}.

(** Who holds [localtime_lock]. *)
Inductive owner :=
  | Clock
  | Reader (i : nat).
#[global] Instance owner_eq_dec : EqDecision owner.
Proof. solve_decision. Defined.

(** [get_localtime_func], one turn of its loop. *)
Inductive clock_pc :=
  | CTry                 (* pthread_mutex_trylock *)
  | CStore               (* time; localtime_r(&now, &iridium_tm_now) *)
  | CUnlock.

(** [get_localtime(tm_in)]; [v] is what [tm_in] holds. *)
Inductive reader_pc :=
  | RTry                 (* pthread_mutex_trylock *)
  | RCopyNow             (* memcpy(tm_in, &iridium_tm_now) *)
  | RCopyLast (v : tm)   (* memcpy(&iridium_tm_last, &iridium_tm_now) *)
  | RUnlock (v : tm)
  | RReadLast            (* memcpy(tm_in, &iridium_tm_last) *)
  | RDone (v : tm).

Record clock_state := {
  lock : option owner;
  tm_now : tm;
  tm_last : tm;
  clock : clock_pc;
  readers : list reader_pc;
  stored : list tm       (** every time stored so far *)
}.

(** [start_getlocaltime_thread]: both copies hold the time of the start; the
    readers have not begun. *)
Definition start (t : tm) (n : nat) : clock_state :=
  {| lock := None; tm_now := t; tm_last := t; clock := CTry;
     readers := replicate n RTry; stored := [t] |}.

Definition with_reader (s : clock_state) (i : nat) (r : reader_pc) : clock_state :=
  {| lock := lock s; tm_now := tm_now s; tm_last := tm_last s; clock := clock s;
     readers := <[i := r]> (readers s); stored := stored s |}.
Definition with_lock (s : clock_state) (l : option owner) : clock_state :=
  {| lock := l; tm_now := tm_now s; tm_last := tm_last s; clock := clock s;
     readers := readers s; stored := stored s |}.
Definition with_clock (s : clock_state) (c : clock_pc) : clock_state :=
  {| lock := lock s; tm_now := tm_now s; tm_last := tm_last s; clock := c;
     readers := readers s; stored := stored s |}.
Definition with_last (s : clock_state) (v : tm) : clock_state :=
  {| lock := lock s; tm_now := tm_now s; tm_last := v; clock := clock s;
     readers := readers s; stored := stored s |}.
Definition with_now (s : clock_state) (v : tm) : clock_state :=
  {| lock := lock s; tm_now := v; tm_last := tm_last s; clock := clock s;
     readers := readers s; stored := v :: stored s |}.

(** [get_localtime_func]. *)
Inductive clock_step : clock_state → clock_state → Prop :=
  | clock_locks s :
      clock s = CTry → lock s = None →
      clock_step s (with_lock (with_clock s CStore) (Some Clock))
  | clock_skips s o :     (* usleep, next turn *)
      clock s = CTry → lock s = Some o → clock_step s s
  | clock_stores s v :
      clock s = CStore → clock_step s (with_now (with_clock s CUnlock) v)
  | clock_unlocks s :
      clock s = CUnlock → clock_step s (with_lock (with_clock s CTry) None).

(** [get_localtime]. *)
Inductive reader_step (i : nat) : clock_state → clock_state → Prop :=
  | reader_locks s :
      readers s !! i = Some RTry → lock s = None →
      reader_step i s (with_lock (with_reader s i RCopyNow) (Some (Reader i)))
  | reader_fails s o :
      readers s !! i = Some RTry → lock s = Some o →
      reader_step i s (with_reader s i RReadLast)
  | reader_copies_now s :
      readers s !! i = Some RCopyNow →
      reader_step i s (with_reader s i (RCopyLast (tm_now s)))
  | reader_copies_last s v :
      readers s !! i = Some (RCopyLast v) →
      reader_step i s (with_last (with_reader s i (RUnlock v)) (tm_now s))
  | reader_unlocks s v :
      readers s !! i = Some (RUnlock v) →
      reader_step i s (with_lock (with_reader s i (RDone v)) None)
  | reader_reads_last s :
      readers s !! i = Some RReadLast →
      reader_step i s (with_reader s i (RDone (tm_last s)))
  | reader_returns s v :  (* the next call *)
      readers s !! i = Some (RDone v) →
      reader_step i s (with_reader s i RTry).

Definition step (s s' : clock_state) : Prop :=
  clock_step s s' ∨ ∃ i, reader_step i s s'.

(** Inside the section that the lock protects. *)
Definition clock_inside (c : clock_pc) : Prop := c ≠ CTry.
Definition reader_inside (r : reader_pc) : Prop :=
  match r with RCopyNow | RCopyLast _ | RUnlock _ => True | _ => False end.

(** The value a reader has copied. *)
Definition copied (r : reader_pc) : option tm :=
  match r with RCopyLast v | RUnlock v | RDone v => Some v | _ => None end.

(** The invariant: the lock is held exactly by the thread inside, and every
    copy holds a time that was stored. *)
Definition clock_ok (s : clock_state) : Prop :=
  (clock_inside (clock s) ↔ lock s = Some Clock) ∧
  (∀ i r, readers s !! i = Some r → (reader_inside r ↔ lock s = Some (Reader i))) ∧
  tm_now s ∈ stored s ∧ tm_last s ∈ stored s ∧
  (∀ i r v, readers s !! i = Some r → copied r = Some v → v ∈ stored s).

Lemma start_ok t n : clock_ok (start t n).
Proof.
  unfold clock_ok, start; simpl. split_and!.
  - by split.
  - intros i r [-> _]%lookup_replicate. by split.
  - by left.
  - by left.
  - intros i r v [-> _]%lookup_replicate. done.
Qed.

(** A reader moves: what it must keep. *)
Lemma with_reader_lookup s i r j x :
  readers (with_reader s i r) !! j = Some x →
  (j = i ∧ x = r) ∨ (j ≠ i ∧ readers s !! j = Some x).
Proof.
  simpl. destruct (decide (i = j)) as [->|Hne].
  - intros H. left. split; [done|].
    assert (j < length (readers s))%nat.
    { rewrite <- (length_insert (readers s) j r). by eapply lookup_lt_Some. }
    rewrite list_lookup_insert_eq in H by done. congruence.
  - rewrite list_lookup_insert_ne by done. auto.
Qed.

Lemma clock_step_ok s s' : clock_ok s → clock_step s s' → clock_ok s'.
Proof.
  intros (Hc&Hr&Hn&Hl&Hv) Hs. unfold clock_inside in *. destruct Hs; [|done|..]; simpl in *.
  - unfold clock_ok, clock_inside; simpl. split_and!; [done| |done..].
    intros i r Hi. rewrite (Hr i r Hi), H0. done.
  - assert (lock s = Some Clock) as Hlock by (apply Hc; congruence).
    unfold clock_ok, clock_inside; simpl. split_and!; [done|done|by left|by right|].
    intros i r w Hi Hw. right. by eapply Hv.
  - assert (lock s = Some Clock) as Hlock by (apply Hc; congruence).
    unfold clock_ok, clock_inside; simpl. split_and!; [done| |done..].
    intros i r Hi. rewrite (Hr i r Hi), Hlock. done.
Qed.

(** What a reader's step must establish, whatever it changes. *)
Lemma reader_update_ok s i r l t :
  clock_ok s →
  (lock s = Some Clock ↔ l = Some Clock) →
  (∀ j, j ≠ i → lock s = Some (Reader j) ↔ l = Some (Reader j)) →
  (reader_inside r ↔ l = Some (Reader i)) →
  t ∈ stored s → (∀ v, copied r = Some v → v ∈ stored s) →
  clock_ok {| lock := l; tm_now := tm_now s; tm_last := t; clock := clock s;
              readers := <[i := r]> (readers s); stored := stored s |}.
Proof.
  intros (Hc&Hr&Hn&Hl&Hv) Hclock Hother Hself Ht Hcopy.
  unfold clock_ok; simpl. split_and!; [by rewrite Hc|..|done|done|].
  - intros j x Hj. apply with_reader_lookup in Hj as [[-> ->]|[Hne Hj]]; [done|].
    by rewrite (Hr j x Hj), Hother.
  - intros j x w Hj Hw. apply with_reader_lookup in Hj as [[-> ->]|[Hne Hj]];
      [by apply Hcopy|by eapply Hv].
Qed.

Lemma reader_step_ok i s s' : clock_ok s → reader_step i s s' → clock_ok s'.
Proof.
  intros Hok Hs. pose proof Hok as (Hc&Hr&Hn&Hl&Hv).
  destruct Hs as [s Hi Hlock|s o Hi Hlock|s Hi|s v Hi|s v Hi|s Hi|s v Hi];
    pose proof (Hr _ _ Hi) as Hri; simpl in Hri;
    [apply (reader_update_ok s i RCopyNow (Some (Reader i)) (tm_last s))
    |apply (reader_update_ok s i RReadLast (lock s) (tm_last s))
    |apply (reader_update_ok s i (RCopyLast (tm_now s)) (lock s) (tm_last s))
    |apply (reader_update_ok s i (RUnlock v) (lock s) (tm_now s))
    |apply (reader_update_ok s i (RDone v) None (tm_last s))
    |apply (reader_update_ok s i (RDone (tm_last s)) (lock s) (tm_last s))
    |apply (reader_update_ok s i RTry (lock s) (tm_last s))];
    try done; simpl in *; rewrite ?Hlock; try (by intros j Hj; split; congruence).
  all: try (by split; congruence).
  all: try (by destruct Hri as [Hri _]; rewrite (Hri I); intros; split; congruence).
  all: try (by intros w [= <-]; eauto).
Qed.

Lemma reachable_ok t n s : rtc step (start t n) s → clock_ok s.
Proof.
  intros Hs. pose proof (start_ok t n) as Hok. revert Hok.
  induction Hs as [|s1 s2 s3 [H|[i H]] _ IH]; [done|..]; intros Hok; apply IH.
  - by eapply clock_step_ok.
  - by eapply reader_step_ok.
Qed.

(** Two threads about to access one object, one of them writing it. *)
Definition conflict (s : clock_state) : Prop :=
  ∃ i j v, i ≠ j ∧ readers s !! i = Some (RCopyLast v) ∧ readers s !! j = Some RReadLast.
End localtime.
Arguments clock_state tm : clear implicits.

(** ** Properties *)



(** The copy that readers fall back on is not protected: with two readers
    there is a schedule in which one writes [iridium_tm_last] under the lock
    while the other, whose [trylock] failed, reads it without: a data race. *)
Lemma tm_last_races {tm} (t : tm) : ∃ s, rtc step (start t 2) s ∧ conflict s.
Proof.
  set (s1 := with_lock (with_reader (start t 2) 0 RCopyNow) (Some (Reader 0))).
  set (s2 := with_reader s1 1 RReadLast).
  set (s3 := with_reader s2 0 (RCopyLast t)).
  exists s3. split.
  - apply rtc_l with s1; [right; exists 0%nat; by apply reader_locks|].
    apply rtc_l with s2; [right; exists 1%nat; by eapply reader_fails|].
    apply rtc_once. right. exists 0%nat. by apply reader_copies_now.
  - exists 0%nat, 1%nat, t. by split_and!.
Qed.
