(* ===== verification/MuduoDate.v ===== *)
(** Dates and the civil time of UTC in the C++ logging library:
    [src/src/log/muduo-clog/muduo/base/Date.cc], [Date.h] and the parts of
    [TimeZone.cc] that do not need a zone ([fillHMS], [toUtcTime],
    [fromUtcTime]).

    [int] arithmetic is checked operation by operation ([int_]); [/] and [%]
    truncate ([Z.quot], [Z.rem]). The specification is the Gregorian calendar
    by its rules: the leap years, the length of the months and the date that
    follows a date. [getJulianDayNumber] counts in this calendar, so the two
    conversions are inverse to each other on every valid date whose
    intermediate values fit an [int]. *)

From S2P Require Import Prelude CString.

(** ** Date.cc *)

(** [struct Date::YearMonthDay]. *)
Record YearMonthDay := { ymd_year : Z; ymd_month : Z; ymd_day : Z }.

#[export] Instance YearMonthDay_eq_dec : EqDecision YearMonthDay.
Proof. solve_decision. Defined.

Definition getJulianDayNumber (year month day : Z) : outcome Z :=
  t ← int_ (14 - month);
  let a := Z.quot t 12 in
  t ← int_ (year + 4800);
  y ← int_ (t - a);
  t ← int_ (12 * a);
  t ← int_ (month + t);
  m ← int_ (t - 3);
  t ← int_ (153 * m);
  t ← int_ (t + 2);
  s ← int_ (day + Z.quot t 5);
  t ← int_ (y * 365);
  s ← int_ (s + t);
  s ← int_ (s + Z.quot y 4);
  s ← int_ (s - Z.quot y 100);
  s ← int_ (s + Z.quot y 400);
  int_ (s - 32045).

Definition getYearMonthDay (julianDayNumber : Z) : outcome YearMonthDay :=
  a ← int_ (julianDayNumber + 32044);
  t ← int_ (4 * a);
  t ← int_ (t + 3);
  let b := Z.quot t 146097 in
  t ← int_ (b * 146097);
  c ← int_ (a - Z.quot t 4);
  t ← int_ (4 * c);
  t ← int_ (t + 3);
  let d := Z.quot t 1461 in
  t ← int_ (1461 * d);
  e ← int_ (c - Z.quot t 4);
  t ← int_ (5 * e);
  t ← int_ (t + 2);
  let m := Z.quot t 153 in
  t ← int_ (153 * m);
  t ← int_ (t + 2);
  t ← int_ (e - Z.quot t 5);
  day ← int_ (t + 1);
  let tens := Z.quot m 10 in
  t ← int_ (m + 3);
  u ← int_ (12 * tens);
  month ← int_ (t - u);
  t ← int_ (b * 100);
  t ← int_ (t + d);
  t ← int_ (t - 4800);
  year ← int_ (t + tens);
  mret {| ymd_year := year; ymd_month := month; ymd_day := day |}.

(** [const int Date::kJulianDayOf1970_01_01 = getJulianDayNumber(1970, 1, 1)]. *)
Definition kJulianDayOf1970_01_01 : outcome Z := getJulianDayNumber 1970 1 1.

(** [class Date]: its only member is [julianDayNumber_]. *)
Record Date := { julianDayNumber_ : Z }.

Definition Date_default : Date := {| julianDayNumber_ := 0 |}.
Definition Date_ymd (y m d : Z) : outcome Date :=
  j ← getJulianDayNumber y m d; mret {| julianDayNumber_ := j |}.
Definition Date_jdn (j : Z) : Date := {| julianDayNumber_ := j |}.

Definition Date_valid (x : Date) : bool := 0 <? julianDayNumber_ x.
Definition Date_less (x y : Date) : bool := julianDayNumber_ x <? julianDayNumber_ y.
Definition Date_equal (x y : Date) : bool := julianDayNumber_ x =? julianDayNumber_ y.
Definition yearMonthDay (x : Date) : outcome YearMonthDay :=
  getYearMonthDay (julianDayNumber_ x).

Definition kDaysPerWeek : Z := 7.
Definition weekDay (x : Date) : outcome Z :=
  t ← int_ (julianDayNumber_ x + 1); mret (Z.rem t kDaysPerWeek).

(** [snprintf(buf, sizeof buf, "%4d-%02d-%02d", ...)] with [char buf[32]]. *)
Definition toIsoString (x : Date) : outcome bytes :=
  ymd ← yearMonthDay x;
  mret (snprintf 32 (print_space 4 (ymd_year ymd) ++ lit "-" ++
    print_pad 2 (ymd_month ymd) ++ lit "-" ++ print_pad 2 (ymd_day ymd))).

(** ** TimeZone.cc: civil time of UTC *)

(** [struct tm], the members the functions below set. *)
Record utc_tm := {
  utc_year : Z; utc_mon : Z; utc_mday : Z; utc_hour : Z; utc_min : Z;
  utc_sec : Z; utc_wday : Z; utc_yday : Z
}.

#[export] Instance utc_tm_eq_dec : EqDecision utc_tm.
Proof. solve_decision. Defined.

Definition Date_tm (t : utc_tm) : outcome Date :=
  y ← int_ (utc_year t + 1900);
  m ← int_ (utc_mon t + 1);
  Date_ymd y m (utc_mday t).

Definition kSecondsPerDay : Z := 24 * 60 * 60.

(** [fillHMS(unsigned seconds, struct tm *utc)]: seconds, minutes and hours. *)
Definition fillHMS (seconds : Z) : Z * Z * Z :=
  let minutes := seconds / 60 in
  (seconds mod 60, minutes mod 60, minutes / 60).

(** [TimeZone::toUtcTime(time_t secondsSinceEpoch, bool yday)]. *)
Definition toUtcTime (secondsSinceEpoch : Z) (yday : bool) : outcome utc_tm :=
  let seconds := to_s 32 (Z.rem secondsSinceEpoch kSecondsPerDay) in
  let days := to_s 32 (Z.quot secondsSinceEpoch kSecondsPerDay) in
  '(seconds, days) ←
    (if seconds <? 0
     then s ← int_ (seconds + kSecondsPerDay); d ← int_ (days - 1); mret (s, d)
     else mret (seconds, days));
  let '(sec, minute, hour) := fillHMS (to_u 32 seconds) in
  epoch ← kJulianDayOf1970_01_01;
  j ← int_ (days + epoch);
  let date := Date_jdn j in
  ymd ← yearMonthDay date;
  year ← int_ (ymd_year ymd - 1900);
  mon ← int_ (ymd_month ymd - 1);
  wday ← weekDay date;
  yd ← (if yday
        then start ← Date_ymd (ymd_year ymd) 1 1;
             int_ (julianDayNumber_ date - julianDayNumber_ start)
        else mret 0);
  mret {| utc_year := year; utc_mon := mon; utc_mday := ymd_day ymd;
          utc_hour := hour; utc_min := minute; utc_sec := sec;
          utc_wday := wday; utc_yday := yd |}.

(** [TimeZone::fromUtcTime(int year, ..., int seconds)]; the product by
    [kSecondsPerDay] is a [time_t]. *)
Definition fromUtcTime (year month day hour minute seconds : Z) : outcome Z :=
  date ← Date_ymd year month day;
  h ← int_ (hour * 3600);
  m ← int_ (minute * 60);
  t ← int_ (h + m);
  secondsInDay ← int_ (t + seconds);
  epoch ← kJulianDayOf1970_01_01;
  days ← int_ (julianDayNumber_ date - epoch);
  mret (days * kSecondsPerDay + secondsInDay).

(** [TimeZone::fromUtcTime(const struct tm& utc)]. *)
Definition fromUtcTime_tm (utc : utc_tm) : outcome Z :=
  y ← int_ (utc_year utc + 1900);
  m ← int_ (utc_mon utc + 1);
  fromUtcTime y m (utc_mday utc) (utc_hour utc) (utc_min utc) (utc_sec utc).

(** ** The Gregorian calendar *)

Definition is_leap (y : Z) : bool :=
  (y mod 4 =? 0) && (negb (y mod 100 =? 0) || (y mod 400 =? 0)).

Definition days_in_month (y m : Z) : Z :=
  if m =? 2 then (if is_leap y then 29 else 28)
  else if (m =? 4) || (m =? 6) || (m =? 9) || (m =? 11) then 30 else 31.

(** Years whose dates stay within [int] in both conversions. *)
Definition MIN_YEAR : Z := -4799.
Definition MAX_YEAR : Z := 1465000.

Definition valid_date (x : YearMonthDay) : Prop :=
  MIN_YEAR ≤ ymd_year x ≤ MAX_YEAR ∧ 1 ≤ ymd_month x ≤ 12 ∧
  1 ≤ ymd_day x ≤ days_in_month (ymd_year x) (ymd_month x).
#[export] Instance valid_date_dec x : Decision (valid_date x).
Proof. unfold valid_date. apply _. Defined.

(** The calendar date that follows a date. *)
Definition next_date (x : YearMonthDay) : YearMonthDay :=
  let 'Build_YearMonthDay y m d := x in
  if d <? days_in_month y m then {| ymd_year := y; ymd_month := m; ymd_day := d + 1 |}
  else if m <? 12 then {| ymd_year := y; ymd_month := m + 1; ymd_day := 1 |}
  else {| ymd_year := y + 1; ymd_month := 1; ymd_day := 1 |}.

(** ** The day number by divisions *)

(** A year that starts in March and the months since then. *)
Definition march_year (y m : Z) : Z := y + 4800 - (14 - m) / 12.
Definition march_month (m : Z) : Z := m + 12 * ((14 - m) / 12) - 3.

Definition jdn (x : YearMonthDay) : Z :=
  let y := march_year (ymd_year x) (ymd_month x) in
  ymd_day x + (153 * march_month (ymd_month x) + 2) / 5 + y * 365 + y / 4
    - y / 100 + y / 400 - 32045.

(** Lemmas on the months go through their twelve cases. *)
Ltac months m :=
  let H := fresh in
  assert (H : m = 1 ∨ m = 2 ∨ m = 3 ∨ m = 4 ∨ m = 5 ∨ m = 6 ∨ m = 7 ∨ m = 8 ∨
    m = 9 ∨ m = 10 ∨ m = 11 ∨ m = 12) by lia;
  destruct H as [->|[->|[->|[->|[->|[->|[->|[->|[->|[->|[->| ->]]]]]]]]]]].

Lemma days_in_month_bounds y m : 28 ≤ days_in_month y m ≤ 31.
Proof. unfold days_in_month. repeat case_match; lia. Qed.

Lemma march_bounds x :
  valid_date x →
  0 ≤ (14 - ymd_month x) / 12 ≤ 1 ∧
  0 ≤ march_year (ymd_year x) (ymd_month x) ≤ MAX_YEAR + 4800 ∧
  0 ≤ march_month (ymd_month x) ≤ 11 ∧ 1 ≤ ymd_day x ≤ 31.
Proof.
  intros (Hy & Hm & Hd).
  pose proof (days_in_month_bounds (ymd_year x) (ymd_month x)).
  unfold march_year, march_month, MIN_YEAR in *.
  split_and!; try lia; Z.div_mod_to_equations; lia.
Qed.

(** One [int] operation, or one truncated division, of values that are bounded. *)
Ltac in_int_tac := unfold in_int, INT_MIN, INT_MAX; Z.div_mod_to_equations; lia.
Ltac int_ok_step :=
  first
    [ rewrite Z.quot_div_nonneg by (Z.div_mod_to_equations; lia)
    | rewrite int_bind by in_int_tac
    | rewrite int_ok by in_int_tac ].

Lemma getJulianDayNumber_ok x :
  valid_date x →
  getJulianDayNumber (ymd_year x) (ymd_month x) (ymd_day x) = Ret (jdn x).
Proof.
  intros Hx. destruct (march_bounds x Hx) as (Ha & Hy & Hm & Hd).
  destruct Hx as (Hyr & Hmo & _). unfold jdn, march_year, march_month in *.
  unfold MIN_YEAR, MAX_YEAR in *. destruct x as [y m d]; cbn in *.
  unfold getJulianDayNumber. cbv zeta.
  rewrite int_bind by in_int_tac. rewrite (Z.quot_div_nonneg (14 - m)) by lia.
  set (a := (14 - m) / 12) in *. clearbody a.
  repeat int_ok_step. done.
Qed.

(** The next date has the next number, whatever the lengths of month and year. *)
Lemma jdn_next x : valid_date x → jdn (next_date x) = jdn x + 1.
Proof.
  destruct x as [y m d]. intros (Hy & Hm & Hd). cbn in *.
  unfold next_date. destruct (Z.ltb_spec d (days_in_month y m)).
  - unfold jdn; cbn [ymd_year ymd_month ymd_day]. lia.
  - assert (d = days_in_month y m) as -> by lia.
    unfold jdn, days_in_month, is_leap, march_year, march_month.
    months m; cbn [Z.ltb Z.eqb Z.compare Pos.compare Pos.compare_cont Pos.eqb orb
      ymd_year ymd_month ymd_day]; repeat case_match; Z.div_mod_to_equations; lia.
Qed.

(** [getYearMonthDay] by divisions: the century, the year of the century, the
    day of the year and the month are extracted one after the other. *)
Definition ymd_of (j : Z) : YearMonthDay :=
  let a := j + 32044 in
  let b := (4 * a + 3) / 146097 in
  let c := a - b * 146097 / 4 in
  let d := (4 * c + 3) / 1461 in
  let e := c - 1461 * d / 4 in
  let m := (5 * e + 2) / 153 in
  {| ymd_day := e - (153 * m + 2) / 5 + 1;
     ymd_month := m + 3 - 12 * (m / 10);
     ymd_year := b * 100 + d - 4800 + m / 10 |}.

Definition MIN_JDN : Z := -31738.
Definition MAX_JDN : Z := 536801687.

Lemma century_bounds a :
  0 ≤ a → let b := (4 * a + 3) / 146097 in
  0 ≤ b ∧ 0 ≤ a - b * 146097 / 4 ≤ 36524.
Proof. intros. subst b. Z.div_mod_to_equations. lia. Qed.

Lemma year_bounds c :
  0 ≤ c ≤ 36524 → let d := (4 * c + 3) / 1461 in
  0 ≤ d ≤ 99 ∧ 0 ≤ c - 1461 * d / 4 ≤ 365.
Proof. intros. subst d. Z.div_mod_to_equations. lia. Qed.

Lemma month_bounds e :
  0 ≤ e ≤ 365 → let m := (5 * e + 2) / 153 in
  0 ≤ m ≤ 11 ∧ 0 ≤ e - (153 * m + 2) / 5 ≤ 30.
Proof. intros. subst m. Z.div_mod_to_equations. lia. Qed.

Lemma getYearMonthDay_ok j :
  -32044 ≤ j ≤ 536838867 → getYearMonthDay j = Ret (ymd_of j).
Proof.
  intros Hj. unfold getYearMonthDay, ymd_of. cbv zeta.
  rewrite int_bind by in_int_tac. set (a := j + 32044).
  assert (0 ≤ a ≤ 536870911) as Ha by lia. clearbody a.
  destruct (century_bounds a) as [Hb Hc]; [lia|].
  do 2 rewrite int_bind by in_int_tac. rewrite Z.quot_div_nonneg by lia.
  assert ((4 * a + 3) / 146097 ≤ 14700) by (apply Z.div_le_upper_bound; lia).
  set (b := (4 * a + 3) / 146097) in *. clearbody b.
  rewrite int_bind by in_int_tac. rewrite Z.quot_div_nonneg by lia.
  rewrite int_bind by in_int_tac. set (c := a - b * 146097 / 4) in *. clearbody c.
  destruct (year_bounds c) as [Hd He]; [lia|].
  do 2 rewrite int_bind by in_int_tac. rewrite Z.quot_div_nonneg by lia.
  set (d := (4 * c + 3) / 1461) in *. clearbody d.
  rewrite int_bind by in_int_tac. rewrite Z.quot_div_nonneg by lia.
  rewrite int_bind by in_int_tac. set (e := c - 1461 * d / 4) in *. clearbody e.
  destruct (month_bounds e) as [Hm Hf]; [lia|].
  do 2 rewrite int_bind by in_int_tac. rewrite (Z.quot_div_nonneg (5 * e + 2)) by lia.
  set (m := (5 * e + 2) / 153) in *. clearbody m.
  repeat int_ok_step. done.
Qed.

(** What the valid dates of a March year have in common: the day of the year is
    at most 365, and that only when the year ends in a leap February; the month
    is recovered from it. *)
Definition march_leap (y : Z) : Prop :=
  (y + 1) mod 4 = 0 ∧ ((y + 1) mod 100 ≠ 0 ∨ (y + 1) mod 400 = 0).

Lemma day_of_year x :
  valid_date x →
  let m := march_month (ymd_month x) in
  let e := ymd_day x - 1 + (153 * m + 2) / 5 in
  0 ≤ e ≤ 365 ∧ (5 * e + 2) / 153 = m ∧
  (e = 365 → march_leap (march_year (ymd_year x) (ymd_month x))).
Proof.
  destruct x as [y m d]. intros (Hy & Hm & Hd). cbn in *.
  unfold days_in_month, is_leap, march_leap, march_year, march_month in *.
  months m; cbn [Z.eqb Pos.eqb orb] in Hd.
  all: split_and!; try (Z.div_mod_to_equations; lia).
  all: repeat case_match; Z.div_mod_to_equations; lia.
Qed.

Lemma century_of y e :
  0 ≤ y → 0 ≤ e ≤ 365 → (e = 365 → march_leap y) →
  let a := e + 365 * y + y / 4 - y / 100 + y / 400 in
  (4 * a + 3) / 146097 = y / 100 ∧
  a - y / 100 * 146097 / 4 = 365 * (y mod 100) + y mod 100 / 4 + e.
Proof.
  intros Hy He Hl a. subst a. unfold march_leap in Hl.
  Z.div_mod_to_equations. lia.
Qed.

Lemma year_of r e :
  0 ≤ r ≤ 99 → 0 ≤ e ≤ 365 → (e = 365 → r mod 4 = 3) →
  let c := 365 * r + r / 4 + e in
  (4 * c + 3) / 1461 = r ∧ c - 1461 * r / 4 = e.
Proof. intros Hr He Hl c. subst c. Z.div_mod_to_equations. lia. Qed.

(** The two conversions are inverse to each other. *)
Lemma ymd_of_jdn x : valid_date x → ymd_of (jdn x) = x.
Proof.
  intros Hx. destruct (march_bounds x Hx) as (Ha & Hy & Hm & Hd).
  destruct (day_of_year x Hx) as (He & Hmo & Hl). cbv zeta in *.
  destruct x as [yr mo d]. cbn [ymd_year ymd_month ymd_day] in *.
  set (m := march_month mo) in *. set (e := d - 1 + (153 * m + 2) / 5) in *.
  set (y := march_year yr mo) in *.
  unfold ymd_of. cbv zeta. cbn [ymd_year ymd_month ymd_day].
  replace (jdn _ + 32044) with (e + 365 * y + y / 4 - y / 100 + y / 400)
    by (unfold jdn; subst e m y; cbn [ymd_year ymd_month ymd_day]; lia).
  destruct (century_of y e) as [-> ->]; [lia|done|done|].
  pose proof (Z.mod_pos_bound y 100 ltac:(lia)).
  destruct (year_of (y mod 100) e) as [-> ->]; [lia|done| |].
  { intros E. destruct (Hl E) as [Hl4 _]. Z.div_mod_to_equations. lia. }
  rewrite Hmo. destruct Hx as (_ & Hmon & _). cbn in Hmon.
  unfold march_year, march_month in *.
  f_equal; subst m e y; Z.div_mod_to_equations; lia.
Qed.

Lemma next_date_valid x :
  valid_date x → jdn x < MAX_JDN → valid_date (next_date x).
Proof.
  destruct x as [y m d]. intros (Hy & Hm & Hd) Hj. cbn in *.
  unfold next_date. destruct (Z.ltb_spec d (days_in_month y m)).
  { split_and!; cbn; lia. }
  assert (1 ≤ 28 ≤ days_in_month y (m + 1) ∧ 1 ≤ 28 ≤ days_in_month (y + 1) 1)
    as [? ?] by (split; split; [lia|apply days_in_month_bounds..|lia|
      apply days_in_month_bounds]).
  destruct (Z.ltb_spec m 12).
  { split_and!; cbn; lia. }
  assert (y < MAX_YEAR); [|split_and!; cbn; unfold MIN_YEAR in *; lia].
  assert (m = 12) as -> by lia. unfold MAX_JDN, MAX_YEAR in *.
  destruct (decide (y = 1465000)) as [->|]; [|lia].
  assert (d = 31) as -> by (cbn in *; lia). vm_compute in Hj. done.
Qed.

(** Every number of the range is the number of a date. *)
Lemma jdn_onto j : MIN_JDN ≤ j ≤ MAX_JDN → ∃ x, valid_date x ∧ jdn x = j.
Proof.
  intros [Hlo Hhi]. replace j with (MIN_JDN + Z.of_nat (Z.to_nat (j - MIN_JDN))) in * by lia.
  induction (Z.to_nat (j - MIN_JDN)) as [|n IH].
  - exists {| ymd_year := -4799; ymd_month := 1; ymd_day := 1 |}.
    split; [by apply (bool_decide_unpack _)|done].
  - destruct IH as (x & Hx & E); [lia|lia|].
    exists (next_date x). rewrite jdn_next by done.
    split; [|lia]. apply next_date_valid; [done|lia].
Qed.

Lemma ymd_of_valid j :
  MIN_JDN ≤ j ≤ MAX_JDN → valid_date (ymd_of j) ∧ jdn (ymd_of j) = j.
Proof. intros Hj. destruct (jdn_onto j Hj) as (x & Hx & <-). by rewrite ymd_of_jdn. Qed.

Lemma jdn_range x : valid_date x → MIN_JDN ≤ jdn x ≤ MAX_JDN.
Proof.
  destruct x as [y m d]. intros (Hy & Hm & Hd). cbn in *.
  unfold jdn, days_in_month, is_leap, march_year, march_month, MIN_YEAR, MAX_YEAR,
    MIN_JDN, MAX_JDN in *. cbn [ymd_year ymd_month ymd_day].
  months m; cbn [Z.eqb Pos.eqb orb] in Hd; repeat case_match; Z.div_mod_to_equations; lia.
Qed.

(** ** Seconds of UTC *)

(** Seconds since the epoch whose day is in the range. *)
Definition utc_range (t : Z) : Prop :=
  MIN_JDN ≤ t / kSecondsPerDay + 2440588 ≤ MAX_JDN.

(** The broken-down time of a second by its day and its second of the day. *)
Definition utc_of (t : Z) (yday : bool) : utc_tm :=
  let j := t / kSecondsPerDay + 2440588 in
  let s := t mod kSecondsPerDay in
  let x := ymd_of j in
  {| utc_year := ymd_year x - 1900; utc_mon := ymd_month x - 1;
     utc_mday := ymd_day x; utc_hour := s / 3600; utc_min := s / 60 mod 60;
     utc_sec := s mod 60; utc_wday := Z.rem (j + 1) 7;
     utc_yday := if yday then j - jdn {| ymd_year := ymd_year x; ymd_month := 1;
                                         ymd_day := 1 |} else 0 |}.

(** The correction of a negative remainder gives the floor of the division. *)
Lemma utc_split t :
  utc_range t →
  (let seconds := to_s 32 (Z.rem t kSecondsPerDay) in
   let days := to_s 32 (Z.quot t kSecondsPerDay) in
   if seconds <? 0
   then s ← int_ (seconds + kSecondsPerDay); d ← int_ (days - 1); mret (s, d)
   else mret (seconds, days)) =
  Ret (t mod kSecondsPerDay, t / kSecondsPerDay).
Proof.
  unfold utc_range, MIN_JDN, MAX_JDN, kSecondsPerDay. change (24 * 60 * 60) with 86400.
  intros Ht. cbv zeta. assert (t = 86400 * Z.quot t 86400 + Z.rem t 86400) as E by (apply Z.quot_rem'; lia).
  assert (-86400 < Z.rem t 86400 < 86400) as Hr.
  { pose proof (Z.rem_bound_abs t 86400). lia. }
  set (q := Z.quot t 86400) in *. set (r := Z.rem t 86400) in *.
  rewrite !to_s_small
    by (change (2 ^ (32 - 1)) with 2147483648; Z.div_mod_to_equations; lia).
  destruct (Z.ltb_spec r 0).
  - do 2 rewrite int_bind by in_int_tac. unfold mret, outcome_ret.
    f_equal. f_equal; Z.div_mod_to_equations; lia.
  - unfold mret, outcome_ret. f_equal. f_equal; Z.div_mod_to_equations; lia.
Qed.

Lemma new_year_valid x :
  valid_date x → valid_date {| ymd_year := ymd_year x; ymd_month := 1; ymd_day := 1 |}.
Proof. intros (? & ? & ?). split_and!; cbn; lia. Qed.

Lemma toUtcTime_ok t yday : utc_range t → toUtcTime t yday = Ret (utc_of t yday).
Proof.
  intros Ht. unfold toUtcTime. cbv zeta. rewrite utc_split by done.
  cbn [mbind outcome_bind]. unfold utc_range, MIN_JDN, MAX_JDN in Ht.
  destruct (ymd_of_valid (t / kSecondsPerDay + 2440588) ltac:(done)) as [Hv Hj].
  pose proof (Z.mod_pos_bound t kSecondsPerDay ltac:(done)) as Hs.
  unfold utc_of, fillHMS. cbv zeta. set (s := t mod kSecondsPerDay) in *.
  set (dd := t / kSecondsPerDay) in *. unfold kSecondsPerDay in Hs.
  rewrite to_u_small by lia.
  change kJulianDayOf1970_01_01 with (Ret 2440588). cbn [mbind outcome_bind].
  rewrite int_bind by in_int_tac.
  unfold yearMonthDay, weekDay, Date_jdn. cbn [julianDayNumber_].
  rewrite getYearMonthDay_ok by lia. cbn [mbind outcome_bind].
  set (x := ymd_of (dd + 2440588)) in *.
  destruct (march_bounds x Hv) as (_ & _ & _ & Hd).
  pose proof Hv as (Hy & Hm & _). unfold MIN_YEAR, MAX_YEAR in Hy.
  do 3 rewrite int_bind by in_int_tac. cbn [mbind outcome_bind].
  pose proof (new_year_valid x Hv) as Hn.
  pose proof (jdn_range _ Hn) as Hr. unfold MIN_JDN, MAX_JDN in Hr.
  pose proof (getJulianDayNumber_ok _ Hn) as En. cbn [ymd_year ymd_month ymd_day] in En.
  rewrite mret_bind. destruct yday.
  - unfold Date_ymd. rewrite En, Ret_bind, mret_bind. cbn [julianDayNumber_].
    rewrite int_bind by in_int_tac. rewrite Z.div_div by lia. done.
  - rewrite mret_bind. rewrite Z.div_div by lia. done.
Qed.

(** The fields of a broken-down time, and the way back from it. *)
Lemma utc_of_fields t yday :
  utc_range t →
  let u := utc_of t yday in
  valid_date {| ymd_year := utc_year u + 1900; ymd_month := utc_mon u + 1;
                ymd_day := utc_mday u |} ∧
  0 ≤ utc_hour u < 24 ∧ 0 ≤ utc_min u < 60 ∧ 0 ≤ utc_sec u < 60.
Proof.
  intros Ht. destruct (ymd_of_valid (t / kSecondsPerDay + 2440588) Ht) as [Hv Hj].
  pose proof (Z.mod_pos_bound t kSecondsPerDay ltac:(done)) as Hs.
  unfold utc_of. cbv zeta. cbn [utc_year utc_mon utc_mday utc_hour utc_min utc_sec].
  set (x := ymd_of _) in *.
  replace (ymd_year x - 1900 + 1900) with (ymd_year x) by lia.
  replace (ymd_month x - 1 + 1) with (ymd_month x) by lia.
  split; [exact Hv|]. unfold kSecondsPerDay in *.
  split_and!; Z.div_mod_to_equations; lia.
Qed.

Lemma fromUtcTime_utc_of t yday : utc_range t → fromUtcTime_tm (utc_of t yday) = Ret t.
Proof.
  intros Ht. destruct (ymd_of_valid (t / kSecondsPerDay + 2440588) Ht) as [Hv Hj].
  pose proof (Z.mod_pos_bound t kSecondsPerDay ltac:(done)) as Hs.
  unfold utc_range, MIN_JDN, MAX_JDN in Ht.
  unfold fromUtcTime_tm, fromUtcTime, Date_ymd, utc_of. cbv zeta.
  cbn [utc_year utc_mon utc_mday utc_hour utc_min utc_sec].
  set (x := ymd_of _) in *.
  replace (ymd_year x - 1900 + 1900) with (ymd_year x) by lia.
  replace (ymd_month x - 1 + 1) with (ymd_month x) by lia.
  pose proof Hv as (Hy & Hm & _). unfold MIN_YEAR, MAX_YEAR in Hy.
  unfold kSecondsPerDay in *.
  do 2 rewrite int_bind by in_int_tac.
  rewrite getJulianDayNumber_ok by done. rewrite Hj, Ret_bind, mret_bind.
  set (s := t mod _) in *.
  do 4 rewrite int_bind by in_int_tac.
  change kJulianDayOf1970_01_01 with (Ret 2440588). rewrite Ret_bind.
  cbn [julianDayNumber_]. rewrite int_bind by in_int_tac.
  unfold mret, outcome_ret. f_equal. subst s. Z.div_mod_to_equations. lia.
Qed.

(** ** Theorems *)

(** C17: [getJulianDayNumber] and [getYearMonthDay] ([Date(y, m, d)] and
    [yearMonthDay()]) are inverse to each other: on every Gregorian date of the
    years -4799 to 1465000 the day number exists without [int] overflow and is
    converted back to the same date, and every day number of the range is that
    of exactly the valid date it converts to. *)
Theorem date_roundtrip x j :
  valid_date x → MIN_JDN ≤ j ≤ MAX_JDN →
  (getJulianDayNumber (ymd_year x) (ymd_month x) (ymd_day x) ≫= getYearMonthDay
     = Ret x) ∧
  (∃ y, getYearMonthDay j = Ret y ∧ valid_date y ∧
     getJulianDayNumber (ymd_year y) (ymd_month y) (ymd_day y) = Ret j).
Proof.
  intros Hx Hj. pose proof (jdn_range x Hx) as Hr.
  unfold MIN_JDN, MAX_JDN in *. split.
  - rewrite getJulianDayNumber_ok by done. cbn.
    rewrite getYearMonthDay_ok by lia. by rewrite ymd_of_jdn.
  - destruct (ymd_of_valid j Hj) as [Hv E]. exists (ymd_of j). split_and!; [|done|].
    + apply getYearMonthDay_ok. lia.
    + by rewrite getJulianDayNumber_ok, E.
Qed.

Lemma date_roundtrip_witness :
  (getJulianDayNumber 2018 5 9 ≫= getYearMonthDay =
     Ret {| ymd_year := 2018; ymd_month := 5; ymd_day := 9 |}) ∧
  (∃ y, getYearMonthDay 2451604 = Ret y ∧ valid_date y ∧
     getJulianDayNumber (ymd_year y) (ymd_month y) (ymd_day y) = Ret 2451604).
Proof.
  apply (date_roundtrip {| ymd_year := 2018; ymd_month := 5; ymd_day := 9 |} 2451604);
    [by apply (bool_decide_unpack _)|split; done].
Defined.

(** [getJulianDayNumber] counts the days of the calendar: 1970-01-01 has
    number 2440588 and is a Thursday, the date after a date by the calendar's
    rules has the next number, and the day of the week advances with it. *)
Lemma julian_days_count x :
  valid_date x → jdn x < MAX_JDN → 0 ≤ jdn x →
  kJulianDayOf1970_01_01 = Ret 2440588 ∧
  weekDay (Date_jdn 2440588) = Ret 4 ∧
  ∃ n w, Date_ymd (ymd_year x) (ymd_month x) (ymd_day x) = Ret (Date_jdn n) ∧
    weekDay (Date_jdn n) = Ret w ∧ 0 ≤ w < 7 ∧
    let x' := next_date x in
    Date_ymd (ymd_year x') (ymd_month x') (ymd_day x') = Ret (Date_jdn (n + 1)) ∧
    weekDay (Date_jdn (n + 1)) = Ret (if decide (w = 6) then 0 else w + 1).
Proof.
  intros Hx Hm H0. split_and!; [done|done|].
  exists (jdn x), ((jdn x + 1) mod 7).
  unfold Date_ymd, weekDay, kDaysPerWeek; cbn [julianDayNumber_ Date_jdn].
  pose proof (next_date_valid x Hx Hm).
  rewrite !getJulianDayNumber_ok, jdn_next by done. cbn [mbind outcome_bind].
  pose proof (Z.mod_pos_bound (jdn x + 1) 7 ltac:(lia)). unfold MAX_JDN in *.
  do 2 rewrite int_bind by in_int_tac. rewrite !Z.rem_mod_nonneg by lia.
  split_and!; [done|done|lia|lia|done|]. unfold mret, outcome_ret. f_equal.
  destruct (decide _); Z.div_mod_to_equations; lia.
Qed.

Lemma julian_days_count_witness :
  kJulianDayOf1970_01_01 = Ret 2440588 ∧
  weekDay (Date_jdn 2440588) = Ret 4 ∧
  ∃ n w, Date_ymd 2000 2 29 = Ret (Date_jdn n) ∧
    weekDay (Date_jdn n) = Ret w ∧ 0 ≤ w < 7 ∧
    Date_ymd 2000 3 1 = Ret (Date_jdn (n + 1)) ∧
    weekDay (Date_jdn (n + 1)) = Ret (if decide (w = 6) then 0 else w + 1).
Proof.
  apply (julian_days_count {| ymd_year := 2000; ymd_month := 2; ymd_day := 29 |});
    [by apply (bool_decide_unpack _)|done|done].
Defined.

(** Seconds of UTC to civil time and back: for every second of the range the
    broken-down time [toUtcTime] gives is a valid date and a time of the day,
    and [fromUtcTime] of it is the second; before the epoch too, where the
    remainder of the C division is negative. *)
Theorem utc_roundtrip t (yday : bool) :
  utc_range t →
  wp (toUtcTime t yday) (λ u,
    valid_date {| ymd_year := utc_year u + 1900; ymd_month := utc_mon u + 1;
                  ymd_day := utc_mday u |} ∧
    0 ≤ utc_hour u < 24 ∧ 0 ≤ utc_min u < 60 ∧ 0 ≤ utc_sec u < 60 ∧
    fromUtcTime_tm u = Ret t).
Proof.
  intros Ht. rewrite toUtcTime_ok by done. cbn [wp].
  destruct (utc_of_fields t yday Ht) as (? & ? & ? & ?).
  split; [done|]. split_and!; try lia. by apply fromUtcTime_utc_of.
Qed.

Lemma utc_roundtrip_witness :
  utc_range (-1) ∧
  wp (toUtcTime (-1) true) (λ u,
    valid_date {| ymd_year := utc_year u + 1900; ymd_month := utc_mon u + 1;
                  ymd_day := utc_mday u |} ∧
    0 ≤ utc_hour u < 24 ∧ 0 ≤ utc_min u < 60 ∧ 0 ≤ utc_sec u < 60 ∧
    fromUtcTime_tm u = Ret (-1)) ∧
  toUtcTime (-1) true = Ret {| utc_year := 69; utc_mon := 11; utc_mday := 31;
    utc_hour := 23; utc_min := 59; utc_sec := 59; utc_wday := 3; utc_yday := 364 |}.
Proof.
  assert (utc_range (-1)) by (vm_compute; split; discriminate).
  split_and!; [done|by apply (utc_roundtrip (-1) true)|vm_compute; done].
Defined.

(** The text of a date: [toIsoString] of the four-digit years. *)
Example toIsoString_examples :
  (Date_ymd 2018 5 9 ≫= toIsoString) = Ret (lit "2018-05-09") ∧
  (Date_ymd 812 12 31 ≫= toIsoString) = Ret (lit " 812-12-31").
Proof. by vm_compute. Qed.
