(* ===== verification/TimeZone.v ===== *)
(** Time zones of the C++ logging library:
    [src/src/log/muduo-clog/muduo/base/TimeZone.cc] from the zone file to the
    conversions; the civil time of UTC of the same file is in MuduoDate.v.

    A zone file is the list of its bytes. The reader's state is the rest of the
    file and the [Data] filled so far; [None] is a thrown [logic_error], which
    [readTimeZoneFile] catches, keeping what was read. The message it prints is
    left out, and memory is unlimited. [localtime_r] and [timegm] are arguments. *)

From stdpp Require Import sorting.
From S2P Require Import Prelude CString MuduoDate.

(** ** Data *)

Record Transition := { gmttime : Z; localtime : Z; localtimeIdx : Z }.
Record Localtime := { gmtOffset : Z; isDst : bool; arrbIdx : Z }.

#[export] Instance Transition_inhabited : Inhabited Transition :=
  populate {| gmttime := 0; localtime := 0; localtimeIdx := 0 |}.
#[export] Instance Localtime_inhabited : Inhabited Localtime :=
  populate {| gmtOffset := 0; isDst := false; arrbIdx := 0 |}.

(** [TimeZone::Data]; [names] is never used. *)
Record Data := {
  transitions : list Transition;
  localtimes : list Localtime;
  abbreviation : list Z
}.
Definition no_data : Data :=
  {| transitions := []; localtimes := []; abbreviation := [] |}.

Definition push_localtime (d : Data) (l : Localtime) : Data :=
  {| transitions := transitions d; localtimes := localtimes d ++ [l];
     abbreviation := abbreviation d |}.
Definition push_transition (d : Data) (t : Transition) : Data :=
  {| transitions := transitions d ++ [t]; localtimes := localtimes d;
     abbreviation := abbreviation d |}.
Definition set_abbreviation (d : Data) (s : list Z) : Data :=
  {| transitions := transitions d; localtimes := localtimes d; abbreviation := s |}.

(** ** The reader *)

Definition reader (A : Type) : Type := list Z * Data → outcome (option A * (list Z * Data)).

#[local] Instance reader_ret : MRet reader := λ A x st, Ret (Some x, st).
#[local] Instance reader_bind : MBind reader := λ A B f p st,
  match p st with
  | Ret (Some x, st') => f x st'
  | Ret (None, st') => Ret (None, st')
  | Undef u => Undef u
  | Exited c => Exited c
  | NoFuel => NoFuel
  end.

Definition throw {A} : reader A := λ st, Ret (None, st).
Definition lift {A} (m : outcome A) : reader A := λ st, x ← m; Ret (Some x, st).
Definition modify (g : Data → Data) : reader unit := λ st, Ret (Some tt, (st.1, g st.2)).
Definition get_data : reader Data := λ st, Ret (Some st.2, st).

(** [char buf[n]] and [fread] of [n] bytes. *)
Definition readBytes (n : Z) : reader (list Z) := λ st,
  let '(f, d) := st in
  if n <? 0 then Undef BadSize
  else if zlen f <? n then Ret (None, ([], d))
  else Ret (Some (take (Z.to_nat n) f), (drop (Z.to_nat n) f, d)).

(** Four bytes read into an [int32_t], through [be32toh]. *)
Definition readInt32 : reader Z := λ st,
  match st with
  | (a :: b :: c :: e :: f, d) =>
      Ret (Some (to_s 32 (a * 2 ^ 24 + b * 2 ^ 16 + c * 2 ^ 8 + e)), (f, d))
  | (_, d) => Ret (None, ([], d))
  end.

Definition readUInt8 : reader Z := λ st,
  match st with
  | (a :: f, d) => Ret (Some a, (f, d))
  | ([], d) => Ret (None, ([], d))
  end.

(** [for (int i = 0; i < n; ++i) v.push_back(p)]. *)
Fixpoint read_many {A} (n : nat) (p : reader A) : reader (list A) :=
  match n with
  | O => mret []
  | S n => x ← p; xs ← read_many n p; mret (x :: xs)
  end.

(** One entry of the table of local times. *)
Definition read_localtime : reader unit :=
  gmtoff ← readInt32;
  isdst ← readUInt8;
  abbrind ← readUInt8;
  modify (λ d, push_localtime d {| gmtOffset := gmtoff; isDst := negb (isdst =? 0);
                                   arrbIdx := abbrind |}).

(** The transitions: the index is used without a test. *)
Fixpoint add_transitions (trans idx : list Z) : reader unit :=
  match trans, idx with
  | t :: trans, localIdx :: idx =>
      d ← get_data;
      l ← lift (aget (localtimes d) localIdx);
      _ ← modify (λ d, push_transition d {| gmttime := t; localtime := t + gmtOffset l;
                                            localtimeIdx := localIdx |});
      add_transitions trans idx
  | _, _ => mret tt
  end.

Definition TZif : list Z := [84; 90; 105; 102].

(** [reserve] of a negative count throws [length_error], a [logic_error]. *)
Definition read_zone : reader unit :=
  head ← readBytes 4;
  if decide (head ≠ TZif) then throw else
  _ ← readBytes 1;
  _ ← readBytes 15;
  _ ← readInt32; _ ← readInt32; _ ← readInt32;
  timecnt ← readInt32;
  typecnt ← readInt32;
  charcnt ← readInt32;
  if timecnt <? 0 then throw else
  trans ← read_many (Z.to_nat timecnt) readInt32;
  idx ← read_many (Z.to_nat timecnt) readUInt8;
  _ ← read_many (Z.to_nat typecnt) read_localtime;
  _ ← add_transitions trans idx;
  abbr ← readBytes charcnt;
  modify (λ d, set_abbreviation d abbr).

(** [readTimeZoneFile]: [None] is a file that cannot be opened. *)
Definition readTimeZoneFile (file : option (list Z)) (d : Data) : outcome (bool * Data) :=
  match file with
  | Some f => '(_, (_, d')) ← read_zone (f, d); mret (true, d')
  | None => mret (true, d)
  end.

(** ** Look-up *)

(** The member [Comp(compareGmt)] compares. *)
Definition key (compareGmt : bool) (t : Transition) : Z :=
  if compareGmt then gmttime t else localtime t.
Definition Comp_less (compareGmt : bool) (l r : Transition) : bool :=
  key compareGmt l <? key compareGmt r.
Definition Comp_equal (compareGmt : bool) (l r : Transition) : bool :=
  key compareGmt l =? key compareGmt r.

(** [std::lower_bound], as libstdc++ halves the range. *)
Definition lower_bound_turn (less : Transition → Transition → bool) (ts : list Transition)
    (v : Transition) (st : Z * Z) : outcome (turn (Z * Z) Z) :=
  let '(first, len) := st in
  if decide (0 < len) then
    let half := Z.shiftr len 1 in
    m ← aget ts (first + half);
    mret (Next (if less m v then (first + half + 1, len - half - 1) else (first, half)))
  else mret (Stop first).
Definition lower_bound less ts v : outcome Z :=
  loop (S (length ts)) (lower_bound_turn less ts v) (0, zlen ts).

Definition findLocaltime (d : Data) (sentry : Transition) (compareGmt : bool)
    : outcome Localtime :=
  let before_all :=
    match transitions d with
    | [] => true
    | t :: _ => Comp_less compareGmt sentry t
    end in
  if before_all then aget (localtimes d) 0
  else
    i ← lower_bound (Comp_less compareGmt) (transitions d) sentry;
    if i <? zlen (transitions d) then
      t ← aget (transitions d) i;
      if Comp_equal compareGmt sentry t then aget (localtimes d) (localtimeIdx t)
      else if i =? 0 then Exited SIGABRT_status
      else t ← aget (transitions d) (i - 1); aget (localtimes d) (localtimeIdx t)
    else
      t ← aget (transitions d) (zlen (transitions d) - 1);
      aget (localtimes d) (localtimeIdx t).

(** ** TimeZone *)

(** [data_]. *)
Definition TimeZone : Type := option Data.
Definition TimeZone_valid (z : TimeZone) : bool := bool_decide (is_Some z).

Definition TimeZone_file (file : option (list Z)) : outcome TimeZone :=
  '(ok, d) ← readTimeZoneFile file no_data;
  mret (if ok : bool then Some d else None).
Definition TimeZone_fixed (eastOfUtc : Z) (name : list Z) : TimeZone :=
  Some {| transitions := [];
          localtimes := [{| gmtOffset := eastOfUtc; isDst := false; arrbIdx := 0 |}];
          abbreviation := name |}.

(** [struct tm] with the members only these functions set; [tm_zone] is the
    offset of the name in [abbreviation]. *)
Record local_tm := { tm : utc_tm; tm_isdst : Z; tm_gmtoff : Z; tm_zone : Z }.

Section conversions.
Context (localtime_r : Z → utc_tm) (timegm : utc_tm → Z).

(** [assert(data_ != NULL)]. *)
Definition the_data (z : TimeZone) : outcome Data :=
  match z with Some d => mret d | None => Exited SIGABRT_status end.

Definition toLocalTime (z : TimeZone) (seconds : Z) : outcome local_tm :=
  d ← the_data z;
  l ← findLocaltime d {| gmttime := seconds; localtime := 0; localtimeIdx := 0 |} true;
  localSeconds ← long_ (seconds + gmtOffset l);
  if zlen (abbreviation d) <? arrbIdx l then Undef OutOfBounds
  else mret {| tm := localtime_r localSeconds; tm_isdst := Z.b2z (isDst l);
               tm_gmtoff := gmtOffset l; tm_zone := arrbIdx l |}.

Definition fromLocalTime (z : TimeZone) (localTm : local_tm) : outcome Z :=
  d ← the_data z;
  let seconds := timegm (tm localTm) in
  l ← findLocaltime d {| gmttime := 0; localtime := seconds; localtimeIdx := 0 |} false;
  seconds ←
    (if decide (tm_isdst localTm ≠ 0) then
       utc ← long_ (seconds - gmtOffset l);
       tryTm ← toLocalTime z utc;
       if (tm_isdst tryTm =? 0) && (utc_hour (tm tryTm) =? utc_hour (tm localTm))
          && (utc_min (tm tryTm) =? utc_min (tm localTm))
       then long_ (seconds - 3600)
       else mret seconds
     else mret seconds);
  long_ (seconds - gmtOffset l).
End conversions.

(** ** The reader reads what was written *)

(** [reads p s v d d']: [p] consumes exactly [s], returns [v] and changes the
    data from [d] to [d']. *)
Definition reads {A} (p : reader A) (s : list Z) (v : A) (d d' : Data) : Prop :=
  ∀ rest, p (s ++ rest, d) = Ret (Some v, (rest, d')).

Lemma reads_ret {A} (x : A) d : reads (mret x) [] x d d.
Proof. done. Qed.

Lemma reads_bind {A B} (p : reader A) (f : A → reader B) s1 s2 v w d d1 d2 :
  reads p s1 v d d1 → reads (f v) s2 w d1 d2 → reads (p ≫= f) (s1 ++ s2) w d d2.
Proof.
  intros Hp Hf rest. unfold mbind, reader_bind. rewrite <- app_assoc, Hp. apply Hf.
Qed.

Lemma reads_bind_nil {A B} (p : reader A) (f : A → reader B) s v w d d1 d2 :
  reads p [] v d d1 → reads (f v) s w d1 d2 → reads (p ≫= f) s w d d2.
Proof. apply reads_bind with (s1 := []). Qed.

(** A loop that stores its values outside the data. *)
Lemma reads_many {A} (p : reader A) (enc : A → list Z) xs d :
  Forall (λ x, reads p (enc x) x d d) xs →
  reads (read_many (length xs) p) (mjoin (enc <$> xs)) xs d d.
Proof.
  induction 1 as [|x xs Hx _ IH]; [apply reads_ret|].
  change (mjoin (enc <$> x :: xs)) with (enc x ++ mjoin (enc <$> xs)). cbn [read_many length].
  eapply reads_bind; [exact Hx|]. rewrite <- (app_nil_r (mjoin _)).
  eapply reads_bind; [exact IH|apply reads_ret].
Qed.

Lemma reads_bytes s n d : n = zlen s → reads (readBytes n) s s d d.
Proof.
  intros -> rest. unfold readBytes, zlen. rewrite length_app.
  destruct (Z.ltb_spec (Z.of_nat (length s)) 0); [lia|].
  destruct (Z.ltb_spec (Z.of_nat (length s + length rest)) (Z.of_nat (length s))); [lia|].
  by rewrite Nat2Z.id, take_app_length, drop_app_length.
Qed.

Lemma reads_uint8 v d : reads readUInt8 [v] v d d.
Proof. done. Qed.

(** Big-endian encoding of a 32-bit integer. *)
Definition be32 (v : Z) : list Z :=
  let u := to_u 32 v in
  [u / 2 ^ 24; u / 2 ^ 16 mod 256; u / 2 ^ 8 mod 256; u mod 256].

Lemma reads_int32 v d : in_int v → reads readInt32 (be32 v) v d d.
Proof.
  intros Hv rest. unfold be32, readInt32. cbn [app]. repeat f_equal.
  assert (Hu : to_u 32 v / 2 ^ 24 * 2 ^ 24 + to_u 32 v / 2 ^ 16 mod 256 * 2 ^ 16 +
               to_u 32 v / 2 ^ 8 mod 256 * 2 ^ 8 + to_u 32 v mod 256 = to_u 32 v).
  { pose proof (to_u_bounds 32 v ltac:(done)). generalize dependent (to_u 32 v).
    change (2 ^ 24) with 16777216. change (2 ^ 16) with 65536. change (2 ^ 8) with 256.
    intros u Hu. Z.div_mod_to_equations. lia. }
  rewrite Hu. unfold to_s, to_u, in_int, INT_MIN, INT_MAX in *.
  change (2 ^ 32) with 4294967296. change (2 ^ (32 - 1)) with 2147483648.
  rewrite Zplus_mod_idemp_l, Z.mod_small; lia.
Qed.

(** A zone in the first format of zone files, with the counts of the parts that
    follow and that the library does not read. *)
Definition enc_localtime (l : Localtime) : list Z :=
  be32 (gmtOffset l) ++ [Z.b2z (isDst l); arrbIdx l].
Definition zone_file (isgmtcnt isstdcnt leapcnt : Z) (d : Data) : list Z :=
  TZif ++ [0] ++ replicate 15 0 ++ be32 isgmtcnt ++ be32 isstdcnt ++ be32 leapcnt ++
  be32 (zlen (transitions d)) ++ be32 (zlen (localtimes d)) ++ be32 (zlen (abbreviation d)) ++
  mjoin (be32 <$> (gmttime <$> transitions d)) ++
  mjoin ((λ i, [i]) <$> (localtimeIdx <$> transitions d)) ++
  mjoin (enc_localtime <$> localtimes d) ++ abbreviation d.

(** The transitions of a zone: 32-bit times, each with the entry it begins. *)
Definition zone_ok (d : Data) : Prop :=
  zlen (transitions d) ≤ INT_MAX ∧ zlen (localtimes d) ≤ INT_MAX ∧
  zlen (abbreviation d) ≤ INT_MAX ∧
  Forall (λ l, in_int (gmtOffset l)) (localtimes d) ∧
  Forall (λ t, in_int (gmttime t) ∧ 0 ≤ localtimeIdx t < zlen (localtimes d) ∧
               localtime t = gmttime t + gmtOffset (rd (localtimes d) (localtimeIdx t)))
    (transitions d).

Lemma reads_localtime l d :
  in_int (gmtOffset l) → reads read_localtime (enc_localtime l) tt d (push_localtime d l).
Proof.
  intros Hl. unfold read_localtime, enc_localtime.
  eapply reads_bind; [by apply reads_int32|].
  apply (reads_bind _ _ [_] [_] _ _ _ _ _ (reads_uint8 _ _)).
  rewrite <- (app_nil_r [_]). eapply reads_bind; [apply reads_uint8|].
  intros rest. cbn. by destruct l as [? [] ?].
Qed.

Lemma reads_localtimes ls d :
  Forall (λ l, in_int (gmtOffset l)) ls →
  reads (read_many (length ls) read_localtime) (mjoin (enc_localtime <$> ls))
    (replicate (length ls) tt) d (foldl push_localtime d ls).
Proof.
  intros Hls. revert d. induction Hls as [|l ls Hl _ IH]; intros d; [apply reads_ret|].
  change (mjoin (enc_localtime <$> l :: ls))
    with (enc_localtime l ++ mjoin (enc_localtime <$> ls)).
  cbn [read_many length]. eapply reads_bind; [by apply reads_localtime|].
  rewrite <- (app_nil_r (mjoin _)). eapply reads_bind; [apply IH|]. apply reads_ret.
Qed.

Lemma reads_transitions ts d :
  Forall (λ t, 0 ≤ localtimeIdx t < zlen (localtimes d) ∧
               localtime t = gmttime t + gmtOffset (rd (localtimes d) (localtimeIdx t))) ts →
  reads (add_transitions (gmttime <$> ts) (localtimeIdx <$> ts)) [] tt d
    (foldl push_transition d ts).
Proof.
  revert d. induction ts as [|t ts IH]; intros d Hts; [apply reads_ret|].
  apply Forall_cons in Hts as [[Hi Hl] Hts]. intros rest.
  cbn [fmap list_fmap add_transitions app foldl].
  unfold mbind, reader_bind, get_data, lift, modify, mbind, outcome_bind. cbn [fst snd].
  rewrite aget_ok by done. rewrite <- Hl. destruct t as [g l i].
  exact (IH (push_transition d _) Hts rest).
Qed.

Lemma push_localtimes_eq ls d :
  foldl push_localtime d ls =
  {| transitions := transitions d; localtimes := localtimes d ++ ls;
     abbreviation := abbreviation d |}.
Proof.
  revert d. induction ls as [|l ls IH]; intros d; cbn [foldl].
  - rewrite app_nil_r. by destruct d.
  - rewrite IH. cbn. by rewrite <- app_assoc.
Qed.
Lemma push_transitions_eq ts d :
  foldl push_transition d ts =
  {| transitions := transitions d ++ ts; localtimes := localtimes d;
     abbreviation := abbreviation d |}.
Proof.
  revert d. induction ts as [|t ts IH]; intros d; cbn [foldl].
  - rewrite app_nil_r. by destruct d.
  - rewrite IH. cbn. by rewrite <- app_assoc.
Qed.

Lemma zlen_in_int {A} (l : list A) : zlen l ≤ INT_MAX → in_int (zlen l).
Proof. unfold in_int, INT_MIN, INT_MAX, zlen. lia. Qed.

Lemma read_zone_reads isgmt isstd leap d :
  in_int isgmt → in_int isstd → in_int leap → zone_ok d →
  reads read_zone (zone_file isgmt isstd leap d) tt no_data d.
Proof.
  intros H1 H2 H3 (Ht & Hl & Ha & Hls & Hts). unfold read_zone, zone_file.
  eapply reads_bind; [by apply reads_bytes|]. rewrite decide_False by (by intros []).
  eapply reads_bind; [by apply reads_bytes|]. eapply reads_bind; [by apply reads_bytes|].
  do 3 (eapply reads_bind; [by apply reads_int32|]).
  do 3 (eapply reads_bind; [by apply reads_int32, zlen_in_int|]).
  destruct (Z.ltb_spec (zlen (transitions d)) 0); [unfold zlen in *; lia|].
  unfold zlen. rewrite !Nat2Z.id.
  eapply reads_bind.
  { rewrite <- (length_fmap gmttime (transitions d)).
    apply (reads_many _ be32). apply Forall_fmap.
    eapply Forall_impl; [exact Hts|]. intros t (? & _). by apply reads_int32. }
  eapply reads_bind.
  { rewrite <- (length_fmap localtimeIdx (transitions d)).
    apply (reads_many _ (λ i, [i])). apply Forall_fmap. apply Forall_true.
    intros t. apply reads_uint8. }
  eapply reads_bind; [by apply reads_localtimes|]. eapply reads_bind_nil.
  { apply reads_transitions. rewrite push_localtimes_eq. cbn [localtimes app].
    eapply Forall_impl; [exact Hts|]. by intros t (_ & ? & ?). }
  rewrite <- (app_nil_r (abbreviation d)) at 2.
  eapply reads_bind; [by apply reads_bytes|]. intros rest. unfold modify. cbn [fst snd].
  rewrite push_transitions_eq, push_localtimes_eq. cbn. by destruct d.
Qed.

(** ** The look-up finds the entry in force *)

(** The reference: the entry of the last transition that is not after the time,
    and entry 0 before the first. *)
Fixpoint in_force (compareGmt : bool) (entry : Z) (ts : list Transition) (time : Z) : Z :=
  match ts with
  | [] => entry
  | t :: ts => if key compareGmt t <=? time then in_force compareGmt (localtimeIdx t) ts time
               else entry
  end.

Definition chronological (compareGmt : bool) (ts : list Transition) : Prop :=
  StronglySorted (λ t u, key compareGmt t < key compareGmt u) ts.

Lemma chronological_lookup g ts i j t u :
  chronological g ts → ts !! i = Some t → ts !! j = Some u → (i < j)%nat → key g t < key g u.
Proof.
  intros Hs. revert i j. induction Hs as [|v ts Hs IH Hv]; intros [|i] [|j] Ht Hu Hij;
    try lia; try done.
  - simplify_eq/=. rewrite Forall_forall in Hv. eapply Hv, list_elem_of_lookup_2, Hu.
  - cbn in *. apply (IH i j); [done..|lia].
Qed.

(** The bisection: [i] is the number of transitions before the sentry. *)
Lemma lower_bound_ok g ts v :
  chronological g ts →
  wp (lower_bound (Comp_less g) ts v) (λ i, 0 ≤ i ≤ zlen ts ∧
    ∀ k, 0 ≤ k < zlen ts → (k < i ↔ key g (rd ts k) < key g v)).
Proof.
  intros Hs. unfold lower_bound.
  apply (wp_loop (λ '(first, len), 0 ≤ first ∧ 0 ≤ len ∧ first + len ≤ zlen ts ∧
      (∀ k, 0 ≤ k < first → key g (rd ts k) < key g v) ∧
      (∀ k, first + len ≤ k < zlen ts → key g v ≤ key g (rd ts k)))
    (λ '(_, len), Z.to_nat len)).
  { unfold zlen. split_and!; try lia; intros; lia. }
  { unfold zlen. lia. }
  assert (Hlt : ∀ j k, 0 ≤ j → j < k → k < zlen ts → key g (rd ts j) < key g (rd ts k)).
  { intros j k Hj Hjk Hk. apply (chronological_lookup g ts (Z.to_nat j) (Z.to_nat k));
      [done|apply lookup_rd; lia|apply lookup_rd; lia|lia]. }
  intros [first len] (H1 & H2 & H3 & Hlo & Hhi). unfold lower_bound_turn. case_decide as Hlen.
  - rewrite Z.shiftr_div_pow2 by lia. change (2 ^ 1) with 2.
    assert (0 ≤ len / 2 < len) by (split; [apply Z.div_pos; lia|apply Z.div_lt; lia]).
    wp_step. apply wp_aget; [lia|]. wp_step. unfold Comp_less.
    destruct (Z.ltb_spec (key g (rd ts (first + len / 2))) (key g v)) as [Hm|Hm].
    + split; [|lia]. split_and!; [lia..| |intros; apply Hhi; lia].
      intros k Hk. destruct (decide (k = first + len / 2)) as [->|]; [done|].
      specialize (Hlt k (first + len / 2)). lia.
    + split; [|lia]. split_and!; [lia..|done|].
      intros k Hk. destruct (decide (k = first + len / 2)) as [->|]; [done|].
      specialize (Hlt (first + len / 2) k). lia.
  - wp_step. split; [lia|]. intros k Hk. split; [intros; apply Hlo; lia|].
    intros Hkv. destruct (decide (k < first)); [done|]. specialize (Hhi k). lia.
Qed.

Lemma rd_tail {A} `{!Inhabited A} (x : A) l i : 0 < i → rd (x :: l) i = rd l (i - 1).
Proof. intros. unfold rd. by replace (Z.to_nat i) with (S (Z.to_nat (i - 1))) by lia. Qed.

(** The reference by the number of transitions up to the time. *)
Lemma in_force_count g e ts time i :
  0 ≤ i ≤ zlen ts → (∀ k, 0 ≤ k < zlen ts → (k < i ↔ key g (rd ts k) ≤ time)) →
  in_force g e ts time = if decide (i = 0) then e else localtimeIdx (rd ts (i - 1)).
Proof.
  revert e i. induction ts as [|t ts IH]; intros e i Hi Hk.
  - unfold zlen in Hi. cbn in *. by rewrite decide_True by lia.
  - cbn [in_force]. unfold zlen in *. cbn [length] in *.
    pose proof (Hk 0 ltac:(lia)) as H0. change (rd (t :: ts) 0) with t in H0.
    destruct (Z.leb_spec (key g t) time) as [Ht|Ht].
    + rewrite decide_False by lia. rewrite (IH _ (i - 1)); [|lia|].
      * case_decide as E; [by replace i with 1 by lia|].
        by rewrite rd_tail by lia.
      * intros k Hk'. specialize (Hk (k + 1) ltac:(lia)). rewrite rd_tail in Hk by lia.
        replace (k + 1 - 1) with k in Hk by lia. lia.
    + rewrite decide_True by lia. done.
Qed.

Lemma findLocaltime_eq d v g :
  chronological g (transitions d) →
  findLocaltime d v g = aget (localtimes d) (in_force g 0 (transitions d) (key g v)).
Proof.
  intros Hs. unfold findLocaltime. pose proof (lower_bound_ok g _ v Hs) as Hlb.
  apply wp_iff in Hlb as (i & Ei & Hi & Hk).
  destruct (transitions d) as [|t0 ts] eqn:Et; [done|]. unfold Comp_less at 1.
  destruct (Z.ltb_spec (key g v) (key g t0)) as [H0|H0].
  { cbn [in_force]. by destruct (Z.leb_spec (key g t0) (key g v)); [lia|]. }
  rewrite Ei, Ret_bind. rewrite <- Et in *. set (us := transitions d) in *.
  assert (Hn : 0 < zlen us) by (rewrite Et; unfold zlen; cbn; lia).
  assert (Hr0 : rd us 0 = t0) by (by rewrite Et).
  assert (Hlt : ∀ j k, 0 ≤ j → j < k → k < zlen us → key g (rd us j) < key g (rd us k)).
  { intros j k Hj Hjk Hk'. apply (chronological_lookup g us (Z.to_nat j) (Z.to_nat k));
      [done|apply lookup_rd; lia|apply lookup_rd; lia|lia]. }
  destruct (Z.ltb_spec i (zlen us)) as [Hin|Hin].
  - rewrite (aget_ok us i), Ret_bind by lia. unfold Comp_equal.
    destruct (Z.eqb_spec (key g v) (key g (rd us i))) as [He|He].
    + rewrite (in_force_count g 0 us (key g v) (i + 1)); [|lia|].
      { rewrite decide_False by lia. by replace (i + 1 - 1) with i by lia. }
      intros k Hk'. specialize (Hk k Hk'). destruct (decide (k = i)) as [->|]; [lia|].
      pose proof (Hlt i k). lia.
    + destruct (Z.eqb_spec i 0) as [->|Hne].
      { specialize (Hk 0 ltac:(lia)). rewrite Hr0 in *. lia. }
      rewrite (aget_ok us), Ret_bind by lia.
      rewrite (in_force_count g 0 us (key g v) i); [by rewrite decide_False by lia|lia|].
      intros k Hk'. pose proof (Hk i ltac:(lia)). specialize (Hk k Hk').
      destruct (decide (k = i)) as [->|]; [lia|]. pose proof (Hlt i k). lia.
  - rewrite (aget_ok us), Ret_bind by lia.
    rewrite (in_force_count g 0 us (key g v) (zlen us)); [by rewrite decide_False by lia|lia|].
    intros k Hk'. specialize (Hk k Hk'). lia.
Qed.

(** The entry in force is one of the table's. *)
Lemma in_force_range g e d time :
  0 ≤ e < zlen (localtimes d) →
  Forall (λ t, 0 ≤ localtimeIdx t < zlen (localtimes d)) (transitions d) →
  0 ≤ in_force g e (transitions d) time < zlen (localtimes d).
Proof.
  intros He Hts. revert e He. induction Hts as [|t ts Ht _ IH]; intros e He; [done|].
  cbn [in_force]. destruct (_ <=? _); auto.
Qed.

(** Two clocks that agree on which transitions are past agree on the entry. *)
Lemma in_force_agree g g' e ts x x' :
  (∀ t, t ∈ ts → key g t ≤ x ↔ key g' t ≤ x') → in_force g e ts x = in_force g' e ts x'.
Proof.
  revert e. induction ts as [|t ts IH]; intros e Hk; [done|]. cbn [in_force].
  pose proof (Hk t ltac:(constructor)) as Ht.
  destruct (Z.leb_spec (key g t) x), (Z.leb_spec (key g' t) x'); try lia.
  apply IH. intros u Hu. apply Hk. by right.
Qed.

(** A past transition is past in the local time of the entry in force. *)
Lemma past_in_local (off : Z → Z) e ts time t :
  chronological true ts → chronological false ts →
  (∀ u, u ∈ ts → localtime u = gmttime u + off (localtimeIdx u)) →
  t ∈ ts → gmttime t ≤ time → localtime t ≤ time + off (in_force true e ts time).
Proof.
  intros Hg Hl Hoff. revert e t. induction ts as [|u ts IH]; intros e t Ht Hpast; [set_solver|].
  apply StronglySorted_inv in Hg as [Hg Hgu]. apply StronglySorted_inv in Hl as [Hl Hlu].
  rewrite Forall_forall in Hgu, Hlu. cbn [in_force key] in *.
  assert (gmttime u ≤ time).
  { apply elem_of_cons in Ht as [->|Ht]; [done|]. specialize (Hgu t Ht). lia. }
  destruct (Z.leb_spec (gmttime u) time); [|lia].
  specialize (IH Hg Hl (λ v Hv, Hoff v ltac:(by right)) (localtimeIdx u)).
  apply elem_of_cons in Ht as [->|Ht]; [|by apply IH].
  destruct ts as [|v ts]; [cbn; rewrite (Hoff u) by constructor; lia|].
  destruct (Z.leb_spec (gmttime v) time) as [Hv|Hv].
  - specialize (Hlu v ltac:(constructor)). cbn in Hlu.
    pose proof (IH v ltac:(constructor) Hv). lia.
  - cbn [in_force key]. destruct (Z.leb_spec (gmttime v) time); [lia|].
    rewrite (Hoff u) by constructor. lia.
Qed.

(** A zone whose transitions are in order on both clocks and which has an entry. *)
Definition usable (d : Data) : Prop :=
  zone_ok d ∧ localtimes d ≠ [] ∧
  chronological true (transitions d) ∧ chronological false (transitions d).

(** The entry in force at a second of UTC. *)
Definition entry_at (d : Data) (t : Z) : Localtime :=
  rd (localtimes d) (in_force true 0 (transitions d) t).

Lemma find_entry d t l :
  usable d → findLocaltime d {| gmttime := t; localtime := l; localtimeIdx := 0 |} true =
  Ret (entry_at d t).
Proof.
  intros ((_ & _ & _ & _ & Hts) & Hne & Hg & _). rewrite findLocaltime_eq by done.
  apply aget_ok. apply in_force_range.
  - destruct (localtimes d); [done|]. unfold zlen. cbn. lia.
  - eapply Forall_impl; [exact Hts|]. by intros ? (_ & ? & _).
Qed.

Lemma toLocalTime_ok lt d t :
  usable d → in_long (t + gmtOffset (entry_at d t)) →
  arrbIdx (entry_at d t) ≤ zlen (abbreviation d) →
  toLocalTime lt (Some d) t =
  Ret {| tm := lt (t + gmtOffset (entry_at d t)); tm_isdst := Z.b2z (isDst (entry_at d t));
         tm_gmtoff := gmtOffset (entry_at d t); tm_zone := arrbIdx (entry_at d t) |}.
Proof.
  intros Hd Hlong Hidx. unfold toLocalTime, the_data. rewrite mret_bind, find_entry by done.
  rewrite Ret_bind, long_bind by done.
  by destruct (Z.ltb_spec (zlen (abbreviation d)) (arrbIdx (entry_at d t))); [lia|].
Qed.

(** Away from an hour that is repeated, the local clock finds the same entry. *)
Lemma find_local d t v :
  usable d → key false v = t + gmtOffset (entry_at d t) →
  (∀ u, u ∈ transitions d → t < gmttime u → t + gmtOffset (entry_at d t) < localtime u) →
  findLocaltime d v false = Ret (entry_at d t).
Proof.
  intros Hd Hv Hgap. rewrite <- (find_entry d t 0) by done.
  destruct Hd as ((_ & _ & _ & _ & Hts) & Hne & Hg & Hl).
  rewrite !findLocaltime_eq by done. rewrite Hv. f_equal. symmetry.
  apply in_force_agree. cbn [key gmttime]. intros u Hu. split; [|specialize (Hgap u Hu); lia].
  intros Hpast. rewrite Forall_forall in Hts.
  apply (past_in_local (λ i, gmtOffset (rd (localtimes d) i))); try done.
  intros w Hw. by destruct (Hts w Hw) as (_ & _ & ?).
Qed.

Lemma utc_range_long t : utc_range t → in_long t.
Proof.
  unfold utc_range, in_long, MIN_JDN, MAX_JDN, LONG_MIN, LONG_MAX, kSecondsPerDay.
  intros. Z.div_mod_to_equations. lia.
Qed.

(** ** Theorems *)

(** C15: The reader of zone files. For every zone of the first format (any
    transitions, entries and names, in the 32-bit ranges of the format) followed
    by anything at all, [readTimeZoneFile] returns exactly that zone, each
    transition with the local time of the entry it begins. *)
Theorem zone_file_roundtrip isgmtcnt isstdcnt leapcnt d rest :
  in_int isgmtcnt → in_int isstdcnt → in_int leapcnt → zone_ok d →
  TimeZone_file (Some (zone_file isgmtcnt isstdcnt leapcnt d ++ rest)) = Ret (Some d).
Proof.
  intros H1 H2 H3 Hd. unfold TimeZone_file, readTimeZoneFile.
  by rewrite read_zone_reads by done.
Qed.

(** C16: The bisection in [findLocaltime] finds the entry the calendar means: in a
    zone with transitions in order, that of the last transition that is not after
    the second, and the first entry of the table before all transitions. The
    conversion to local time then is [localtime_r] of the shifted second. *)
Theorem toLocalTime_in_force lt d t :
  usable d → in_long (t + gmtOffset (entry_at d t)) →
  arrbIdx (entry_at d t) ≤ zlen (abbreviation d) →
  findLocaltime d {| gmttime := t; localtime := 0; localtimeIdx := 0 |} true =
    Ret (entry_at d t) ∧
  (∀ i, 0 ≤ i < zlen (transitions d) → gmttime (rd (transitions d) i) ≤ t →
     (i = zlen (transitions d) - 1 ∨ t < gmttime (rd (transitions d) (i + 1))) →
     entry_at d t = rd (localtimes d) (localtimeIdx (rd (transitions d) i))) ∧
  ((∀ u, u ∈ transitions d → t < gmttime u) → entry_at d t = rd (localtimes d) 0) ∧
  wp (toLocalTime lt (Some d) t) (λ x, tm x = lt (t + gmtOffset (entry_at d t))).
Proof.
  intros Hd Hlong Hidx. split; [by apply find_entry|]. split; [|split].
  - intros i Hi Hpast Hnext. unfold entry_at. f_equal. destruct Hd as (_ & _ & Hg & _).
    rewrite (in_force_count true 0 _ t (i + 1)); [|lia|].
    { rewrite decide_False by lia. by replace (i + 1 - 1) with i by lia. }
    assert (Hlt : ∀ j k, 0 ≤ j → j < k → k < zlen (transitions d) →
      gmttime (rd (transitions d) j) < gmttime (rd (transitions d) k)).
    { intros j k Hj Hjk Hk. apply (chronological_lookup true _ (Z.to_nat j) (Z.to_nat k) _ _ Hg);
        [apply lookup_rd; lia|apply lookup_rd; lia|lia]. }
    intros k Hk. cbn [key]. destruct (decide (k = i)) as [->|]; [lia|].
    destruct (decide (k < i)); [specialize (Hlt k i); lia|].
    destruct Hnext as [|Hnext]; [lia|].
    destruct (decide (k = i + 1)) as [->|]; [lia|]. specialize (Hlt (i + 1) k). lia.
  - intros Hnone. unfold entry_at. f_equal.
    destruct (transitions d) as [|u us]; [done|]. cbn [in_force key].
    specialize (Hnone u ltac:(constructor)). by destruct (Z.leb_spec (gmttime u) t); [lia|].
  - by rewrite toLocalTime_ok.
Qed.

(** C33: There and back. On a system whose own zone is UTC ([timegm] inverts
    [localtime_r]), for every second that is not in an hour the zone's clocks
    repeat, summer time or not, [fromLocalTime] of [toLocalTime] is the second. *)
Theorem local_time_roundtrip lt tg d t :
  usable d → utc_range (t + gmtOffset (entry_at d t)) → in_long t →
  arrbIdx (entry_at d t) ≤ zlen (abbreviation d) →
  (∀ x, utc_range x → tg (lt x) = x) →
  (∀ u, u ∈ transitions d → t < gmttime u → t + gmtOffset (entry_at d t) < localtime u) →
  wp (toLocalTime lt (Some d) t) (λ x, fromLocalTime lt tg (Some d) x = Ret t).
Proof.
  intros Hd Hrange Ht Hidx Hsys Hgap. pose proof (utc_range_long _ Hrange) as Hlong.
  rewrite toLocalTime_ok by done. cbn [wp]. unfold fromLocalTime, the_data.
  rewrite mret_bind. cbn [tm]. rewrite Hsys by done.
  rewrite (find_local d t) by done. rewrite Ret_bind. set (l := entry_at d t) in *.
  assert (E : t + gmtOffset l - gmtOffset l = t) by lia. cbn [tm_isdst].
  destruct (isDst l) eqn:Edst; cbn [Z.b2z].
  - rewrite decide_True by done. rewrite E, long_bind by done.
    rewrite toLocalTime_ok by done. rewrite Ret_bind. fold l. rewrite Edst. cbn [tm_isdst Z.b2z].
    change (1 =? 0) with false. cbn [andb]. rewrite mret_bind, E. unfold long_.
    by rewrite decide_True.
  - rewrite decide_False by (intros H; by apply H). rewrite mret_bind, E. unfold long_.
    by rewrite decide_True.
Qed.

(** A zone file that is missing, or is none, goes unnoticed until it is used:
    the [TimeZone] claims to be valid, and its first conversion reads the first
    entry of an empty table. *)
Lemma missing_zone_is_valid lt tg file t x :
  (∀ f, file = Some f → zlen f < 4 ∨ take 4 f ≠ TZif) →
  ∃ z, TimeZone_file file = Ret z ∧ TimeZone_valid z = true ∧
    toLocalTime lt z t = Undef OutOfBounds ∧ fromLocalTime lt tg z x = Undef OutOfBounds.
Proof.
  intros Hf. exists (Some no_data). split; [|done].
  unfold TimeZone_file, readTimeZoneFile. destruct file as [f|]; [|done].
  unfold read_zone. unfold mbind at 3, reader_bind. unfold readBytes at 1.
  change (4 <? 0) with false. cbn iota.
  destruct (Hf f eq_refl) as [Hlen|Hhead].
  - by destruct (Z.ltb_spec (zlen f) 4); [|lia].
  - destruct (Z.ltb_spec (zlen f) 4); [done|]. change (Z.to_nat 4) with 4%nat.
    by rewrite decide_True.
Qed.

(** The offset is applied twice when the zone set for the log is the zone of
    the system: the conversion adds it and gives the sum to [localtime_r], which
    adds it again. *)
Lemma same_zone_shifts_twice off name t :
  in_long (t + off) →
  wp (toLocalTime (λ x, utc_of (x + off) false) (TimeZone_fixed off name) t)
    (λ x, tm x = utc_of (t + 2 * off) false).
Proof.
  intros Ht. unfold toLocalTime, TimeZone_fixed, the_data. rewrite mret_bind.
  unfold findLocaltime. cbn [transitions localtimes abbreviation].
  rewrite aget_head, Ret_bind. cbn [gmtOffset arrbIdx]. rewrite long_bind by done.
  destruct (Z.ltb_spec (zlen name) 0); [unfold zlen in *; lia|].
  cbn. f_equal. lia.
Qed.

(** ** Witnesses: Shanghai with the summer time of 1986 *)

Definition shanghai : Data := {|
  transitions := [{| gmttime := 515520000; localtime := 515552400; localtimeIdx := 1 |};
                  {| gmttime := 527007600; localtime := 527036400; localtimeIdx := 0 |}];
  localtimes := [{| gmtOffset := 28800; isDst := false; arrbIdx := 0 |};
                 {| gmtOffset := 32400; isDst := true; arrbIdx := 4 |}];
  abbreviation := [67; 83; 84; 0; 67; 68; 84; 0]
|}.

Definition utc_localtime_r (x : Z) : utc_tm := utc_of x false.
Definition utc_timegm (u : utc_tm) : Z :=
  match fromUtcTime_tm u with Ret t => t | _ => 0 end.

Lemma utc_system x : utc_range x → utc_timegm (utc_localtime_r x) = x.
Proof. intros Hx. unfold utc_timegm, utc_localtime_r. by rewrite fromUtcTime_utc_of. Qed.

Lemma shanghai_usable : usable shanghai.
Proof.
  unfold usable, zone_ok. split; [|split; [done|]].
  - split; [by vm_compute|]. split; [by vm_compute|]. split; [by vm_compute|]. split.
    + apply Forall_cons_2; [|apply Forall_singleton]; vm_compute; split; discriminate.
    + apply Forall_cons_2; [|apply Forall_singleton];
        (split; [vm_compute; split; discriminate|]);
        (split; [vm_compute; split; [discriminate|done]|done]).
  - split; (apply SSorted_cons; [apply SSorted_cons; [apply SSorted_nil|done]|]);
      by apply Forall_singleton.
Qed.

Lemma zone_file_roundtrip_witness :
  TimeZone_file (Some (zone_file 0 0 0 shanghai ++ [1; 2; 3])) = Ret (Some shanghai).
Proof.
  refine (zone_file_roundtrip 0 0 0 shanghai [1; 2; 3] _ _ _ (proj1 shanghai_usable));
    vm_compute; split; discriminate.
Defined.

(** 1986-07-01: the first transition is past, the second is not. *)
Lemma toLocalTime_in_force_witness :
  let t := 520560000 in
  findLocaltime shanghai {| gmttime := t; localtime := 0; localtimeIdx := 0 |} true =
    Ret (entry_at shanghai t) ∧
  (∀ i, 0 ≤ i < zlen (transitions shanghai) → gmttime (rd (transitions shanghai) i) ≤ t →
     (i = zlen (transitions shanghai) - 1 ∨ t < gmttime (rd (transitions shanghai) (i + 1))) →
     entry_at shanghai t =
     rd (localtimes shanghai) (localtimeIdx (rd (transitions shanghai) i))) ∧
  ((∀ u, u ∈ transitions shanghai → t < gmttime u) →
     entry_at shanghai t = rd (localtimes shanghai) 0) ∧
  wp (toLocalTime utc_localtime_r (Some shanghai) t)
    (λ x, tm x = utc_localtime_r (t + gmtOffset (entry_at shanghai t))).
Proof.
  intros t. refine (toLocalTime_in_force utc_localtime_r shanghai t shanghai_usable _ _);
    vm_compute; [split|]; discriminate.
Defined.

Lemma local_time_roundtrip_witness :
  wp (toLocalTime utc_localtime_r (Some shanghai) 520560000)
    (λ x, fromLocalTime utc_localtime_r utc_timegm (Some shanghai) x = Ret 520560000).
Proof.
  refine (local_time_roundtrip utc_localtime_r utc_timegm shanghai 520560000 shanghai_usable
            _ _ _ utc_system _); try (vm_compute; (split || idtac); discriminate).
  intros u Hu Hlater. repeat (apply elem_of_cons in Hu as [->|Hu]); [..|by apply elem_of_nil in Hu];
    vm_compute in Hlater |- *; congruence.
Defined.

Lemma missing_zone_is_valid_witness :
  ∃ z, TimeZone_file None = Ret z ∧ TimeZone_valid z = true ∧
    toLocalTime utc_localtime_r z 0 = Undef OutOfBounds ∧
    fromLocalTime utc_localtime_r utc_timegm z
      {| tm := utc_localtime_r 0; tm_isdst := 0; tm_gmtoff := 0; tm_zone := 0 |} =
      Undef OutOfBounds.
Proof.
  refine (missing_zone_is_valid utc_localtime_r utc_timegm None 0 _ _).
  intros f Hf. discriminate Hf.
Defined.

Lemma same_zone_shifts_twice_witness :
  wp (toLocalTime (λ x, utc_of (x + 28800) false) (TimeZone_fixed 28800 []) 0)
    (λ x, tm x = utc_of (0 + 2 * 28800) false).
Proof.
  refine (same_zone_shifts_twice 28800 [] 0 _). vm_compute. split; discriminate.
Defined.

(** In the hour that the clocks repeat, [tm_isdst] decides: both seconds that show
    23:46:40 on the last night of that summer time come back. *)
Example repeated_hour :
  (x ← toLocalTime utc_localtime_r (Some shanghai) 527006800;
   y ← fromLocalTime utc_localtime_r utc_timegm (Some shanghai) x;
   mret (utc_hour (tm x), utc_min (tm x), y)) = Ret (23, 46, 527006800) ∧
  (x ← toLocalTime utc_localtime_r (Some shanghai) 527010400;
   y ← fromLocalTime utc_localtime_r utc_timegm (Some shanghai) x;
   mret (utc_hour (tm x), utc_min (tm x), y)) = Ret (23, 46, 527010400).
Proof. split; by vm_compute. Qed.
