(* ===== verification/Double.v ===== *)
(** The arithmetic of [double], as the IEEE 754 operations of the Standard
    Library's [SpecFloat] with 53 bits and round to nearest even, and the
    conversions from and to integers. An integer below 2^53 has an exact value;
    products and quotients of such values that are integers below 2^53 are
    exact. *)

From Stdlib Require Import SpecFloat.
From S2P Require Import Prelude.

Open Scope Z_scope.

Definition double : Type := spec_float.
Definition dprec : Z := 53.
Definition demax : Z := 1024.

(** [static_cast<double>(z)]. *)
Definition double_of_Z (z : Z) : double := binary_normalize dprec demax z 0 false.
Definition dmul : double → double → double := SFmul dprec demax.
Definition ddiv : double → double → double := SFdiv dprec demax.

(** Towards zero; [None] for infinities and [NaN]. *)
Definition double_trunc (x : double) : option Z :=
  match x with
  | S754_zero _ => Some 0
  | S754_finite s m e =>
      let a := if 0 <=? e then Zpos m * 2 ^ e else Zpos m / 2 ^ (- e) in
      Some (if s then - a else a)
  | _ => None
  end.

(** [static_cast<int64_t>(x)]. *)
Definition double_to_long (x : double) : outcome Z :=
  match double_trunc x with
  | Some z => if decide (in_long z) then mret z else Undef BadConversion
  | None => Undef BadConversion
  end.

(** ** Shifting out zeros *)

Lemma Zdigits2_log2 m : 0 < m → Zdigits2 m = Z.log2 m + 1.
Proof.
  destruct m as [|p|]; [done| |done]. intros _. cbn [Zdigits2].
  induction p as [p IH|p IH|]; [| |done]; cbn [digits2_pos]; rewrite Pos2Z.inj_succ, IH.
  - rewrite (Pos2Z.inj_xI p), Z.log2_succ_double by lia. lia.
  - rewrite (Pos2Z.inj_xO p), Z.log2_double by lia. lia.
Qed.

Lemma log2_shift a k : 0 < a → 0 ≤ k → Z.log2 (a * 2 ^ k) = Z.log2 a + k.
Proof. intros. rewrite Z.log2_mul_pow2 by done. lia. Qed.

Lemma iter_pos_iter {A} (f : A → A) p x : SpecFloat.iter_pos f p x = Nat.iter (Pos.to_nat p) f x.
Proof.
  revert x. induction p as [p IH|p IH|]; intros x; cbn [SpecFloat.iter_pos]; [| |done].
  - rewrite !IH, Pos2Nat.inj_xI. rewrite <- Nat.iter_add, <- Nat.iter_succ_r. f_equal. lia.
  - rewrite !IH, Pos2Nat.inj_xO. rewrite <- Nat.iter_add. f_equal. lia.
Qed.

Definition exact_record (m : Z) : shr_record := {| shr_m := m; shr_r := false; shr_s := false |}.

Lemma shr_1_exact a : 0 < a → shr_1 (exact_record (a * 2)) = exact_record a.
Proof. destruct a as [|p|]; [done| |done]. intros _. by rewrite Z.mul_comm. Qed.

Lemma shr_exact a e n : 0 < a → 0 ≤ n → shr (exact_record (a * 2 ^ n)) e n = (exact_record a, e + n).
Proof.
  intros Ha Hn. destruct n as [|p|]; [|cbn [shr]|lia].
  - cbn [shr]. by rewrite Z.mul_1_r, Z.add_0_r.
  - rewrite iter_pos_iter. f_equal. replace (Z.pos p) with (Z.of_nat (Pos.to_nat p)) by lia. clear Hn.
    induction (Pos.to_nat p) as [|k IH]; [change (exact_record (a * 1) = exact_record a); by rewrite Z.mul_1_r|].
    rewrite Nat.iter_succ_r.
    replace (a * 2 ^ Z.of_nat (S k)) with (a * 2 ^ Z.of_nat k * 2)
      by (rewrite Nat2Z.inj_succ, Z.pow_succ_r by lia; lia).
    rewrite shr_1_exact by lia. exact IH.
Qed.

Lemma shr_none r e n : n ≤ 0 → shr r e n = (r, e).
Proof. by destruct n. Qed.

(** ** Exact values *)

(** The value of [x] is the integer [z]; its last bit weighs at most one. *)
Definition is_integer (x : double) (z : Z) : Prop :=
  match x with
  | S754_zero _ => z = 0
  | S754_finite s m e => e ≤ 0 ∧ (if s then - Zpos m else Zpos m) = z * 2 ^ (- e)
  | _ => False
  end.

Lemma binary_round_aux_exact s m e a k :
  0 < a → 0 ≤ k → m = a * 2 ^ k → k = Z.max (fexp dprec demax (Z.log2 m + 1 + e) - e) 0 →
  e + k ≤ demax - dprec →
  binary_round_aux dprec demax s m e loc_Exact = S754_finite s (Z.to_pos a) (e + k).
Proof.
  intros Ha Hk -> Hkdef Hmax.
  assert (0 < 2 ^ k) by (apply Z.pow_pos_nonneg; lia).
  set (F := fexp dprec demax (Z.log2 (a * 2 ^ k) + 1 + e)) in *.
  assert (shr (exact_record (a * 2 ^ k)) e (F - e) = (exact_record a, e + k)) as H1.
  { clearbody F. destruct (decide (F - e ≤ 0)).
    - rewrite shr_none by done. assert (k = 0) as -> by lia. by rewrite Z.mul_1_r, Z.add_0_r.
    - assert (F - e = k) as -> by lia. by apply shr_exact. }
  unfold binary_round_aux, shr_fexp, shr_record_of_loc. fold (exact_record (a * 2 ^ k)).
  rewrite Zdigits2_log2 by nia. fold F. rewrite H1. cbn [exact_record shr_m loc_of_shr_record round_nearest_even].
  fold (exact_record a). rewrite Zdigits2_log2 by done.
  replace (Z.log2 a + 1 + (e + k)) with (Z.log2 (a * 2 ^ k) + 1 + e)
    by (rewrite log2_shift by done; lia).
  fold F. rewrite shr_none by lia. cbn [exact_record shr_m].
  destruct a as [|p|]; [done| |done]. destruct (Z.leb_spec (e + k) (demax - dprec)); [done|lia].
Qed.

(** Rounding a mantissa that stands for an integer below 2^53. *)
Lemma round_integer s m e z :
  e ≤ 0 → m = z * 2 ^ (- e) → 0 < z < 2 ^ 53 →
  is_integer (binary_round_aux dprec demax s m e loc_Exact) (if s then - z else z).
Proof.
  intros He Hm Hz.
  assert (0 ≤ Z.log2 z < 53) as Hlog.
  { split; [apply Z.log2_nonneg|]. apply Z.log2_lt_pow2; lia. }
  set (k := Z.max (Z.log2 z - 52 - e) 0). assert (0 ≤ k ≤ - e) as Hk by lia.
  rewrite (binary_round_aux_exact s m e (z * 2 ^ (- e - k)) k).
  - unfold is_integer. split; [lia|].
    assert (0 < 2 ^ (- e - k)) by (apply Z.pow_pos_nonneg; lia).
    rewrite Z2Pos.id by nia. replace (- (e + k)) with (- e - k) by lia.
    destruct s; lia.
  - assert (0 < 2 ^ (- e - k)) by (apply Z.pow_pos_nonneg; lia). nia.
  - lia.
  - rewrite Hm, <- Z.mul_assoc, <- Z.pow_add_r by lia. do 2 f_equal. lia.
  - rewrite Hm, log2_shift by lia. unfold fexp, emin, dprec, demax. lia.
  - unfold demax, dprec. lia.
Qed.

Lemma shl_exact p q : Zpos (Pos.iter xO p q) = Zpos p * 2 ^ Zpos q.
Proof.
  induction q as [|q IH] using Pos.peano_ind; [cbn; lia|].
  rewrite Pos.iter_succ, Pos2Z.inj_succ, Z.pow_succ_r by lia.
  rewrite (Pos2Z.inj_xO (Pos.iter xO p q)), IH. lia.
Qed.

Lemma double_of_Z_integer z : Z.abs z < 2 ^ 53 → is_integer (double_of_Z z) z.
Proof.
  intros Hz. unfold double_of_Z, binary_normalize.
  assert (∀ s p, Zpos p < 2 ^ 53 →
    is_integer (binary_round dprec demax s p 0) (if s then - Zpos p else Zpos p)) as Hpos.
  { intros s p Hp. unfold binary_round, shl_align.
    assert (Zpos (digits2_pos p) = Z.log2 (Zpos p) + 1) as Hd by (by apply (Zdigits2_log2 (Zpos p))).
    rewrite Hd. pose proof (Z.log2_nonneg (Zpos p)).
    assert (Z.log2 (Zpos p) < 53) by (apply Z.log2_lt_pow2; lia).
    replace (fexp dprec demax (Z.log2 (Zpos p) + 1 + 0) - 0) with (Z.log2 (Zpos p) - 52)
      by (unfold fexp, emin, dprec, demax; lia).
    replace (fexp dprec demax (Z.log2 (Zpos p) + 1 + 0)) with (Z.log2 (Zpos p) - 52)
      by (unfold fexp, emin, dprec, demax; lia).
    destruct (Z.log2 (Zpos p) - 52) as [|q|q] eqn:E; [|lia|].
    - apply round_integer; [lia|cbn; lia|lia].
    - apply round_integer; [lia| |lia]. apply shl_exact. }
  destruct z as [|p|p]; [done|by apply (Hpos false)|by apply (Hpos true)].
Qed.

(** The sign and the magnitude of an integer value that is not zero. *)
Lemma is_integer_finite x z :
  is_integer x z → z ≠ 0 →
  ∃ s m e, x = S754_finite s m e ∧ e ≤ 0 ∧ Zpos m = Z.abs z * 2 ^ (- e) ∧
    z = (if s then - Z.abs z else Z.abs z).
Proof.
  destruct x as [s|s| |s m e]; cbn; try done. intros [He Hm] Hz.
  exists s, m, e. assert (0 < 2 ^ (- e)) by (apply Z.pow_pos_nonneg; lia).
  split_and!; try done; destruct s; nia.
Qed.

Lemma dmul_integer x y a b :
  is_integer x a → is_integer y b → Z.abs (a * b) < 2 ^ 53 → is_integer (dmul x y) (a * b).
Proof.
  intros Hx Hy Hab. destruct (decide (a = 0)) as [->|Ha].
  { destruct x as [sx|sx| |sx mx ex]; cbn in Hx; try done.
    - destruct y; cbn in *; try done; lia.
    - destruct Hx as [_ Hx]. by destruct sx. }
  destruct (decide (b = 0)) as [->|Hb].
  { rewrite Z.mul_0_r. apply is_integer_finite in Hx as (sx & mx & ex & -> & _); [|done].
    destruct y as [sy|sy| |sy my ey]; cbn in Hy; try done.
    destruct Hy as [_ Hy]. by destruct sy. }
  apply is_integer_finite in Hx as (sx & mx & ex & -> & Hex & Hmx & Hsx); [|done].
  apply is_integer_finite in Hy as (sy & my & ey & -> & Hey & Hmy & Hsy); [|done].
  unfold dmul, SFmul.
  pose proof (round_integer (xorb sx sy) (Zpos (mx * my)) (ex + ey) (Z.abs a * Z.abs b)) as H.
  replace (a * b) with (if xorb sx sy then - (Z.abs a * Z.abs b) else Z.abs a * Z.abs b)
    by (destruct sx, sy; cbn; rewrite Hsx, Hsy; lia).
  apply H; [lia| |nia]. rewrite Pos2Z.inj_mul, Hmx, Hmy.
  replace (- (ex + ey)) with (- ex + - ey) by lia. rewrite Z.pow_add_r by lia. lia.
Qed.

Lemma ddiv_integer x y a b :
  is_integer x (a * b) → is_integer y b → b ≠ 0 → Z.abs a < 2 ^ 53 → is_integer (ddiv x y) a.
Proof.
  intros Hx Hy Hb Ha.
  apply is_integer_finite in Hy as (sy & my & ey & -> & Hey & Hmy & Hsy); [|done].
  destruct (decide (a = 0)) as [->|Ha0].
  { destruct x as [sx|sx| |sx mx ex]; cbn in Hx; try done.
    destruct Hx as [_ Hx]. by destruct sx. }
  apply is_integer_finite in Hx as (sx & mx & ex & -> & Hex & Hmx & Hsx); [|nia].
  rewrite Z.abs_mul in Hmx.
  set (A := Z.abs a) in *. set (C := Z.abs b) in *. assert (0 < A ∧ 0 < C) as [HA HC] by lia.
  set (D := Z.log2 (A * C) - Z.log2 C).
  assert (0 ≤ Z.log2 A < 53) as HlA
    by (split; [apply Z.log2_nonneg|apply Z.log2_lt_pow2; lia]).
  assert (Z.log2 A ≤ D ≤ Z.log2 A + 1) as HD
    by (pose proof (Z.log2_mul_below A C); pose proof (Z.log2_mul_above A C); lia).
  assert (0 < 2 ^ (- ex) ∧ 0 < 2 ^ (- ey)) as [Hpx Hpy]
    by (split; apply Z.pow_pos_nonneg; lia).
  assert (Zdigits2 (Zpos mx) + ex - (Zdigits2 (Zpos my) + ey) = D) as Hdig.
  { rewrite !Zdigits2_log2, Hmx, Hmy, !log2_shift by nia. lia. }
  set (e' := Z.min (fexp dprec demax D) (ex - ey)).
  assert (e' ≤ 0) as He' by (unfold e', fexp, emin, dprec, demax; lia).
  assert (Zpos mx * 2 ^ (ex - ey - e') = A * 2 ^ (- e') * Zpos my) as Hq.
  { rewrite Hmx, Hmy. rewrite <- !Z.mul_assoc. f_equal.
    rewrite (Z.mul_comm (2 ^ (- e'))), <- !Z.mul_assoc. f_equal.
    rewrite <- !Z.pow_add_r by lia. f_equal. lia. }
  unfold ddiv, SFdiv, SFdiv_core_binary. rewrite Hdig. fold e'.
  assert (match ex - ey - e' with
          | Z0 => Zpos mx | Zpos _ => Z.shiftl (Zpos mx) (ex - ey - e') | Zneg _ => 0
          end = A * 2 ^ (- e') * Zpos my) as ->.
  { rewrite <- Hq. assert (0 ≤ ex - ey - e') by lia.
    destruct (ex - ey - e') as [|p|] eqn:E; [by rewrite Z.mul_1_r| |lia].
    by rewrite Z.shiftl_mul_pow2 by lia. }
  pose proof (Z.div_eucl_eq (A * 2 ^ (- e') * Zpos my) (Zpos my) ltac:(lia)) as Hde.
  pose proof (Z_mod_mult (A * 2 ^ (- e')) (Zpos my)) as Hmod.
  pose proof (Z_div_mult (A * 2 ^ (- e')) (Zpos my) ltac:(lia)) as Hdiv.
  unfold Z.modulo, Z.div in Hmod, Hdiv.
  destruct (Z.div_eucl (A * 2 ^ (- e') * Zpos my) (Zpos my)) as [q r]. subst q r.
  replace (new_location (Zpos my) 0) with loc_Exact
    by (unfold new_location; by destruct (Z.even (Zpos my))).
  replace a with (if xorb sx sy then - A else A).
  - apply round_integer; [done|done|lia].
  - assert (0 < A * C) by nia. rewrite Z.abs_mul in Hsx. fold A C in Hsx.
    destruct sx, sy; cbn; subst A C; nia.
Qed.

Lemma double_trunc_integer x z : is_integer x z → double_trunc x = Some z.
Proof.
  intros Hx. destruct (decide (z = 0)) as [->|Hz0].
  { destruct x as [s|s| |s m e]; cbn in Hx; try done. destruct Hx as [_ Hx]. by destruct s. }
  apply is_integer_finite in Hx as (s & m & e & -> & He & Hm & Hs); [|done].
  cbn [double_trunc]. rewrite Hm.
  assert ((if 0 <=? e then Z.abs z * 2 ^ (- e) * 2 ^ e else Z.abs z * 2 ^ (- e) / 2 ^ (- e))
    = Z.abs z) as ->; [|by rewrite <- Hs].
  destruct (Z.leb_spec 0 e); [assert (e = 0) as -> by lia; cbn; lia|].
  apply Z.div_mul. pose proof (Z.pow_pos_nonneg 2 (- e)). lia.
Qed.

Lemma double_to_long_integer x z :
  is_integer x z → in_long z → double_to_long x = Ret z.
Proof.
  intros Hx Hz. unfold double_to_long. by rewrite (double_trunc_integer _ _ Hx), decide_True.
Qed.
