(* ===== verification/Timestamp.v ===== *)
(** Time stamps of the C++ logging library:
    [src/src/log/muduo-clog/muduo/base/Timestamp.h] and [Timestamp.cc], as the
    number of microseconds since the epoch, and the text of a broken-down time
    that [Timestamp] and [Logger] print. [gmtime_r] and the answer of
    [gettimeofday] are arguments. *)

From S2P Require Import Prelude CString MuduoDate Double.

Definition kMicroSecondsPerSecond : Z := 1000 * 1000.

(** ["%4d%02d%02d %02d:%02d:%02d"]. *)
Definition time_text (t : utc_tm) : bytes :=
  print_space 4 (utc_year t + 1900) ++ print_pad 2 (utc_mon t + 1) ++
  print_pad 2 (utc_mday t) ++ lit " " ++ print_pad 2 (utc_hour t) ++ lit ":" ++
  print_pad 2 (utc_min t) ++ lit ":" ++ print_pad 2 (utc_sec t).

Definition Timestamp_invalid : Z := 0.
Definition Timestamp_valid (us : Z) : bool := 0 <? us.
Definition secondsSinceEpoch (us : Z) : Z := Z.quot us kMicroSecondsPerSecond.
Definition Timestamp_less (l r : Z) : bool := l <? r.
Definition Timestamp_equal (l r : Z) : bool := l =? r.

Definition fromUnixTime (t microseconds : Z) : outcome Z :=
  us ← long_ (t * kMicroSecondsPerSecond);
  long_ (us + microseconds).

(** [now()] on the answer of [gettimeofday]. *)
Definition Timestamp_now (tv_sec tv_usec : Z) : outcome Z :=
  us ← long_ (tv_sec * kMicroSecondsPerSecond);
  long_ (us + tv_usec).

(** [toString()]: ["%ld.%06ld"] into 31 characters. *)
Definition Timestamp_toString (us : Z) : bytes :=
  snprintf 31 (print_d (Z.quot us kMicroSecondsPerSecond) ++ lit "." ++
               print_pad 6 (Z.rem us kMicroSecondsPerSecond)).

Definition toFormattedString (gmtime_r : Z → utc_tm) (us : Z) (showMicroseconds : bool) : bytes :=
  let tm_time := gmtime_r (Z.quot us kMicroSecondsPerSecond) in
  snprintf 32 (time_text tm_time ++
    (if showMicroseconds
     then lit "." ++ print_pad 6 (to_s 32 (Z.rem us kMicroSecondsPerSecond)) else [])).

(** A time of the epoch or later keeps its seconds. *)
Lemma fromUnixTime_seconds t us :
  0 ≤ t → 0 ≤ us < kMicroSecondsPerSecond → in_long (t * kMicroSecondsPerSecond + us) →
  wp (fromUnixTime t us) (λ x, secondsSinceEpoch x = t ∧ (0 < t → Timestamp_valid x = true)).
Proof.
  unfold in_long, LONG_MIN, LONG_MAX, kMicroSecondsPerSecond. intros Ht Hus Hlong.
  unfold fromUnixTime, kMicroSecondsPerSecond.
  apply wp_bind, wp_long; [unfold in_long, LONG_MIN, LONG_MAX; lia|].
  apply wp_long; [unfold in_long, LONG_MIN, LONG_MAX; lia|].
  unfold secondsSinceEpoch, Timestamp_valid, kMicroSecondsPerSecond.
  change (1000 * 1000) with 1000000 in *. split; [|lia].
  rewrite Z.quot_div_nonneg by lia. rewrite Z.div_add_l, Z.div_small by lia. lia.
Qed.

Example toString_texts :
  Timestamp_toString 1527000000000042 = lit "1527000000.000042" ∧
  toFormattedString (λ t, utc_of t false) 1527000000000042 true
    = lit "20180522 14:40:00.000042" ∧
  Timestamp_toString (-1) = lit "0.-00001".
Proof. by vm_compute. Qed.

(** ** Differences in seconds, as [double] *)

Definition timeDifference (high low : Z) : outcome double :=
  diff ← long_ (high - low);
  mret (ddiv (double_of_Z diff) (double_of_Z kMicroSecondsPerSecond)).

Definition addTime (timestamp : Z) (seconds : double) : outcome Z :=
  delta ← double_to_long (dmul seconds (double_of_Z kMicroSecondsPerSecond));
  long_ (timestamp + delta).

(** Whole seconds, for 285 years: the difference of two time stamps is the number
    of seconds, adding a number of seconds adds exactly these, and adding the
    difference to the lower time gives the higher one back. *)
Lemma whole_seconds_exact low n :
  Z.abs (n * kMicroSecondsPerSecond) < 2 ^ 53 → in_long low →
  in_long (low + n * kMicroSecondsPerSecond) →
  addTime low (double_of_Z n) = Ret (low + n * kMicroSecondsPerSecond) ∧
  wp (timeDifference (low + n * kMicroSecondsPerSecond) low) (λ d, is_integer d n ∧
    addTime low d = Ret (low + n * kMicroSecondsPerSecond)).
Proof.
  unfold kMicroSecondsPerSecond. change (1000 * 1000) with 1000000. intros Hn Hlow Hhigh.
  pose proof (double_of_Z_integer 1000000 eq_refl) as Hmillion.
  assert (∀ d, is_integer d n → addTime low d = Ret (low + n * 1000000)) as Hadd.
  { intros d Hd. unfold addTime, kMicroSecondsPerSecond. change (1000 * 1000) with 1000000.
    rewrite (double_to_long_integer _ (n * 1000000)).
    - rewrite Ret_bind. unfold long_. by rewrite decide_True.
    - by apply dmul_integer.
    - unfold in_long, LONG_MIN, LONG_MAX in *. lia. }
  split; [apply Hadd, double_of_Z_integer; lia|].
  unfold timeDifference, kMicroSecondsPerSecond. change (1000 * 1000) with 1000000.
  replace (low + n * 1000000 - low) with (n * 1000000) by lia.
  rewrite long_bind by (unfold in_long, LONG_MIN, LONG_MAX in *; lia). apply wp_mret.
  assert (is_integer (ddiv (double_of_Z (n * 1000000)) (double_of_Z 1000000)) n); [|by auto].
  apply (ddiv_integer _ _ n 1000000); [by apply double_of_Z_integer|done|done|lia].
Qed.

(** Microseconds do not survive: 249 of them become a number of seconds whose
    product with a million is just below 249, and the conversion cuts it off. *)
Example microseconds_lost :
  (d ← timeDifference 1527000000000249 1527000000000000; addTime 1527000000000000 d) =
    Ret 1527000000000248.
Proof. vm_compute. reflexivity. Qed.

Lemma whole_seconds_exact_witness :
  addTime 1527000000000042 (double_of_Z 3600) = Ret (1527000000000042 + 3600 * kMicroSecondsPerSecond) ∧
  wp (timeDifference (1527000000000042 + 3600 * kMicroSecondsPerSecond) 1527000000000042)
    (λ d, is_integer d 3600 ∧
      addTime 1527000000000042 d = Ret (1527000000000042 + 3600 * kMicroSecondsPerSecond)).
Proof. apply whole_seconds_exact; [done|split; done..]. Defined.
