(* ===== verification/DoubleText.v ===== *)
(** The text of a [double]: [%.Pg] and [%.Pf] of [printf], with the exact value
    rounded to the nearest decimal, halves to even. *)

From Stdlib Require Import SpecFloat.
From S2P Require Import Prelude CString Double.

Open Scope Z_scope.

Definition dadd : double → double → double := SFadd dprec demax.
Definition deqb (x y : double) : bool := SFeqb x y.
(** The literal [a / 10^k]. *)
Definition decimal (a k : Z) : double := ddiv (double_of_Z a) (double_of_Z (10 ^ k)).

(** [num / den] rounded to the nearest integer, halves to even. *)
Definition round_div (num den : Z) : Z :=
  let q := num / den in
  let r := num mod den in
  if 2 * r <? den then q else if den <? 2 * r then q + 1
  else if Z.even q then q else q + 1.

(** [num / den] brought between 1 and 10 by a power of ten, with its exponent. *)
Fixpoint scale_down (fuel : nat) (num den x : Z) : Z * Z * Z :=
  match fuel with
  | O => (num, den, x)
  | S n => if 10 * den <=? num then scale_down n num (10 * den) (x + 1) else (num, den, x)
  end.
Fixpoint scale_up (fuel : nat) (num den x : Z) : Z * Z * Z :=
  match fuel with
  | O => (num, den, x)
  | S n => if num <? den then scale_up n (10 * num) den (x - 1) else (num, den, x)
  end.

(** A positive value of type [double] is below 10^309 and above 10^-324. *)
Definition scale (num den : Z) : Z * Z * Z :=
  let '(num, den, x) := scale_down 310 num den 0 in scale_up 330 num den x.

(** The last [n] decimal digits of a number. *)
Fixpoint low_digits (n : nat) (v : Z) : bytes :=
  match n with
  | O => []
  | S n => low_digits n (v / 10) ++ [digit_char (v mod 10)]
  end.

Definition strip_zeros (s : bytes) : bytes :=
  rev (drop_while (λ c, bool_decide (c = "0"%char)) (rev s)).

Definition with_fraction (whole fraction : bytes) : bytes :=
  match strip_zeros fraction with
  | [] => whole
  | f => whole ++ lit "." ++ f
  end.

(** [%.pg] of the positive [num / den]. *)
Definition print_g_pos (p : nat) (num den : Z) : bytes :=
  let '(num, den, x) := scale num den in
  let d := round_div (num * 10 ^ (Z.of_nat p - 1)) den in
  let '(d, x) := if d =? 10 ^ Z.of_nat p then (d / 10, x + 1) else (d, x) in
  let ds := low_digits p d in
  if (x <? -4) || (Z.of_nat p <=? x)
  then with_fraction (take 1 ds) (drop 1 ds) ++ lit "e" ++
       (if x <? 0 then lit "-" else lit "+") ++ low_digits (if Z.abs x <? 100 then 2 else 3) (Z.abs x)
  else if x <? 0
  then with_fraction (lit "0") (replicate (Z.to_nat (- x - 1)) "0"%char ++ ds)
  else with_fraction (take (Z.to_nat x + 1) ds) (drop (Z.to_nat x + 1) ds).

(** [%.pf] of the positive [num / den]. *)
Definition print_f_pos (p : nat) (num den : Z) : bytes :=
  let d := round_div (num * 10 ^ Z.of_nat p) den in
  let fraction := low_digits p d in
  print_u (d / 10 ^ Z.of_nat p) ++ (if decide (fraction = []) then [] else lit "." ++ fraction).

Definition minus (s : bool) : bytes := if s then lit "-" else [].
Definition fraction_of (m : positive) (e : Z) : Z * Z :=
  if 0 <=? e then (Zpos m * 2 ^ e, 1) else (Zpos m, 2 ^ (- e)).

Definition print_double (pos : Z → Z → bytes) (zero : bytes) (x : double) : bytes :=
  match x with
  | S754_zero s => minus s ++ zero
  | S754_infinity s => minus s ++ lit "inf"
  | S754_nan => lit "nan"
  | S754_finite s m e => let '(num, den) := fraction_of m e in minus s ++ pos num den
  end.

Definition print_g (p : nat) (x : double) : bytes := print_double (print_g_pos p) (lit "0") x.
Definition print_f (p : nat) (x : double) : bytes :=
  print_double (print_f_pos p) (print_f_pos p 0 1) x.

Example printed_doubles :
  print_g 12 (decimal 1 1) = lit "0.1" ∧ print_g 12 (decimal 15 2) = lit "0.15" ∧
  print_g 12 (decimal 123456789 8) = lit "1.23456789" ∧
  print_g 12 (decimal (-123456) 3) = lit "-123.456" ∧
  print_g 12 (double_of_Z (10 ^ 15)) = lit "1e+15" ∧
  print_g 12 (ddiv (double_of_Z 1) (double_of_Z 3)) = lit "0.333333333333" ∧
  print_g 12 (decimal 25 7) = lit "2.5e-06" ∧
  print_g 12 (double_of_Z 999999999999) = lit "999999999999" ∧
  print_g 12 (decimal 9999999999999 1) = lit "1e+12" ∧
  print_f 2 (decimal 12 1) = lit "1.20" ∧ print_f 0 (decimal 25 1) = lit "2".
Proof. by vm_compute. Qed.

(** ** The length of the text *)

Lemma length_low_digits n v : length (low_digits n v) = n.
Proof. revert v. induction n as [|n IH]; intros v; cbn; [done|]. rewrite length_app, IH. cbn. lia. Qed.

Lemma with_fraction_length w f : (length (with_fraction w f) ≤ length w + 1 + length f)%nat.
Proof.
  unfold with_fraction. assert (length (strip_zeros f) ≤ length f)%nat as H.
  { unfold strip_zeros. rewrite length_rev. etransitivity; [apply drop_while_length|].
    by rewrite length_rev. }
  destruct (strip_zeros f); cbn in *; [lia|]. rewrite length_app. cbn in *. lia.
Qed.

(** A sign, a digit, a point, the other digits and an exponent of three digits. *)
Lemma print_g_length p x : (1 ≤ p)%nat → (length (print_g p x) ≤ p + 8)%nat.
Proof.
  intros Hp. assert (∀ num den, (length (print_g_pos p num den) ≤ p + 6)%nat) as Hpos.
  { intros num den. unfold print_g_pos. destruct (scale num den) as [[n d] e].
    destruct (if _ =? _ then _ else _) as [v x']. set (ds := low_digits p v).
    assert (length ds = p) as Hds by apply length_low_digits.
    destruct (_ || _) eqn:Hx; [|apply orb_false_iff in Hx as [Hx1%Z.ltb_ge Hx2%Z.leb_gt];
      destruct (x' <? 0) eqn:Hneg].
    - rewrite !length_app, length_low_digits.
      pose proof (with_fraction_length (take 1 ds) (drop 1 ds)) as Hw.
      rewrite length_take, length_drop in Hw.
      assert (length (if x' <? 0 then lit "-" else lit "+") = 1%nat) as -> by (by destruct (x' <? 0)).
      change (length (lit "e")) with 1%nat. destruct (Z.abs x' <? 100); lia.
    - apply Z.ltb_lt in Hneg.
      pose proof (with_fraction_length (lit "0") (replicate (Z.to_nat (- x' - 1)) "0"%char ++ ds)) as Hw.
      rewrite length_app, length_replicate in Hw. change (length (lit "0")) with 1%nat in Hw. lia.
    - pose proof (with_fraction_length (take (Z.to_nat x' + 1) ds) (drop (Z.to_nat x' + 1) ds)) as Hw.
      rewrite length_take, length_drop in Hw. lia. }
  assert (∀ s, (length (minus s) ≤ 1)%nat) as Hm by (intros []; cbn; lia).
  unfold print_g, print_double. destruct x as [s|s| |s m e]; rewrite ?length_app; cbn; try lia.
  - specialize (Hm s). lia.
  - specialize (Hm s). lia.
  - destruct (fraction_of m e) as [n d]. rewrite length_app. specialize (Hm s).
    specialize (Hpos n d). lia.
Qed.
