(* ===== verification/LogStream.v ===== *)
(** Text buffers and formatting of the C++ logging library:
    [src/src/log/muduo-clog/muduo/base/LogStream.h] and [LogStream.cc].

    A [FixedBuffer<SIZE>] is an array of [SIZE] characters with a cursor; every
    write into it is checked against the array. [convert] and [convertHex] write
    digits backwards and reverse them, as in the source; the specification is
    the decimal output of [CString] and a hexadecimal counterpart. [text] is the
    abstraction: what [toString()] returns. [LogBuffer] states what the
    asynchronous log needs from a buffer; [FixedBuffer] is its instance. *)

From S2P Require Import Prelude CString Memory Double DoubleText.

(** ** FixedBuffer *)

Definition kSmallBuffer : Z := 4000.
Definition kLargeBuffer : Z := 8000 * 1000.

(** [data_[SIZE]] and the index of [cur_] in it. *)
Record FixedBuffer := { data_ : bytes; cur_ : Z }.

(** The constructor leaves the contents of the memory, [mem]. *)
Definition fb_new (mem : bytes) : FixedBuffer := {| data_ := mem; cur_ := 0 |}.
Definition fb_length (b : FixedBuffer) : Z := cur_ b.
Definition fb_avail (b : FixedBuffer) : Z := zlen (data_ b) - cur_ b.

Definition fb_append (b : FixedBuffer) (s : bytes) : outcome FixedBuffer :=
  if decide (fb_avail b > zlen s)
  then d ← memcpy (data_ b) (cur_ b) s; mret {| data_ := d; cur_ := cur_ b + zlen s |}
  else mret b.

Definition fb_add (b : FixedBuffer) (len : Z) : FixedBuffer :=
  {| data_ := data_ b; cur_ := cur_ b + len |}.
Definition fb_reset (b : FixedBuffer) : FixedBuffer :=
  {| data_ := data_ b; cur_ := 0 |}.
Definition fb_bzero (b : FixedBuffer) : FixedBuffer :=
  {| data_ := replicate (length (data_ b)) NUL; cur_ := cur_ b |}.
Definition fb_debugString (b : FixedBuffer) : outcome FixedBuffer :=
  d ← aset (data_ b) (cur_ b) NUL; mret {| data_ := d; cur_ := cur_ b |}.
(** [string(data_, length())]. *)
Definition fb_toString (b : FixedBuffer) : bytes := take (Z.to_nat (cur_ b)) (data_ b).

(** The cursor stays strictly inside the array. *)
Definition fb_ok (SIZE : Z) (b : FixedBuffer) : Prop :=
  zlen (data_ b) = SIZE ∧ 0 ≤ cur_ b < SIZE.

(** ** Integers *)

Definition digits : bytes := lit "9876543210123456789".
(** [zero[i]], where [zero = digits + 9]. *)
Definition zero_at (i : Z) : outcome ascii := aget digits (9 + i).
Definition digitsHex : bytes := lit "0123456789ABCDEF".

(** One turn of a [do]-[while] loop on [i] and [p]: the digits from [table] of
    the remainders by [base]. *)
Definition digit_turn (base : Z) (table : Z → outcome ascii) (st : Z * Z * bytes)
    : outcome (turn (Z * Z * bytes) (Z * bytes)) :=
  let '(i, p, buf) := st in
  let lsd := Z.rem i base in
  let i := Z.quot i base in
  c ← table lsd;
  buf ← aset buf p c;
  if decide (i = 0) then mret (Stop (p + 1, buf)) else mret (Next (i, p + 1, buf)).

(** [convert(buf, value)]: [buf] is the index of the destination in [data]; 20
    digits are enough for 64 bits. *)
Definition convert (data : bytes) (buf value : Z) : outcome (bytes * Z) :=
  '(p, data) ← loop 20 (digit_turn 10 zero_at) (value, buf, data);
  '(p, data) ← (if decide (value < 0)
                then data ← aset data p "-"%char; mret (p + 1, data)
                else mret (p, data));
  data ← aset data p NUL;
  mret (reverse_range data buf p, p - buf).

Definition convertHex (data : bytes) (buf value : Z) : outcome (bytes * Z) :=
  '(p, data) ← loop 20 (digit_turn 16 (aget digitsHex)) (value, buf, data);
  data ← aset data p NUL;
  mret (reverse_range data buf p, p - buf).

(** ** The decimal digits from the last one *)

Section digits.
Context (base : Z) (Hbase : 1 < base) (dig : Z → ascii).

Fixpoint rev_digits (fuel : nat) (n : Z) : bytes :=
  match fuel with
  | O => []
  | S f => dig (n mod base) :: if n <? base then [] else rev_digits f (n / base)
  end.

(** The loop writes the digits of the absolute value; [f] digits are enough
    below [base ^ f]. *)
Lemma digit_loop table f i p data :
  (∀ d, - base < d < base → (0 ≤ i → 0 ≤ d) → table d = Ret (dig (Z.abs d))) →
  (0 < f)%nat → Z.abs i < base ^ Z.of_nat f →
  0 ≤ p → p + Z.of_nat f ≤ zlen data →
  let ds := rev_digits f (Z.abs i) in
  zlen ds ≤ Z.of_nat f ∧
  loop f (digit_turn base table) (i, p, data) = Ret (p + zlen ds, blit data p ds).
Proof.
  revert i p data. induction f as [|f IH]; intros i p data Ht Hf Hi Hp Hl; [lia|].
  assert (Hr : - base < Z.rem i base < base).
  { pose proof (Z.rem_bound_abs i base). lia. }
  assert (Hq : Z.abs (Z.quot i base) = Z.abs i / base).
  { rewrite <- Z.quot_abs, (Z.abs_eq base), Z.quot_div_nonneg by lia. done. }
  assert (Hm : Z.abs (Z.rem i base) = Z.abs i mod base).
  { rewrite <- Z.rem_abs, (Z.abs_eq base), Z.rem_mod_nonneg by lia. done. }
  assert (Hlt : Z.abs i < base ↔ Z.quot i base = 0).
  { split; intros.
    - rewrite Z.div_small in Hq by lia. lia.
    - destruct (decide (Z.abs i < base)); [done|].
      assert (1 ≤ Z.abs i / base) by (apply Z.div_le_lower_bound; lia). lia. }
  cbn [loop rev_digits digit_turn]. cbv zeta.
  rewrite Ht; [|done|intros; apply Z.rem_bound_pos; lia].
  rewrite Ret_bind, aset_ok, Ret_bind, Hm, upd_blit by lia.
  set (c := dig _).
  assert (Hlen : zlen (blit data p [c]) = zlen data) by (apply zlen_blit; unfold zlen in *; simpl; lia).
  destruct (decide (Z.quot i base = 0)) as [E|E].
  - rewrite (proj2 (Z.ltb_lt _ _)) by tauto. split; [unfold zlen; simpl; lia|done].
  - rewrite (proj2 (Z.ltb_ge _ _)) by (apply Z.le_ngt; tauto).
    assert (0 < f)%nat.
    { destruct f; [|lia]. exfalso. change (Z.of_nat 1) with 1 in Hi.
      rewrite Z.pow_1_r in Hi. tauto. }
    rewrite Nat2Z.inj_succ, Z.pow_succ_r in Hi by lia.
    destruct (IH (Z.quot i base) (p + 1) (blit data p [c])) as [IHl IHr].
    + intros d Hd Hs. apply Ht; [done|]. intros. apply Hs. apply Z.quot_pos; lia.
    + done.
    + rewrite Hq. apply Z.div_lt_upper_bound; lia.
    + lia.
    + lia.
    + rewrite mret_bind, IHr, Hq. rewrite Hq in IHl.
      split; [unfold zlen in *; simpl; lia|].
      set (ds := rev_digits f _) in *.
      change (p + 1) with (p + zlen [c]).
      rewrite blit_app by (unfold zlen in *; simpl; lia).
      do 2 f_equal. unfold zlen. simpl. lia.
Qed.
End digits.

Lemma print_digits_rev f n acc :
  print_digits f n acc = rev (rev_digits 10 digit_char f n) ++ acc.
Proof.
  revert n acc. induction f as [|f IH]; intros n acc; [done|].
  cbn [print_digits rev_digits]. destruct (n <? 10); [done|].
  rewrite IH. cbn [rev]. by rewrite <- app_assoc.
Qed.

(** Hexadecimal output, the counterpart of [print_u]. *)
Definition hex_char (d : Z) : ascii := rd digitsHex d.
Definition print_hex (n : Z) : bytes := rev (rev_digits 16 hex_char 20 n).

Lemma zero_at_ok d : -10 < d < 10 → zero_at d = Ret (digit_char (Z.abs d)).
Proof.
  intros Hd. assert (Forall (λ d, zero_at d = Ret (digit_char (Z.abs d))) (seqZ (-9) 19))
    as H by (vm_compute; repeat constructor).
  rewrite Forall_forall in H. apply H, elem_of_seqZ. lia.
Qed.

(** The end of both conversions: the terminator, and the reversal. *)
Lemma finish_digits data p s :
  0 ≤ p → p + zlen s < zlen data →
  (data ← aset (blit data p s) (p + zlen s) NUL;
   mret (reverse_range data p (p + zlen s), p + zlen s - p)) =
  Ret (blit data p (rev s ++ [NUL]), zlen (rev s)).
Proof.
  intros Hp Hl. pose proof (zlen_nonneg s).
  assert (zlen [NUL] = 1) by done.
  rewrite aset_ok by (rewrite zlen_blit; lia). rewrite Ret_bind.
  rewrite upd_blit by (rewrite zlen_blit; lia).
  rewrite blit_app, <- blit_app_r, reverse_blit by (rewrite ?zlen_blit; lia).
  assert (Hr : zlen (rev s) = zlen s) by (unfold zlen; by rewrite length_rev).
  rewrite <- Hr at 1. rewrite blit_app_r by lia.
  unfold mret, outcome_ret. do 2 f_equal. lia.
Qed.

(** [convert] is the decimal output of [printf], for the negative numbers too. *)
Lemma convert_ok data buf v :
  - 10 ^ 20 < v < 10 ^ 20 → 0 ≤ buf → buf + 32 ≤ zlen data →
  convert data buf v = Ret (blit data buf (print_d v ++ [NUL]), zlen (print_d v)) ∧
  zlen (print_d v) ≤ 21.
Proof.
  intros Hv Hb Hl.
  destruct (digit_loop 10 ltac:(lia) digit_char zero_at 20 v buf data) as [Hd Hloop];
    [intros; by apply zero_at_ok|lia|lia|lia|lia|].
  set (ds := rev_digits 10 digit_char 20 (Z.abs v)) in *.
  pose proof (zlen_nonneg ds).
  assert (Hrev : zlen (rev ds) = zlen ds) by (unfold zlen; by rewrite length_rev).
  unfold convert. rewrite Hloop, Ret_bind. unfold print_d, print_u.
  destruct (decide (v < 0)).
  - rewrite (proj2 (Z.ltb_lt v 0)) by done. rewrite print_digits_rev, app_nil_r.
    replace (- v) with (Z.abs v) by lia. fold ds.
    rewrite aset_ok, Ret_bind, mret_bind by (rewrite zlen_blit; lia).
    assert (zlen ["-"%char] = 1) by done.
    rewrite upd_blit, blit_app by (rewrite ?zlen_blit; lia).
    replace (buf + zlen ds + 1) with (buf + zlen (ds ++ ["-"%char]))
      by (rewrite zlen_app; lia).
    rewrite finish_digits by (rewrite ?zlen_app; lia).
    rewrite rev_app_distr. split; [done|].
    change ("-"%char :: rev ds) with (["-"%char] ++ rev ds). rewrite zlen_app. lia.
  - rewrite (proj2 (Z.ltb_ge v 0)) by lia. rewrite print_digits_rev, app_nil_r.
    replace v with (Z.abs v) by lia. fold ds.
    rewrite mret_bind, finish_digits by lia. split; [done|lia].
Qed.

Lemma convertHex_ok data buf v :
  0 ≤ v < 2 ^ 64 → 0 ≤ buf → buf + 30 ≤ zlen data →
  convertHex data buf v = Ret (blit data buf (print_hex v ++ [NUL]), zlen (print_hex v)) ∧
  zlen (print_hex v) ≤ 20.
Proof.
  intros Hv Hb Hl.
  destruct (digit_loop 16 ltac:(lia) hex_char (aget digitsHex) 20 v buf data)
    as [Hd Hloop]; [|lia|lia|lia|lia|].
  { intros d Hd1 Hd2. unfold hex_char. rewrite Z.abs_eq by lia.
    apply aget_ok. change (zlen digitsHex) with 16. lia. }
  unfold print_hex. replace (Z.abs v) with v in * by lia.
  set (ds := rev_digits 16 hex_char 20 v) in *. pose proof (zlen_nonneg ds).
  unfold convertHex. rewrite Hloop, Ret_bind, finish_digits by lia.
  unfold zlen in *. rewrite length_rev. split; [done|lia].
Qed.

(** ** LogStream *)

Definition kMaxNumericSize : Z := 32.

(** What [operator<<] is given; an [unsigned char *] is a [char *], [IPiece] is
    a [StringPiece]. *)
Inductive item :=
  | IBool (v : bool)
  | IShort (v : Z) | IUShort (v : Z) | IInt (v : Z) | IUInt (v : Z)
  | ILong (v : Z) | IULong (v : Z) | ILongLong (v : Z) | IULongLong (v : Z)
  | IPtr (v : Z)
  | IFloat (v : double) | IDouble (v : double)
  | IChar (v : ascii)
  | IStr (str : option bytes)
  | IString (v : bytes)
  | IPiece (v : bytes)
  | IBuffer (v : FixedBuffer).

(** [LogStream::formatInteger(v)]; the only member of a [LogStream] is
    [buffer_]. *)
Definition formatInteger (b : FixedBuffer) (v : Z) : outcome FixedBuffer :=
  if decide (kMaxNumericSize ≤ fb_avail b)
  then '(d, len) ← convert (data_ b) (cur_ b) v;
       mret (fb_add {| data_ := d; cur_ := cur_ b |} len)
  else mret b.

Definition put_ptr (b : FixedBuffer) (v : Z) : outcome FixedBuffer :=
  if decide (kMaxNumericSize ≤ fb_avail b)
  then d ← aset (data_ b) (cur_ b) "0"%char;
       d ← aset d (cur_ b + 1) "x"%char;
       '(d, len) ← convertHex d (cur_ b + 2) v;
       mret (fb_add {| data_ := d; cur_ := cur_ b |} (len + 2))
  else mret b.

(** [snprintf(current(), kMaxNumericSize, "%.12g", v)] writes at most 31
    characters and the terminator, and returns the length of the text. *)
Definition put_double (b : FixedBuffer) (v : double) : outcome FixedBuffer :=
  if decide (kMaxNumericSize ≤ fb_avail b)
  then let g := print_g 12 v in
       d ← memcpy (data_ b) (cur_ b) (snprintf kMaxNumericSize g ++ [NUL]);
       mret (fb_add {| data_ := d; cur_ := cur_ b |} (zlen g))
  else mret b.

(** The overloads for integers; the casts of the short ones keep the value. *)
Definition put_integer (b : FixedBuffer) (x : item) : outcome FixedBuffer :=
  match x with
  | IShort v | IUShort v | IInt v | IUInt v | ILong v | IULong v
  | ILongLong v | IULongLong v => formatInteger b v
  | _ => mret b
  end.

Definition stream_put (b : FixedBuffer) (x : item) : outcome FixedBuffer :=
  match x with
  | IBool v => fb_append b (if v then lit "1" else lit "0")
  | IShort _ | IUShort _ | IInt _ | IUInt _ | ILong _ | IULong _
  | ILongLong _ | IULongLong _ => put_integer b x
  | IPtr v => put_ptr b v
  | IFloat v | IDouble v => put_double b v
  | IChar v => fb_append b [v]
  | IStr (Some s) => fb_append b (cstr s)
  | IStr None => fb_append b (lit "(null)")
  | IString v | IPiece v => fb_append b v
  | IBuffer v => fb_append b (fb_toString v)
  end.

Fixpoint stream_put_all (b : FixedBuffer) (xs : list item) : outcome FixedBuffer :=
  match xs with
  | [] => mret b
  | x :: xs => b ← stream_put b x; stream_put_all b xs
  end.

(** ** What a stream prints *)

Definition item_text (x : item) : bytes :=
  match x with
  | IBool v => if v then lit "1" else lit "0"
  | IShort v | IUShort v | IInt v | IUInt v | ILong v | IULong v
  | ILongLong v | IULongLong v => print_d v
  | IPtr v => lit "0x" ++ print_hex v
  | IFloat v | IDouble v => print_g 12 v
  | IChar v => [v]
  | IStr (Some s) => cstr s
  | IStr None => lit "(null)"
  | IString v | IPiece v => v
  | IBuffer v => fb_toString v
  end.

Definition numeric (x : item) : bool :=
  match x with
  | IShort _ | IUShort _ | IInt _ | IUInt _ | ILong _ | IULong _ | ILongLong _
  | IULongLong _ | IPtr _ | IFloat _ | IDouble _ => true
  | _ => false
  end.

(** The values of the C types. *)
Definition item_ok (x : item) : Prop :=
  match x with
  | IShort v => - 2 ^ 15 ≤ v < 2 ^ 15
  | IUShort v => 0 ≤ v < 2 ^ 16
  | IInt v => in_int v
  | IUInt v => 0 ≤ v < 2 ^ 32
  | ILong v | ILongLong v => LONG_MIN ≤ v ≤ LONG_MAX
  | IULong v | IULongLong v | IPtr v => 0 ≤ v < 2 ^ 64
  | _ => True
  end.

(** An item is kept when there is room: 32 characters for a number, one more
    than its length for a text. *)
Definition fits (room : Z) (x : item) : bool :=
  if numeric x then bool_decide (kMaxNumericSize ≤ room)
  else bool_decide (zlen (item_text x) < room).

(** The text of a sequence of items written with [room] characters left. *)
Fixpoint kept (room : Z) (xs : list item) : bytes :=
  match xs with
  | [] => []
  | x :: xs => if fits room x
               then item_text x ++ kept (room - zlen (item_text x)) xs
               else kept room xs
  end.

Lemma fb_append_ok SIZE b s :
  fb_ok SIZE b →
  wp (fb_append b s) (λ b', fb_ok SIZE b' ∧
    fb_toString b' = fb_toString b ++ (if decide (zlen s < fb_avail b) then s else []) ∧
    fb_avail b' = fb_avail b - (if decide (zlen s < fb_avail b) then zlen s else 0)).
Proof.
  intros [Hl Hc]. unfold fb_append. pose proof (zlen_nonneg s).
  destruct (decide (fb_avail b > zlen s)); unfold fb_avail in *.
  - rewrite !decide_True by lia. rewrite memcpy_ok, Ret_bind by lia. apply wp_mret.
    unfold fb_ok, fb_toString. cbn [data_ cur_].
    rewrite take_blit, zlen_blit by lia. split_and!; lia || done.
  - rewrite !decide_False by lia. rewrite app_nil_r. apply wp_mret.
    split_and!; try done; lia.
Qed.

(** What every operation does to a stream: the text it prints is kept, whole,
    when it fits, and the cursor stays in the buffer. *)
Definition puts (SIZE : Z) (b : FixedBuffer) (k : bool) (s : bytes)
    (m : outcome FixedBuffer) : Prop :=
  wp m (λ b', fb_ok SIZE b' ∧ fb_toString b' = fb_toString b ++ (if k then s else []) ∧
    fb_avail b' = fb_avail b - (if k then zlen s else 0)).

Lemma fb_append_puts SIZE b s :
  fb_ok SIZE b → puts SIZE b (bool_decide (zlen s < fb_avail b)) s (fb_append b s).
Proof.
  intros Hb. unfold puts. eapply wp_mono; [by apply fb_append_ok|].
  intros b' (? & ? & ?). by destruct (decide _);
    [rewrite bool_decide_true by done|rewrite bool_decide_false by done].
Qed.

(** The numbers: a block written at the cursor, of which [s] is kept. *)
Lemma blit_puts SIZE b s t d :
  fb_ok SIZE b → zlen s + zlen t ≤ fb_avail b → zlen s < fb_avail b →
  d = blit (data_ b) (cur_ b) (s ++ t) →
  puts SIZE b true s (mret (fb_add {| data_ := d; cur_ := cur_ b |} (zlen s))).
Proof.
  intros [Hl Hc] Hle Hlt ->. pose proof (zlen_nonneg s). pose proof (zlen_nonneg t).
  unfold puts, fb_avail in *. apply wp_mret. unfold fb_ok, fb_toString, fb_avail, fb_add.
  cbn [data_ cur_]. rewrite <- blit_app by lia.
  rewrite take_blit_before, take_blit by (rewrite ?zlen_blit; lia).
  rewrite !zlen_blit by (rewrite ?zlen_blit; lia). split_and!; lia || done.
Qed.

Lemma nothing_puts SIZE b s : fb_ok SIZE b → puts SIZE b false s (mret b).
Proof.
  intros Hb. apply wp_mret. rewrite app_nil_r. split_and!; [done..|lia].
Qed.

Lemma formatInteger_puts SIZE b v :
  fb_ok SIZE b → - 10 ^ 20 < v < 10 ^ 20 →
  puts SIZE b (bool_decide (kMaxNumericSize ≤ fb_avail b)) (print_d v) (formatInteger b v).
Proof.
  intros Hb Hv. pose proof Hb as [Hl Hc]. unfold formatInteger, kMaxNumericSize.
  destruct (decide _) as [Ha|Ha].
  - rewrite bool_decide_true by done. unfold fb_avail in Ha.
    destruct (convert_ok (data_ b) (cur_ b) v) as [-> Hlen]; [done|lia|lia|].
    rewrite Ret_bind. apply blit_puts with [NUL]; [done|..|done];
      change (zlen [NUL]) with 1; unfold fb_avail; lia.
  - rewrite bool_decide_false by done. by apply nothing_puts.
Qed.

Lemma put_ptr_puts SIZE b v :
  fb_ok SIZE b → 0 ≤ v < 2 ^ 64 →
  puts SIZE b (bool_decide (kMaxNumericSize ≤ fb_avail b)) (lit "0x" ++ print_hex v)
    (put_ptr b v).
Proof.
  intros Hb Hv. pose proof Hb as [Hl Hc]. unfold put_ptr, kMaxNumericSize.
  destruct (decide _) as [Ha|Ha].
  - rewrite bool_decide_true by done. unfold fb_avail in Ha.
    assert (zlen (lit "0") = 1) by done. assert (zlen (lit "x") = 1) by done.
    assert (zlen (lit "0x") = 2) by done.
    rewrite aset_ok, Ret_bind, upd_blit by lia.
    change ["0"%char] with (lit "0").
    rewrite aset_ok, Ret_bind, upd_blit by (rewrite zlen_blit; lia).
    change ["x"%char] with (lit "x"). change 1 with (zlen (lit "0")) at 1.
    rewrite blit_app by lia. change (lit "0" ++ lit "x") with (lit "0x").
    destruct (convertHex_ok (blit (data_ b) (cur_ b) (lit "0x")) (cur_ b + 2) v)
      as [-> Hlen]; [done|lia|rewrite zlen_blit; lia|].
    rewrite Ret_bind. replace (zlen (print_hex v) + 2) with (zlen (lit "0x" ++ print_hex v))
      by (rewrite zlen_app; lia).
    apply blit_puts with [NUL]; [done|..];
      change (zlen [NUL]) with 1; unfold fb_avail; rewrite ?zlen_app; try lia.
    change 2 with (zlen (lit "0x")).
    rewrite blit_app by (rewrite ?zlen_app; change (zlen [NUL]) with 1; lia).
    by rewrite <- app_assoc.
  - rewrite bool_decide_false by done. by apply nothing_puts.
Qed.

Lemma print_g_short v : zlen (print_g 12 v) < kMaxNumericSize.
Proof.
  pose proof (print_g_length 12 v ltac:(lia)). unfold zlen, kMaxNumericSize. lia.
Qed.

Lemma put_double_puts SIZE b v :
  fb_ok SIZE b →
  puts SIZE b (bool_decide (kMaxNumericSize ≤ fb_avail b)) (print_g 12 v) (put_double b v).
Proof.
  intros Hb. pose proof (print_g_short v) as Hg. pose proof Hb as [Hl Hc].
  unfold put_double, kMaxNumericSize in *. set (g := print_g 12 v) in *. cbv zeta.
  destruct (decide _) as [Ha|Ha].
  - rewrite bool_decide_true by done. unfold fb_avail in Ha.
    assert (snprintf 32 g = g) as ->.
    { unfold snprintf. apply take_ge. unfold zlen in Hg. lia. }
    assert (zlen (g ++ [NUL]) ≤ 32) by (rewrite zlen_app; change (zlen [NUL]) with 1; lia).
    rewrite memcpy_ok, Ret_bind by lia. apply blit_puts with [NUL]; [done|..|done];
      change (zlen [NUL]) with 1; unfold fb_avail; lia.
  - rewrite bool_decide_false by done. by apply nothing_puts.
Qed.

Lemma stream_put_puts SIZE b x :
  fb_ok SIZE b → item_ok x → puts SIZE b (fits (fb_avail b) x) (item_text x) (stream_put b x).
Proof.
  intros Hb Hx. unfold fits. pose proof (Z.pow_pos_nonneg 10 20).
  destruct x as [[]|v|v|v|v|v|v|v|v|v|g|g|c|[s|]|s|s|b2]; cbn [numeric item_text stream_put] in *;
    unfold item_ok, in_int, INT_MIN, INT_MAX, LONG_MIN, LONG_MAX in Hx;
    try by apply fb_append_puts.
  1-8: apply formatInteger_puts; [done|lia].
  - by apply put_ptr_puts.
  - by apply put_double_puts.
  - by apply put_double_puts.
Qed.

Lemma stream_put_all_app b xs ys :
  stream_put_all b (xs ++ ys) = stream_put_all b xs ≫= λ b, stream_put_all b ys.
Proof.
  revert b. induction xs as [|x xs IH]; intros b; [done|]. cbn.
  destruct (stream_put b x); [apply IH|done..].
Qed.

Lemma stream_put_all_ok SIZE b xs :
  fb_ok SIZE b → Forall item_ok xs →
  wp (stream_put_all b xs) (λ b', fb_ok SIZE b' ∧
    fb_toString b' = fb_toString b ++ kept (fb_avail b) xs).
Proof.
  intros Hb Hxs. revert b Hb.
  induction Hxs as [|x xs Hx Hxs IH]; intros b Hb; cbn [stream_put_all kept].
  - apply wp_mret. by rewrite app_nil_r.
  - apply wp_bind. eapply wp_mono; [by apply stream_put_puts|].
    intros b' (Hb' & Ht & Ha). eapply wp_mono; [by apply IH|].
    intros b'' [Hb'' Ht'']. split; [done|]. rewrite Ht'', Ht, Ha.
    destruct (fits _ _); [by rewrite <- app_assoc|by rewrite app_nil_r, Z.sub_0_r].
Qed.

Lemma numeric_short x : item_ok x → numeric x = true → zlen (item_text x) < kMaxNumericSize.
Proof.
  intros Hx Hn. unfold kMaxNumericSize in *.
  assert (Hd : ∀ v, - 10 ^ 20 < v < 10 ^ 20 → zlen (print_d v) < 32).
  { intros v Hv. destruct (convert_ok (replicate 32 SP) 0 v) as [_ ?]; [done|lia|done|lia]. }
  destruct x; cbn in Hn; try discriminate Hn; cbn [item_text];
    unfold item_ok, in_int, INT_MIN, INT_MAX, LONG_MIN, LONG_MAX in Hx; try (apply Hd; lia);
    try apply print_g_short.
  destruct (convertHex_ok (replicate 32 SP) 0 v) as [_ ?]; [done|lia|done|].
  rewrite zlen_app. change (zlen (lit "0x")) with 2. lia.
Qed.

Lemma fb_avail_text SIZE b : fb_ok SIZE b → fb_avail b = SIZE - zlen (fb_toString b).
Proof.
  intros [Hl Hc]. unfold fb_avail, fb_toString, zlen in *. rewrite length_take. lia.
Qed.

(** The same as an equation, with the room that is left. *)
Lemma stream_put_all_run SIZE b xs :
  fb_ok SIZE b → Forall item_ok xs →
  ∃ b', stream_put_all b xs = Ret b' ∧ fb_ok SIZE b' ∧
    fb_toString b' = fb_toString b ++ kept (fb_avail b) xs ∧
    fb_avail b' = fb_avail b - zlen (kept (fb_avail b) xs).
Proof.
  intros Hb Hxs. pose proof (stream_put_all_ok SIZE b xs Hb Hxs) as Hw.
  apply wp_iff in Hw as (b' & E & Hb' & Ht). exists b'. split_and!; [done|apply Hb'..|done|].
  pose proof (fb_avail_text SIZE b Hb). pose proof (fb_avail_text SIZE b' Hb').
  apply (f_equal zlen) in Ht. rewrite zlen_app in Ht. lia.
Qed.

Lemma kept_app room xs ys :
  kept room (xs ++ ys) = kept room xs ++ kept (room - zlen (kept room xs)) ys.
Proof.
  revert room. induction xs as [|x xs IH]; intros room; cbn [app kept].
  - cbn. f_equal. unfold zlen. simpl. lia.
  - destruct (fits room x); rewrite IH; [|done]. rewrite zlen_app, <- app_assoc.
    do 3 f_equal. lia.
Qed.

(** An item that is as long as the whole room is left out. *)
Lemma kept_skip room xs x ys :
  numeric x = false → room ≤ zlen (item_text x) →
  kept room (xs ++ x :: ys) = kept room (xs ++ ys).
Proof.
  intros Hx Hr. rewrite !kept_app. f_equal. cbn [kept]. unfold fits. rewrite Hx.
  pose proof (zlen_nonneg (kept room xs)). by rewrite bool_decide_false by lia.
Qed.

(** What is kept is shorter than the room. *)
Lemma kept_bound room xs :
  0 < room → Forall item_ok xs → zlen (kept room xs) < room.
Proof.
  intros Hr Hxs. revert room Hr. induction Hxs as [|x xs Hx Hxs IH]; intros room Hr; [done|].
  cbn [kept]. destruct (fits room x) eqn:E; [|by apply IH].
  assert (zlen (item_text x) < room).
  { unfold fits in E. destruct (numeric x) eqn:En; apply bool_decide_eq_true in E; [|done].
    pose proof (numeric_short x Hx En). unfold kMaxNumericSize in *. lia. }
  rewrite zlen_app. specialize (IH (room - zlen (item_text x)) ltac:(lia)). lia.
Qed.

Lemma kept_all room xs :
  zlen (mjoin (item_text <$> xs)) + kMaxNumericSize ≤ room →
  kept room xs = mjoin (item_text <$> xs).
Proof.
  unfold kMaxNumericSize. revert room.
  induction xs as [|x xs IH]; intros room Hr; [done|].
  change (mjoin (item_text <$> x :: xs))
    with (item_text x ++ mjoin (item_text <$> xs)) in *.
  rewrite zlen_app in Hr. pose proof (zlen_nonneg (item_text x)).
  pose proof (zlen_nonneg (mjoin (item_text <$> xs))).
  cbn [kept]. assert (fits room x = true) as ->.
  { unfold fits, kMaxNumericSize. destruct (numeric x); apply bool_decide_true; lia. }
  by rewrite IH by lia.
Qed.

(** ** What the asynchronous log needs of a buffer *)

Class LogBuffer (B : Type) := {
  lb_avail : B → Z;
  lb_length : B → Z;
  lb_text : B → bytes;
  lb_append : B → bytes → outcome B;
  lb_reset : B → B;
}.

(** Buffers of [SIZE] characters: a line shorter than the room left is stored
    whole, and resetting empties the buffer. *)
Class LogBufferLaws (B : Type) `{!LogBuffer B} (SIZE : Z) := {
  lb_ok : B → Prop;
  lb_room b : lb_ok b → lb_avail b = SIZE - zlen (lb_text b);
  lb_length_text b : lb_ok b → lb_length b = zlen (lb_text b);
  lb_text_bound b : lb_ok b → zlen (lb_text b) ≤ SIZE;
  lb_append_fits b s : lb_ok b → zlen s < lb_avail b →
    ∃ b', lb_append b s = Ret b' ∧ lb_ok b' ∧ lb_text b' = lb_text b ++ s;
  lb_append_drops b s : lb_ok b → lb_avail b ≤ zlen s → lb_append b s = Ret b;
  lb_reset_ok b : lb_ok b → lb_ok (lb_reset b);
  lb_reset_text b : lb_text (lb_reset b) = [];
}.

#[export] Instance FixedBuffer_LogBuffer : LogBuffer FixedBuffer := {|
  lb_avail := fb_avail;
  lb_length := fb_length;
  lb_text := fb_toString;
  lb_append := fb_append;
  lb_reset := fb_reset
|}.

#[export] Program Instance FixedBuffer_laws SIZE : LogBufferLaws FixedBuffer SIZE := {|
  lb_ok := fb_ok SIZE
|}.
Next Obligation.
  intros SIZE b [Hl Hc]. cbn. unfold fb_avail, fb_toString, zlen in *.
  rewrite length_take. lia.
Qed.
Next Obligation.
  intros SIZE b [Hl Hc]. cbn. unfold fb_length, fb_toString, zlen in *.
  rewrite length_take. lia.
Qed.
Next Obligation.
  intros SIZE b [Hl Hc]. cbn. unfold fb_toString, zlen in *. rewrite length_take. lia.
Qed.
Next Obligation.
  intros SIZE b s Hb Hs. cbn in *. pose proof (fb_append_ok SIZE b s Hb) as Hw.
  apply wp_iff in Hw as (b' & E & Hb' & Ht & _). rewrite decide_True in Ht by done. eauto.
Qed.
Next Obligation.
  intros SIZE b s Hb Hs. cbn in *. unfold fb_append. by rewrite decide_False by lia.
Qed.
Next Obligation. intros SIZE b [Hl Hc]. split; [done|]. cbn. lia. Qed.
Next Obligation. done. Qed.

(** ** Theorems *)

(** C20: [LogStream::operator<<] of an integer of any C type prints exactly the
    decimal numeral [printf] would, the most negative [long] included, when 32
    characters are left, and nothing otherwise; the digits, the terminator and
    the reversal stay inside the buffer. *)
Theorem integers_print SIZE b x v :
  fb_ok SIZE b → item_ok x →
  x ∈ [IShort v; IUShort v; IInt v; IUInt v; ILong v; IULong v; ILongLong v; IULongLong v] →
  wp (stream_put b x) (λ b', fb_ok SIZE b' ∧
    fb_toString b' = fb_toString b ++
      if decide (kMaxNumericSize ≤ fb_avail b) then print_d v else []).
Proof.
  intros Hb Hx Hin. eapply wp_mono; [by apply stream_put_puts|].
  intros b' (Hb' & Ht & _). split; [done|]. rewrite Ht. f_equal.
  repeat (apply elem_of_cons in Hin as [->|Hin]); [..|by apply elem_of_nil in Hin].
  all: unfold fits; cbn; destruct (decide _);
    [by rewrite bool_decide_true by done|by rewrite bool_decide_false by done].
Qed.

Lemma integers_print_witness :
  wp (stream_put (fb_new (replicate 40 SP)) (ILong LONG_MIN)) (λ b', fb_ok 40 b' ∧
    fb_toString b' = fb_toString (fb_new (replicate 40 SP)) ++
      if decide (kMaxNumericSize ≤ fb_avail (fb_new (replicate 40 SP)))
      then print_d LONG_MIN else []) ∧
  print_d LONG_MIN = lit "-9223372036854775808".
Proof.
  split; [|vm_compute; done].
  apply (integers_print 40 _ _ LONG_MIN);
    [split; [done|cbn; lia]|split; vm_compute; discriminate|].
  do 4 right. left.
Defined.

(** A sequence of [operator<<] on a stream never writes outside its buffer
    and leaves, in order, the texts of the items that fitted, each whole and the
    others not at all; when the texts leave 32 characters free nothing is lost. *)
Theorem stream_prints SIZE b xs :
  fb_ok SIZE b → Forall item_ok xs →
  wp (stream_put_all b xs) (λ b', fb_ok SIZE b' ∧
    fb_toString b' = fb_toString b ++ kept (fb_avail b) xs ∧
    (zlen (mjoin (item_text <$> xs)) + kMaxNumericSize ≤ fb_avail b →
     fb_toString b' = fb_toString b ++ mjoin (item_text <$> xs))).
Proof.
  intros Hb Hxs. eapply wp_mono; [by apply stream_put_all_ok|].
  intros b' [? Ht]. split_and!; [done|done|]. intros Hr. by rewrite Ht, kept_all.
Qed.

Lemma stream_prints_witness :
  let b := fb_new (replicate 48 SP) in
  let xs := [IStr (Some (lit "fd=")); IInt (-1); IString (replicate 64 "x"%char); IPtr 48879] in
  wp (stream_put_all b xs) (λ b', fb_ok 48 b' ∧
    fb_toString b' = fb_toString b ++ kept (fb_avail b) xs ∧
    (zlen (mjoin (item_text <$> xs)) + kMaxNumericSize ≤ fb_avail b →
     fb_toString b' = fb_toString b ++ mjoin (item_text <$> xs))) ∧
  kept (fb_avail b) xs = lit "fd=-10xBEEF".
Proof.
  split; [|vm_compute; done].
  apply (stream_prints 48); [split; [done|cbn; lia]|].
  repeat constructor; vm_compute; discriminate.
Defined.
