(* ===== verification/ProcInfo.v ===== *)
(** Information about the process for the C++ logging library:
    [ReadSmallFile] of [src/src/log/muduo-clog/muduo/base/FileUtil.cc] and
    [ProcessInfo.cc] with its readers of [/proc].

    A file is an environment: what [open] and [fstat] answer and how many bytes
    the k-th [read] delivers; the answers of the other system calls are a record. *)

From stdpp Require Import sorting.
From S2P Require Import Prelude CString Memory Double.

(** ** ReadSmallFile *)

Record file_stat := {
  st_reg : bool; st_dir : bool; st_size : Z; st_mtime : Z; st_ctime : Z
}.

Record small_file := {
  sf_open : Z + bytes;          (* errno, or the contents *)
  sf_stat : Z + file_stat;      (* fstat *)
  sf_read : nat → Z → Z → Z + Z (* the k-th read of len bytes where rest are left *)
}.

Definition kBufferSize : Z := 64 * 1024.
Definition EISDIR : Z := 21.

(** What [readToString] returns and stores; [None] is a pointer it left alone. *)
Record read_result := {
  rr_err : Z; rr_content : bytes;
  rr_size : option Z; rr_mtime : option Z; rr_ctime : option Z
}.

(** The error and the members of [fstat], when [fileSize] is given. [reserve] of a
    negative number throws, and nobody catches it. *)
Definition stat_small (F : small_file) (maxSize : Z) (err : Z) (fileSize modifyTime createTime : bool)
    : outcome (Z * option Z * option Z * option Z) :=
  if fileSize then
    match sf_stat F with
    | inr st =>
        r ← (if st_reg st
             then if to_s 32 (Z.min maxSize (st_size st)) <? 0 then Exited SIGABRT_status
                  else mret (err, Some (st_size st))
             else if st_dir st then mret (EISDIR, None) else mret (err, None));
        mret (r.1, r.2, if modifyTime then Some (st_mtime st) else None,
              if createTime then Some (st_ctime st) else None)
    | inl errno => mret (errno, None, None, None)
    end
  else mret (err, None, None, None).

(** The loop: [maxSize] is converted to [size_t]. *)
Definition read_turn (F : small_file) (f : bytes) (max err : Z) (st : nat * bytes)
    : outcome (turn (nat * bytes) (Z * bytes)) :=
  let '(k, content) := st in
  if decide (zlen content < max) then
    let toRead := Z.min (max - zlen content) kBufferSize in
    match sf_read F k toRead (zlen f - zlen content) with
    | inr n =>
        if decide (n > 0)
        then mret (Next (S k, content ++ take (Z.to_nat n) (drop (length content) f)))
        else mret (Stop (err, content))
    | inl errno => mret (Stop (errno, content))
    end
  else mret (Stop (err, content)).

Definition readToString (F : small_file) (maxSize : Z) (content : bytes)
    (fileSize modifyTime createTime : bool) : outcome read_result :=
  match sf_open F with
  | inl err => mret {| rr_err := err; rr_content := content; rr_size := None;
                       rr_mtime := None; rr_ctime := None |}
  | inr f =>
      '(err, size, mtime, ctime) ← stat_small F maxSize 0 fileSize modifyTime createTime;
      '(err, content) ← loop (S (S (length f))) (read_turn F f (to_u 64 maxSize) err) (O, []);
      mret {| rr_err := err; rr_content := content; rr_size := size;
              rr_mtime := mtime; rr_ctime := ctime |}
  end.

(** [readFile] without the optional pointers, as the readers below call it. *)
Definition readFile (F : small_file) (maxSize : Z) (content : bytes) : outcome read_result :=
  readToString F maxSize content false false false.

(** [readToBuffer]: [pread] into [buf_] and a terminator. *)
Definition readToBuffer (F : small_file) (buf : bytes) : outcome (Z * bytes * option Z) :=
  match sf_open F with
  | inl err => mret (err, buf, None)
  | inr f =>
      match sf_read F 0 (kBufferSize - 1) (zlen f) with
      | inr n =>
          buf ← memcpy buf 0 (take (Z.to_nat n) f ++ [NUL]);
          mret (0, buf, Some n)
      | inl errno => mret (errno, buf, None)
      end
  end.

(** ** ProcessInfo *)

(** [find(c)], [rfind(c)] and [find(text)]. *)
Definition rfind (s : bytes) (c : ascii) : option nat :=
  (λ i, length s - 1 - i)%nat <$> strchr (rev s) c.
Fixpoint find_text (s k : bytes) : option nat :=
  if is_prefix k s then Some O
  else match s with [] => None | _ :: s => S <$> find_text s k end.

Definition pidString (pid : Z) : bytes := snprintf 32 (print_d pid).

(** [getpwuid_r]. *)
Definition username (pw_name : option bytes) : bytes :=
  match pw_name with Some name => cstr name | None => lit "unknownuser" end.

(** [gethostname(buf, 256)]: the buffer when it succeeds. *)
Definition hostname (buf : option bytes) : outcome bytes :=
  match buf with
  | Some buf => buf ← aset buf 255 NUL; mret (cstr buf)
  | None => mret (lit "unknownhost")
  end.

Definition procname (stat : bytes) : bytes :=
  match strchr stat "("%char, rfind stat ")"%char with
  | Some lp, Some rp => if (lp <? rp)%nat then take (rp - lp - 1) (drop (lp + 1) stat) else []
  | _, _ => []
  end.

(** [procStatus()], [procStat()] and [threadStat()] on their file. *)
Definition proc_text (F : small_file) : outcome bytes :=
  r ← readFile F 65536 []; mret (rr_content r).

(** [readlink(..., buf, 1024)]: the text when it succeeds. *)
Definition exePath (link : option bytes) : bytes :=
  match link with Some l => take 1024 l | None => [] end.

(** The filters of [scandir] on the names of a directory. *)
Definition isdigit_name (name : bytes) : bool :=
  match cstr name with c :: _ => is_digit c | [] => false end.
Definition openedFiles (names : list bytes) : Z :=
  zlen (filter (λ n, isdigit_name n = true) names).
Definition maxOpenFiles (rlim_cur : option Z) (names : list bytes) : Z :=
  match rlim_cur with Some n => to_s 32 n | None => openedFiles names end.

Fixpoint task_pids (names : list bytes) : outcome (list Z) :=
  match names with
  | [] => mret []
  | n :: names =>
      if isdigit_name n
      then p ← atoi (cstr n); ps ← task_pids names; mret (p :: ps)
      else task_pids names
  end.
Definition process_threads (names : list bytes) : outcome (list Z) :=
  ps ← task_pids names; mret (merge_sort Z.le ps).

Definition numThreads (F : small_file) : outcome Z :=
  status ← proc_text F;
  match find_text status (lit "Threads:") with
  | Some pos => atoi (cstr (drop (pos + 8) status))
  | None => mret 0
  end.

(** [scandir] with a filter that works on a variable of the thread, and [scanDir];
    [None] is a directory that cannot be read. *)
Fixpoint scandir {S} (filt : bytes → S → outcome (Z * S)) (names : list bytes) (s : S)
    : outcome (list bytes * S) :=
  match names with
  | [] => mret ([], s)
  | n :: names =>
      '(keep, s) ← filt n s; '(kept, s) ← scandir filt names s;
      mret (if decide (keep = 0) then kept else n :: kept, s)
  end.
Definition scanDir {S} (filt : bytes → S → outcome (Z * S)) (names : option (list bytes)) (s : S)
    : outcome (Z * S) :=
  match names with
  | None => mret (-1, s)
  | Some names =>
      '(namelist, s) ← scandir filt names s;
      _ ← assertion (bool_decide (namelist = []));
      mret (zlen namelist, s)
  end.

Definition fdDirFilter (d : bytes) (t_numOpenedFiles : Z) : outcome (Z * Z) :=
  if isdigit_name d then n ← int_ (t_numOpenedFiles + 1); mret (0, n) else mret (0, t_numOpenedFiles).
Definition taskDirFilter (d : bytes) (t_pids : list Z) : outcome (Z * list Z) :=
  if isdigit_name d then p ← atoi (cstr d); mret (0, t_pids ++ [p]) else mret (0, t_pids).

(** What the system answers about the process; [g_startTime] is a time stamp. *)
Record process_env := {
  getpid : Z; getuid : Z; geteuid : Z;
  sc_clk_tck : Z; sc_page_size : Z;
  times : option (Z * Z);       (* user and system time in ticks *)
  g_startTime : Z
}.

Section process.
Context (E : process_env).
Definition pid : Z := getpid E.
Definition uid : Z := getuid E.
Definition euid : Z := geteuid E.
Definition startTime : Z := g_startTime E.
Definition clockTicksPerSecond : Z := to_s 32 (sc_clk_tck E).
Definition pageSize : Z := to_s 32 (sc_page_size E).
Definition isDebugBuild (NDEBUG : bool) : bool := negb NDEBUG.

Record CpuTime := { userSeconds : double; systemSeconds : double }.

Definition cpuTime : CpuTime :=
  match times E with
  | Some (utime, stime) =>
      let hz := double_of_Z clockTicksPerSecond in
      {| userSeconds := ddiv (double_of_Z utime) hz; systemSeconds := ddiv (double_of_Z stime) hz |}
  | None => {| userSeconds := double_of_Z 0; systemSeconds := double_of_Z 0 |}
  end.

(** Times of whole seconds are exact. *)
Lemma cpuTime_seconds u s :
  0 < sc_clk_tck E ≤ INT_MAX →
  times E = Some (u * sc_clk_tck E, s * sc_clk_tck E) →
  Z.abs (u * sc_clk_tck E) < 2 ^ 53 → Z.abs (s * sc_clk_tck E) < 2 ^ 53 →
  is_integer (userSeconds cpuTime) u ∧ is_integer (systemSeconds cpuTime) s.
Proof.
  intros Hhz Ht Hu Hs. unfold cpuTime, clockTicksPerSecond. rewrite Ht. cbn [userSeconds systemSeconds].
  rewrite to_s_small by (unfold INT_MAX in Hhz; lia).
  assert (H : ∀ v, Z.abs (v * sc_clk_tck E) < 2 ^ 53 →
    is_integer (ddiv (double_of_Z (v * sc_clk_tck E)) (double_of_Z (sc_clk_tck E))) v).
  { intros v Hv. apply (ddiv_integer _ _ v (sc_clk_tck E)).
    - by apply double_of_Z_integer.
    - apply double_of_Z_integer. unfold INT_MAX in Hhz. lia.
    - lia.
    - nia. }
  auto.
Qed.
End process.

(** The directory scans are the functions above. *)
Lemma scan_tasks names ps :
  scanDir taskDirFilter (Some names) ps = (qs ← task_pids names; mret (0, ps ++ qs)).
Proof.
  unfold scanDir. enough (Hs : scandir taskDirFilter names ps = (qs ← task_pids names; mret ([], ps ++ qs))).
  { rewrite Hs. by destruct (task_pids names). }
  revert ps. induction names as [|n names IH]; intros ps; cbn; [by rewrite app_nil_r|].
  unfold taskDirFilter in *. destruct (isdigit_name n); [|cbn; rewrite IH; by destruct (task_pids names)].
  destruct (atoi (cstr n)) as [p| | |]; try done. cbn. rewrite IH.
  destruct (task_pids names); try done. cbn. by rewrite <- app_assoc.
Qed.

Lemma openedFiles_cons d names :
  openedFiles (d :: names) = (if isdigit_name d then 1 else 0) + openedFiles names.
Proof.
  unfold openedFiles, zlen. rewrite filter_cons. destruct (isdigit_name d) eqn:E.
  - rewrite decide_True by done. cbn [length]. lia.
  - by rewrite decide_False.
Qed.

Lemma scan_opened names n :
  0 ≤ n → n + zlen names ≤ INT_MAX →
  scanDir fdDirFilter (Some names) n = Ret (0, n + openedFiles names).
Proof.
  intros Hn Hl. unfold scanDir.
  enough (Hs : scandir fdDirFilter names n = Ret ([], n + openedFiles names)) by by rewrite Hs.
  revert n Hn Hl. induction names as [|d names IH]; intros n Hn Hl; cbn; [by rewrite Z.add_0_r|].
  unfold zlen in *. cbn in Hl. unfold fdDirFilter in *. rewrite openedFiles_cons.
  destruct (isdigit_name d); [|cbn; by rewrite IH by lia].
  unfold int_. rewrite decide_True by (unfold in_int, INT_MIN, INT_MAX in *; lia).
  cbn. rewrite IH by lia. cbn. by rewrite <- Z.add_assoc.
Qed.

(** ** Facts *)

(** Documented behaviour of [read]: no more than asked for and left, and nothing
    only at the end of the file. *)
Class ReadLaws (F : small_file) := {
  read_bounds k len rest n : 0 < len → 0 ≤ rest → sf_read F k len rest = inr n →
    0 ≤ n ≤ Z.min len rest ∧ (0 < rest → 0 < n)
}.

Section facts.
Context (F : small_file) `{!ReadLaws F}.

(** The loop reads a prefix, the whole allowed one unless [read] fails. *)
Lemma read_loop f max err :
  0 ≤ max →
  wp (loop (S (S (length f))) (read_turn F f max err) (O, [])) (λ '(err', content),
    (∃ n, content = take n f) ∧ zlen content ≤ max ∧
    ((err' = err ∧ content = take (Z.to_nat max) f) ∨ ∃ k len rest, sf_read F k len rest = inl err')).
Proof.
  intros Hmax.
  apply (wp_loop (λ '(k, content), content = take (length content) f ∧
                    zlen content ≤ max ∧ (length content ≤ length f)%nat)
    (λ '(_, content), length f - length content)%nat).
  - split_and!; [done|unfold zlen; cbn; lia|cbn; lia].
  - cbn. lia.
  - intros [k content] (Hpre & Hle & Hlen). unfold read_turn. case_decide as Hlt.
    + destruct (sf_read F k _ _) as [e|n] eqn:Er.
      { wp_steps. split; [by exists (length content)|]. split; [done|]. right. eauto. }
      pose proof Er as Er'. apply read_bounds in Er' as [Hn Hpos];
        [|unfold kBufferSize; lia|unfold zlen in *; lia].
      case_decide as Hn0; wp_steps.
      * assert (Hcat : content ++ take (Z.to_nat n) (drop (length content) f) =
                       take (length content + Z.to_nat n) f).
        { rewrite Hpre at 1. by rewrite take_take_drop. }
        rewrite Hcat. unfold zlen in *. rewrite length_take_le by lia.
        split; [|lia]. split; [done|]. lia.
      * split; [by exists (length content)|]. split; [done|]. left. split; [done|].
        assert (length content = length f) as E by (unfold zlen in *; lia).
        rewrite Hpre, E, !take_ge by (unfold zlen in *; lia). done.
    + wp_steps. split; [by exists (length content)|]. split; [done|]. left. split; [done|].
      rewrite Hpre at 1. f_equal. unfold zlen in *. lia.
Qed.

(** [readFile]: however [read] splits the file, and unless it fails, the first
    [maxSize] bytes. *)
Lemma readFile_ok f maxSize old :
  sf_open F = inr f → 0 ≤ maxSize ≤ INT_MAX →
  (∀ k len rest e, sf_read F k len rest ≠ inl e) →
  readFile F maxSize old =
  Ret {| rr_err := 0; rr_content := take (Z.to_nat maxSize) f;
         rr_size := None; rr_mtime := None; rr_ctime := None |}.
Proof.
  intros Hf Hm Herr. unfold readFile, readToString. rewrite Hf. unfold stat_small.
  rewrite mret_bind.
  rewrite to_u_small by (change (2 ^ 64) with 18446744073709551616; unfold INT_MAX in *; lia).
  pose proof (read_loop f maxSize 0 ltac:(lia)) as Hl.
  apply wp_iff in Hl as ([e c] & -> & _ & _ & [[-> ->]|(k & len & rest & He)]); [done|].
  by apply Herr in He.
Qed.
End facts.

(** ** The readers of /proc *)

Lemma rfind_app s c t :
  Forall (λ x, x ≠ c) t → rfind (s ++ c :: t) c = Some (length s).
Proof.
  intros Ht. unfold rfind. rewrite rev_app_distr. cbn [rev]. rewrite <- app_assoc. cbn [app].
  rewrite strchr_app_first by (apply Forall_rev in Ht; exact Ht).
  cbn [fmap option_fmap option_map]. rewrite length_rev, length_app. cbn. f_equal. lia.
Qed.

(** The name of the process is what stands between the first and the last
    parenthesis of its [stat] line, parentheses of its own included. *)
Lemma procname_finds pid name rest :
  Forall (λ c, c ≠ "("%char) pid → Forall (λ c, c ≠ ")"%char) rest →
  procname (pid ++ lit "(" ++ name ++ lit ")" ++ rest) = name.
Proof.
  intros Hpid Hrest. unfold procname.
  change (lit "(" ++ name ++ lit ")" ++ rest) with ("("%char :: name ++ ")"%char :: rest).
  rewrite strchr_app_first by done.
  replace (pid ++ "("%char :: name ++ ")"%char :: rest)
    with ((pid ++ "("%char :: name) ++ ")"%char :: rest) by (by rewrite <- app_assoc).
  rewrite rfind_app by done. rewrite length_app. cbn [length].
  destruct (Nat.ltb_spec (length pid) (length pid + S (length name))); [|lia].
  replace (length pid + S (length name) - length pid - 1)%nat with (length name) by lia.
  rewrite <- app_assoc. cbn [app].
  rewrite drop_app_ge by lia. replace (length pid + 1 - length pid)%nat with 1%nat by lia.
  cbn [drop]. apply take_app_length.
Qed.

Lemma is_prefix_length k s : is_prefix k s = true → (length k ≤ length s)%nat.
Proof.
  revert s. induction k as [|c k IH]; intros [|d s]; cbn; try lia; try done.
  intros [_ H]%andb_true_iff. apply IH in H. lia.
Qed.

Lemma is_prefix_long k s t : (length k ≤ length s)%nat → is_prefix k (s ++ t) = is_prefix k s.
Proof.
  revert s. induction k as [|c k IH]; intros [|d s] Hl; cbn in *; try done; [lia|].
  by rewrite IH by lia.
Qed.

Lemma find_text_long s k i : find_text s k = Some i → (i + length k ≤ length s)%nat.
Proof.
  revert i. induction s as [|c s IH]; intros i; cbn [find_text].
  - destruct (is_prefix k []) eqn:E; [|done]. intros [= <-]. by apply is_prefix_length in E.
  - destruct (is_prefix k (c :: s)) eqn:E.
    + intros [= <-]. by apply is_prefix_length in E.
    + destruct (find_text s k) as [j|]; [|done]. intros [= <-]. specialize (IH j eq_refl).
      cbn. lia.
Qed.

Lemma find_text_app s t k i : find_text s k = Some i → find_text (s ++ t) k = Some i.
Proof.
  revert i. induction s as [|c s IH]; intros i Hi.
  - pose proof (find_text_long _ _ _ Hi) as Hl. cbn in Hl. destruct k; [|cbn in Hl; lia].
    cbn in Hi. injection Hi as <-. by destruct t.
  - pose proof (find_text_long _ _ _ Hi) as Hl. cbn [find_text app] in *.
    change (c :: s ++ t) with ((c :: s) ++ t). rewrite is_prefix_long by lia.
    destruct (is_prefix k (c :: s)); [done|]. destruct (find_text s k) as [j|]; [|done].
    rewrite (IH j eq_refl). done.
Qed.

Lemma cstr_app s t : no_nul s → cstr (s ++ t) = s ++ cstr t.
Proof. intros. unfold cstr. by rewrite take_while_app. Qed.

(** The number of threads is that after the first ["Threads:"] of the text. *)
Lemma numThreads_reads F `{!ReadLaws F} pre n rest :
  sf_open F = inr ((pre ++ lit "Threads:") ++ [TAB] ++ print_d n ++ LF :: rest) →
  zlen ((pre ++ lit "Threads:") ++ [TAB] ++ print_d n ++ LF :: rest) ≤ 65536 →
  (∀ k len r e, sf_read F k len r ≠ inl e) →
  find_text (pre ++ lit "Threads:") (lit "Threads:") = Some (length pre) →
  0 ≤ n ≤ INT_MAX → numThreads F = Ret n.
Proof.
  intros Hf Hlen Herr Hfind Hn. unfold numThreads, proc_text.
  rewrite (readFile_ok _ _ _ _ Hf) by (done || (unfold INT_MAX; lia)).
  rewrite Ret_bind, mret_bind. cbn [rr_content].
  rewrite take_ge by (unfold zlen in Hlen; lia).
  rewrite (find_text_app _ _ _ _ Hfind).
  replace (length pre + 8)%nat with (length (pre ++ lit "Threads:")) by (by rewrite length_app).
  rewrite drop_app_length. rewrite cstr_app by (by repeat constructor).
  rewrite cstr_app.
  - change (cstr (LF :: rest)) with (LF :: cstr rest). apply atoi_print_rest; [|done|done].
    by repeat constructor.
  - eapply Forall_impl; [apply print_d_chars|]. intros c [Hc| ->]; [|done].
    apply not_char_true. intros ->. done.
Qed.

(** ** Examples *)

Definition small_text (s : bytes) : small_file := {|
  sf_open := inr s; sf_stat := inl 0; sf_read := λ _ len rest, inr (Z.max 0 (Z.min len rest))
|}.

#[export] Instance small_text_laws s : ReadLaws (small_text s).
Proof. constructor. cbn. intros k len rest n Hl Hr [= <-]. lia. Qed.

(** The first line of [/proc/self/status] is the name of the program: one that is
    called ["Threads:9"] has nine threads. *)
Example threads_of_name :
  numThreads (small_text (lit "Name:" ++ [TAB] ++ lit "Threads:9" ++ [LF] ++
                          lit "Threads:" ++ [TAB] ++ lit "1" ++ [LF])) = Ret 9.
Proof. by vm_compute. Qed.

Example stat_name : procname (lit "77 (a) (b)) S 1") = lit "a) (b)".
Proof. by vm_compute. Qed.

Example some_pids :
  process_threads [lit "."; lit ".."; lit "120"; lit "7"; lit "33"] = Ret [7; 33; 120].
Proof. by vm_compute. Qed.
