(* ===== verification/LogFile.v ===== *)
(** The rolling log file of the C++ logging library:
    [src/src/log/muduo-clog/muduo/base/LogFile.cc] and [AppendFile] of
    [FileUtil.cc].

    The state has the members of [LogFile] and [AppendFile] and what the run
    has done so far: the number of calls of [time] and [fwrite_unlocked], whose
    answers come from the environment, and the files closed, oldest first. The
    contents of a file are what [fwrite] accepted; [writtenBytes_] counts what
    was asked for. [threadSafe] only adds a lock around each operation, so an
    operation is one step. *)

From S2P Require Import Prelude CString Memory MuduoDate LogStream.

Record file_env := {
  fe_ndebug : bool;                 (* assertions compiled out *)
  fe_time : nat → Z;                (* the k-th call of time(NULL) *)
  fe_localtime : Z → utc_tm;
  fe_hostname : bytes;
  fe_pid : Z;
  fe_fopen : bytes → bool;          (* fopen of this name succeeds *)
  fe_fwrite : nat → Z → Z           (* the k-th fwrite_unlocked, of len bytes *)
}.

Definition assert_ (E : file_env) (c : bool) : outcome unit :=
  if fe_ndebug E || c then mret tt else Exited SIGABRT_status.

Record AppendFile := {
  af_name : bytes;
  af_contents : bytes;
  writtenBytes_ : Z
}.

Record LogFile := {
  basename_ : bytes;
  rollSize_ : Z;
  flushInterval_ : Z;
  checkEveryN_ : Z;
  count_ : Z;
  startOfPeriod_ : Z;
  lastRoll_ : Z;
  lastFlush_ : Z;
  file_ : option AppendFile;
  times : nat;                      (* calls of time so far *)
  writes : nat;                     (* calls of fwrite_unlocked so far *)
  flushes : nat;                    (* calls of fflush so far *)
  closed : list AppendFile
}.

(** Assignments to the members. *)
Definition set_file (s : LogFile) (f : option AppendFile) : LogFile :=
  {| basename_ := basename_ s; rollSize_ := rollSize_ s; flushInterval_ := flushInterval_ s;
     checkEveryN_ := checkEveryN_ s; count_ := count_ s; startOfPeriod_ := startOfPeriod_ s;
     lastRoll_ := lastRoll_ s; lastFlush_ := lastFlush_ s; file_ := f; times := times s;
     writes := writes s; flushes := flushes s; closed := closed s |}.
Definition set_count (s : LogFile) (c : Z) : LogFile :=
  {| basename_ := basename_ s; rollSize_ := rollSize_ s; flushInterval_ := flushInterval_ s;
     checkEveryN_ := checkEveryN_ s; count_ := c; startOfPeriod_ := startOfPeriod_ s;
     lastRoll_ := lastRoll_ s; lastFlush_ := lastFlush_ s; file_ := file_ s; times := times s;
     writes := writes s; flushes := flushes s; closed := closed s |}.
Definition set_times (s : LogFile) (period roll flush : Z) : LogFile :=
  {| basename_ := basename_ s; rollSize_ := rollSize_ s; flushInterval_ := flushInterval_ s;
     checkEveryN_ := checkEveryN_ s; count_ := count_ s; startOfPeriod_ := period;
     lastRoll_ := roll; lastFlush_ := flush; file_ := file_ s; times := times s;
     writes := writes s; flushes := flushes s; closed := closed s |}.
Definition set_world (s : LogFile) (t w f : nat) (cl : list AppendFile) : LogFile :=
  {| basename_ := basename_ s; rollSize_ := rollSize_ s; flushInterval_ := flushInterval_ s;
     checkEveryN_ := checkEveryN_ s; count_ := count_ s; startOfPeriod_ := startOfPeriod_ s;
     lastRoll_ := lastRoll_ s; lastFlush_ := lastFlush_ s; file_ := file_ s; times := t;
     writes := w; flushes := f; closed := cl |}.

(** ** FileUtil.cc *)

(** [AppendFile(filename)]; without the assertion [setbuffer] gets [NULL]. *)
Definition AppendFile_open (E : file_env) (filename : bytes) : outcome AppendFile :=
  _ ← assert_ E (fe_fopen E filename);
  if fe_fopen E filename
  then mret {| af_name := filename; af_contents := []; writtenBytes_ := 0 |}
  else Undef NullDeref.

(** [write(logline + n, len)]: the call with number [w] accepts [x] bytes. *)
Definition AppendFile_write (E : file_env) (w : nat) (f : AppendFile) (s : bytes)
    : Z * AppendFile :=
  let x := fe_fwrite E w (zlen s) in
  (x, {| af_name := af_name f; af_contents := af_contents f ++ take (Z.to_nat x) s;
         writtenBytes_ := writtenBytes_ f |}).

Definition append_turn (E : file_env) (logline : bytes) (st : Z * nat * AppendFile)
    : outcome (turn (Z * nat * AppendFile) (nat * AppendFile)) :=
  let '(n, w, f) := st in
  let remain := zlen logline - n in
  if decide (remain > 0)
  then let '(x, f) := AppendFile_write E w f (drop (Z.to_nat n) logline) in
       if decide (x = 0) then mret (Stop (S w, f)) else mret (Next (n + x, S w, f))
  else mret (Stop (w, f)).

Definition AppendFile_append (E : file_env) (w : nat) (f : AppendFile) (logline : bytes)
    : outcome (nat * AppendFile) :=
  let '(n, f) := AppendFile_write E w f logline in
  '(w, f) ← loop (S (length logline)) (append_turn E logline) (n, S w, f);
  mret (w, {| af_name := af_name f; af_contents := af_contents f;
              writtenBytes_ := writtenBytes_ f + zlen logline |}).

(** ** LogFile.cc *)

Definition kRollPerSeconds_ : Z := 60 * 60 * 24.

(** [getLogFileName(basename, &now)]: the name, and the time it was made at. *)
Definition strftime_name (t : utc_tm) : bytes :=
  lit "." ++ print_d (utc_year t + 1900) ++ print_pad 2 (utc_mon t + 1) ++
  print_pad 2 (utc_mday t) ++ lit "-" ++ print_pad 2 (utc_hour t) ++
  print_pad 2 (utc_min t) ++ print_pad 2 (utc_sec t) ++ lit ".".
Definition getLogFileName (E : file_env) (s : LogFile) : bytes * Z * LogFile :=
  let now := fe_time E (times s) in
  (basename_ s ++ strftime_name (fe_localtime E now) ++ fe_hostname E ++
   snprintf 32 (lit "." ++ print_d (fe_pid E)) ++ lit ".log",
   now,
   set_world s (S (times s)) (writes s) (flushes s) (closed s)).

(** [file_.reset(new AppendFile(filename))] closes the file it had. *)
Definition rollFile (E : file_env) (s : LogFile) : outcome (bool * LogFile) :=
  let '(filename, now, s) := getLogFileName E s in
  let start := Z.quot now kRollPerSeconds_ * kRollPerSeconds_ in
  if decide (now > lastRoll_ s)
  then let s := set_times s start now now in
       f ← AppendFile_open E filename;
       let s := set_world s (times s) (writes s) (flushes s)
                  (closed s ++ match file_ s with Some f => [f] | None => [] end) in
       mret (true, set_file s (Some f))
  else mret (false, s).

(** [file_->flush()]. *)
Definition LogFile_flush (s : LogFile) : outcome LogFile :=
  match file_ s with
  | None => Undef NullDeref
  | Some f => mret (set_world s (times s) (writes s) (S (flushes s)) (closed s))
  end.

Definition append_unlocked (E : file_env) (s : LogFile) (logline : bytes)
    : outcome LogFile :=
  match file_ s with
  | None => Undef NullDeref
  | Some f =>
      '(w, f) ← AppendFile_append E (writes s) f logline;
      let s := set_file (set_world s (times s) w (flushes s) (closed s)) (Some f) in
      if decide (writtenBytes_ f > rollSize_ s)
      then '(_, s) ← rollFile E s; mret s
      else
        c ← int_ (count_ s + 1);
        let s := set_count s c in
        if decide (c >= checkEveryN_ s)
        then
          let s := set_count s 0 in
          let now := fe_time E (times s) in
          let s := set_world s (S (times s)) (writes s) (flushes s) (closed s) in
          let thisPeriod_ := Z.quot now kRollPerSeconds_ * kRollPerSeconds_ in
          if decide (thisPeriod_ ≠ startOfPeriod_ s)
          then '(_, s) ← rollFile E s; mret s
          else if decide (now - lastFlush_ s > flushInterval_ s)
          then LogFile_flush (set_times s (startOfPeriod_ s) (lastRoll_ s) now)
          else mret s
        else mret s
  end.

(** The constructor: the name must have no ['/'] where assertions are on. *)
Definition LogFile_new (E : file_env) (basename : bytes) (rollSize flushInterval checkEveryN : Z)
    (t0 w0 : nat) : outcome LogFile :=
  _ ← assert_ E (bool_decide (strchr basename "/"%char = None));
  '(_, s) ← rollFile E
    {| basename_ := basename; rollSize_ := rollSize; flushInterval_ := flushInterval;
       checkEveryN_ := checkEveryN; count_ := 0; startOfPeriod_ := 0; lastRoll_ := 0;
       lastFlush_ := 0; file_ := None; times := t0; writes := w0; flushes := 0;
       closed := [] |};
  mret s.

Fixpoint append_all (E : file_env) (s : LogFile) (lines : list bytes) : outcome LogFile :=
  match lines with
  | [] => mret s
  | l :: lines => s ← append_unlocked E s l; append_all E s lines
  end.

(** ** One append *)

(** [fwrite] accepts between none and all of the bytes. *)
Class FileLaws (E : file_env) := {
  fwrite_bounds k len : 0 ≤ len → 0 ≤ fe_fwrite E k len ≤ len;
  fopen_succeeds name : fe_fopen E name = true
}.

(** No write error: some bytes are accepted, perhaps not all at once. *)
Definition no_write_error (E : file_env) : Prop :=
  ∀ k len, 0 < len → 0 < fe_fwrite E k len.

Section laws.
Context (E : file_env) `{!FileLaws E}.
Implicit Types (s : LogFile) (f : AppendFile) (l : bytes).

(** [f'] is [f] after an append of [l]: a prefix of [l] reached the file, all of
    it without a write error; all of it is counted. *)
Definition appended f l f' : Prop :=
  af_name f' = af_name f ∧ writtenBytes_ f' = writtenBytes_ f + zlen l ∧
  (∃ n, af_contents f' = af_contents f ++ take n l) ∧
  (no_write_error E → af_contents f' = af_contents f ++ l).

Lemma write_some w f l n :
  0 ≤ n ≤ zlen l →
  let '(x, f') := AppendFile_write E w f (drop (Z.to_nat n) l) in
  0 ≤ x ≤ zlen l - n ∧ (no_write_error E → n < zlen l → 0 < x) ∧
  ∀ c, af_contents f = c ++ take (Z.to_nat n) l →
    af_contents f' = c ++ take (Z.to_nat (n + x)) l.
Proof.
  intros Hn. unfold AppendFile_write.
  assert (Hz : zlen (drop (Z.to_nat n) l) = zlen l - n).
  { unfold zlen in *. rewrite length_drop. lia. }
  pose proof (fwrite_bounds w (zlen (drop (Z.to_nat n) l)) ltac:(lia)) as Hx.
  rewrite Hz in *. set (x := fe_fwrite E w (zlen l - n)) in *.
  split_and!; [lia|lia|intros Hp Hlt; apply Hp; lia|].
  intros c Hc. cbn. rewrite Hc, <- app_assoc. f_equal.
  replace (Z.to_nat (n + x)) with (Z.to_nat n + Z.to_nat x)%nat by lia.
  by rewrite take_take_drop.
Qed.

Lemma AppendFile_append_ok w f l :
  wp (AppendFile_append E w f l) (λ r, appended f l r.2).
Proof.
  unfold AppendFile_append. pose proof (zlen_nonneg l) as Hl.
  pose proof (write_some w f l 0 ltac:(lia)) as Hw. rewrite drop_0 in Hw.
  destruct (AppendFile_write E w f l) as [n f1] eqn:E1. destruct Hw as (Hn & Hp & Hc).
  specialize (Hc (af_contents f)). rewrite app_nil_r in Hc. specialize (Hc eq_refl).
  assert (Hname : af_name f1 = af_name f ∧ writtenBytes_ f1 = writtenBytes_ f)
    by (unfold AppendFile_write in E1; injection E1 as _ <-; done).
  set (Inv := λ st : Z * nat * AppendFile, let '(n, w, f1) := st in
    0 ≤ n ≤ zlen l ∧ (af_name f1 = af_name f ∧ writtenBytes_ f1 = writtenBytes_ f) ∧
    af_contents f1 = af_contents f ++ take (Z.to_nat n) l).
  set (Q := λ r : nat * AppendFile,
    (af_name r.2 = af_name f ∧ writtenBytes_ r.2 = writtenBytes_ f) ∧
    (∃ n, af_contents r.2 = af_contents f ++ take n l) ∧
    (no_write_error E → af_contents r.2 = af_contents f ++ l)).
  apply wp_bind, wp_mono with Q.
  2:{ intros [w' f'] (Hnm & Hpre & Hall). apply wp_mret. cbn in *. unfold appended. cbn.
      destruct Hnm as [-> ->]. done. }
  apply wp_loop with Inv (λ st, Z.to_nat (zlen l - st.1.1)).
  - split_and!; try lia; try done; tauto.
  - cbn. unfold zlen in *. lia.
  - clear - FileLaws0. intros [[n w] f1] (Hn & Hnm & Hc). unfold append_turn.
    destruct (decide (zlen l - n > 0)).
    + pose proof (write_some w f1 l n Hn) as Hw.
      destruct (AppendFile_write E w f1 _) as [x f2] eqn:E2.
      assert (Hnm2 : af_name f2 = af_name f ∧ writtenBytes_ f2 = writtenBytes_ f)
        by (unfold AppendFile_write in E2; injection E2 as _ <-; done).
      destruct Hw as (Hx & Hp & Hc2). specialize (Hc2 _ Hc).
      destruct (decide (x = 0)) as [->|].
      * apply wp_mret. split; [done|]. split; [eauto|]. intros He.
        specialize (Hp He ltac:(lia)). lia.
      * apply wp_mret. split; [split_and!; try lia; tauto|]. cbn. lia.
    + apply wp_mret. assert (n = zlen l) as -> by lia. split; [done|].
      rewrite take_ge in Hc by (unfold zlen; lia). split; [|done].
      exists (length l). cbn. by rewrite firstn_all.
Qed.

(** ** Rolling *)

(** The members a run never changes. *)
Definition same_config s s' : Prop :=
  basename_ s' = basename_ s ∧ rollSize_ s' = rollSize_ s ∧
  flushInterval_ s' = flushInterval_ s ∧ checkEveryN_ s' = checkEveryN_ s.

(** A file is open and the counter of appends is below [checkEveryN_]. *)
Definition lf_ok s : Prop :=
  is_Some (file_ s) ∧ 0 ≤ count_ s < checkEveryN_ s ∧ checkEveryN_ s ≤ INT_MAX.

(** [s'] is [s] with a new, empty file opened at the [k]-th answer of [time]. *)
Definition rolled k s s' : Prop :=
  lastRoll_ s < fe_time E k ∧ lastRoll_ s' = fe_time E k ∧
  closed s' = closed s ++ option_list (file_ s) ∧
  ∃ f, file_ s' = Some f ∧ af_contents f = [] ∧ writtenBytes_ f = 0.

(** [s'] has the same files as [s]. *)
Definition stayed s s' : Prop :=
  lastRoll_ s' = lastRoll_ s ∧ closed s' = closed s ∧ file_ s' = file_ s.

Lemma rollFile_ok s :
  wp (rollFile E s) (λ r, same_config s r.2 ∧ times r.2 = S (times s) ∧
    count_ r.2 = count_ s ∧
    (rolled (times s) s r.2 ∨ fe_time E (times s) ≤ lastRoll_ s ∧ stayed s r.2)).
Proof.
  unfold rollFile, getLogFileName. cbn [lastRoll_ set_world].
  destruct (decide (fe_time E (times s) > lastRoll_ s)).
  - unfold AppendFile_open, assert_. rewrite fopen_succeeds, orb_true_r, mret_bind.
    rewrite mret_bind. apply wp_mret. split_and!; [done..|]. left.
    unfold rolled; cbn. split_and!; [lia|done|by destruct (file_ s)|].
    eexists. split_and!; done.
  - apply wp_mret. split_and!; [done..|]. right. split; [cbn; lia|done].
Qed.

(** What one append does: the line goes to the open file, which is then kept or
    replaced; it is kept over its size only where the clock has not moved since
    it was opened. *)
Definition append_post s l s' : Prop :=
  lf_ok s' ∧ same_config s s' ∧ (times s ≤ times s' ≤ S (S (times s)))%nat ∧
  ∃ f f1 s1, file_ s = Some f ∧ appended f l f1 ∧ file_ s1 = Some f1 ∧
    closed s1 = closed s ∧ lastRoll_ s1 = lastRoll_ s ∧
    (stayed s1 s' ∧
       (writtenBytes_ f1 ≤ rollSize_ s ∨
        fe_time E (times s) ≤ lastRoll_ s ∧ (times s < times s')%nat) ∨
     ∃ k, (times s ≤ k < times s')%nat ∧ rolled k s1 s').

(** [s] in the middle of an append: [f1] is the file after the write. *)
Definition written s f1 s1 : Prop :=
  file_ s1 = Some f1 ∧ closed s1 = closed s ∧ lastRoll_ s1 = lastRoll_ s ∧
  same_config s s1 ∧ 0 ≤ count_ s1 < checkEveryN_ s1 ∧ checkEveryN_ s1 ≤ INT_MAX.

Lemma append_keeps s f l f1 s' :
  file_ s = Some f → appended f l f1 → written s f1 s' →
  (times s ≤ times s' ≤ S (S (times s)))%nat → writtenBytes_ f1 ≤ rollSize_ s →
  append_post s l s'.
Proof.
  intros Hf Ha (Hf1 & Hcl & Hr & Hcfg & Hcnt) Ht Hw.
  split; [split; [by rewrite Hf1; eauto|done]|]. split; [done|]. split; [done|].
  exists f, f1, s'. split_and!; [done..|]. left. by split; [|left].
Qed.

Lemma append_rolls s f l f1 s1 :
  file_ s = Some f → appended f l f1 → written s f1 s1 →
  (times s ≤ times s1 ≤ S (times s))%nat →
  (writtenBytes_ f1 ≤ rollSize_ s ∨ times s1 = times s) →
  wp ('(_, s') ← rollFile E s1; mret s') (append_post s l).
Proof.
  intros Hf Ha (Hf1 & Hcl & Hr & Hcfg & Hcnt & HN) Ht Hw.
  apply wp_bind. eapply wp_mono; [apply rollFile_ok|].
  intros [b s2] (Hcfg2 & Ht2 & Hc2 & Hcase). cbn in *. apply wp_mret.
  unfold same_config in *. destruct Hcfg as (?&?&?&?), Hcfg2 as (?&?&?&?).
  split; [split; [|split; [by rewrite Hc2; congruence|congruence]]|].
  { destruct Hcase as [(_ & _ & _ & f2 & -> & _)|(_ & _ & _ & ->)]; [eauto|by rewrite Hf1; eauto]. }
  split; [split_and!; congruence|]. split; [lia|].
  exists f, f1, s1. split_and!; [done..|].
  destruct Hcase as [Hrolled|[Hle Hst]].
  - right. exists (times s1). split; [lia|done].
  - left. split; [done|]. destruct Hw as [?|Heq]; [by left|right].
    rewrite <- Heq, <- Hr. split; [done|lia].
Qed.

Lemma append_unlocked_ok s l : lf_ok s → wp (append_unlocked E s l) (append_post s l).
Proof.
  intros ([f Hf] & Hc & HN). unfold append_unlocked. rewrite Hf.
  apply wp_bind. eapply wp_mono; [apply AppendFile_append_ok|].
  intros [w f1] Happ. cbn [fst snd] in Happ.
  set (s1 := set_file _ (Some f1)).
  assert (Hs1 : ∀ s2, file_ s2 = Some f1 → closed s2 = closed s → lastRoll_ s2 = lastRoll_ s →
    same_config s s2 → 0 ≤ count_ s2 < checkEveryN_ s → written s f1 s2).
  { intros s2 ??? Hcfg ?. pose proof Hcfg as (_ & _ & _ & Heq).
    do 4 (split; [done|]). rewrite Heq. done. }
  destruct (decide (writtenBytes_ f1 > rollSize_ s1)) as [Hgt|Hle].
  { eapply append_rolls; [done..| | |by right]; [by apply Hs1|cbn; lia]. }
  cbn in Hle. apply wp_bind, wp_int; [cbn; unfold in_int, INT_MIN in *; lia|].
  cbn [count_ s1 set_file set_world].
  destruct (decide _) as [Hn|Hn]; [destruct (decide _) as [Hp|Hp]; [|destruct (decide _)]|].
  - eapply append_rolls; [done..| | |left; lia]; [apply Hs1; try done; cbn; lia|cbn; lia].
  - apply wp_mret. eapply append_keeps; [done..| | |lia]; [apply Hs1; try done; cbn; lia|cbn; lia].
  - apply wp_mret. eapply append_keeps; [done..| | |lia]; [apply Hs1; try done; cbn; lia|cbn; lia].
  - apply wp_mret. cbn in Hn.
    eapply append_keeps; [done..| | |lia]; [apply Hs1; try done; cbn; lia|cbn; lia].
Qed.

(** ** Runs *)

(** All files of a run, oldest first, and their text. *)
Definition all_files s : list AppendFile := closed s ++ option_list (file_ s).
Definition file_text s : bytes := mjoin (af_contents <$> all_files s).

Lemma file_text_app fs gs :
  mjoin (af_contents <$> fs ++ gs) = mjoin (af_contents <$> fs) ++ mjoin (af_contents <$> gs).
Proof. by rewrite fmap_app, join_app. Qed.

Lemma append_text s l s' :
  no_write_error E → append_post s l s' → file_text s' = file_text s ++ l.
Proof.
  intros He (_ & _ & _ & f & f1 & s1 & Hf & (_ & _ & _ & Ha) & Hf1 & Hcl & _ & Hcase).
  specialize (Ha He). unfold file_text, all_files.
  assert (mjoin (af_contents <$> closed s1 ++ option_list (file_ s1)) =
          mjoin (af_contents <$> closed s ++ option_list (file_ s)) ++ l) as <-.
  { rewrite Hcl, Hf1, Hf, !file_text_app. cbn. by rewrite !app_nil_r, Ha, app_assoc. }
  destruct Hcase as [[(_ & -> & ->) _]|(k & _ & _ & _ & -> & f2 & -> & Hn & _)]; [done|].
  rewrite (file_text_app _ (option_list (Some f2))). cbn. by rewrite Hn, !app_nil_r.
Qed.

(** Every file counts at least what it has. *)
Definition counted s : Prop :=
  Forall (λ f, zlen (af_contents f) ≤ writtenBytes_ f) (all_files s).

Lemma append_counted s l s' : append_post s l s' → counted s → counted s'.
Proof.
  intros (_ & _ & _ & f & f1 & s1 & Hf & (_ & Hw & [n Hn] & _) & Hf1 & Hcl & _ & Hcase) Hs.
  unfold counted, all_files in *. rewrite Hf in Hs. apply Forall_app in Hs as [Hc Ho].
  inversion_clear Ho as [|? ? Hz _].
  assert (Hz1 : zlen (af_contents f1) ≤ writtenBytes_ f1).
  { rewrite Hw, Hn, zlen_app. unfold zlen in *. rewrite length_take. lia. }
  assert (Forall (λ f, zlen (af_contents f) ≤ writtenBytes_ f)
            (closed s1 ++ option_list (file_ s1))) as Hs1.
  { rewrite Hcl, Hf1. apply Forall_app. split; [done|]. by constructor. }
  destruct Hcase as [[(_ & -> & ->) _]|(k & _ & _ & _ & -> & f2 & -> & He & Hwz)]; [done|].
  apply Forall_app. split; [done|]. constructor; [|done]. by rewrite He, Hwz.
Qed.

(** With a clock that gives the same second at most [B] times, a file in use is
    over its size only by the lines of the second it was opened in: the [j]-th
    answer of the clock. *)
Definition steady (B : nat) : Prop :=
  (∀ k, fe_time E k ≤ fe_time E (S k)) ∧ (∀ k, fe_time E k < fe_time E (k + B)).

Definition sized (B : nat) (L : Z) s : Prop :=
  ∃ j, (j < times s)%nat ∧ lastRoll_ s = fe_time E j ∧
  Forall (λ f, writtenBytes_ f ≤ rollSize_ s + Z.of_nat B * L) (closed s) ∧
  ∀ f, file_ s = Some f →
    writtenBytes_ f ≤ rollSize_ s + Z.of_nat ((times s - j - 1) `min` (B - 1)) * L.

Lemma steady_mono B : steady B → ∀ j k, (j ≤ k)%nat → fe_time E j ≤ fe_time E k.
Proof.
  intros [Hc _] j k Hjk. induction Hjk as [|k Hjk IH]; [lia|].
  pose proof (Hc k). lia.
Qed.

(** A second that is not over started less than [B] answers ago. *)
Lemma steady_recent B j k : steady B → fe_time E k ≤ fe_time E j → (k < j + B)%nat.
Proof.
  intros HB Hle. destruct (decide (k < j + B)%nat) as [|Hge]; [done|].
  pose proof (steady_mono B HB (j + B) k ltac:(lia)).
  destruct HB as [_ Hlt]. specialize (Hlt j). lia.
Qed.

Lemma append_sized B L s l s' :
  steady B → (0 < B)%nat → 0 ≤ rollSize_ s → 0 ≤ L → zlen l ≤ L →
  append_post s l s' → sized B L s → sized B L s'.
Proof.
  intros HB HB0 Hr HL Hl (_ & (_ & Hcfg & _) & Ht & f & f1 & s1 & Hf & (_ & Hw & _) & Hf1 &
    Hcl & Hlr & Hcase) (j & Hj & Hlast & Hc & Ho).
  specialize (Ho f Hf). unfold sized. rewrite Hcfg.
  destruct Hcase as [[(Hr' & -> & ->) Hbound]|(k & Hk & _ & Hr' & -> & f2 & -> & _ & Hwz)].
  - exists j. rewrite Hcl, Hf1, Hr', Hlr. split_and!; [lia|done|done|].
    intros ? [= <-]. destruct Hbound as [?|[Hle Hlt]]; [nia|].
    rewrite Hlast in Hle. apply (steady_recent B) in Hle; [|done]. nia.
  - exists k. rewrite Hcl, Hf1, Hr'. split_and!; [lia|done| |intros ? [= <-]; nia].
    apply Forall_app. split; [done|]. constructor; [nia|done].
Qed.

Lemma append_all_ind (P : LogFile → Prop) (A : bytes → Prop) s ls :
  (∀ s l s', A l → append_post s l s' → P s → P s') →
  lf_ok s → Forall A ls → P s → wp (append_all E s ls) (λ s', P s' ∧ lf_ok s').
Proof.
  intros Hstep Hs Hls HP. revert s Hs HP.
  induction Hls as [|l ls Hl Hls IH]; intros s Hs HP; cbn [append_all]; [by apply wp_mret|].
  apply wp_bind. eapply wp_mono; [by apply append_unlocked_ok|].
  intros s' Hpost. apply IH; [apply Hpost|by eapply Hstep].
Qed.

Lemma append_all_text s ls :
  lf_ok s → no_write_error E →
  wp (append_all E s ls) (λ s', file_text s' = file_text s ++ mjoin ls).
Proof.
  intros Hs He. revert s Hs. induction ls as [|l ls IH]; intros s Hs; cbn [append_all].
  - apply wp_mret. cbn. by rewrite app_nil_r.
  - apply wp_bind. eapply wp_mono; [by apply append_unlocked_ok|].
    intros s' Hpost. eapply wp_mono; [apply IH, Hpost|]. intros s'' ->.
    erewrite append_text by done. cbn. by rewrite app_assoc.
Qed.

(** A new log file: one empty file, opened at the first answer of the clock. *)
Lemma LogFile_new_ok name roll flush n t w :
  fe_ndebug E ∨ strchr name "/"%char = None → 0 < fe_time E t → 0 < n ≤ INT_MAX →
  wp (LogFile_new E name roll flush n t w) (λ s, lf_ok s ∧ rollSize_ s = roll ∧
    times s = S t ∧ lastRoll_ s = fe_time E t ∧ closed s = [] ∧
    ∃ f, file_ s = Some f ∧ af_contents f = [] ∧ writtenBytes_ f = 0).
Proof.
  intros Ha Ht Hn. unfold LogFile_new, assert_.
  assert (fe_ndebug E || bool_decide (strchr name "/"%char = None) = true) as ->.
  { destruct Ha as [Ha| ->]; [|by rewrite orb_true_r]. by destruct (fe_ndebug E). }
  rewrite mret_bind. apply wp_bind. eapply wp_mono; [apply rollFile_ok|].
  intros [b s] ((_ & Hr & _ & HN) & Hts & Hc & Hcase). cbn in *. apply wp_mret.
  destruct Hcase as [(_ & Hl & Hcl & f & Hf & ?)|[Hle _]]; [|lia].
  split; [split; [by rewrite Hf; eauto|rewrite Hc, HN; lia]|].
  split_and!; [done..|]. eauto.
Qed.
End laws.

(** The constructor and any number of appends. *)
Lemma log_file_run E `{!FileLaws E} name roll flush n t w B L ls :
  fe_ndebug E ∨ strchr name "/"%char = None → 0 < n ≤ INT_MAX → 0 ≤ roll →
  no_write_error E → 0 < fe_time E t → steady E B → (0 < B)%nat →
  Forall (λ l, zlen l ≤ L) ls → 0 ≤ L →
  wp (s ← LogFile_new E name roll flush n t w; append_all E s ls) (λ s,
    file_text s = mjoin ls ∧
    Forall (λ f, zlen (af_contents f) ≤ roll + Z.of_nat B * L) (all_files s)).
Proof.
  intros Ha Hn Hr He Ht Hclock HB Hls HL. apply wp_bind.
  eapply wp_mono; [by apply LogFile_new_ok|].
  intros s (Hok & Hroll & Hts & Hlr & Hcl & f & Hf & Hempty & Hz).
  pose proof (append_all_text E s ls Hok He) as Htext.
  assert (Hs : sized E B L s ∧ counted s ∧ rollSize_ s = roll).
  { unfold sized, counted, all_files. rewrite Hcl, Hf, Hts, Hlr.
    split; [|split; [|done]]; [|by constructor; [rewrite Hempty, Hz|]].
    exists t. split_and!; [lia|done|done|]. intros ? [= <-]. nia. }
  pose proof (append_all_ind E (λ s, sized E B L s ∧ counted s ∧ rollSize_ s = roll)
    (λ l, zlen l ≤ L) s ls) as Hinv.
  apply wp_iff in Htext as (s' & E1 & Htext). rewrite E1 in *. cbn in *.
  destruct Hinv as [((j & _ & _ & Hc & Hcur) & Hcnt & Hroll') _]; [|done..|].
  { intros s1 l s2 Hl Hp (? & ? & ?). split_and!; [by eapply append_sized; eauto; lia|
      by eapply append_counted|destruct Hp as (_ & (_ & -> & _) & _); done]. }
  split.
  - rewrite Htext. unfold file_text, all_files. rewrite Hcl, Hf. cbn. by rewrite Hempty.
  - unfold counted, all_files in *. rewrite Hroll' in *. apply Forall_app in Hcnt as [Hc1 Hc2].
    apply Forall_app. split.
    + eapply Forall_impl; [apply Forall_and; split; [exact Hc|exact Hc1]|].
      cbn. intros. lia.
    + destruct (file_ s') as [f'|]; [|done]. specialize (Hcur f' eq_refl).
      inversion_clear Hc2. constructor; [nia|done].
Qed.

(** ** Theorems *)

(** C19: The log file loses nothing and keeps its files small. For any lines, any
    splitting of the writes by [fwrite] without an error, and a clock that gives
    the same second at most [B] times, the constructor and the appends return
    and the files, read in the order of their opening, contain exactly the
    lines; no file is longer than [rollSize] and [B] of the longest lines. *)
Theorem rolling_keeps_lines E `{!FileLaws E} name roll flush n t w B L ls :
  fe_ndebug E ∨ strchr name "/"%char = None → 0 < n ≤ INT_MAX → 0 ≤ roll →
  no_write_error E → 0 < fe_time E t → steady E B → (0 < B)%nat →
  Forall (λ l, zlen l ≤ L) ls → 0 ≤ L →
  wp (s ← LogFile_new E name roll flush n t w; append_all E s ls) (λ s,
    file_text s = mjoin ls ∧
    Forall (λ f, zlen (af_contents f) ≤ roll + Z.of_nat B * L) (all_files s)).
Proof. intros. by apply log_file_run. Qed.

(** A disk that takes one byte at a time, and a clock with two calls a second. *)
Definition slow_disk : file_env := {|
  fe_ndebug := true;
  fe_time := λ k, 1000 + Z.of_nat k / 2;
  fe_localtime := λ t, utc_of t false;
  fe_hostname := lit "host";
  fe_pid := 7;
  fe_fopen := λ _, true;
  fe_fwrite := λ _ len, Z.min 1 len
|}.
#[export] Instance slow_disk_laws : FileLaws slow_disk.
Proof. split; [|done]. intros k len Hl. cbn. lia. Qed.

Lemma slow_disk_writes : no_write_error slow_disk.
Proof. intros k len Hl. cbn. lia. Qed.
Lemma slow_disk_steady : steady slow_disk 2.
Proof. split; intros k; unfold slow_disk, fe_time; Z.div_mod_to_equations; lia. Qed.

Lemma rolling_keeps_lines_witness :
  let ls := replicate 6 (lit "line ") in
  wp (s ← LogFile_new slow_disk (lit "/var/log/iridium/run/p") 8 3 1024 0 0;
      append_all slow_disk s ls) (λ s,
    file_text s = mjoin ls ∧
    Forall (λ f, zlen (af_contents f) ≤ 8 + Z.of_nat 2 * 5) (all_files s)).
Proof.
  apply (rolling_keeps_lines slow_disk).
  - by left.
  - by vm_compute.
  - done.
  - apply slow_disk_writes.
  - done.
  - apply slow_disk_steady.
  - lia.
  - repeat constructor; vm_compute; discriminate.
  - done.
Defined.

(** Rolling is suppressed within a second: as long as the clock gives the
    time of the last roll, every line goes to the same file, whatever its
    size. *)
Lemma same_second_never_rolls E `{!FileLaws E} s ls :
  lf_ok s → no_write_error E → (∀ k, fe_time E k ≤ lastRoll_ s) →
  wp (append_all E s ls) (λ s', closed s' = closed s ∧
    file_text s' = file_text s ++ mjoin ls).
Proof.
  intros Hs He Hclock. pose proof (append_all_text E s ls Hs He) as Htext.
  apply wp_iff in Htext as (s' & E1 & Htext).
  pose proof (append_all_ind E (λ s', closed s' = closed s ∧ lastRoll_ s' = lastRoll_ s)
    (λ _, True) s ls) as Hinv. rewrite E1 in *. cbn in *.
  destruct Hinv as [[Hc _] _]; [|done|by apply Forall_true|done|done].
  intros s1 l s2 _ (_ & _ & _ & f & f1 & s3 & _ & _ & _ & Hcl & Hlr & Hcase) [Hc Hl].
  destruct Hcase as [[(Hr' & -> & _) _]|(k & _ & Hlt & _)]; [split; congruence|].
  specialize (Hclock k). rewrite Hlr, Hl in Hlt. lia.
Qed.

(** The clock stands at second 5, when the file was opened. *)
Definition stopped_clock : file_env := {|
  fe_ndebug := true;
  fe_time := λ _, 5;
  fe_localtime := λ t, utc_of t false;
  fe_hostname := lit "host";
  fe_pid := 7;
  fe_fopen := λ _, true;
  fe_fwrite := λ _ len, len
|}.
Definition opened_at_5 : LogFile := {|
  basename_ := lit "p"; rollSize_ := 3; flushInterval_ := 3; checkEveryN_ := 1024;
  count_ := 0; startOfPeriod_ := 0; lastRoll_ := 5; lastFlush_ := 5;
  file_ := Some {| af_name := lit "p.19700101-000005.host.7.log"; af_contents := [];
                   writtenBytes_ := 0 |};
  times := 1; writes := 0; flushes := 0; closed := []
|}.

Lemma same_second_never_rolls_witness :
  LogFile_new stopped_clock (lit "p") 3 3 1024 0 0 = Ret opened_at_5 ∧
  wp (append_all stopped_clock opened_at_5 (replicate 10 (lit "abcd"))) (λ s',
    closed s' = closed opened_at_5 ∧
    file_text s' = file_text opened_at_5 ++ mjoin (replicate 10 (lit "abcd"))).
Proof.
  split; [vm_compute; reflexivity|].
  assert (FileLaws stopped_clock) by (split; [intros; cbn; lia|done]).
  apply (same_second_never_rolls stopped_clock).
  - split; [eauto|]. split; [split|]; vm_compute; done.
  - intros k len Hl. done.
  - intros k. done.
Defined.

(** Where assertions are on, the constructor refuses a name with a ['/'],
    which is what [muduo_clog_init] passes: the process is aborted. *)
Lemma slash_aborts E name roll flush n t w :
  fe_ndebug E = false → strchr name "/"%char ≠ None →
  LogFile_new E name roll flush n t w = Exited SIGABRT_status.
Proof.
  intros Hd Hn. unfold LogFile_new, assert_. rewrite Hd. by rewrite bool_decide_false.
Qed.
