(* ===== verification/AsyncLog.v ===== *)
(** The asynchronous log of the C++ logging library:
    [src/src/log/muduo-clog/muduo/base/AsyncLogging.cc] and [AsyncLogging.h].

    Any number of threads call [append]; one background thread swaps the
    buffers they filled with empty ones and writes them out. [append] holds
    [mutex_] throughout, so it is one step; the background thread has a step for
    the test of [running_], for the critical section up to the wait, for the
    critical section after it and for the writing, which touches its local
    variables and the output only. [stop] clears [running_] at any moment. A run
    is a list of these actions in the order they take effect. Waking up is not
    constrained: a notification, the timeout and a spurious wake-up all lead to
    the same step.

    The buffers are those of the interface [LogBuffer] (LogStream.v); a [NULL]
    [auto_ptr] is [None]. The output is the list of the pieces given to
    [LogFile::append]; [log_reaches_files] composes it with LogFile.v. *)

From S2P Require Import Prelude CString Memory MuduoDate LogStream LogFile.

(** Where the background thread is in [threadFunc]. *)
Inductive logger_pc :=
  | PStart      (* the assertion, countDown and the allocations *)
  | PLoop       (* while (running_) *)
  | PLock       (* the critical section up to waitForSeconds *)
  | PWait       (* in waitForSeconds *)
  | PWrite      (* after the critical section, to the end of the turn *)
  | PDone.

Section asynclogging.
(** [fresh] is what [new Buffer] gives; [stamp] is the text of
    [Timestamp::now().toFormattedString()]. *)
Context {B : Type} `{!LogBuffer B} (fresh : B) (stamp : bytes).

Record AsyncLogging := {
  running_ : bool;
  currentBuffer_ : option B;
  nextBuffer_ : option B;
  buffers_ : list B;
  pc : logger_pc;
  newBuffer1 : option B;
  newBuffer2 : option B;
  buffersToWrite : list B;
  output : list bytes;              (* arguments of output.append *)
  dropped : list B                  (* buffers erased unwritten *)
}.

(** The constructor, and [start] up to the creation of the thread. *)
Definition AsyncLogging_start : AsyncLogging := {|
  running_ := true; currentBuffer_ := Some fresh; nextBuffer_ := Some fresh;
  buffers_ := []; pc := PStart; newBuffer1 := None; newBuffer2 := None;
  buffersToWrite := []; output := []; dropped := []
|}.

(** The members guarded by [mutex_], and those of the thread. *)
Definition set_shared (s : AsyncLogging) (c n : option B) (bs : list B) : AsyncLogging :=
  {| running_ := running_ s; currentBuffer_ := c; nextBuffer_ := n; buffers_ := bs;
     pc := pc s; newBuffer1 := newBuffer1 s; newBuffer2 := newBuffer2 s;
     buffersToWrite := buffersToWrite s; output := output s; dropped := dropped s |}.
Definition set_local (s : AsyncLogging) (p : logger_pc) (n1 n2 : option B) (w : list B)
    : AsyncLogging :=
  {| running_ := running_ s; currentBuffer_ := currentBuffer_ s; nextBuffer_ := nextBuffer_ s;
     buffers_ := buffers_ s; pc := p; newBuffer1 := n1; newBuffer2 := n2;
     buffersToWrite := w; output := output s; dropped := dropped s |}.
Definition set_pc (s : AsyncLogging) (p : logger_pc) : AsyncLogging :=
  set_local s p (newBuffer1 s) (newBuffer2 s) (buffersToWrite s).
Definition set_output (s : AsyncLogging) (o : list bytes) (d : list B) : AsyncLogging :=
  {| running_ := running_ s; currentBuffer_ := currentBuffer_ s; nextBuffer_ := nextBuffer_ s;
     buffers_ := buffers_ s; pc := pc s; newBuffer1 := newBuffer1 s; newBuffer2 := newBuffer2 s;
     buffersToWrite := buffersToWrite s; output := o; dropped := d |}.

Definition deref (b : option B) : outcome B :=
  match b with Some b => mret b | None => Undef NullDeref end.

(** [append(logline, len)]. *)
Definition append (s : AsyncLogging) (logline : bytes) : outcome AsyncLogging :=
  c ← deref (currentBuffer_ s);
  if decide (lb_avail c > zlen logline)
  then c ← lb_append c logline;
       mret (set_shared s (Some c) (nextBuffer_ s) (buffers_ s))
  else let bs := buffers_ s ++ [c] in
       let '(c, n) := match nextBuffer_ s with
                      | Some n => (n, None)
                      | None => (fresh, None)
                      end in
       c ← lb_append c logline;
       mret (set_shared s (Some c) n bs).

(** The end of the critical section: [push_back] throws on [NULL]. *)
Definition swap_buffers (s : AsyncLogging) : outcome AsyncLogging :=
  c ← deref (currentBuffer_ s);
  let bs := buffers_ s ++ [c] in
  let '(n, n2) := match nextBuffer_ s with
                  | Some n => (Some n, newBuffer2 s)
                  | None => (newBuffer2 s, None)
                  end in
  mret (set_local (set_shared s (newBuffer1 s) n (buffersToWrite s)) PWrite None n2 bs).

(** The text printed instead of the dropped buffers, in [char buf[256]]. *)
Definition drop_notice (n : Z) : bytes :=
  snprintf 256 (lit "Dropped log messages at " ++ stamp ++ lit ", " ++
    print_d (n - 2) ++ lit " larger buffers" ++ [LF]).

(** [if (!newBuffer) newBuffer = buffersToWrite.pop_back(), newBuffer->reset()]. *)
Definition recycle (b : option B) (w : list B) : outcome (option B * list B) :=
  match b with
  | Some b => mret (Some b, w)
  | None =>
      _ ← assertion (bool_decide (w ≠ []));
      match last w with
      | Some b => mret (Some (lb_reset b), take (length w - 1) w)
      | None => Undef OutOfBounds
      end
  end.

(** After the critical section: at most 25 buffers are written, otherwise the
    first two; two of them are emptied and kept. *)
Definition write_buffers (s : AsyncLogging) : outcome AsyncLogging :=
  let w := buffersToWrite s in
  _ ← assertion (bool_decide (w ≠ []));
  let s := if decide (zlen w > 25)
           then set_output s (output s ++ [drop_notice (zlen w)]) (dropped s ++ drop 2 w)
           else s in
  let w := if decide (zlen w > 25) then take 2 w else w in
  let s := set_output s (output s ++ (lb_text <$> w)) (dropped s) in
  let w := if decide (zlen w > 2) then take 2 w else w in
  '(n1, w) ← recycle (newBuffer1 s) w;
  '(n2, w) ← recycle (newBuffer2 s) w;
  mret (set_local s PLoop n1 n2 []).

Definition is_empty_buffer (b : option B) : bool :=
  match b with Some b => bool_decide (lb_length b = 0) | None => false end.

(** The next step of [threadFunc]. *)
Definition thread_step (s : AsyncLogging) : outcome AsyncLogging :=
  match pc s with
  | PStart =>
      _ ← assertion (running_ s);
      mret (set_local s PLoop (Some fresh) (Some fresh) [])
  | PLoop =>
      if running_ s
      then _ ← assertion (is_empty_buffer (newBuffer1 s));
           _ ← assertion (is_empty_buffer (newBuffer2 s));
           _ ← assertion (bool_decide (buffersToWrite s = []));
           mret (set_pc s PLock)
      else mret (set_pc s PDone)
  | PLock => match buffers_ s with
             | [] => mret (set_pc s PWait)
             | _ => swap_buffers s
             end
  | PWait => swap_buffers s
  | PWrite => write_buffers s
  | PDone => mret s
  end.

(** [stop()], but for the [join]; the thread is started before. *)
Definition stop (s : AsyncLogging) : AsyncLogging :=
  {| running_ := false; currentBuffer_ := currentBuffer_ s; nextBuffer_ := nextBuffer_ s;
     buffers_ := buffers_ s; pc := pc s; newBuffer1 := newBuffer1 s; newBuffer2 := newBuffer2 s;
     buffersToWrite := buffersToWrite s; output := output s; dropped := dropped s |}.

(** ** Runs *)

Inductive action :=
  | AAppend (logline : bytes)
  | AThread
  | AStop.

(** [start] waits for [latch_], so [stop] comes after the thread's first step. *)
Definition act (s : AsyncLogging) (a : action) : outcome AsyncLogging :=
  match a with
  | AAppend l => append s l
  | AThread => thread_step s
  | AStop => mret (match pc s with PStart => s | _ => stop s end)
  end.

Fixpoint run (s : AsyncLogging) (acts : list action) : outcome AsyncLogging :=
  match acts with
  | [] => mret s
  | a :: acts => s ← act s a; run s acts
  end.

Definition appended_lines (acts : list action) : list bytes :=
  omap (λ a, match a with AAppend l => Some l | _ => None end) acts.

(** What waits to be written, oldest first. *)
Definition in_flight (s : AsyncLogging) : bytes :=
  mjoin (lb_text <$> buffersToWrite s ++ buffers_ s ++ option_list (currentBuffer_ s)).

(** ** The invariant *)

Context {SIZE : Z} `{!LogBufferLaws B SIZE}.
Context (fresh_ok : lb_ok fresh) (fresh_empty : lb_text fresh = []).

Definition empty_buffer (b : B) : Prop := lb_ok b ∧ lb_text b = [].
Definition empty_option (b : option B) : Prop := ∀ b', b = Some b' → empty_buffer b'.

(** The part the producers see: there is a current buffer, and the reserve is
    only gone when a full buffer waits. *)
Definition shared_ok (s : AsyncLogging) : Prop :=
  (∃ c, currentBuffer_ s = Some c ∧ lb_ok c) ∧
  empty_option (nextBuffer_ s) ∧ Forall lb_ok (buffers_ s) ∧
  (nextBuffer_ s = None → buffers_ s ≠ []).

(** The part of the thread: outside the writing it has two empty buffers and
    nothing to write; when it writes, enough buffers to get two back. *)
Definition local_ok (s : AsyncLogging) : Prop :=
  match pc s with
  | PStart | PDone => buffersToWrite s = []
  | PLoop | PLock | PWait =>
      buffersToWrite s = [] ∧ (∃ b, newBuffer1 s = Some b ∧ empty_buffer b) ∧
      (∃ b, newBuffer2 s = Some b ∧ empty_buffer b)
  | PWrite =>
      newBuffer1 s = None ∧ empty_option (newBuffer2 s) ∧
      Forall lb_ok (buffersToWrite s) ∧ buffersToWrite s ≠ [] ∧
      (newBuffer2 s = None → (2 ≤ length (buffersToWrite s))%nat)
  end.

Definition async_ok (s : AsyncLogging) : Prop := shared_ok s ∧ local_ok s.

(** The pieces written are buffers or the notice of a drop. *)
Definition PIECE_MAX : Z := Z.max SIZE 255.
Definition pieces_ok (s : AsyncLogging) : Prop :=
  Forall (λ p, zlen p ≤ PIECE_MAX) (output s).

(** The pieces written and the text on its way, with the line [l] just added;
    what was dropped stays dropped. *)
Definition accounts (s s' : AsyncLogging) (l : bytes) : Prop :=
  (∃ d, dropped s' = dropped s ++ d) ∧
  (dropped s' = dropped s → mjoin (output s') ++ in_flight s' =
     mjoin (output s) ++ in_flight s ++ l).

Lemma accounts_same s s' l :
  dropped s' = dropped s → output s' = output s → in_flight s' = in_flight s ++ l →
  accounts s s' l.
Proof. intros Hd Ho Hi. split; [exists []; by rewrite app_nil_r|]. by rewrite Ho, Hi. Qed.

Lemma text_app (bs bs' : list B) :
  mjoin (lb_text <$> bs ++ bs') = mjoin (lb_text <$> bs) ++ mjoin (lb_text <$> bs').
Proof. by rewrite fmap_app, join_app. Qed.

Lemma empty_avail b : empty_buffer b → lb_avail b = SIZE.
Proof. intros [Hok He]. rewrite lb_room by done. rewrite He. unfold zlen. simpl. lia. Qed.

Lemma append_ok s l :
  async_ok s → zlen l < SIZE →
  wp (append s l) (λ s', async_ok s' ∧ accounts s s' l ∧ pc s' = pc s ∧
    running_ s' = running_ s ∧ output s' = output s).
Proof.
  intros [((c & Hc & Hok) & Hn & Hb & Hnb) Hl] Hlen. unfold append. rewrite Hc.
  cbn [deref]. rewrite mret_bind. destruct (decide (lb_avail c > zlen l)) as [Ha|Ha].
  - destruct (lb_append_fits c l Hok ltac:(lia)) as (c' & -> & Hok' & Ht).
    rewrite Ret_bind. apply wp_mret.
    split_and!; try done; [split; [|exact Hl]; split_and!; eauto|].
    apply accounts_same; [done..|]. unfold in_flight. cbn. rewrite Hc.
    rewrite !text_app. cbn. by rewrite Ht, !app_nil_r, !app_assoc.
  - assert (∃ n, (match nextBuffer_ s with Some n => (n, None) | None => (fresh, None) end)
        = (n, @None B) ∧ empty_buffer n) as (n & -> & Hne).
    { destruct (nextBuffer_ s) as [n|]; [exists n; split; [done|by apply Hn]|].
      exists fresh. by split. }
    destruct (lb_append_fits n l) as (c' & -> & Hok' & Ht);
      [apply Hne|rewrite empty_avail by done; lia|].
    rewrite Ret_bind. apply wp_mret.
    split_and!; try done; [split; [|exact Hl]; split_and!; eauto|].
    + intros ? [=].
    + apply Forall_app. by repeat constructor.
    + intros _. cbn. by destruct (buffers_ s).
    + apply accounts_same; [done..|]. unfold in_flight. cbn. rewrite Hc.
      rewrite !text_app. cbn. rewrite Ht. destruct Hne as [_ ->].
      by rewrite !app_nil_r, app_nil_l, <- !app_assoc.
Qed.

Lemma swap_buffers_ok s :
  async_ok s → (pc s = PLock ∨ pc s = PWait) →
  wp (swap_buffers s) (λ s', async_ok s' ∧ accounts s s' [] ∧ pc s' = PWrite ∧
    running_ s' = running_ s ∧ output s' = output s ∧ dropped s' = dropped s ∧
    buffers_ s' = [] ∧ ∃ c, currentBuffer_ s' = Some c ∧ lb_text c = []).
Proof.
  intros [((c & Hc & Hok) & Hn & Hb & Hnb) Hl] Hpc.
  assert (Hl' : buffersToWrite s = [] ∧ (∃ b, newBuffer1 s = Some b ∧ empty_buffer b) ∧
    (∃ b, newBuffer2 s = Some b ∧ empty_buffer b))
    by (unfold local_ok in Hl; destruct Hpc as [E|E]; rewrite E in Hl; done).
  destruct Hl' as (Hw & (b1 & Hb1 & Hb1e) & (b2 & Hb2 & Hb2e)).
  unfold swap_buffers. rewrite Hc. cbn [deref]. rewrite mret_bind, Hb1, Hb2, Hw.
  assert (Hwok : Forall lb_ok (buffers_ s ++ [c])) by (apply Forall_app; by repeat constructor).
  assert (Hne : buffers_ s ++ [c] ≠ []) by (by destruct (buffers_ s)).
  assert (Hflow : mjoin (lb_text <$> (buffers_ s ++ [c]) ++ [] ++ [b1]) = in_flight s ++ []).
  { unfold in_flight. rewrite Hw, Hc, !text_app. cbn. destruct Hb1e as [_ ->].
    by rewrite !app_nil_r. }
  destruct (nextBuffer_ s) as [n|] eqn:En; apply wp_mret.
  - split; [split; [split_and!; cbn; [exists b1; split; [done|apply Hb1e]|done|done|done]|]|].
    + unfold local_ok. cbn. split_and!; [done| |done|done|done]. intros ? [= <-]. done.
    + split_and!; try done; [by apply accounts_same|]. cbn. eexists. split; [done|apply Hb1e].
  - split; [split; [split_and!; cbn; [exists b1; split; [done|apply Hb1e]| |done|done]|]|].
    + intros ? [= <-]. done.
    + unfold local_ok. cbn. split_and!; [done| |done|done|]; [intros ? [=]|].
      intros _. rewrite length_app. specialize (Hnb eq_refl).
      destruct (buffers_ s); [done|cbn; lia].
    + split_and!; try done; [by apply accounts_same|]. cbn. eexists. split; [done|apply Hb1e].
Qed.

(** Getting a buffer back. *)
Lemma recycle_ok b w :
  empty_option b → Forall lb_ok w → (b = None → w ≠ []) →
  wp (recycle b w) (λ r, (∃ b', r.1 = Some b' ∧ empty_buffer b') ∧ Forall lb_ok r.2 ∧
    length r.2 = match b with Some _ => length w | None => (length w - 1)%nat end).
Proof.
  intros Hb Hw Hne. unfold recycle. destruct b as [b|].
  - apply wp_mret. split_and!; [|done|done]. exists b. split; [done|by apply Hb].
  - rewrite bool_decide_true by auto. unfold assertion. rewrite mret_bind.
    destruct (last w) as [b|] eqn:E; [|apply last_None in E; by apply Hne in E].
    apply wp_mret. split_and!; cbn.
    + exists (lb_reset b). split; [done|]. split; [|apply lb_reset_text].
      apply lb_reset_ok. apply last_Some_elem_of in E. by eapply Forall_forall in E.
    + by apply Forall_take.
    + rewrite length_take. lia.
Qed.

Lemma write_buffers_ok s :
  async_ok s → pc s = PWrite →
  wp (write_buffers s) (λ s', async_ok s' ∧ accounts s s' [] ∧ pc s' = PLoop ∧
    running_ s' = running_ s ∧ (pieces_ok s → pieces_ok s') ∧
    buffers_ s' = buffers_ s ∧ currentBuffer_ s' = currentBuffer_ s).
Proof.
  intros [Hs Hl] Hpc. unfold local_ok in Hl. rewrite Hpc in Hl.
  destruct Hl as (H1 & H2 & Hw & Hne & H22).
  unfold write_buffers. rewrite bool_decide_true by done. unfold assertion at 1.
  rewrite mret_bind. cbv zeta. set (w := buffersToWrite s) in *.
  set (s1 := if decide (zlen w > 25) then _ else s).
  set (w1 := if decide (zlen w > 25) then take 2 w else w).
  assert (Hs1 : newBuffer1 s1 = newBuffer1 s ∧ newBuffer2 s1 = newBuffer2 s ∧
    shared_ok s1 ∧ running_ s1 = running_ s ∧ in_flight s1 = in_flight s ∧
    buffers_ s1 = buffers_ s ∧ currentBuffer_ s1 = currentBuffer_ s)
    by (unfold s1; destruct (decide _); done).
  destruct Hs1 as (E1 & E2 & Hsh & Hrun & Hfl & Hbs & Hcb).
  set (w2 := if decide (zlen w1 > 2) then take 2 w1 else w1).
  assert (Hw2 : Forall lb_ok w2 ∧ length w2 = (length w `min` 2)%nat).
  { assert (Hw1 : Forall lb_ok w1 ∧ (length w1 `min` 2 = length w `min` 2)%nat).
    { unfold w1, zlen. destruct (decide _); [|done].
      rewrite length_take. split; [by apply Forall_take|lia]. }
    destruct Hw1 as [Hw1 <-]. unfold w2, zlen. destruct (decide (Z.of_nat (length w1) > 2));
      rewrite ?length_take; (split; [auto using Forall_take|lia]). }
  destruct Hw2 as [Hw2 Hlen]. cbn [newBuffer1 newBuffer2 set_output].
  rewrite E1, E2, H1.
  assert (Hne2 : w2 ≠ []).
  { intros E. rewrite E in Hlen. destruct w; [done|cbn in Hlen; lia]. }
  pose proof (recycle_ok None w2 ltac:(done) Hw2 (λ _, Hne2)) as Hr1.
  apply wp_iff in Hr1 as ([n1 w3] & -> & Hn1 & Hw3 & Hlen3). rewrite Ret_bind.
  cbn [fst snd] in *.
  assert (Hne3 : newBuffer2 s = None → w3 ≠ []).
  { intros Hnone E. specialize (H22 Hnone). rewrite E in Hlen3. cbn in Hlen3. lia. }
  pose proof (recycle_ok (newBuffer2 s) w3 H2 Hw3 Hne3) as Hr2.
  apply wp_iff in Hr2 as ([n2 w4] & -> & Hn2 & Hw4 & _). rewrite Ret_bind.
  cbn [fst snd] in *. apply wp_mret.
  split; [split; [exact Hsh|by split_and!]|].
  split; [|split_and!; [done|exact Hrun| |exact Hbs|exact Hcb]].
  2:{ intros Hp. apply Forall_app. split.
      - unfold s1. destruct (decide _); [|done]. apply Forall_app. split; [done|].
        constructor; [|done]. unfold PIECE_MAX, drop_notice, snprintf, zlen.
        rewrite length_take. lia.
      - apply Forall_fmap. assert (Hw1 : Forall lb_ok w1)
          by (unfold w1; destruct (decide _); auto using Forall_take).
        eapply Forall_impl; [exact Hw1|]. cbn. intros b Hb.
        pose proof (lb_text_bound b Hb). unfold PIECE_MAX. lia. }
  split; cbn.
  - unfold s1. destruct (decide _); cbn; [eauto|]. exists []. by rewrite app_nil_r.
  - intros Hd. assert (s1 = s ∧ w1 = w) as [Hs1 Hw1].
    { unfold s1, w1 in *. destruct (decide _) as [Hgt|]; [|done]. exfalso. cbn in Hd.
      apply (f_equal length) in Hd. rewrite length_app, length_drop in Hd.
      unfold zlen in Hgt. lia. }
    rewrite Hs1, Hw1, join_app, app_nil_r. unfold in_flight. cbn.
    by rewrite <- app_assoc, (text_app w).
Qed.

(** ** Steps and runs *)

Lemma is_empty_ok b : empty_buffer b → is_empty_buffer (Some b) = true.
Proof.
  intros [Hok He]. apply bool_decide_true. by rewrite lb_length_text, He by done.
Qed.

(** The flag is set when the thread starts and cleared when it ends. *)
Definition flag_ok (s : AsyncLogging) : Prop :=
  match pc s with
  | PStart => running_ s = true
  | PDone => running_ s = false
  | _ => True
  end.

(** What one action of a run does. *)
Definition act_post (s : AsyncLogging) (l : bytes) (s' : AsyncLogging) : Prop :=
  async_ok s' ∧ accounts s s' l ∧ flag_ok s' ∧
  (pieces_ok s → pieces_ok s').

(** All that is left to write is in [buffersToWrite]. *)
Definition swapped (s : AsyncLogging) : Prop :=
  pc s = PWrite ∧ buffers_ s = [] ∧
  mjoin (lb_text <$> option_list (currentBuffer_ s)) = [].

(** Where a step of the thread leads. *)
Definition progress (s s' : AsyncLogging) : Prop :=
  match pc s with
  | PStart => pc s' = PLoop
  | PLoop => pc s' = if running_ s then PLock else PDone
  | PLock => match buffers_ s with [] => pc s' = PWait | _ => swapped s' end
  | PWait => swapped s'
  | PWrite => pc s' = PLoop ∧ buffers_ s' = buffers_ s ∧
      currentBuffer_ s' = currentBuffer_ s
  | PDone => s' = s
  end.

Lemma thread_step_ok s :
  async_ok s → flag_ok s →
  wp (thread_step s) (λ s', act_post s [] s' ∧ running_ s' = running_ s ∧ progress s s').
Proof.
  intros Hok Hflag. pose proof Hok as [Hs Hl]. unfold thread_step, progress.
  unfold flag_ok in Hflag.
  assert (Hswap : pc s = PLock ∨ pc s = PWait →
    wp (swap_buffers s) (λ s', act_post s [] s' ∧ running_ s' = running_ s ∧
      swapped s')).
  { intros Hpc. eapply wp_mono; [by apply swap_buffers_ok|].
    intros s' (Hok' & Ha & Hp & Hr & Ho & _ & Hb & c & Hc & Hce).
    split.
    - split; [done|]. split; [done|]. split; [unfold flag_ok; by rewrite Hp|]. unfold pieces_ok. by rewrite Ho.
    - split; [done|]. split; [done|]. split; [done|]. rewrite Hc. cbn. by rewrite Hce. }
  destruct (pc s) eqn:Epc.
  - rewrite Hflag. apply wp_mret.
    unfold local_ok in Hl. rewrite Epc in Hl.
    split; [|split; [cbn; auto|done]]. split; [split; [exact Hs|]|].
    + split_and!; [done|by exists fresh|by exists fresh].
    + split_and!; [|done|done]. apply accounts_same; [done..|].
      unfold in_flight. cbn. by rewrite Hl, app_nil_r.
  - unfold local_ok in Hl. rewrite Epc in Hl. destruct Hl as (Hw & (b1 & H1 & He1) & b2 & H2 & He2).
    destruct (running_ s) eqn:Er.
    + rewrite H1, H2, !is_empty_ok, bool_decide_true by done. apply wp_mret.
      split; [|split; [cbn; auto|done]]. split; [split; [exact Hs|]|].
      * unfold local_ok. cbn. rewrite H1, H2. eauto 10.
      * split_and!; [|done|done]. apply accounts_same; [done..|]. by rewrite app_nil_r.
    + apply wp_mret. split; [|split; [cbn; auto|done]]. split; [split; [exact Hs|exact Hw]|].
      split_and!; [|done|done]. apply accounts_same; [done..|]. by rewrite app_nil_r.
  - destruct (buffers_ s) as [|b bs] eqn:Eb.
    + apply wp_mret. unfold local_ok in Hl. rewrite Epc in Hl.
      split; [|split; [done|done]]. split; [split; [exact Hs|exact Hl]|].
      split_and!; [|done|done]. apply accounts_same; [done..|]. by rewrite app_nil_r.
    + apply Hswap. by left.
  - apply Hswap. by right.
  - eapply wp_mono; [by apply write_buffers_ok|].
    intros s' (Hok' & Ha & Hp & Hr & Hpi & Hb & Hc).
    split; [|done]. split; [done|]. split; [done|]. split; [unfold flag_ok; by rewrite Hp|done].
  - apply wp_mret. split; [|done]. split; [done|].
    split_and!; [|unfold flag_ok; by rewrite Epc|done]. apply accounts_same; [done..|]. by rewrite app_nil_r.
Qed.

Definition line_of (a : action) : bytes :=
  match a with AAppend l => l | _ => [] end.
Definition short (a : action) : Prop := zlen (line_of a) < SIZE.

Lemma act_ok s a :
  async_ok s → flag_ok s → short a →
  wp (act s a) (act_post s (line_of a)).
Proof.
  intros Hok Hst Ha. destruct a as [l| |]; cbn.
  - eapply wp_mono; [by apply append_ok|]. intros s' (? & ? & Hp & Hr & Ho).
    split; [done|]. split; [done|]. unfold flag_ok. rewrite Hp, Hr. split; [done|].
    unfold pieces_ok. by rewrite Ho.
  - eapply wp_mono; [by apply thread_step_ok|]. by intros s' [? _].
  - apply wp_mret. destruct Hok as [Hs Hl].
    assert (Ha' : accounts s (stop s) [] ∧ accounts s s [])
      by (split; apply accounts_same; try done; by rewrite app_nil_r).
    destruct (pc s) eqn:Epc; (split; [split; [exact Hs|exact Hl]|split; [apply Ha'|]]);
      (split; [unfold flag_ok in *; cbn; by rewrite ?Epc in *|done]).
Qed.

Lemma accounts_trans s1 s2 s3 l l' :
  accounts s1 s2 l → accounts s2 s3 l' → accounts s1 s3 (l ++ l').
Proof.
  intros [[d Hd] H1] [[d' Hd'] H2]. split; [exists (d ++ d'); by rewrite Hd', Hd, app_assoc|].
  intros E. rewrite Hd', Hd, <- app_assoc in E.
  apply (f_equal length) in E. rewrite !length_app in E.
  destruct d; [|cbn in E; lia]. destruct d'; [|cbn in E; lia].
  rewrite !app_nil_r in *. rewrite H2, app_assoc, H1 by congruence. by rewrite !app_assoc.
Qed.

Lemma run_ok s acts :
  async_ok s → flag_ok s → Forall short acts →
  wp (run s acts) (act_post s (mjoin (line_of <$> acts))).
Proof.
  intros Hok Hst Hsh. revert s Hok Hst.
  induction Hsh as [|a acts Ha Hsh IH]; intros s Hok Hst; cbn [run].
  - apply wp_mret. split; [done|]. split; [|done].
    apply accounts_same; [done..|]. by rewrite app_nil_r.
  - apply wp_bind. eapply wp_mono; [by apply act_ok|].
    intros s1 (Hok1 & Hacc & Hst1 & Hp1). eapply wp_mono; [by apply IH|].
    intros s2 (Hok2 & Hacc2 & Hst2 & Hp2). split; [done|].
    split; [cbn; by eapply accounts_trans|auto].
Qed.

Lemma lines_of_run acts : mjoin (line_of <$> acts) = mjoin (appended_lines acts).
Proof.
  induction acts as [|[l| |] acts IH]; [done|..]; cbn; [|done..]. by f_equal.
Qed.

Lemma async_start_ok : async_ok AsyncLogging_start.
Proof.
  split; [|done]. split_and!; [by exists fresh| |done|done]. by intros ? [= <-].
Qed.

(** ** Draining *)

(** [leads n s Q]: [n] steps of the thread lead from [s] to a state in [Q]. *)
Definition leads (n : nat) (s : AsyncLogging) (Q : AsyncLogging → Prop) : Prop :=
  wp (run s (replicate n AThread)) (λ s', act_post s [] s' ∧ Q s').

Lemma act_post_trans s1 s2 s3 :
  act_post s1 [] s2 → act_post s2 [] s3 → act_post s1 [] s3.
Proof.
  intros (? & Ha & ? & ?) (? & Ha' & ? & ?). split; [done|].
  split; [apply (accounts_trans _ _ _ [] [] Ha Ha')|auto].
Qed.

Lemma leads_step n s Q (R : AsyncLogging → Prop) :
  wp (thread_step s) (λ s', act_post s [] s' ∧ R s') →
  (∀ s', async_ok s' → flag_ok s' → R s' → leads n s' Q) → leads (S n) s Q.
Proof.
  intros Hs Hn. unfold leads. cbn. apply wp_bind. eapply wp_mono; [exact Hs|].
  intros s1 (Hp1 & HR). pose proof Hp1 as (Hok1 & _ & Hf1 & _).
  eapply wp_mono; [by apply Hn|]. intros s2 [Hp2 HQ]. split; [|done].
  by eapply act_post_trans.
Qed.

(** Everything is written, and the thread is about to test [running_]. *)
Definition drained (s : AsyncLogging) : Prop := pc s = PLoop ∧ in_flight s = [].

Lemma drain_write s : async_ok s → flag_ok s → swapped s → leads 1 s drained.
Proof.
  intros Hok Hf (Hpc & Hb & Hc). apply (leads_step 0 _ _ drained).
  - eapply wp_mono; [by apply thread_step_ok|]. unfold progress. rewrite Hpc.
    intros s' (Hpost & _ & Hp & Eb & Ec). pose proof Hpost as ([_ Hl] & _).
    split; [done|split; [done|]]. unfold local_ok in Hl. rewrite Hp in Hl.
    destruct Hl as [Hw _]. unfold in_flight. by rewrite Hw, Eb, Ec, Hb.
  - intros s' Hok' Hf' Hd. apply wp_mret. split; [|done]. split; [done|].
    split; [|done]. apply accounts_same; [done..|]. by rewrite app_nil_r.
Qed.

(** One step, followed by what is already known. *)
Lemma drain_step n s (R : AsyncLogging → Prop) :
  async_ok s → flag_ok s → (∀ s', running_ s' = running_ s → progress s s' → R s') →
  (∀ s', async_ok s' → flag_ok s' → R s' → ∃ m, (m ≤ n)%nat ∧ leads m s' drained) →
  ∃ m, (m ≤ S n)%nat ∧ leads m s drained.
Proof.
  intros Hok Hf HR Hn. pose proof (thread_step_ok s Hok Hf) as Hs.
  apply wp_iff in Hs as (s' & E & Hp & Hr & Hc). pose proof Hp as (Hok' & _ & Hf' & _).
  destruct (Hn s' Hok' Hf' (HR s' Hr Hc)) as (m & Hm & Hl).
  exists (S m). split; [lia|]. unfold leads in *. cbn [replicate run act]. rewrite E, Ret_bind.
  eapply wp_mono; [exact Hl|]. intros s2 [Hp2 ?]. split; [|done]. by eapply act_post_trans.
Qed.

(** From anywhere, a running thread needs at most five steps. *)
Lemma drains s :
  async_ok s → flag_ok s → running_ s = true → ∃ n, (n ≤ 5)%nat ∧ leads n s drained.
Proof.
  assert (Hswapped : ∀ s, async_ok s → flag_ok s → swapped s →
    ∃ n, (n ≤ 1)%nat ∧ leads n s drained) by (intros; exists 1%nat; eauto using drain_write).
  assert (Hwait : ∀ s, async_ok s → flag_ok s → pc s = PWait →
    ∃ n, (n ≤ 2)%nat ∧ leads n s drained).
  { intros t Hok Hf Hpc. eapply (drain_step 1 t swapped); [done..| |done].
    unfold progress. rewrite Hpc. done. }
  assert (Hlock : ∀ s, async_ok s → flag_ok s → pc s = PLock →
    ∃ n, (n ≤ 3)%nat ∧ leads n s drained).
  { intros t Hok Hf Hpc. eapply (drain_step 2 t (λ t', pc t' = PWait ∨ swapped t')); [done..| |].
    - unfold progress. rewrite Hpc. intros t' _. destruct (buffers_ t); auto.
    - intros t' Hok' Hf' [?|?]; [auto|]. destruct (Hswapped t') as (n & ? & ?); [done..|].
      exists n. split; [lia|done]. }
  assert (Hloop : ∀ s, async_ok s → flag_ok s → pc s = PLoop ∧ running_ s = true →
    ∃ n, (n ≤ 4)%nat ∧ leads n s drained).
  { intros t Hok Hf [Hpc Hr]. eapply (drain_step 3 t (λ t', pc t' = PLock)); [done..| |done].
    unfold progress. rewrite Hpc, Hr. done. }
  assert (Hinto : ∀ s, async_ok s → flag_ok s → (pc s = PStart ∨ pc s = PWrite) →
    running_ s = true → ∃ n, (n ≤ 5)%nat ∧ leads n s drained).
  { intros t Hok Hf Hpc Hr.
    eapply (drain_step 4 t (λ t', pc t' = PLoop ∧ running_ t' = true)); [done..| |done].
    unfold progress. intros t' Hr'. destruct Hpc as [-> | ->]; [|intros (? & _)];
      rewrite Hr'; done. }
  intros Hok Hf Hr.
  destruct (pc s) eqn:Hpc.
  - by apply Hinto; [..|left|].
  - destruct (Hloop s) as (n & ? & ?); [done..|]. exists n. split; [lia|done].
  - destruct (Hlock s) as (n & ? & ?); [done..|]. exists n. split; [lia|done].
  - destruct (Hwait s) as (n & ? & ?); [done..|]. exists n. split; [lia|done].
  - by apply Hinto; [..|right|].
  - unfold flag_ok in Hf. rewrite Hpc in Hf. congruence.
Qed.


Lemma run_app s a b : run s (a ++ b) = run s a ≫= λ s', run s' b.
Proof.
  revert s. induction a as [|x a IH]; intros s; [done|]. cbn.
  destruct (act s x); [apply IH|done..].
Qed.

Lemma run_done s n : pc s = PDone → run s (replicate n AThread) = Ret s.
Proof.
  intros Hpc. induction n as [|n IH]; [done|]. cbn. unfold thread_step.
  by rewrite Hpc, mret_bind.
Qed.

Lemma run_start acts :
  Forall short acts →
  wp (run AsyncLogging_start acts) (λ s, async_ok s ∧ flag_ok s ∧ pieces_ok s ∧
    (dropped s = [] →
       mjoin (output s) ++ in_flight s = mjoin (appended_lines acts))).
Proof.
  intros Hsh. eapply wp_mono; [apply run_ok; [apply async_start_ok|exact (eq_refl true)|done]|].
  intros s (Hok & [_ Ha] & Hf & Hp). split; [done|]. split; [done|]. split; [apply Hp; constructor|].
  intros Hd. rewrite Ha by done. unfold in_flight. cbn.
  by rewrite fresh_empty, lines_of_run, !app_nil_r.
Qed.

(** ** Theorems *)

(** C2: Whatever the interleaving of the producers, the background thread and
    [stop], and for lines shorter than a buffer, the asynchronous log never
    fails one of its assertions, dereferences [NULL] or pops an empty vector;
    and as long as it dropped no buffers, what it wrote followed by what waits
    in its buffers is the lines appended so far, complete and in order. *)
Theorem async_log_in_order acts :
  Forall short acts →
  wp (run AsyncLogging_start acts) (λ s, dropped s = [] →
    mjoin (output s) ++ in_flight s = mjoin (appended_lines acts)).
Proof.
  intros Hsh. eapply wp_mono; [by apply run_start|]. by intros s (_ & _ & _ & ?).
Qed.


(** C39: [stop] loses lines: a line appended while the thread writes, before
    [stop] is called, is never written: the thread tests [running_] and ends,
    whatever it is given to do afterwards. *)
Theorem stop_loses_line l n :
  0 < zlen l < SIZE →
  wp (run AsyncLogging_start
        ([AThread; AThread; AThread; AThread; AAppend l; AStop; AThread; AThread]
         ++ replicate n AThread))
    (λ s, pc s = PDone ∧ dropped s = [] ∧ mjoin (output s) = [] ∧ in_flight s = l).
Proof.
  intros Hl. rewrite run_app. apply wp_bind.
  assert (Hf : empty_buffer fresh) by (by split).
  pose proof (is_empty_ok fresh Hf) as He. pose proof (empty_avail fresh Hf) as Ha.
  destruct (lb_append_fits fresh l fresh_ok ltac:(lia)) as (c & Hc & Hok & Ht).
  cbn [run act]. rewrite (Ret_bind (set_local AsyncLogging_start PLoop (Some fresh) (Some fresh) [])).
  set (s1 := set_local _ _ _ _ _).
  assert (thread_step s1 = Ret (set_pc s1 PLock)) as ->
    by (unfold s1, thread_step; cbn [pc set_local running_ AsyncLogging_start newBuffer1 newBuffer2];
        by rewrite He).
  rewrite Ret_bind. set (s2 := set_pc s1 PLock).
  rewrite (Ret_bind (set_pc s2 PWait)). set (s3 := set_pc s2 PWait).
  change (thread_step s3) with (swap_buffers s3). unfold swap_buffers at 1.
  cbn [currentBuffer_ buffers_ nextBuffer_ deref s3 s2 s1 set_pc set_local AsyncLogging_start].
  rewrite !mret_bind. unfold append at 1.
  cbn [currentBuffer_ buffers_ nextBuffer_ deref set_shared set_local].
  change (deref (newBuffer1 s3)) with (Ret fresh).
  rewrite Ret_bind, decide_True, Hc, Ret_bind by lia.
  rewrite !mret_bind. cbn.
  destruct (decide (zlen [fresh] > 25)); [done|].
  destruct (decide (zlen [fresh] > 2)); [done|]. cbn.
  rewrite run_done by done. cbn. unfold in_flight. cbn. rewrite fresh_empty.
  by rewrite Ht, fresh_empty, !app_nil_r.
Qed.

(** Overload. When more than 25 buffers wait, one turn of the background
    thread writes a notice and the two oldest buffers and erases all others,
    with the lines in them. *)
Lemma overload_drops acts s :
  Forall short acts → run AsyncLogging_start acts = Ret s →
  pc s = PWrite → 25 < zlen (buffersToWrite s) →
  wp (thread_step s) (λ s', pc s' = PLoop ∧
    dropped s' = dropped s ++ drop 2 (buffersToWrite s) ∧
    output s' = output s ++ drop_notice (zlen (buffersToWrite s)) ::
      (lb_text <$> take 2 (buffersToWrite s))).
Proof.
  intros Hsh Hrun Hpc Hlen. pose proof (run_start acts Hsh) as Hok.
  rewrite Hrun in Hok. destruct Hok as (Hok & _).
  pose proof (write_buffers_ok s Hok Hpc) as Hw. unfold thread_step. rewrite Hpc.
  apply wp_iff in Hw as (s' & Hs' & _). rewrite Hs'. cbn.
  unfold write_buffers in Hs'. ret_inv Hs'. cbn -[take].
  destruct (decide (zlen (buffersToWrite s) > 25)); [|lia].
  split_and!; [done..|]. cbn -[take]. by rewrite <- app_assoc.
Qed.

(** From the calls to the files: when the log dropped nothing, its output
    given to the rolling log file (LogFile.v) reaches the disk, so that the
    files and what still waits in the buffers contain every line in order; no
    file exceeds [rollSize] by more than [B'] buffers, [B'] being the number of
    times the clock gives the same second. *)
Theorem log_reaches_files acts s E `{!FileLaws E} name roll flush n t w B' :
  Forall short acts → run AsyncLogging_start acts = Ret s → dropped s = [] →
  fe_ndebug E ∨ strchr name "/"%char = None → 0 < n ≤ INT_MAX → 0 ≤ roll →
  no_write_error E → 0 < fe_time E t → steady E B' → (0 < B')%nat →
  wp (f ← LogFile_new E name roll flush n t w; append_all E f (output s)) (λ f,
    file_text f ++ in_flight s = mjoin (appended_lines acts) ∧
    Forall (λ f, zlen (af_contents f) ≤ roll + Z.of_nat B' * PIECE_MAX) (all_files f)).
Proof.
  intros Hsh Hrun Hd Ha Hn Hr He Ht Hst HB. pose proof (run_start acts Hsh) as Hok.
  rewrite Hrun in Hok. destruct Hok as (_ & _ & Hp & Htext).
  eapply wp_mono; [apply (log_file_run E name roll flush n t w B' PIECE_MAX (output s)); try done|].
  - unfold PIECE_MAX. lia.
  - intros f [Hf Hb]. rewrite Hf. auto.
Qed.
End asynclogging.

(** ** Witnesses: buffers of four characters *)

Definition small : FixedBuffer := fb_new (replicate 4 SP).
Definition stamp_text : bytes := lit "20180525 10:00:00.000000".
Abbreviation async_run := (run small stamp_text).
Abbreviation async_start := (AsyncLogging_start small).

Lemma small_ok : fb_ok 4 small ∧ fb_toString small = [].
Proof. done. Qed.

(** Two producers fill five buffers while the thread starts, writes and waits. *)
Definition busy : list action :=
  [AThread; AAppend (lit "ab"); AThread; AAppend (lit "cd"); AAppend (lit "e");
   AThread; AAppend (lit "fgh"); AThread; AAppend (lit "ijk"); AThread].

Lemma busy_short : Forall (short (SIZE:=4)) busy.
Proof. unfold short. repeat constructor. Qed.

Lemma async_log_in_order_witness :
  wp (async_run async_start busy) (λ s, dropped s = [] →
    mjoin (output s) ++ in_flight s = mjoin (appended_lines busy)).
Proof.
  apply (async_log_in_order small _ (SIZE:=4)); [apply small_ok..|apply busy_short].
Defined.


Lemma stop_loses_line_witness :
  wp (async_run async_start
        ([AThread; AThread; AThread; AThread; AAppend (lit "bye"); AStop; AThread; AThread]
         ++ replicate 10 AThread))
    (λ s, pc s = PDone ∧ dropped s = [] ∧ mjoin (output s) = [] ∧ in_flight s = lit "bye").
Proof.
  apply (stop_loses_line small _ (SIZE:=4)); [apply small_ok..|by vm_compute].
Defined.

(** Thirty lines that each fill a buffer, before the thread looks at them. *)
Definition flood : list action :=
  [AThread; AThread] ++ replicate 30 (AAppend (lit "xyz")) ++ [AThread].

Lemma overload_drops_witness :
  ∃ s, async_run async_start flood = Ret s ∧ zlen (buffersToWrite s) = 30 ∧
  wp (thread_step small stamp_text s) (λ s', pc s' = PLoop ∧
    dropped s' = dropped s ++ drop 2 (buffersToWrite s) ∧
    output s' = output s ++ drop_notice stamp_text
      (zlen (buffersToWrite s)) :: (lb_text <$> take 2 (buffersToWrite s))).
Proof.
  destruct (async_run async_start flood) as [s| | |] eqn:E; [|vm_compute in E; discriminate..].
  exists s. split; [done|].
  assert (pc s = PWrite ∧ zlen (buffersToWrite s) = 30) as [Hpc Hlen].
  { vm_compute in E. injection E as <-. by vm_compute. }
  split; [done|].
  assert (Hsh : Forall (short (SIZE:=4)) flood) by (unfold short; repeat constructor).
  destruct small_ok as [Hs Ht].
  refine (overload_drops small stamp_text Hs Ht flood s Hsh E Hpc _).
  lia.
Defined.

Lemma log_reaches_files_witness :
  ∃ s, async_run async_start busy = Ret s ∧
  wp (f ← LogFile_new slow_disk (lit "p") 8 3 1024 0 0; append_all slow_disk f (output s)) (λ f,
    file_text f ++ in_flight s = mjoin (appended_lines busy) ∧
    Forall (λ f, zlen (af_contents f) ≤ 8 + Z.of_nat 2 * PIECE_MAX (SIZE:=4)) (all_files f)).
Proof.
  destruct (async_run async_start busy) as [s| | |] eqn:E; [|vm_compute in E; discriminate..].
  exists s. split; [done|].
  destruct small_ok as [Hs Ht].
  refine (log_reaches_files small stamp_text Hs Ht busy s slow_disk (lit "p") 8 3 1024 0 0 2
    busy_short E _ (or_intror eq_refl) _ _ slow_disk_writes _ slow_disk_steady _).
  - vm_compute in E. by injection E as <-.
  - split; done.
  - done.
  - by vm_compute.
  - lia.
Defined.
