(* ===== verification/ClogConf.v ===== *)
(** The configuration of the C++ logging library:
    [src/src/log/muduo-clog/muduo/utils/ConfFileRead.cc] and [ConfFileRead.h],
    and [initLogLevel] of [base/Logging.cc].

    The file is a text; [getline] splits it at the line feeds, and the loop on
    [rf.eof()] also handles what follows the last one. [std::string] is a list of
    characters, [substr], [find] and [erase] with [npos] as in the standard. *)

From S2P Require Import Prelude CString.

(** [s.erase(0, s.find_first_not_of(c))] and
    [s.erase(s.find_last_not_of(c) + 1)]. *)
Definition is_char (c x : ascii) : bool := bool_decide (x = c).
Definition erase_front (c : ascii) (s : bytes) : bytes := drop_while (is_char c) s.
Definition erase_back (c : ascii) (s : bytes) : bytes := rev (drop_while (is_char c) (rev s)).

Definition trim (s : bytes) : bytes :=
  if decide (s = []) then s
  else
    let s := erase_front SP s in
    let s := erase_back SP s in
    let s := erase_front TAB s in
    erase_back TAB s.

Record ConfFileRead := { level_ : Z; LogFileSize_ : Z }.

(** The default arguments of the constructor. *)
Definition conf_default : ConfFileRead := {| level_ := 2; LogFileSize_ := 524288000 |}.

(** The lines the loop sees. *)
Fixpoint getlines (text : bytes) : list bytes :=
  match text with
  | [] => [[]]
  | c :: text =>
      if decide (c = LF) then [] :: getlines text
      else match getlines text with
           | l :: ls => (c :: l) :: ls
           | [] => [[c]]
           end
  end.

(** [s.substr(0, s.find(c))] and [s.substr(s.find(c) + 1, -1)]: without [c],
    everything, twice. *)
Definition before (c : ascii) (s : bytes) : bytes := take_while (not_char c) s.
Definition after (c : ascii) (s : bytes) : bytes :=
  match strchr s c with
  | Some pos => drop (S pos) s
  | None => s
  end.

(** One turn of the loop. *)
Definition conf_line (c : ConfFileRead) (strLine : bytes) : outcome ConfFileRead :=
  let fullLine := before "#"%char strLine in
  let key := trim (before "="%char fullLine) in
  let value := trim (after "="%char fullLine) in
  if decide (key = lit "LOG_LEVEL")
  then v ← atoi (cstr value);
       mret {| level_ := if decide (v < 0 ∨ v > 2) then 3 else v;
               LogFileSize_ := LogFileSize_ c |}
  else if decide (key = lit "FILE_SIZE")
  then v ← atoi (cstr value);
       mret {| level_ := level_ c;
               LogFileSize_ := if decide (v ≤ 8000000) then 524288000 else v |}
  else mret c.

Fixpoint conf_lines (c : ConfFileRead) (ls : list bytes) : outcome ConfFileRead :=
  match ls with
  | [] => mret c
  | l :: ls => c ← conf_line c l; conf_lines c ls
  end.

(** The constructor; [None] is a file that cannot be opened. *)
Definition ConfFileRead_new (file : option bytes) : outcome ConfFileRead :=
  match file with
  | None => mret conf_default
  | Some text => conf_lines conf_default (getlines text)
  end.

(** [Logger::LogLevel]. *)
Definition TRACE : Z := 0.
Definition DEBUG : Z := 1.
Definition INFO : Z := 2.
Definition WARN : Z := 3.
Definition ERROR : Z := 4.
Definition FATAL : Z := 5.

Definition initLogLevel (file : option bytes) : outcome Z :=
  conf ← ConfFileRead_new file;
  let level := level_ conf in
  if decide (level = TRACE) then mret TRACE
  else if decide (level = DEBUG) then mret DEBUG
  else if decide (level = INFO) then mret INFO
  else mret WARN.

(** ** Lines *)

Lemma getlines_app l text :
  Forall (λ c, c ≠ LF) l → getlines (l ++ LF :: text) = l :: getlines text.
Proof.
  intros Hl. induction Hl as [|c l Hc Hl IH]; cbn [getlines app].
  - by rewrite decide_True.
  - by rewrite decide_False, IH by done.
Qed.

Lemma conf_lines_app c ls ls' :
  conf_lines c (ls ++ ls') = conf_lines c ls ≫= λ c, conf_lines c ls'.
Proof.
  revert c. induction ls as [|l ls IH]; intros c; [done|]. cbn.
  destruct (conf_line c l); [apply IH|done..].
Qed.

(** The key a line sets. *)
Definition line_key (l : bytes) : bytes := trim (before "="%char (before "#"%char l)).

Lemma conf_line_other c l c' :
  line_key l ≠ lit "LOG_LEVEL" → conf_line c l = Ret c' → level_ c' = level_ c.
Proof.
  unfold line_key, conf_line. intros Hk H. rewrite decide_False in H by done.
  ret_inv H; done.
Qed.

Lemma conf_lines_other ls c c' :
  Forall (λ l, line_key l ≠ lit "LOG_LEVEL") ls → conf_lines c ls = Ret c' →
  level_ c' = level_ c.
Proof.
  intros Hls. revert c. induction Hls as [|l ls Hl Hls IH]; intros c H; cbn in H.
  - by apply Ret_inj in H as <-.
  - apply bind_Ret in H as (c1 & E & H). rewrite (IH _ H). by eapply conf_line_other.
Qed.

(** What the configuration guarantees, whatever the file says. *)
Definition conf_ok (c : ConfFileRead) : Prop :=
  0 ≤ level_ c ≤ 3 ∧ 8000000 < LogFileSize_ c ≤ INT_MAX.

Lemma atoi_int s v : atoi s = Ret v → in_int v.
Proof.
  unfold atoi. intros H. ret_inv H; [done|]. unfold in_int, INT_MIN, INT_MAX. lia.
Qed.

Lemma conf_line_ok c l c' : conf_ok c → conf_line c l = Ret c' → conf_ok c'.
Proof.
  unfold conf_line, conf_ok. intros [Hl Hs] H. ret_inv H; cbn; try done.
  all: match goal with E : atoi _ = Ret _ |- _ => apply atoi_int in E end.
  all: unfold in_int, INT_MAX, INT_MIN in *; 
    match goal with |- context [decide ?P] => destruct (decide P) end; lia.
Qed.

Lemma conf_lines_ok ls c c' : conf_ok c → conf_lines c ls = Ret c' → conf_ok c'.
Proof.
  revert c. induction ls as [|l ls IH]; intros c Hc H; cbn in H.
  - by apply Ret_inj in H as <-.
  - apply bind_Ret in H as (c1 & E & H). eapply IH, H. by eapply conf_line_ok.
Qed.

(** A line that sets [k] to a number, as the configuration files write it:
    blanks around the key and the value, and a comment or nothing. *)
Definition setting (pad1 pad2 pad3 pad4 : bytes) (k : bytes) (v : Z) (rest : bytes) : bytes :=
  pad1 ++ k ++ pad2 ++ lit "=" ++ pad3 ++ print_d v ++ pad4 ++ rest.

Definition spaces (s : bytes) : Prop := Forall (λ c, c = SP) s.
Definition comment (s : bytes) : Prop := s = [] ∨ ∃ t, s = "#"%char :: t.

(** Text without blanks, comment marks, equals signs and NUL. *)
Definition solid_char (c : ascii) : Prop :=
  c ≠ SP ∧ c ≠ TAB ∧ c ≠ "#"%char ∧ c ≠ "="%char ∧ c ≠ NUL.
Definition solid (s : bytes) : Prop := s ≠ [] ∧ Forall solid_char s.

Lemma print_d_solid n : solid (print_d n).
Proof.
  split.
  - unfold print_d, print_u. destruct (Z.ltb_spec n 0); [done|].
    destruct (print_digits_cons 20 n []) as (c & r & -> & _); [lia|lia|done].
  - eapply Forall_impl; [apply print_d_chars|]. intros c [Hc| ->]; [|done].
    split_and!; intros ->; vm_compute in Hc; done.
Qed.

Lemma erase_front_pad c p s :
  Forall (λ x, x = c) p → Forall (λ x, x ≠ c) s → erase_front c (p ++ s) = s.
Proof.
  intros Hp Hs. unfold erase_front. rewrite drop_while_app.
  - destruct Hs as [|x s Hx _]; [done|]. apply drop_while_stop. by apply bool_decide_false.
  - eapply Forall_impl; [exact Hp|]. intros x ->. by apply bool_decide_true.
Qed.

Lemma erase_back_pad c p s :
  Forall (λ x, x = c) p → Forall (λ x, x ≠ c) s → erase_back c (s ++ p) = s.
Proof.
  intros Hp Hs. unfold erase_back. rewrite rev_app_distr.
  change (drop_while (is_char c)) with (erase_front c).
  rewrite erase_front_pad by (by apply Forall_rev). apply rev_involutive.
Qed.

Lemma trim_pad p k q : spaces p → spaces q → solid k → trim (p ++ k ++ q) = k.
Proof.
  intros Hp Hq [Hne Hk]. unfold trim.
  rewrite decide_False by (destruct p; [destruct k|]; done).
  assert (Hchars : ∀ c, c = SP ∨ c = TAB → Forall (λ x, x ≠ c) k).
  { intros c Hc. eapply Forall_impl; [exact Hk|]. unfold solid_char. intros x Hx ->. tauto. }
  assert (erase_front SP (p ++ k ++ q) = k ++ q) as ->.
  { unfold erase_front. rewrite drop_while_app.
    - destruct k as [|x k]; [done|]. inversion_clear Hk as [|? ? Hx _].
      apply drop_while_stop, bool_decide_false. unfold solid_char in Hx. tauto.
    - eapply Forall_impl; [exact Hp|]. intros x ->. by apply bool_decide_true. }
  rewrite erase_back_pad by auto.
  rewrite <- (app_nil_l k) at 1. rewrite erase_front_pad by auto.
  rewrite <- (app_nil_r k) at 1. by rewrite erase_back_pad by auto.
Qed.

Lemma spaces_not c p : spaces p → c ≠ SP → Forall (λ x, x ≠ c) p.
Proof. intros Hp Hc. eapply Forall_impl; [exact Hp|]. by intros x ->. Qed.

Lemma solid_not c s :
  solid s → c = "#"%char ∨ c = "="%char ∨ c = NUL → Forall (λ x, x ≠ c) s.
Proof.
  intros [_ Hs] Hc. eapply Forall_impl; [exact Hs|]. unfold solid_char. intros x Hx ->. tauto.
Qed.

Lemma before_stop c s t : Forall (λ x, x ≠ c) s → t = [] ∨ (∃ u, t = c :: u) →
  before c (s ++ t) = s.
Proof.
  intros Hs Ht. unfold before. rewrite take_while_app.
  - destruct Ht as [->|[u ->]]; [by rewrite app_nil_r|].
    rewrite take_while_stop; [by rewrite app_nil_r|]. by apply not_char_false.
  - eapply Forall_impl; [exact Hs|]. intros x Hx. by apply not_char_true.
Qed.

Lemma before_all c s : Forall (λ x, x ≠ c) s → before c s = s.
Proof. intros Hs. rewrite <- (app_nil_r s) at 1. apply before_stop; auto. Qed.

(** What a setting does, for either key. *)
Lemma setting_parts p1 p2 p3 p4 k v rest :
  spaces p1 → spaces p2 → spaces p3 → spaces p4 → solid k → comment rest →
  let full := before "#"%char (setting p1 p2 p3 p4 k v rest) in
  trim (before "="%char full) = k ∧ trim (after "="%char full) = print_d v.
Proof.
  intros H1 H2 H3 H4 Hk Hr. cbv zeta. unfold setting.
  pose proof (print_d_solid v) as Hv.
  assert (Hkey : Forall (λ x, x ≠ "="%char) (p1 ++ k ++ p2)).
  { rewrite !Forall_app. split_and!; auto using spaces_not, solid_not. }
  assert (before "#"%char (p1 ++ k ++ p2 ++ lit "=" ++ p3 ++ print_d v ++ p4 ++ rest) =
    (p1 ++ k ++ p2) ++ lit "=" ++ p3 ++ print_d v ++ p4) as ->.
  { replace (p1 ++ k ++ p2 ++ lit "=" ++ p3 ++ print_d v ++ p4 ++ rest) with
      (((p1 ++ k ++ p2) ++ lit "=" ++ p3 ++ print_d v ++ p4) ++ rest)
      by (by rewrite <- !app_assoc).
    apply before_stop; [|done]. rewrite !Forall_app.
    split_and!; auto using spaces_not, solid_not. by repeat constructor. }
  split.
  - rewrite before_stop by (done || by right; eexists). by apply trim_pad.
  - unfold after. cbn [lit String.list_ascii_of_string app].
    rewrite strchr_app_first by done.
    replace (S (length (p1 ++ k ++ p2))) with (length ((p1 ++ k ++ p2) ++ lit "="))
      by (rewrite length_app; cbn; lia).
    change ("="%char :: p3 ++ print_d v ++ p4) with (lit "=" ++ p3 ++ print_d v ++ p4).
    rewrite (app_assoc (p1 ++ k ++ p2) (lit "=")), drop_app_length. by apply trim_pad.
Qed.

Lemma conf_line_level c p1 p2 p3 p4 v rest :
  spaces p1 → spaces p2 → spaces p3 → spaces p4 → comment rest → in_int v →
  conf_line c (setting p1 p2 p3 p4 (lit "LOG_LEVEL") v rest) =
  Ret {| level_ := if decide (0 ≤ v ≤ 2) then v else 3; LogFileSize_ := LogFileSize_ c |}.
Proof.
  intros H1 H2 H3 H4 Hr Hv.
  assert (Hk : solid (lit "LOG_LEVEL")) by (split; [done|repeat constructor]; done).
  destruct (setting_parts p1 p2 p3 p4 _ v rest H1 H2 H3 H4 Hk Hr) as [E1 E2].
  unfold conf_line. cbv zeta. rewrite E1, E2, decide_True by done.
  rewrite cstr_no_nul, atoi_print, Ret_bind; [|done|].
  - unfold mret, outcome_ret. do 2 f_equal.
    destruct (decide (0 ≤ v ≤ 2)); [rewrite decide_False by lia|rewrite decide_True by lia]; done.
  - eapply Forall_impl; [apply (print_d_solid v)|]. unfold solid_char. intros x Hx.
    apply not_char_true. tauto.
Qed.

(** ** Theorems *)

(** The level of a log file's configuration. Wherever the last line that
    sets [LOG_LEVEL] stands, with any spaces around key and value and a comment
    after it, and provided the other lines can be read at all, the level the
    library starts with is the documented one: the number for 0, 1 and 2, and
    [WARN] for every other number. *)
Theorem log_level_documented pre post p1 p2 p3 p4 v rest :
  spaces p1 → spaces p2 → spaces p3 → spaces p4 → comment rest → in_int v →
  let line := setting p1 p2 p3 p4 (lit "LOG_LEVEL") v rest in
  Forall (λ c, c ≠ LF) line → Forall (Forall (λ c, c ≠ LF)) pre →
  Forall (λ l, line_key l ≠ lit "LOG_LEVEL") (getlines post) →
  let text := mjoin ((λ l, l ++ [LF]) <$> pre) ++ line ++ [LF] ++ post in
  ∀ c, ConfFileRead_new (Some text) = Ret c →
  initLogLevel (Some text) = Ret (if decide (0 ≤ v ≤ 2) then v else WARN).
Proof.
  intros H1 H2 H3 H4 Hr Hv line Hline Hpre Hpost text c Hc.
  unfold initLogLevel. rewrite Hc, Ret_bind. cbv zeta.
  assert (Hlines : getlines text = pre ++ line :: getlines post).
  { unfold text. clear - Hline Hpre. induction Hpre as [|l ls Hl _ IH]; cbn.
    - by apply getlines_app.
    - rewrite <- !app_assoc. cbn. rewrite getlines_app by done. by f_equal. }
  unfold ConfFileRead_new in Hc. rewrite Hlines, conf_lines_app in Hc.
  apply bind_Ret in Hc as (c1 & _ & Hc). cbn in Hc. unfold line in Hc.
  rewrite conf_line_level, Ret_bind in Hc by done.
  apply conf_lines_other in Hc; [|done]. rewrite Hc. cbn [level_].
  unfold TRACE, DEBUG, INFO, WARN.
  destruct (decide (0 ≤ v ≤ 2)); [|done].
  assert (v = 0 ∨ v = 1 ∨ v = 2) as [->|[->| ->]] by lia; done.
Qed.

Lemma log_level_documented_witness :
  let text := lit "#LOG_LEVEL = 2, open level: INFO" ++ [LF] ++
    lit "+muduo_clog" ++ [LF] ++ lit "LOG_LEVEL = 1 #[0-4] 0-TARCE,1-DEBUG" ++ [LF] ++
    lit "FILE_SIZE = 524288000" ++ [TAB] ++ lit "# 500 * 1024 * 1024" in
  initLogLevel (Some text) = Ret 1.
Proof.
  intros text. destruct (ConfFileRead_new (Some text)) as [c| | |] eqn:E;
    [|vm_compute in E; discriminate..].
  refine (log_level_documented [lit "#LOG_LEVEL = 2, open level: INFO"; lit "+muduo_clog"]
    (lit "FILE_SIZE = 524288000" ++ [TAB] ++ lit "# 500 * 1024 * 1024")
    [] (lit " ") (lit " ") (lit " ") 1 (lit "#[0-4] 0-TARCE,1-DEBUG")
    _ _ _ _ _ _ _ _ _ c E).
  1-4: unfold spaces; repeat constructor.
  - right. eexists. vm_compute. reflexivity.
  - done.
  - vm_compute. repeat constructor; done.
  - vm_compute. repeat constructor; done.
  - vm_compute. repeat constructor; done.
Defined.

(** C38: Whatever the file contains, the constructor leaves a level between
    [TRACE] and [WARN] and a file size above 8000000, the size of one buffer of
    the asynchronous log, so that one buffer never fills a file. *)
Theorem conf_is_sane file c : ConfFileRead_new file = Ret c → conf_ok c.
Proof.
  assert (Hd : conf_ok conf_default) by (split; vm_compute; split; discriminate || done).
  unfold ConfFileRead_new. destruct file as [text|]; intros H.
  - by eapply conf_lines_ok.
  - by apply Ret_inj in H as <-.
Qed.

Lemma conf_is_sane_witness :
  ConfFileRead_new (Some (lit "FILE_SIZE=100")) = Ret conf_default ∧ conf_ok conf_default.
Proof.
  assert (E : ConfFileRead_new (Some (lit "FILE_SIZE=100")) = Ret conf_default)
    by (vm_compute; reflexivity).
  split; [exact E|]. exact (conf_is_sane _ _ E).
Defined.

(** A line with the key alone, without ['='], is taken for a setting with
    its own text as value, which [atoi] reads as 0: it turns every level on. *)
Lemma bare_key_traces c p1 p2 rest :
  spaces p1 → spaces p2 → comment rest →
  conf_line c (p1 ++ lit "LOG_LEVEL" ++ p2 ++ rest) =
  Ret {| level_ := TRACE; LogFileSize_ := LogFileSize_ c |}.
Proof.
  intros H1 H2 Hr.
  assert (Hk : solid (lit "LOG_LEVEL")) by (split; [done|repeat constructor]; done).
  assert (Hnot : ∀ c, c = "#"%char ∨ c = "="%char ∨ c = NUL →
    Forall (λ x, x ≠ c) (p1 ++ lit "LOG_LEVEL" ++ p2)).
  { intros d Hd. rewrite !Forall_app. assert (d ≠ SP) by (by destruct Hd as [->|[->| ->]]).
    split_and!; auto using spaces_not, solid_not. }
  unfold conf_line. cbv zeta.
  replace (p1 ++ lit "LOG_LEVEL" ++ p2 ++ rest) with ((p1 ++ lit "LOG_LEVEL" ++ p2) ++ rest)
    by (by rewrite <- !app_assoc).
  rewrite before_stop by auto. unfold after. rewrite strchr_None by auto.
  rewrite before_all by auto. rewrite trim_pad, decide_True by done. done.
Qed.

Lemma bare_key_traces_witness :
  conf_line conf_default (lit "  LOG_LEVEL # later") =
  Ret {| level_ := TRACE; LogFileSize_ := 524288000 |}.
Proof.
  refine (bare_key_traces conf_default (lit "  ") (lit " ") (lit "# later") _ _ _).
  - unfold spaces. repeat constructor.
  - unfold spaces. repeat constructor.
  - right. eexists. vm_compute. reflexivity.
Defined.
