(* ===== verification/Clog.v ===== *)
(** The front end of the C++ logging library: [Logger] of
    [src/src/log/muduo-clog/muduo/base/Logging.cc] and [Logging.h], and the C
    interface [clog/muduo_clog.cc].

    A call of [muduo_clog_trace] and the like formats its arguments
    ([vsnprintf], foreign: the text is an argument), builds the line in a
    [LogStream] of 4000 characters (LogStream.v) and gives it to [g_output]:
    the standard output until [muduo_clog_init], the asynchronous log
    (AsyncLog.v) afterwards. A fatal message flushes [g_flush] and aborts; the
    state it leaves is kept, with a mark.

    [g_logTimeZone] is invalid unless [setTimeZone] is called; [None] is the
    invalid zone, [Some f] a zone with [toLocalTime = f]. *)

From S2P Require Import Prelude CString Memory MuduoDate Timestamp LogStream LogFile AsyncLog ClogConf.

Definition LOGINFO_MAX_LEN : Z := 1024 * 32.

Definition LogLevelName (level : Z) : bytes :=
  match level with
  | 0 => lit "TRACE "
  | 1 => lit "DEBUG "
  | 2 => lit "INFO  "
  | 3 => lit "WARN  "
  | 4 => lit "ERROR "
  | _ => lit "FATAL "
  end.

(** [SourceFile(filename)]: what follows the last ['/'], and its length. *)
Definition SourceFile (filename : option bytes) : outcome bytes :=
  match filename with
  | None => Undef NullDeref
  | Some f => mret (default f (after_slash f))
  end.

(** What belongs to a thread: its identifier, [t_time] and [t_lastSecond]. *)
Record thread := { th_tid : Z; t_time : bytes; t_lastSecond : Z }.

(** A thread that has not logged yet. *)
Definition new_thread (tid : Z) : thread :=
  {| th_tid := tid; t_time := replicate 32 NUL; t_lastSecond := 0 |}.

(** The answers of the system to one message: the time in microseconds, the
    broken-down time of a second, the text of an error number, and what the
    memory of the stream held. *)
Record log_env := {
  le_now : Z;
  le_localtime : Z → utc_tm;
  le_strerror : Z → bytes;
  le_mem : bytes
}.

(** [Fmt(fmt, val)] with [char buf_[32]]. *)
Definition Fmt (text : bytes) : bytes := snprintf 32 text.

Record Impl := {
  impl_stream : FixedBuffer;
  impl_level : Z;
  impl_line : Z;
  impl_basename : bytes
}.

(** [Logger::Impl::formatTime()]: the text of the second is kept from message
    to message; the microseconds and the zone mark follow it. *)
Definition formatTime (E : log_env) (zone : option (Z → utc_tm)) (th : thread)
    (s : FixedBuffer) : outcome (thread * FixedBuffer) :=
  let seconds := Z.quot (le_now E) kMicroSecondsPerSecond in
  let microseconds := to_s 32 (Z.rem (le_now E) kMicroSecondsPerSecond) in
  th ← (if decide (seconds ≠ t_lastSecond th)
        then
          let tm_time := default (le_localtime E) zone seconds in
          buf ← memcpy (t_time th) 0 (snprintf 32 (time_text tm_time) ++ [NUL]);
          mret {| th_tid := th_tid th; t_time := buf; t_lastSecond := seconds |}
        else mret th);
  let us := Fmt (lit "." ++ print_pad 6 microseconds ++
                 (match zone with Some _ => lit " " | None => lit "Z " end)) in
  let n := match zone with Some _ => 8%nat | None => 9%nat end in
  s ← stream_put_all s [IString (take 17 (t_time th)); IString (take n us)];
  mret (th, s).

(** [Impl(level, savedErrno, file, line)]. *)
Definition Impl_new (E : log_env) (zone : option (Z → utc_tm)) (th : thread)
    (level savedErrno : Z) (file : bytes) (line : Z) : outcome (thread * Impl) :=
  '(th, s) ← formatTime E zone th (fb_new (le_mem E));
  s ← stream_put_all s
        ([IString (print_space 5 (th_tid th) ++ lit " "); IString (take 6 (LogLevelName level))] ++
         (if decide (savedErrno ≠ 0)
          then [IStr (Some (le_strerror E savedErrno)); IStr (Some (lit " (errno="));
                IInt savedErrno; IStr (Some (lit ") "))]
          else []));
  mret (th, {| impl_stream := s; impl_level := level; impl_line := line;
               impl_basename := file |}).

(** [Impl::finish()]. *)
Definition finish (i : Impl) : outcome FixedBuffer :=
  stream_put_all (impl_stream i)
    [IStr (Some (lit " - ")); IString (impl_basename i); IChar ":"%char;
     IInt (impl_line i); IChar LF].

(** [impl_.stream_ << func << ' '] of the constructor with a function name, and
    the [<<] of the caller. *)
Definition put (i : Impl) (xs : list item) : outcome Impl :=
  s ← stream_put_all (impl_stream i) xs;
  mret {| impl_stream := s; impl_level := impl_level i; impl_line := impl_line i;
          impl_basename := impl_basename i |}.

(** The four constructors: with no level, with a level and a function, with a
    level, and with [toAbort]; the last one finds [errno]. *)
Inductive Logger_args :=
  | ALine
  | AFunc (level : Z) (func : option bytes)
  | ALevel (level : Z)
  | AErrno (errno : Z) (toAbort : bool).

Definition Logger (E : log_env) (zone : option (Z → utc_tm)) (th : thread) (args : Logger_args)
    (file : bytes) (line : Z) : outcome (thread * Impl) :=
  match args with
  | ALine => Impl_new E zone th INFO 0 file line
  | AFunc level func =>
      '(th, i) ← Impl_new E zone th level 0 file line;
      i ← put i [IStr func; IChar SP];
      mret (th, i)
  | ALevel level => Impl_new E zone th level 0 file line
  | AErrno errno toAbort =>
      Impl_new E zone th (if toAbort then FATAL else ERROR) errno file line
  end.

Section clog.
Context {B : Type} `{!LogBuffer B} (fresh : B).

(** Where [g_output] and [g_flush] point to. *)
Inductive output_func := defaultOutput | asyncOutput.

Record clog := {
  g_logLevel : Z;
  muduo_clog_level : Z;
  g_output : output_func;
  g_asyncLog : option (AsyncLogging (B:=B));
  stdout_text : list bytes;         (* given to fwrite(..., stdout) *)
  stdout_flushed : nat;             (* how many of them fflush has seen *)
  aborted : bool
}.

Definition set_async (c : clog) (a : option AsyncLogging) (o : list bytes) (f : nat)
    (ab : bool) : clog :=
  {| g_logLevel := g_logLevel c; muduo_clog_level := muduo_clog_level c;
     g_output := g_output c; g_asyncLog := a; stdout_text := o; stdout_flushed := f;
     aborted := ab |}.

(** [g_output(buf.data(), buf.length())]. *)
Definition call_output (c : clog) (line : bytes) : outcome clog :=
  match g_output c with
  | defaultOutput =>
      mret (set_async c (g_asyncLog c) (stdout_text c ++ [line]) (stdout_flushed c) (aborted c))
  | asyncOutput =>
      match g_asyncLog c with
      | None => Undef NullDeref
      | Some a => a ← append fresh a line;
                  mret (set_async c (Some a) (stdout_text c) (stdout_flushed c) (aborted c))
      end
  end.

(** [~Logger()]; [g_flush] stays [defaultFlush]. *)
Definition Logger_destroy (c : clog) (i : Impl) : outcome clog :=
  s ← finish i;
  c ← call_output c (fb_toString s);
  mret (if decide (impl_level i = FATAL)
        then set_async c (g_asyncLog c) (stdout_text c) (length (stdout_text c)) true
        else c).

(** [Logger(...).stream() << vaArgsBuf]. *)
Definition log_call (E : log_env) (zone : option (Z → utc_tm)) (th : thread) (c : clog)
    (args : Logger_args) (file : option bytes) (line : Z) (text : bytes)
    : outcome (thread * clog) :=
  base ← SourceFile file;
  '(th, i) ← Logger E zone th args base line;
  i ← put i [IStr (Some (snprintf LOGINFO_MAX_LEN text))];
  c ← Logger_destroy c i;
  mret (th, c).

(** The functions of [muduo_clog.cc]; [text] is what [fmt] and its arguments
    print. The first three stand behind [if (logLevel() <= ...)]; [LOG_WARN] and
    what follows it have no condition. *)
Definition muduo_clog_trace E zone th c (c_file func : option bytes) (line : Z) (text : bytes) :=
  if decide (g_logLevel c ≤ TRACE)
  then log_call E zone th c (AFunc TRACE func) c_file line text
  else mret (th, c).
Definition muduo_clog_debug E zone th c (c_file func : option bytes) (line : Z) (text : bytes) :=
  if decide (g_logLevel c ≤ DEBUG)
  then log_call E zone th c (AFunc DEBUG func) c_file line text
  else mret (th, c).
Definition muduo_clog_info E zone th c (c_file : option bytes) (line : Z) (text : bytes) :=
  if decide (g_logLevel c ≤ INFO)
  then log_call E zone th c ALine c_file line text
  else mret (th, c).
Definition muduo_clog_warn E zone th c (c_file : option bytes) (line : Z) (text : bytes) :=
  log_call E zone th c (ALevel WARN) c_file line text.
Definition muduo_clog_error E zone th c (c_file : option bytes) (line : Z) (text : bytes) :=
  log_call E zone th c (ALevel ERROR) c_file line text.
Definition muduo_clog_fatal E zone th c (c_file : option bytes) (line : Z) (text : bytes) :=
  log_call E zone th c (ALevel FATAL) c_file line text.
Definition muduo_clog_syserr E zone th c (errno : Z) (c_file : option bytes) (line : Z)
    (text : bytes) :=
  log_call E zone th c (AErrno errno false) c_file line text.
Definition muduo_clog_sysfatal E zone th c (errno : Z) (c_file : option bytes) (line : Z)
    (text : bytes) :=
  log_call E zone th c (AErrno errno true) c_file line text.

(** [muduo_clog_init(proc_name)]: the checks, the name and the size it gives to
    the asynchronous log, and the switch of the output. [access_ok] and
    [mkdir_ok] are the answers of the system, [conf] the configuration file. *)
Definition log_dir : bytes := lit "/var/log/iridium/run/".

Definition muduo_clog_init (c : clog) (proc_name : option bytes) (access_ok mkdir_ok : bool)
    (conf : option bytes) : outcome (Z * clog * option (bytes * Z)) :=
  match proc_name with
  | None => mret (-1, c, None)
  | Some p =>
      if negb access_ok && negb mkdir_ok then mret (-1, c, None)
      else
        let name := log_dir ++ snprintf (256 - zlen log_dir) p in
        conf ← ConfFileRead_new conf;
        mret (0,
          {| g_logLevel := g_logLevel c; muduo_clog_level := g_logLevel c;
             g_output := asyncOutput; g_asyncLog := Some (AsyncLogging_start fresh);
             stdout_text := stdout_text c; stdout_flushed := stdout_flushed c;
             aborted := aborted c |},
          Some (name, LogFileSize_ conf))
  end.

(** The macros of [muduo_clog.h] test the copy of the level first. *)
Definition muduo_clog_get_level (c : clog) : Z := muduo_clog_level c.
Definition MUDUO_CLOG_INFO E zone th c c_file line text :=
  if decide (muduo_clog_get_level c ≤ INFO)
  then muduo_clog_info E zone th c c_file line text else mret (th, c).
End clog.

(** ** The text of a message *)

(** What [formatTime] prints for a second and its microseconds, in local time
    with the mark [Z], or in the zone without it. *)
Definition stamp_items (E : log_env) (zone : option (Z → utc_tm)) : list item :=
  [IString (take 17 (time_text (default (le_localtime E) zone
      (Z.quot (le_now E) kMicroSecondsPerSecond))));
   IString (take (match zone with Some _ => 8 | None => 9 end)
     (Fmt (lit "." ++ print_pad 6 (Z.rem (le_now E) kMicroSecondsPerSecond) ++
        (match zone with Some _ => lit " " | None => lit "Z " end))))].

Definition errno_items (E : log_env) (savedErrno : Z) : list item :=
  if decide (savedErrno ≠ 0)
  then [IStr (Some (le_strerror E savedErrno)); IStr (Some (lit " (errno="));
        IInt savedErrno; IStr (Some (lit ") "))]
  else [].

(** Everything before and after the caller's text. *)
Definition head_items E zone (tid level savedErrno : Z) (func : list item) : list item :=
  stamp_items E zone ++
  [IString (print_space 5 tid ++ lit " "); IString (take 6 (LogLevelName level))] ++
  errno_items E savedErrno ++ func.
Definition tail_items (base : bytes) (line : Z) : list item :=
  [IStr (Some (lit " - ")); IString base; IChar ":"%char; IInt line; IChar LF].

(** The text of a second is in [t_time] where the thread has it cached. *)
Definition th_ok (E : log_env) (zone : option (Z → utc_tm)) (th : thread) : Prop :=
  zlen (t_time th) = 32 ∧
  (t_lastSecond th ≠ 0 →
   take 17 (t_time th) =
     take 17 (time_text (default (le_localtime E) zone (t_lastSecond th)))).

Lemma print_pad_length w n : w ≤ zlen (print_pad w n).
Proof.
  unfold print_pad. cbv zeta. rewrite !zlen_app. unfold zlen at 2. rewrite length_replicate.
  pose proof (zlen_nonneg (print_u (Z.abs n))).
  destruct (decide (n < 0)); unfold zlen in *; cbn in *; lia.
Qed.
Lemma print_space_length w n : w ≤ zlen (print_space w n).
Proof.
  unfold print_space. cbv zeta. rewrite zlen_app. unfold zlen at 1. rewrite length_replicate.
  unfold zlen. lia.
Qed.

Lemma time_text_length t : 17 ≤ zlen (time_text t).
Proof.
  unfold time_text. rewrite !zlen_app.
  pose proof (print_space_length 4 (utc_year t + 1900)).
  pose proof (print_pad_length 2 (utc_mon t + 1)).
  pose proof (print_pad_length 2 (utc_mday t)). pose proof (print_pad_length 2 (utc_hour t)).
  pose proof (print_pad_length 2 (utc_min t)). pose proof (print_pad_length 2 (utc_sec t)).
  change (zlen (lit " ")) with 1. change (zlen (lit ":")) with 1. lia.
Qed.

(** The refreshed [t_time]. *)
Lemma time_cached buf t :
  zlen buf = 32 →
  let text := snprintf 32 (time_text t) ++ [NUL] in
  zlen text ≤ 32 ∧ take 17 (blit buf 0 text) = take 17 (time_text t).
Proof.
  intros Hb text. pose proof (time_text_length t) as Ht.
  assert (Hs : 17 ≤ zlen (snprintf 32 (time_text t)) ≤ 31).
  { unfold snprintf, zlen in *. rewrite length_take. lia. }
  split; [unfold text; rewrite zlen_app; change (zlen [NUL]) with 1; lia|].
  unfold blit, text. change (take (Z.to_nat 0) buf) with (@nil ascii).
  rewrite app_nil_l, <- app_assoc, take_app_le by (unfold zlen in Hs; lia).
  unfold snprintf. rewrite take_take. f_equal.
Qed.

Lemma formatTime_ok E zone th s :
  th_ok E zone th → zlen (le_mem E) = kSmallBuffer → fb_ok kSmallBuffer s →
  kMicroSecondsPerSecond ≤ le_now E →
  ∃ th' s', formatTime E zone th s = Ret (th', s') ∧ th_ok E zone th' ∧
    th_tid th' = th_tid th ∧ stream_put_all s (stamp_items E zone) = Ret s'.
Proof.
  intros [Hlen Hcache] Hmem Hs Hnow. unfold formatTime. cbv zeta.
  unfold kMicroSecondsPerSecond in *.
  assert (Hsec : Z.quot (le_now E) (1000 * 1000) ≠ 0).
  { rewrite Z.quot_div_nonneg by lia. Z.div_mod_to_equations. lia. }
  rewrite to_s_small.
  2: lia.
  2: { rewrite Z.rem_mod_nonneg by lia. pose proof (Z.mod_pos_bound (le_now E) (1000*1000)).
       change (2 ^ (32 - 1)) with 2147483648. lia. }
  set (sec := Z.quot _ _) in *. set (us := Z.rem _ _) in *.
  assert (Hitems : Forall item_ok (stamp_items E zone)) by (repeat constructor).
  destruct (stream_put_all_run kSmallBuffer s _ Hs Hitems) as (s' & Hput & _).
  unfold stamp_items, kMicroSecondsPerSecond in *. fold sec us in Hput |- *.
  destruct (decide (sec ≠ t_lastSecond th)) as [Hne|Heq].
  - set (tm := default (le_localtime E) zone sec) in *.
    destruct (time_cached (t_time th) tm Hlen) as [Htl Htake].
    rewrite memcpy_ok by lia. rewrite Ret_bind, mret_bind. cbn [t_time]. rewrite Htake, Hput.
    rewrite Ret_bind. eexists _, s'. split; [done|]. split; [|done].
    split; [cbn; rewrite zlen_blit; lia|]. intros _. cbn. done.
  - apply dec_stable in Heq. rewrite mret_bind, Hcache, <- Heq, Hput, Ret_bind by congruence.
    exists th, s'. split; [done|]. split; [by split|done].
Qed.

(** The line of a message: what its stream keeps. *)
Definition message_items E zone (tid level savedErrno : Z) (base : bytes) (line : Z)
    (func : list item) (text : bytes) : list item :=
  head_items E zone tid level savedErrno func ++
  [IStr (Some (snprintf LOGINFO_MAX_LEN text))] ++ tail_items base line.
Definition message E zone tid level savedErrno base line func text : bytes :=
  kept kSmallBuffer (message_items E zone tid level savedErrno base line func text).

(** What the constructors make of their arguments. *)
Definition args_level (a : Logger_args) : Z :=
  match a with
  | ALine => INFO | AFunc level _ | ALevel level => level
  | AErrno _ toAbort => if toAbort then FATAL else ERROR
  end.
Definition args_errno (a : Logger_args) : Z := match a with AErrno e _ => e | _ => 0 end.
Definition args_items (a : Logger_args) : list item :=
  match a with AFunc _ func => [IStr func; IChar SP] | _ => [] end.

Lemma Logger_spec E zone th a file line :
  Logger E zone th a file line =
  ('(th, i) ← Impl_new E zone th (args_level a) (args_errno a) file line;
   i ← put i (args_items a); mret (th, i)).
Proof.
  destruct a; cbn [Logger args_level args_errno args_items]; [|done|..];
    by destruct (Impl_new _ _ _ _ _ _ _) as [[? []]| | |].
Qed.

(** What a caller may pass. *)
Definition call_ok (E : log_env) (savedErrno line : Z) (func : list item) : Prop :=
  zlen (le_mem E) = kSmallBuffer ∧ kMicroSecondsPerSecond ≤ le_now E ∧
  in_int savedErrno ∧ in_int line ∧ Forall item_ok func.

Lemma message_items_ok E zone tid level e base line func text :
  call_ok E e line func → Forall item_ok (message_items E zone tid level e base line func text).
Proof.
  intros (_ & _ & He & Hline & Hf).
  unfold message_items, head_items, stamp_items, errno_items, tail_items.
  destruct (decide (e ≠ 0)); rewrite !Forall_app;
    repeat first [exact I | exact Hf | exact He | exact Hline | apply Forall_nil_2
                 | apply Forall_cons_2 | apply conj].
Qed.

Lemma message_short E zone tid level e base line func text :
  call_ok E e line func →
  zlen (message E zone tid level e base line func text) < kSmallBuffer.
Proof. intros H. apply kept_bound; [done|by apply message_items_ok]. Qed.

Section calls.
Context {B : Type} `{!LogBuffer B} (fresh : B).

Lemma log_call_ok E zone th c args f line text :
  let level := args_level args in let e := args_errno args in let func := args_items args in
  th_ok E zone th → call_ok E e line func →
  ∃ th', th_ok E zone th' ∧ th_tid th' = th_tid th ∧
  log_call fresh E zone th c args (Some f) line text =
  (c ← call_output fresh c (message E zone (th_tid th) level e
         (default f (after_slash f)) line func text);
   mret (th', if decide (level = FATAL)
              then set_async c (g_asyncLog c) (stdout_text c) (length (stdout_text c)) true
              else c)).
Proof.
  intros level e func Hth Hcall. pose proof Hcall as (Hmem & Hnow & He & Hline & Hfunc).
  pose proof (message_items_ok E zone (th_tid th) level e (default f (after_slash f)) line
    func text Hcall) as Hitems.
  assert (Hnew : fb_ok kSmallBuffer (fb_new (le_mem E))) by (by split).
  destruct (stream_put_all_run _ _ _ Hnew Hitems) as (s & Hs & Hok & Htext & _).
  change (fb_toString (fb_new (le_mem E))) with (@nil ascii) in Htext.
  rewrite app_nil_l in Htext.
  replace (fb_avail (fb_new (le_mem E))) with kSmallBuffer in Htext
    by (unfold fb_avail, fb_new; cbn [data_ cur_]; lia).
  destruct (formatTime_ok E zone th _ Hth Hmem Hnew Hnow) as (th' & s1 & Hft & Hth' & Htid & Hs1).
  exists th'. split; [done|]. split; [done|].
  unfold message_items, head_items in Hs.
  rewrite <- !app_assoc, stream_put_all_app, Hs1, Ret_bind, app_assoc, stream_put_all_app in Hs.
  apply bind_Ret in Hs as (s2 & Hs2 & Hs).
  rewrite stream_put_all_app in Hs. apply bind_Ret in Hs as (s3 & Hs3 & Hs).
  rewrite stream_put_all_app in Hs. apply bind_Ret in Hs as (s4 & Hs4 & Hs).
  unfold log_call, SourceFile. rewrite mret_bind, Logger_spec.
  fold level e func. unfold Impl_new. rewrite Hft, Ret_bind, Htid.
  unfold errno_items in Hs2. rewrite Hs2, Ret_bind, mret_bind.
  unfold put. cbn [impl_stream]. rewrite Hs3, Ret_bind, mret_bind.
  rewrite mret_bind. cbn [impl_stream]. rewrite Hs4, Ret_bind, mret_bind.
  unfold Logger_destroy, finish. cbn [impl_stream impl_basename impl_line impl_level].
  unfold tail_items in Hs. rewrite Hs, Ret_bind, Htext.
  unfold message, message_items, head_items.
  set (k := kept _ _). destruct (call_output fresh c k); done.
Qed.

(** ** Runs of a program *)

(** The eight functions, with the argument only some of them have. *)
Inductive clog_fun :=
  | CTrace (func : option bytes) | CDebug (func : option bytes)
  | CInfo | CWarn | CError | CFatal
  | CSyserr (errno : Z) | CSysfatal (errno : Z).

Definition fun_level (k : clog_fun) : Z :=
  match k with
  | CTrace _ => TRACE | CDebug _ => DEBUG | CInfo => INFO | CWarn => WARN
  | CError | CSyserr _ => ERROR | CFatal | CSysfatal _ => FATAL
  end.
Definition fun_errno (k : clog_fun) : Z :=
  match k with CSyserr e | CSysfatal e => e | _ => 0 end.
Definition fun_items (k : clog_fun) : list item :=
  match k with CTrace f | CDebug f => [IStr f; IChar SP] | _ => [] end.
Definition fun_args (k : clog_fun) : Logger_args :=
  match k with
  | CTrace f => AFunc TRACE f | CDebug f => AFunc DEBUG f | CInfo => ALine
  | CWarn => ALevel WARN | CError => ALevel ERROR | CFatal => ALevel FATAL
  | CSyserr e => AErrno e false | CSysfatal e => AErrno e true
  end.
Lemma fun_args_level k : args_level (fun_args k) = fun_level k.
Proof. by destruct k. Qed.
Lemma fun_args_errno k : args_errno (fun_args k) = fun_errno k.
Proof. by destruct k. Qed.
Lemma fun_args_items k : args_items (fun_args k) = fun_items k.
Proof. by destruct k. Qed.

(** Which functions look at the level. *)
Definition enabled (g : Z) (k : clog_fun) : bool :=
  match k with
  | CTrace _ | CDebug _ | CInfo => bool_decide (g ≤ fun_level k)
  | _ => true
  end.

Definition do_call (k : clog_fun) E zone th (c : clog) (f : option bytes) line text
    : outcome (thread * clog) :=
  match k with
  | CTrace fn => muduo_clog_trace fresh E zone th c f fn line text
  | CDebug fn => muduo_clog_debug fresh E zone th c f fn line text
  | CInfo => muduo_clog_info fresh E zone th c f line text
  | CWarn => muduo_clog_warn fresh E zone th c f line text
  | CError => muduo_clog_error fresh E zone th c f line text
  | CFatal => muduo_clog_fatal fresh E zone th c f line text
  | CSyserr e => muduo_clog_syserr fresh E zone th c e f line text
  | CSysfatal e => muduo_clog_sysfatal fresh E zone th c e f line text
  end.

(** One call of a function, with the system's answers to it. *)
Record call := {
  c_fun : clog_fun;
  c_env : log_env;
  c_file : bytes;
  c_line : Z;
  c_text : bytes
}.
Definition call_line (zone : option (Z → utc_tm)) (tid : Z) (m : call) : bytes :=
  message (c_env m) zone tid (fun_level (c_fun m)) (fun_errno (c_fun m))
    (default (c_file m) (after_slash (c_file m))) (c_line m) (fun_items (c_fun m)) (c_text m).
Definition good_call (m : call) : Prop :=
  call_ok (c_env m) (fun_errno (c_fun m)) (c_line m) (fun_items (c_fun m)).

Lemma do_call_on m zone th c :
  th_ok (c_env m) zone th → good_call m → enabled (g_logLevel c) (c_fun m) = true →
  ∃ th', th_ok (c_env m) zone th' ∧ th_tid th' = th_tid th ∧
  do_call (c_fun m) (c_env m) zone th c (Some (c_file m)) (c_line m) (c_text m) =
  (c ← call_output fresh c (call_line zone (th_tid th) m);
   mret (th', if decide (fun_level (c_fun m) = FATAL)
              then set_async c (g_asyncLog c) (stdout_text c) (length (stdout_text c)) true
              else c)).
Proof.
  intros Hth Hm He.
  destruct (log_call_ok (c_env m) zone th c (fun_args (c_fun m)) (c_file m) (c_line m) (c_text m))
    as (th' & ? & ? & Eq); [done|by rewrite fun_args_errno, fun_args_items|].
  rewrite fun_args_level, fun_args_errno, fun_args_items in Eq.
  exists th'. split; [done|]. split; [done|]. unfold call_line. rewrite <- Eq.
  destruct (c_fun m); cbn in *; try done;
    apply bool_decide_eq_true in He;
    unfold muduo_clog_trace, muduo_clog_debug, muduo_clog_info; by rewrite decide_True.
Qed.

Lemma do_call_off m zone th c :
  enabled (g_logLevel c) (c_fun m) = false →
  do_call (c_fun m) (c_env m) zone th c (Some (c_file m)) (c_line m) (c_text m) = Ret (th, c).
Proof.
  intros He. destruct (c_fun m); cbn in *; try discriminate He;
    apply bool_decide_eq_false in He;
    unfold muduo_clog_trace, muduo_clog_debug, muduo_clog_info; by rewrite decide_False.
Qed.

(** A program's thread calls the functions; the background thread runs, and
    [stop] may be called. *)
Context (stamp : bytes).

Inductive clog_action := DCall (m : call) | DThread | DStop.

Definition clog_act (zone : option (Z → utc_tm)) (st : thread * clog) (x : clog_action)
    : outcome (thread * clog) :=
  let '(th, c) := st in
  match x with
  | DCall m =>
      do_call (c_fun m) (c_env m) zone th c (Some (c_file m)) (c_line m) (c_text m)
  | DThread | DStop =>
      match g_asyncLog c with
      | None => Undef NullDeref
      | Some a =>
          a ← act fresh stamp a (match x with DStop => AStop | _ => AThread end);
          mret (th, set_async c (Some a) (stdout_text c) (stdout_flushed c) (aborted c))
      end
  end.

Fixpoint clog_run zone (st : thread * clog) (xs : list clog_action) : outcome (thread * clog) :=
  match xs with
  | [] => mret st
  | x :: xs => st ← clog_act zone st x; clog_run zone st xs
  end.

(** What the asynchronous log sees of a run. *)
Definition seen (g : Z) zone (tid : Z) (x : clog_action) : option action :=
  match x with
  | DCall m => if enabled g (c_fun m) then Some (AAppend (call_line zone tid m)) else None
  | DThread => Some AThread
  | DStop => Some AStop
  end.

Lemma seen_cons g zone tid x xs :
  omap (seen g zone tid) (x :: xs) =
  match seen g zone tid x with
  | Some y => y :: omap (seen g zone tid) xs
  | None => omap (seen g zone tid) xs
  end.
Proof. done. Qed.

(** Calls of a thread that are not fatal, all in the same time zone. *)
Definition good_action (lt : Z → utc_tm) (x : clog_action) : Prop :=
  match x with
  | DCall m => good_call m ∧ fun_level (c_fun m) ≠ FATAL ∧ le_localtime (c_env m) = lt
  | _ => True
  end.

Definition with_log (c : clog (B:=B)) (a : AsyncLogging (B:=B)) : clog (B:=B) :=
  set_async c (Some a) (stdout_text c) (stdout_flushed c) (aborted c).

Lemma clog_run_refines lt E0 zone xs th c a :
  le_localtime E0 = lt → Forall (good_action lt) xs → th_ok E0 zone th →
  g_output c = asyncOutput →
  ∃ th', clog_run zone (th, with_log c a) xs =
    (a' ← run fresh stamp a (omap (seen (g_logLevel c) zone (th_tid th)) xs);
     mret (th', with_log c a')).
Proof.
  intros Hlt Hxs. revert th a E0 Hlt.
  induction Hxs as [|x xs Hx Hxs IH]; intros th a E0 Hlt Hth Hout; [by exists th|].
  cbn [clog_run]. rewrite seen_cons. destruct x as [m| |]; cbn [seen].
  - destruct Hx as (Hm & Hfatal & Hloc).
    assert (Hth' : th_ok (c_env m) zone th)
      by (unfold th_ok in *; by rewrite Hloc, <- Hlt).
    destruct (enabled (g_logLevel c) (c_fun m)) eqn:He.
    + destruct (do_call_on m zone th (with_log c a)) as (th1 & Hth1 & Htid & Eq);
        [exact Hth'|exact Hm|exact He|].
      cbn [clog_act]. rewrite Eq. unfold call_output. cbn [g_output with_log set_async g_asyncLog].
      rewrite Hout. cbn [run act].
      destruct (append fresh a (call_line zone (th_tid th) m)) as [a1| | |]; [|by exists th..].
      rewrite ?Ret_bind, ?mret_bind. rewrite decide_False by done.
      destruct (IH th1 a1 (c_env m)) as [th2 IH2]; [done..|]. rewrite Htid in IH2.
      exists th2. rewrite <- IH2. done.
    + cbn [clog_act]. rewrite do_call_off, Ret_bind by exact He.
      exact (IH th a E0 Hlt Hth Hout).
  - cbn [clog_act with_log set_async g_asyncLog run].
    destruct (act fresh stamp a AThread) as [a1| | |]; [|by exists th..].
    rewrite ?Ret_bind, ?mret_bind. exact (IH th a1 E0 Hlt Hth Hout).
  - cbn [clog_act with_log set_async g_asyncLog run].
    destruct (act fresh stamp a AStop) as [a1| | |]; [|by exists th..].
    rewrite ?Ret_bind, ?mret_bind. exact (IH th a1 E0 Hlt Hth Hout).
Qed.

Lemma new_thread_ok E zone tid : th_ok E zone (new_thread tid).
Proof. split; [done|]. intros []. done. Qed.

(** What a successful initialisation leaves. *)
Lemma init_inv c p acc mk conf c' name roll :
  muduo_clog_init fresh c (Some p) acc mk conf = Ret (0, c', Some (name, roll)) →
  g_output c' = asyncOutput ∧ c' = with_log c' (AsyncLogging_start fresh) ∧
  g_logLevel c' = g_logLevel c ∧ kLargeBuffer < roll ≤ INT_MAX ∧
  ∃ s, name = log_dir ++ s.
Proof.
  unfold muduo_clog_init. intros H. destruct (negb acc && negb mk); [done|].
  apply bind_Ret in H as (cf & Hcf & H). apply Ret_inj in H. injection H as <- <- <-.
  split_and!; try done; [..|by eexists].
  all: assert (Hd : conf_ok conf_default) by (split; vm_compute; split; discriminate || done).
  all: assert (Hc : conf_ok cf).
  1,3: destruct conf as [text|]; cbn in Hcf;
    [by eapply conf_lines_ok|by apply Ret_inj in Hcf as <-].
  all: destruct Hc as [_ Hc]; unfold kLargeBuffer; lia.
Qed.

Context {SIZE : Z} `{!LogBufferLaws B SIZE}.
Context (fresh_ok : lb_ok fresh) (fresh_empty : lb_text fresh = []).

Lemma seen_short lt g zone tid xs :
  kSmallBuffer ≤ SIZE → Forall (good_action lt) xs →
  Forall (short (SIZE:=SIZE)) (omap (seen g zone tid) xs).
Proof.
  intros HS Hxs. induction Hxs as [|x xs Hx Hxs IH]; [constructor|].
  rewrite seen_cons. assert (0 < SIZE) by (unfold kSmallBuffer in HS; lia).
  destruct x as [m| |]; cbn [seen]; [destruct (enabled g (c_fun m)); [|done]|..];
    (constructor; [|done]); unfold short; cbn [line_of];
    try (change (zlen (@nil ascii)) with 0; lia).
  destruct Hx as (Hm & _). unfold call_line.
  pose proof (message_short (c_env m) zone tid (fun_level (c_fun m)) (fun_errno (c_fun m))
    (default (c_file m) (after_slash (c_file m))) (c_line m) (fun_items (c_fun m))
    (c_text m) Hm). lia.
Qed.

(** The lines of the enabled calls. *)
Definition messages (g : Z) zone (tid : Z) (xs : list clog_action) : list bytes :=
  omap (λ x, match x with
             | DCall m => if enabled g (c_fun m) then Some (call_line zone tid m) else None
             | _ => None
             end) xs.

Lemma messages_seen g zone tid xs :
  appended_lines (omap (seen g zone tid) xs) = messages g zone tid xs.
Proof.
  induction xs as [|x xs IH]; [done|]. rewrite seen_cons.
  destruct x as [m| |]; cbn [seen]; [|exact IH|exact IH].
  unfold messages in *. cbn. destruct (enabled g (c_fun m)); [|exact IH].
  exact (f_equal (cons (call_line zone tid m)) IH).
Qed.

(** ** Theorems *)


(** A fatal message is lost. With the asynchronous log in place the line of
    [muduo_clog_fatal] only reaches a buffer in memory: the process is aborted
    after a flush of the standard output, and nothing was added to what the log
    file was given. *)
Lemma fatal_stays_in_memory zone th c a E file line text :
  kSmallBuffer ≤ SIZE → th_ok E zone th → call_ok E 0 line [] →
  g_output c = asyncOutput → g_asyncLog c = Some a → async_ok (SIZE:=SIZE) a →
  wp (muduo_clog_fatal fresh E zone th c (Some file) line text) (λ st,
    aborted st.2 = true ∧ ∃ a', g_asyncLog st.2 = Some a' ∧ output a' = output a ∧
    (dropped a' = dropped a → in_flight a' = in_flight a ++
      message E zone (th_tid th) FATAL 0 (default file (after_slash file)) line [] text)).
Proof.
  intros HS Hth Hcall Hout Ha Hok. unfold muduo_clog_fatal.
  destruct (log_call_ok E zone th c (ALevel FATAL) file line text Hth Hcall) as (th' & _ & _ & ->).
  cbn [args_level args_errno args_items].
  unfold call_output. rewrite Hout, Ha. apply wp_bind, wp_bind.
  pose proof (message_short E zone (th_tid th) FATAL 0 (default file (after_slash file)) line
    [] text Hcall).
  eapply wp_mono; [apply (append_ok fresh fresh_ok fresh_empty); [exact Hok|lia]|].
  intros a' (_ & [_ Hacc] & _ & _ & Ho). apply wp_mret, wp_mret.
  rewrite decide_True by done. split; [done|]. exists a'. split; [done|]. split; [done|].
  intros Hd. specialize (Hacc Hd). rewrite Ho in Hacc. by apply app_inv_head in Hacc.
Qed.
End calls.

(** The text of a line. When the parts of a message leave 32 of the 4000
    characters free, the line is all of them in order: the second in local
    time, the microseconds with [Z], the thread, the level, the error or the
    function if any, the text of the caller, the file and the line number; and
    every line of the library is shorter than 4000 characters. *)
Theorem message_is_complete E zone tid level e base line func text :
  call_ok E e line func →
  let xs := message_items E zone tid level e base line func text in
  zlen (message E zone tid level e base line func text) < kSmallBuffer ∧
  (zlen (mjoin (item_text <$> xs)) + kMaxNumericSize ≤ kSmallBuffer →
   message E zone tid level e base line func text = mjoin (item_text <$> xs)).
Proof.
  intros Hcall xs. split; [by apply message_short|]. intros Hlen. by apply kept_all.
Qed.

Definition noon : log_env := {|
  le_now := 1525867200123456;
  le_localtime := λ t, utc_of t false;
  le_strerror := λ _, lit "No such file or directory";
  le_mem := replicate 4000 SP
|}.

Lemma noon_ok line func :
  in_int line → Forall item_ok func → call_ok noon 2 line func.
Proof. intros. split_and!; try done; vm_compute; done. Qed.

Lemma message_is_complete_witness :
  let xs := message_items noon None 77 ERROR 2 (lit "main.c") 42 [] (lit "open failed") in
  zlen (message noon None 77 ERROR 2 (lit "main.c") 42 [] (lit "open failed")) < kSmallBuffer ∧
  (zlen (mjoin (item_text <$> xs)) + kMaxNumericSize ≤ kSmallBuffer →
   message noon None 77 ERROR 2 (lit "main.c") 42 [] (lit "open failed") =
     mjoin (item_text <$> xs)) ∧
  mjoin (item_text <$> xs) = lit "20180509 12:00:00.123456Z    77 ERROR No such file or directory (errno=2) open failed - main.c:42" ++ [LF].
Proof.
  assert (Hcall : call_ok noon 2 42 []) by (apply noon_ok; [split; discriminate|constructor]).
  destruct (message_is_complete noon None 77 ERROR 2 (lit "main.c") 42 [] (lit "open failed") Hcall)
    as [H1 H2].
  split; [exact H1|]. split; [exact H2|]. vm_compute. reflexivity.
Defined.

(** A text of 4000 characters or more disappears from its line without a
    trace: the line is that of the message with no text at all, although the
    interface formats up to 32767 characters. *)
Lemma long_text_vanishes E zone tid level e base line func text :
  kSmallBuffer ≤ zlen (cstr (snprintf LOGINFO_MAX_LEN text)) →
  message E zone tid level e base line func text =
  kept kSmallBuffer (head_items E zone tid level e func ++ tail_items base line).
Proof.
  intros Hlen. unfold message, message_items. by apply kept_skip.
Qed.

Lemma long_text_vanishes_witness :
  message noon None 77 INFO 0 (lit "main.c") 42 [] (replicate 4000 "x"%char) =
    kept kSmallBuffer (head_items noon None 77 INFO 0 [] ++ tail_items (lit "main.c") 42) ∧
  kept kSmallBuffer (head_items noon None 77 INFO 0 [] ++ tail_items (lit "main.c") 42) =
    lit "20180509 12:00:00.123456Z    77 INFO   - main.c:42" ++ [LF].
Proof.
  split; [|vm_compute; reflexivity].
  apply long_text_vanishes. vm_compute. discriminate.
Defined.

(** The buffers of the library's own asynchronous log are large enough for its
    messages, here of 4000 characters. *)
Definition line_buffer : FixedBuffer := fb_new (replicate 4000 SP).
Definition clog0 : clog (B:=FixedBuffer) := {|
  g_logLevel := INFO; muduo_clog_level := 0; g_output := defaultOutput; g_asyncLog := None;
  stdout_text := []; stdout_flushed := 0; aborted := false
|}.
Definition hello (k : clog_fun) : call := {|
  c_fun := k; c_env := noon; c_file := lit "src/main.c"; c_line := 42; c_text := lit "hello"
|}.

Lemma hello_ok k :
  fun_errno k = 0 → Forall item_ok (fun_items k) → good_call (hello k).
Proof.
  intros He Hi. split; [done|]. split; [by vm_compute|].
  split; [cbn [c_fun hello]; rewrite He; split; done|]. split; [split; done|done].
Qed.

Lemma line_buffer_ok : fb_ok 4000 line_buffer ∧ fb_toString line_buffer = [].
Proof. split; [split; [by vm_compute|split; done]|done]. Qed.


Lemma fatal_stays_in_memory_witness :
  let c := with_log {| g_logLevel := INFO; muduo_clog_level := INFO; g_output := asyncOutput;
      g_asyncLog := None; stdout_text := []; stdout_flushed := 0; aborted := false |}
      (AsyncLogging_start line_buffer) in
  wp (muduo_clog_fatal line_buffer noon None (new_thread 77) c (Some (lit "main.c")) 42
        (lit "cannot go on")) (λ st,
    aborted st.2 = true ∧ ∃ a', g_asyncLog st.2 = Some a' ∧ output a' = [] ∧
    (dropped a' = [] → in_flight a' = [] ++
      message noon None 77 FATAL 0 (lit "main.c") 42 [] (lit "cannot go on"))).
Proof.
  intros c. destruct line_buffer_ok as [Hb Ht].
  refine (fatal_stays_in_memory line_buffer Hb Ht None (new_thread 77) c
    (AsyncLogging_start line_buffer) noon (lit "main.c") 42 (lit "cannot go on")
    _ (new_thread_ok _ _ _) _ eq_refl eq_refl (async_start_ok line_buffer Hb Ht)); [done|].
  split; [done|]. split; [by vm_compute|]. split; [split; done|]. split; [split; done|constructor].
Defined.
