(* ===== verification/ClogDisk.v ===== *)
(** The C++ logging library from end to end: the calls of the C interface
    (Clog.v), the asynchronous log (AsyncLog.v) and the files on the disk
    (LogFile.v), for the configuration that [muduo_clog_init] sets up. The file
    is made by the background thread,
    [src/src/log/muduo-clog/muduo/base/AsyncLogging.cc], with the defaults of
    [LogFile.h]. *)

From S2P Require Import Prelude CString Memory MuduoDate Timestamp LogStream LogFile AsyncLog.
From S2P Require Import ClogConf Clog.

(** The default arguments of the constructor of [LogFile]. *)
Definition flushInterval_default : Z := 3.
Definition checkEveryN_default : Z := 1024.

Section disk.
Context {B : Type} `{!LogBuffer B} (fresh : B) (stamp : bytes).
Context {SIZE : Z} `{!LogBufferLaws B SIZE}.
Context (fresh_ok : lb_ok fresh) (fresh_empty : lb_text fresh = []).
Implicit Types s : AsyncLogging (B:=B).

(** [LogFile output(basename_, rollSize_, false)] and its appends, from the [t]-th
    call of [time] and the [w]-th of [fwrite] on. *)
Definition thread_files (E : file_env) (basename_ : bytes) (rollSize_ : Z) (t w : nat) s
    : outcome LogFile :=
  f ← LogFile_new E basename_ rollSize_ flushInterval_default checkEveryN_default t w;
  append_all E f (output s).

(** Only [stop] clears [running_]. *)
Lemma run_keeps_running s (acts : list action) :
  async_ok s → flag_ok s → Forall (short (SIZE:=SIZE)) acts → AStop ∉ acts →
  wp (run fresh stamp s acts) (λ s', running_ s' = running_ s).
Proof.
  intros Hok Hf Hsh Hstop. revert s Hok Hf.
  induction Hsh as [|a acts Ha _ IH]; intros s Hok Hf; [done|].
  rewrite not_elem_of_cons in Hstop. destruct Hstop as [Hstop Hrest]. specialize (IH Hrest).
  cbn [run]. apply wp_bind. pose proof (act_ok fresh stamp fresh_ok fresh_empty s a Hok Hf Ha) as Hact.
  apply wp_iff in Hact as (s' & E & Hok' & _ & Hf' & _). rewrite E. cbn.
  enough (running_ s' = running_ s) as <- by by apply IH.
  destruct a as [l| |]; [| |done]; cbn [act] in E.
  - pose proof (append_ok fresh fresh_ok fresh_empty s l Hok Ha) as H. rewrite E in H.
    by destruct H as (_ & _ & _ & H & _).
  - pose proof (thread_step_ok fresh stamp fresh_ok fresh_empty s Hok Hf) as H. rewrite E in H.
    by destruct H as (_ & H & _).
Qed.

Lemma seen_stop g zone tid (xs : list clog_action) : DStop ∉ xs → AStop ∉ omap (seen g zone tid) xs.
Proof.
  intros Hxs (x & Hx & Hs)%list_elem_of_omap. destruct x as [m| |]; cbn in Hs.
  - by destruct (enabled g (c_fun m)).
  - done.
  - done.
Qed.

(** What a run without [stop] leads to: at most five more steps of the thread
    leave nothing in memory, and what they wrote is every line. *)
Lemma async_drained (acts : list action) :
  Forall (short (SIZE:=SIZE)) acts → AStop ∉ acts →
  wp (run fresh stamp (AsyncLogging_start fresh) acts) (λ s, ∃ n, (n ≤ 5)%nat ∧
    wp (run fresh stamp s (replicate n AThread)) (λ s', pieces_ok (SIZE:=SIZE) s' ∧
      (dropped s' = [] → mjoin (output s') = mjoin (appended_lines acts)))).
Proof.
  intros Hsh Hstop.
  pose proof (run_start fresh stamp fresh_ok fresh_empty acts Hsh) as Hrun.
  apply wp_iff in Hrun as (s & E & Hok & Hf & Hp & Htext). rewrite E. cbn.
  pose proof (run_keeps_running (AsyncLogging_start fresh) acts) as Hr.
  rewrite E in Hr. destruct (drains fresh stamp fresh_ok fresh_empty s Hok Hf) as (n & Hn & Hl).
  { apply Hr; [by apply async_start_ok|done..]. }
  exists n. split; [done|]. eapply wp_mono; [exact Hl|].
  intros s' [(_ & [[d Hd] Ha] & _ & Hp') [_ Hi]]. split; [by apply Hp'|].
  intros Hnone. rewrite Hnone in Hd. symmetry in Hd. apply app_eq_nil in Hd as [Hd _].
  rewrite Hi, app_nil_r, app_nil_r, Htext in Ha by done. apply Ha. by rewrite Hd.
Qed.

(** C3: From the calls of the C interface to the disk. After [muduo_clog_init],
    for any calls of the [muduo_clog_] functions that are not fatal, interleaved
    in any way with the background thread, at most five more steps of that
    thread put every line of an enabled call on the disk: unless buffers were
    dropped, the rolled files, read in order, are exactly these lines, whole and
    in the order of the calls, however the writes are split; and no file exceeds
    the configured size by more than [K] pieces, [K] being the number of times
    the clock gives the same second. Assertions are compiled out, because the
    name contains slashes. *)
Theorem clog_reaches_disk c p acc mk conf c1 name roll lt zone tid xs
    E `{!FileLaws E} t w K :
  kSmallBuffer ≤ SIZE →
  muduo_clog_init fresh c (Some p) acc mk conf = Ret (0, c1, Some (name, roll)) →
  Forall (good_action lt) xs → DStop ∉ xs →
  fe_ndebug E = true → no_write_error E → 0 < fe_time E t → steady E K → (0 < K)%nat →
  wp (clog_run fresh stamp zone (new_thread tid, c1) xs) (λ st, ∃ a n,
    g_asyncLog st.2 = Some a ∧ (n ≤ 5)%nat ∧
    wp (run fresh stamp a (replicate n AThread)) (λ a', dropped a' = [] →
      wp (thread_files E name roll t w a') (λ f,
        file_text f = mjoin (messages (g_logLevel c) zone tid xs) ∧
        Forall (λ g, zlen (af_contents g) ≤ roll + Z.of_nat K * PIECE_MAX (SIZE:=SIZE))
          (all_files f)))).
Proof.
  intros HS Hinit Hxs Hstop Hnd He Ht Hst HK.
  apply init_inv in Hinit as (Hout & Hc1 & Hg & Hroll & _).
  set (E0 := {| le_now := 0; le_localtime := lt; le_strerror := λ _, []; le_mem := [] |}).
  destruct (clog_run_refines fresh stamp lt E0 zone xs (new_thread tid) c1
    (AsyncLogging_start fresh)) as [th Hrun]; [done|done|apply new_thread_ok|done|].
  rewrite Hc1, Hrun. cbn [th_tid new_thread]. apply wp_bind.
  eapply wp_mono; [apply async_drained; [by eapply seen_short|by apply seen_stop]|].
  intros a (n & Hn & Hd). apply wp_mret. exists a, n. split; [done|]. split; [done|].
  eapply wp_mono; [exact Hd|]. intros a' [Hp Htext] Hnone.
  eapply wp_mono;
    [apply (log_file_run E name roll _ _ t w K (PIECE_MAX (SIZE:=SIZE)) (output a')); try done|].
  - left. by rewrite Hnd.
  - unfold kLargeBuffer in Hroll. lia.
  - unfold PIECE_MAX. lia.
  - intros f [Hf Hb]. split; [|done]. by rewrite Hf, Htext, messages_seen, Hg by done.
Qed.
End disk.

(** ** Witness: two enabled calls, a disk that takes one byte at a time *)

Lemma clog_reaches_disk_witness :
  let xs := [DThread; DCall (hello CInfo); DCall (hello (CTrace None)); DThread;
             DCall (hello CWarn)] in
  ∃ c1, muduo_clog_init line_buffer clog0 (Some (lit "prog")) true true None =
    Ret (0, c1, Some (lit "/var/log/iridium/run/prog", 524288000)) ∧
  wp (clog_run line_buffer stamp_text None (new_thread 77, c1) xs) (λ st, ∃ a n,
    g_asyncLog st.2 = Some a ∧ (n ≤ 5)%nat ∧
    wp (run line_buffer stamp_text a (replicate n AThread)) (λ a', dropped a' = [] →
      wp (thread_files slow_disk (lit "/var/log/iridium/run/prog") 524288000 0 0 a') (λ f,
        file_text f = mjoin (messages (g_logLevel clog0) None 77 xs) ∧
        Forall (λ g, zlen (af_contents g) ≤ 524288000 + Z.of_nat 2 * PIECE_MAX (SIZE:=4000))
          (all_files f)))).
Proof.
  intros xs. destruct (muduo_clog_init line_buffer clog0 (Some (lit "prog")) true true None)
    as [[[r c1] n]| | |] eqn:E; [|discriminate E..].
  assert (r = 0 ∧ n = Some (lit "/var/log/iridium/run/prog", 524288000)) as [-> ->].
  { unfold muduo_clog_init in E. cbn in E. injection E as <- _ <-. done. }
  exists c1. split; [done|]. destruct line_buffer_ok as [Hb Ht].
  refine (clog_reaches_disk line_buffer stamp_text Hb Ht clog0 (lit "prog") true true None
    c1 _ _ (le_localtime noon) None 77 xs slow_disk 0 0 2 _ E _ _ _ slow_disk_writes _
    slow_disk_steady _); try done; try lia.
  - repeat constructor; try done; cbn; try discriminate; vm_compute; discriminate.
  - subst xs. rewrite !not_elem_of_cons, list_elem_of_In. cbn. intuition discriminate.
Defined.
