(* ===== verification/Mutex.v ===== *)
(** The mutex of the C++ logging library:
    [src/src/log/muduo-clog/muduo/base/Mutex.h], with [wait] and the deadline of
    [waitForSeconds] of [Condition.h] and [Condition.cc].

    Here the parts of a critical section are separate steps of any number of
    threads: taking the [pthread] mutex, noting the holder, each access to the
    protected data (any function of it), clearing the holder and giving the
    mutex back, by [unlock] or inside [wait]. A waiting thread may wake at any
    time, which covers notifications and spurious wake-ups. [sections] records
    the completed sections in the order in which they gave the mutex back.
    [sections_are_atomic] is the reason why a critical section is one step in
    BlockingQueue.v, ThreadPool.v, Thread.v and AsyncLog.v. *)

From stdpp Require Import relations.
From S2P Require Import Prelude Double.

Open Scope Z_scope.

Section mutex.
Context {A : Type} (tid : nat → Z).

(** ** Threads and steps *)

(** Where a thread is; inside, with what it has done to the data. *)
Inductive mutex_pc :=
  | MOutside
  | MLocked                      (* pthread_mutex_lock returned *)
  | MInside (sec : list (A → A)) (* after assignHolder() *)
  | MLeaving (sec : list (A → A)) (* unlock(), after unassignHolder() *)
  | MWaitIn (sec : list (A → A)) (* wait(), after UnassignGuard *)
  | MWaiting                     (* in pthread_cond_wait, without the mutex *)
  | MWoken                       (* in pthread_cond_wait, wants the mutex back *)
  | MRelocked.                   (* pthread_cond_wait returned *)

Record MutexLock := {
  mutex_ : option nat;           (* who has the pthread mutex *)
  holder_ : Z;
  data : A;
  threads : list mutex_pc;
  sections : list (nat * list (A → A))
}.

Definition mutex_start (d : A) (n : nat) : MutexLock :=
  {| mutex_ := None; holder_ := 0; data := d; threads := replicate n MOutside;
     sections := [] |}.

Definition isLockedByThisThread (t : Z) (s : MutexLock) : bool := holder_ s =? t.

Definition move (s : MutexLock) (m : option nat) (h : Z) (i : nat) (c : mutex_pc) : MutexLock :=
  {| mutex_ := m; holder_ := h; data := data s; threads := <[i:=c]> (threads s);
     sections := sections s |}.
Definition gives_back (s : MutexLock) (i : nat) (sec : list (A → A)) (c : mutex_pc) : MutexLock :=
  {| mutex_ := None; holder_ := holder_ s; data := data s; threads := <[i:=c]> (threads s);
     sections := sections s ++ [(i, sec)] |}.

Inductive mutex_step (s : MutexLock) : MutexLock → Prop :=
  | lock_takes i :
      threads s !! i = Some MOutside → mutex_ s = None →
      mutex_step s (move s (Some i) (holder_ s) i MLocked)
  | lock_assigns i :
      threads s !! i = Some MLocked →
      mutex_step s (move s (mutex_ s) (tid i) i (MInside []))
  | section_works i sec f :
      threads s !! i = Some (MInside sec) →
      mutex_step s {| mutex_ := mutex_ s; holder_ := holder_ s; data := f (data s);
                      threads := <[i:=MInside (sec ++ [f])]> (threads s);
                      sections := sections s |}
  | unlock_unassigns i sec :
      threads s !! i = Some (MInside sec) →
      mutex_step s (move s (mutex_ s) 0 i (MLeaving sec))
  | unlock_releases i sec :
      threads s !! i = Some (MLeaving sec) → mutex_step s (gives_back s i sec MOutside)
  | wait_unassigns i sec :
      threads s !! i = Some (MInside sec) →
      mutex_step s (move s (mutex_ s) 0 i (MWaitIn sec))
  | wait_releases i sec :
      threads s !! i = Some (MWaitIn sec) → mutex_step s (gives_back s i sec MWaiting)
  | wait_wakes i :
      threads s !! i = Some MWaiting →
      mutex_step s (move s (mutex_ s) (holder_ s) i MWoken)
  | wait_retakes i :
      threads s !! i = Some MWoken → mutex_ s = None →
      mutex_step s (move s (Some i) (holder_ s) i MRelocked)
  | wait_reassigns i :
      threads s !! i = Some MRelocked →
      mutex_step s (move s (mutex_ s) (tid i) i (MInside [])).

(** ** The invariant *)

Definition has_mutex (c : mutex_pc) : bool :=
  match c with MOutside | MWaiting | MWoken => false | _ => true end.
Definition inside (c : mutex_pc) : bool := match c with MInside _ => true | _ => false end.
(** What the open section of a thread has done so far. *)
Definition open_section (c : mutex_pc) : list (A → A) :=
  match c with MInside sec | MLeaving sec | MWaitIn sec => sec | _ => [] end.

(** The functions applied in order. *)
Definition apply_all (fs : list (A → A)) (d : A) : A := foldl (λ d f, f d) d fs.

Definition whole_sections (s : MutexLock) : list (A → A) := concat ((sections s).*2).

Definition mutex_ok (d : A) (s : MutexLock) : Prop :=
  (∀ i c, threads s !! i = Some c → has_mutex c = true → mutex_ s = Some i) ∧
  match mutex_ s with
  | None => holder_ s = 0 ∧ data s = apply_all (whole_sections s) d
  | Some i => ∃ c, threads s !! i = Some c ∧ has_mutex c = true ∧
      holder_ s = (if inside c then tid i else 0) ∧
      data s = apply_all (whole_sections s ++ open_section c) d
  end.

Lemma apply_all_app fs gs d : apply_all (fs ++ gs) d = apply_all gs (apply_all fs d).
Proof. apply foldl_app. Qed.

(** The thread that has the mutex is the one of the invariant. *)
Lemma mutex_ok_owner d s i c :
  mutex_ok d s → threads s !! i = Some c → has_mutex c = true →
  mutex_ s = Some i ∧ holder_ s = (if inside c then tid i else 0) ∧
  data s = apply_all (whole_sections s ++ open_section c) d.
Proof.
  intros [Hex Hm] Hi Hc. pose proof (Hex i c Hi Hc) as E. rewrite E in Hm.
  destruct Hm as (c' & Hi' & _ & ? & ?). by simplify_eq.
Qed.

(** A step of the owner that keeps the mutex. *)
Lemma mutex_ok_keeps d s s' i c :
  (∀ j c', threads s !! j = Some c' → has_mutex c' = true → j = i) →
  (i < length (threads s))%nat → has_mutex c = true →
  threads s' = <[i:=c]> (threads s) → mutex_ s' = Some i →
  holder_ s' = (if inside c then tid i else 0) →
  data s' = apply_all (whole_sections s' ++ open_section c) d → mutex_ok d s'.
Proof.
  intros Hex Hi Hc Ht Hm Hh Hd. unfold mutex_ok. rewrite Ht, Hm. split.
  - intros j c' Hj Hc'. destruct (decide (j = i)) as [->|Hji]; [done|].
    rewrite list_lookup_insert_ne in Hj by done. f_equal. symmetry. by eapply Hex.
  - exists c. by rewrite list_lookup_insert_eq.
Qed.

(** A step of a thread that does not have the mutex afterwards. *)
Lemma mutex_ok_leaves d s s' i c :
  (∀ j c', threads s !! j = Some c' → has_mutex c' = true → j ≠ i → mutex_ s' = Some j) →
  has_mutex c = false → threads s' = <[i:=c]> (threads s) →
  match mutex_ s' with
  | None => holder_ s' = 0 ∧ data s' = apply_all (whole_sections s') d
  | Some j => j ≠ i ∧ ∃ c, threads s !! j = Some c ∧ has_mutex c = true ∧
      holder_ s' = (if inside c then tid j else 0) ∧
      data s' = apply_all (whole_sections s' ++ open_section c) d
  end → mutex_ok d s'.
Proof.
  intros Hex Hc Ht Hm. unfold mutex_ok. rewrite Ht. split.
  - intros j c' Hj Hc'. destruct (decide (j = i)) as [->|Hji].
    + destruct (decide (i < length (threads s))%nat);
        [rewrite list_lookup_insert_eq in Hj by done; congruence|].
      rewrite list_insert_ge in Hj by lia. apply lookup_lt_Some in Hj. lia.
    + rewrite list_lookup_insert_ne in Hj by done. by eapply Hex.
  - destruct (mutex_ s') as [j|]; [|done]. destruct Hm as (Hji & c' & Hj & ?).
    exists c'. by rewrite list_lookup_insert_ne.
Qed.

Lemma whole_gives_back s i sec c :
  whole_sections (gives_back s i sec c) = whole_sections s ++ sec.
Proof.
  unfold whole_sections. cbn. rewrite fmap_app, concat_app. cbn. by rewrite app_nil_r.
Qed.

Lemma mutex_step_ok d s s' : mutex_ok d s → mutex_step s s' → mutex_ok d s'.
Proof.
  intros Hok Hs. pose proof Hok as [Hex Hm].
  assert (∀ i c, threads s !! i = Some c → has_mutex c = true →
    ∀ j c', threads s !! j = Some c' → has_mutex c' = true → j = i) as Huniq.
  { intros i c Hi Hc j c' Hj Hc'. pose proof (Hex i c Hi Hc). pose proof (Hex j c' Hj Hc').
    congruence. }
  destruct Hs as [i Hi Hn|i Hi|i sec f Hi|i sec Hi|i sec Hi|i sec Hi|i sec Hi|i Hi|i Hi Hn|i Hi];
    pose proof (lookup_lt_Some _ _ _ Hi) as Hlt;
    try (destruct (mutex_ok_owner d s i _ Hok Hi eq_refl) as (Hmi & Hh & Hd);
         specialize (Huniq i _ Hi eq_refl)).
  - rewrite Hn in Hm. destruct Hm as [Hh Hd]. eapply (mutex_ok_keeps d s _ i MLocked); try done.
    + intros j c' Hj Hc'. specialize (Hex j c' Hj Hc'). congruence.
    + cbn. by rewrite app_nil_r.
  - by eapply (mutex_ok_keeps d s _ i (MInside [])).
  - eapply (mutex_ok_keeps d s _ i (MInside (sec ++ [f]))); try done.
    cbn [data open_section]. rewrite app_assoc, apply_all_app, Hd. done.
  - by eapply (mutex_ok_keeps d s _ i (MLeaving sec)).
  - eapply (mutex_ok_leaves d s _ i MOutside); try done.
    + intros j c' Hj Hc' Hji. by destruct Hji; eapply Huniq.
    + rewrite whole_gives_back. by split.
  - by eapply (mutex_ok_keeps d s _ i (MWaitIn sec)).
  - eapply (mutex_ok_leaves d s _ i MWaiting); try done.
    + intros j c' Hj Hc' Hji. by destruct Hji; eapply Huniq.
    + rewrite whole_gives_back. by split.
  - eapply (mutex_ok_leaves d s _ i MWoken); try done; [by eauto|]. cbn.
    destruct (mutex_ s) as [j|]; [|done]. destruct Hm as (c & Hj & Hc & Hrest).
    split; [|by exists c]. intros ->. simplify_eq.
  - rewrite Hn in Hm. destruct Hm as [Hh Hd]. eapply (mutex_ok_keeps d s _ i MRelocked); try done.
    + intros j c' Hj Hc'. specialize (Hex j c' Hj Hc'). congruence.
    + cbn. by rewrite app_nil_r.
  - by eapply (mutex_ok_keeps d s _ i (MInside [])).
Qed.

Lemma mutex_reach_ok d n s : rtc mutex_step (mutex_start d n) s → mutex_ok d s.
Proof.
  intros Hr. assert (mutex_ok d (mutex_start d n)) as Hok.
  { split; [|done]. cbn. intros i c Hi%lookup_replicate. by destruct Hi as [-> _]. }
  induction Hr as [|s0 s1 s2 Hs _ IH]; [done|]. eauto using mutex_step_ok.
Qed.

(** ** What it gives *)

(** In every run at most one thread is in its critical section, and the data are
    what the completed sections made of them, each of one thread and without
    interruption, followed by the open section. *)
Lemma sections_are_atomic d n s :
  rtc mutex_step (mutex_start d n) s →
  (∀ i j c c', threads s !! i = Some c → threads s !! j = Some c' →
     inside c = true → inside c' = true → i = j) ∧
  (mutex_ s = None → data s = apply_all (concat ((sections s).*2)) d) ∧
  (∀ i sec, threads s !! i = Some (MInside sec) →
     data s = apply_all (concat ((sections s).*2) ++ sec) d).
Proof.
  intros Hr. pose proof (mutex_reach_ok d n s Hr) as Hok. pose proof Hok as [Hex Hm].
  split_and!.
  - intros i j c c' Hi Hj Hc Hc'. destruct c, c'; try done.
    pose proof (Hex i _ Hi eq_refl). pose proof (Hex j _ Hj eq_refl). congruence.
  - intros E. rewrite E in Hm. apply Hm.
  - intros i sec Hi. by destruct (mutex_ok_owner d s i _ Hok Hi eq_refl) as (_ & _ & ?).
Qed.

(** [isLockedByThisThread] is true for a thread inside its critical section and
    for no other, though [holder_] is read without the mutex; and the assertion
    of the destructor holds when every thread is outside. *)
Lemma holder_is_exact d n s :
  (∀ i, 0 < tid i) → (∀ i j, tid i = tid j → i = j) →
  rtc mutex_step (mutex_start d n) s →
  (∀ i c, threads s !! i = Some c → isLockedByThisThread (tid i) s = inside c) ∧
  (Forall (λ c, c = MOutside) (threads s) → holder_ s = 0).
Proof.
  intros Hpos Hinj Hr. pose proof (mutex_reach_ok d n s Hr) as [Hex Hm]. split.
  - intros i c Hi. unfold isLockedByThisThread. specialize (Hpos i).
    destruct (mutex_ s) as [j|] eqn:E.
    + destruct Hm as (c' & Hj & Hc' & -> & _). destruct (decide (j = i)) as [->|Hji].
      * assert (c' = c) as -> by congruence. destruct (inside c); [by apply Z.eqb_eq|apply Z.eqb_neq; lia].
      * assert (inside c = false) as ->.
        { destruct c; try done. by destruct Hji; specialize (Hex i _ Hi eq_refl); simplify_eq. }
        apply Z.eqb_neq. destruct (inside c'); [|lia]. by intros ?%Hinj.
    + destruct Hm as [-> _]. assert (inside c = false) as ->; [|apply Z.eqb_neq; lia].
      destruct c; try done. by specialize (Hex i _ Hi eq_refl).
  - intros Hall. destruct (mutex_ s) as [j|]; [|apply Hm].
    destruct Hm as (c & Hj & Hc & _). rewrite Forall_lookup in Hall.
    by rewrite (Hall j c Hj) in Hc.
Qed.
End mutex.

(** ** The deadline of waitForSeconds *)

Definition kNanoSecondsPerSecond : Z := 1000000000.

Definition deadline (tv_sec tv_nsec nanoseconds : Z) : outcome (Z * Z) :=
  total ← long_ (tv_nsec + nanoseconds);
  sec ← long_ (tv_sec + Z.quot total kNanoSecondsPerSecond);
  mret (sec, Z.rem total kNanoSecondsPerSecond).

(** The deadline it waits for, from the answer of [clock_gettime]. *)
Definition waitForSeconds (tv_sec tv_nsec : Z) (seconds : double) : outcome (Z * Z) :=
  nanoseconds ← double_to_long (dmul seconds (double_of_Z kNanoSecondsPerSecond));
  deadline tv_sec tv_nsec nanoseconds.

(** It is the given time later, with a fraction in range; for a negative time
    the fraction can be negative, which the system refuses. *)
Lemma deadline_later tv_sec tv_nsec ns :
  0 ≤ tv_sec ≤ 2 ^ 40 → 0 ≤ tv_nsec < kNanoSecondsPerSecond → 0 ≤ ns ≤ 2 ^ 62 →
  ∃ s f, deadline tv_sec tv_nsec ns = Ret (s, f) ∧ 0 ≤ f < kNanoSecondsPerSecond ∧
    s * kNanoSecondsPerSecond + f = tv_sec * kNanoSecondsPerSecond + tv_nsec + ns.
Proof.
  intros Hs Hn Hd. unfold deadline, kNanoSecondsPerSecond in *.
  pose proof (Z.quot_rem' (tv_nsec + ns) 1000000000) as E.
  pose proof (Z.rem_bound_pos (tv_nsec + ns) 1000000000 ltac:(lia) ltac:(lia)) as Hb.
  pose proof (Z.quot_pos (tv_nsec + ns) 1000000000 ltac:(lia) ltac:(lia)) as Hq.
  rewrite long_bind by (unfold in_long, LONG_MIN, LONG_MAX; lia).
  rewrite long_bind by (unfold in_long, LONG_MIN, LONG_MAX; lia).
  eexists _, _. split; [done|]. lia.
Qed.

(** A wait for a whole number of seconds, as [AsyncLogging] does, is exact. *)
Lemma wait_whole_seconds tv_sec tv_nsec n :
  0 ≤ tv_sec ≤ 2 ^ 40 → 0 ≤ tv_nsec < kNanoSecondsPerSecond → 0 ≤ n ≤ 9000000 →
  waitForSeconds tv_sec tv_nsec (double_of_Z n) = Ret (tv_sec + n, tv_nsec).
Proof.
  intros Hs Hn Hd. unfold waitForSeconds.
  rewrite (double_to_long_integer _ (n * kNanoSecondsPerSecond)).
  - rewrite Ret_bind.
    destruct (deadline_later tv_sec tv_nsec (n * kNanoSecondsPerSecond)) as (s & f & -> & Hf & E);
      unfold kNanoSecondsPerSecond in *; [lia..|]. repeat f_equal; lia.
  - apply dmul_integer; try apply double_of_Z_integer; unfold kNanoSecondsPerSecond; lia.
  - unfold in_long, LONG_MIN, LONG_MAX, kNanoSecondsPerSecond. lia.
Qed.

Lemma deadline_negative : deadline 1000 0 (-500000000) = Ret (1000, -500000000).
Proof. reflexivity. Qed.
