(* ===== verification/Monitor.v ===== *)
(** Threads that share a mutex and condition variables, for the queues and the
    thread pool of the C++ logging library: [notify] is [pthread_cond_signal]
    ([src/src/log/muduo-clog/muduo/base/Condition.h]), [notify_all] is
    [pthread_cond_broadcast], and [tally] adds up a weight over the threads, with
    which the invariants count how many wait and how many are awake. *)

From S2P Require Import Prelude.

Open Scope Z_scope.

(** ** Weights *)

Section tally.
Context {A : Type} (w : A → Z).
Definition tally (l : list A) : Z := foldr (λ x n, w x + n) 0 l.

Lemma tally_app l k : tally (l ++ k) = tally l + tally k.
Proof. unfold tally. induction l as [|x l IH]; cbn; lia. Qed.

Lemma tally_perm l k : l ≡ₚ k → tally l = tally k.
Proof. unfold tally. induction 1; simpl; lia. Qed.

Lemma insert_perm (l : list A) i x y : l !! i = Some x → <[i:=y]> l ≡ₚ y :: delete i l.
Proof.
  intros Hi. apply lookup_lt_Some in Hi.
  rewrite insert_take_drop, delete_take_drop by done. by rewrite Permutation_middle.
Qed.

Lemma tally_insert (l : list A) i x y :
  l !! i = Some x → tally (<[i:=y]> l) = tally l - w x + w y.
Proof.
  intros Hi. rewrite (tally_perm _ _ (insert_perm l i x y Hi)).
  rewrite (tally_perm _ _ (delete_Permutation l i x Hi)). cbn. lia.
Qed.

Lemma tally_nonneg (l : list A) : (∀ x, 0 ≤ w x) → 0 ≤ tally l.
Proof. intros Hw. induction l as [|x l IH]; cbn; [lia|]. specialize (Hw x). fold (tally l). lia. Qed.

Lemma tally_zero (l : list A) x : (∀ x, 0 ≤ w x) → tally l = 0 → x ∈ l → w x = 0.
Proof.
  intros Hw Ht Hx. apply list_elem_of_lookup in Hx as [i Hi].
  rewrite (tally_perm _ _ (delete_Permutation l i x Hi)) in Ht. cbn in Ht.
  pose proof (tally_nonneg (delete i l) Hw). specialize (Hw x). fold (tally (delete i l)) in Ht. lia.
Qed.

Lemma tally_at (l : list A) i x : (∀ x, 0 ≤ w x) → l !! i = Some x → w x ≤ tally l.
Proof.
  intros Hw Hi. rewrite (tally_perm _ _ (delete_Permutation l i x Hi)). cbn.
  pose proof (tally_nonneg (delete i l) Hw). fold (tally (delete i l)). lia.
Qed.

Lemma tally_in (l : list A) x : (∀ x, 0 ≤ w x) → x ∈ l → 0 < w x → 0 < tally l.
Proof.
  intros Hw Hx H0. apply list_elem_of_lookup in Hx as [i Hi].
  pose proof (tally_at l i x Hw Hi). lia.
Qed.

Lemma tally_pos (l : list A) : 0 < tally l → ∃ i x, l !! i = Some x ∧ 0 < w x.
Proof.
  induction l as [|x l IH]; cbn; [lia|]. intros H.
  destruct (decide (0 < w x)) as [Hx|Hx]; [by exists 0%nat, x|].
  fold (tally l) in H. destruct IH as (i & y & Hi & Hy); [lia|].
  by exists (S i), y.
Qed.
End tally.

(** ** What the threads hold *)

Section holds.
Context {A B : Type} (f : A → option B).

Lemma omap_perm (l k : list A) : l ≡ₚ k → omap f l ≡ₚ omap f k.
Proof.
  induction 1 as [|x l k _ IH|x y l|l k m _ IH1 _ IH2]; cbn; [done|..].
  - destruct (f x); [by constructor|done].
  - destruct (f x), (f y); try done. constructor.
  - by rewrite IH1.
Qed.

Lemma omap_insert_perm (l : list A) i x y :
  l !! i = Some x →
  option_list (f x) ++ omap f (<[i:=y]> l) ≡ₚ option_list (f y) ++ omap f l.
Proof.
  intros Hi. rewrite (omap_perm _ _ (insert_perm l i x y Hi)).
  rewrite (omap_perm _ _ (delete_Permutation l i x Hi)). cbn.
  destruct (f x), (f y); cbn; try done. constructor.
Qed.

Lemma omap_insert_same (l : list A) i x y :
  l !! i = Some x → f x = f y → omap f (<[i:=y]> l) ≡ₚ omap f l.
Proof.
  intros Hi Hf. pose proof (omap_insert_perm l i x y Hi) as Hp. rewrite Hf in Hp.
  by apply Permutation_app_inv_l in Hp.
Qed.
End holds.

Lemma insert_everywhere {A} (P : nat → A → Prop) (l : list A) i x :
  (i < length l)%nat → (∀ j y, l !! j = Some y → P j y) → P i x →
  ∀ j y, <[i:=x]> l !! j = Some y → P j y.
Proof.
  intros Hi Hl Hx j y Hj. destruct (decide (i = j)) as [->|Hne].
  - rewrite list_lookup_insert_eq in Hj by done. by injection Hj as <-.
  - rewrite list_lookup_insert_ne in Hj by done. by apply Hl.
Qed.

(** ** Notification *)

Section notify.
Context {C : Type}.

(** [pthread_cond_signal]: one of the threads that [wake] applies to, if any. *)
Inductive notify (wake : C → option C) (cs : list C) : list C → Prop :=
  | notify_one j c c' :
      cs !! j = Some c → wake c = Some c' → notify wake cs (<[j:=c']> cs)
  | notify_none : Forall (λ c, wake c = None) cs → notify wake cs cs.

(** [pthread_cond_broadcast]: all of them. *)
Definition notify_all (wake : C → option C) (cs : list C) : list C :=
  (λ c, default c (wake c)) <$> cs.

(** What a notification does to the weights: it moves one thread of the kind it
    wakes, if there is one. *)
Lemma notify_weights wake cs cs' (ready waiting : C → Z) :
  (∀ c c', wake c = Some c' → waiting c = 1 ∧ ready c = 0 ∧ waiting c' = 0 ∧ ready c' = 1) →
  (∀ c, wake c = None → waiting c = 0) →
  notify wake cs cs' →
  tally ready cs' + tally waiting cs' = tally ready cs + tally waiting cs ∧
  tally ready cs' = tally ready cs + (if decide (0 < tally waiting cs) then 1 else 0).
Proof.
  intros Hw Hn [j c c' Hj Hc|Hall].
  - destruct (Hw c c' Hc) as (H1 & H2 & H3 & H4).
    rewrite !(tally_insert _ _ _ _ _ Hj), H1, H2, H3, H4.
    assert (0 < tally waiting cs); [|rewrite decide_True by done; lia].
    rewrite (tally_perm _ _ _ (delete_Permutation cs j c Hj)). cbn. rewrite H1.
    pose proof (tally_nonneg waiting (delete j cs)) as Hpos. fold (tally waiting (delete j cs)).
    enough (0 ≤ tally waiting (delete j cs)) by lia. apply Hpos. intros x.
    destruct (wake x) as [x'|] eqn:E; [destruct (Hw x x' E); lia|rewrite Hn; [lia|done]].
  - assert (tally waiting cs = 0) as ->; [|rewrite decide_False by lia; lia].
    induction Hall as [|c l Hc _ IH]; cbn; [done|]. fold (tally waiting l). rewrite IH, Hn by done. lia.
Qed.

(** A notification leaves the other threads alone. *)
Lemma notify_other wake cs cs' (w : C → Z) :
  (∀ c c', wake c = Some c' → w c = w c') → notify wake cs cs' → tally w cs' = tally w cs.
Proof.
  intros Hw [j c c' Hj Hc|_]; [|done]. rewrite (tally_insert _ _ _ _ _ Hj), (Hw c c' Hc). lia.
Qed.

(** It takes nothing away from them either. *)
Lemma notify_holds {B} (f : C → option B) wake cs cs' :
  (∀ c c', wake c = Some c' → f c = f c') → notify wake cs cs' → omap f cs' ≡ₚ omap f cs.
Proof. intros Hf [j c c' Hj Hc|_]; [|done]. by apply (omap_insert_same f cs j c c' Hj), Hf. Qed.

Lemma notify_exists wake cs : ∃ cs', notify wake cs cs'.
Proof.
  destruct (decide (Exists (λ c, is_Some (wake c)) cs)) as [He|He].
  - apply Exists_exists in He as (c & Hc & c' & Hw).
    apply list_elem_of_lookup in Hc as [j Hj]. exists (<[j:=c']> cs). by econstructor.
  - exists cs. constructor. rewrite <- Forall_Exists_neg in He.
    eapply Forall_impl; [exact He|]. intros c Hc. by apply eq_None_not_Some.
Qed.

(** Where a notification leaves a thread. *)
Lemma notify_lookup wake cs cs' i c' :
  notify wake cs cs' → cs' !! i = Some c' →
  cs !! i = Some c' ∨ ∃ c, cs !! i = Some c ∧ wake c = Some c'.
Proof.
  intros [j c d Hj Hc|_] Hi; [|by left]. destruct (decide (i = j)) as [->|Hne].
  - rewrite list_lookup_insert_eq in Hi by by eapply lookup_lt_Some.
    injection Hi as <-. right. eauto.
  - left. by rewrite list_lookup_insert_ne in Hi.
Qed.

Lemma notify_length wake cs cs' : notify wake cs cs' → length cs' = length cs.
Proof. intros [j c d _ _|_]; [by rewrite length_insert|done]. Qed.

Lemma notify_at {B} (f : C → B) wake cs cs' i :
  (∀ c c', wake c = Some c' → f c = f c') → notify wake cs cs' → f <$> cs' !! i = f <$> cs !! i.
Proof.
  intros Hf [j c c' Hj Hc|_]; [|done]. destruct (decide (i = j)) as [->|Hne].
  - rewrite list_lookup_insert_eq, Hj by by eapply lookup_lt_Some. cbn. f_equal. symmetry. by apply Hf.
  - by rewrite list_lookup_insert_ne.
Qed.
End notify.
