(* ===== verification/BlockingQueue.v ===== *)
(** The blocking queues of the C++ logging library:
    [src/src/log/muduo-clog/muduo/base/BlockingQueue.h] and
    [BoundedBlockingQueue.h].

    A client is one call of [put] or [take]. Its critical sections are atomic
    ([MutexLockGuard]): the test of the loop and what follows it, up to the end
    or to the wait, which gives the mutex back. [notify] wakes one waiting
    client, whichever the system chooses; a woken client tests again. The
    capacity is [None] for [BlockingQueue], whose [put] never waits and whose
    [take] notifies nobody (no client waits there). Spurious wake-ups are steps
    of their own, so that the invariant covers them and the liveness theorem can
    leave them out. *)

From S2P Require Import Prelude Monitor.
From stdpp Require Import relations.

Open Scope Z_scope.

Section queue.
Context {T : Type} (capacity : option nat).

(** ** Clients and steps *)

Inductive client :=
  | PutReady (x : T)        (* about to test queue_.full() *)
  | PutWaiting (x : T)      (* in notFull_.wait() *)
  | PutDone
  | TakeReady               (* about to test queue_.empty() *)
  | TakeWaiting             (* in notEmpty_.wait() *)
  | TakeDone (x : T).

(** [queue_] and the calls; [puts] and [takes] record the values in the order
    the calls stored and returned them. *)
Record queue_state := {
  queue_ : list T;
  clients : list client;
  puts : list T;
  takes : list T
}.

Definition full (q : list T) : Prop :=
  match capacity with Some n => (n ≤ length q)%nat | None => False end.
#[global] Instance full_dec q : Decision (full q).
Proof. unfold full. destruct capacity; apply _. Defined.

Definition wake_put (c : client) : option client :=
  match c with PutWaiting x => Some (PutReady x) | _ => None end.
Definition wake_take (c : client) : option client :=
  match c with TakeWaiting => Some TakeReady | _ => None end.

Definition with_clients (s : queue_state) (cs : list client) : queue_state :=
  {| queue_ := queue_ s; clients := cs; puts := puts s; takes := takes s |}.

Inductive queue_step (s : queue_state) : queue_state → Prop :=
  | put_waits i x :
      clients s !! i = Some (PutReady x) → full (queue_ s) →
      queue_step s (with_clients s (<[i:=PutWaiting x]> (clients s)))
  | put_stores i x cs :
      clients s !! i = Some (PutReady x) → ¬ full (queue_ s) →
      notify wake_take (<[i:=PutDone]> (clients s)) cs →
      queue_step s {| queue_ := queue_ s ++ [x]; clients := cs; puts := puts s ++ [x];
                      takes := takes s |}
  | take_waits i :
      clients s !! i = Some TakeReady → queue_ s = [] →
      queue_step s (with_clients s (<[i:=TakeWaiting]> (clients s)))
  | take_returns i x q cs :
      clients s !! i = Some TakeReady → queue_ s = x :: q →
      notify wake_put (<[i:=TakeDone x]> (clients s)) cs →
      queue_step s {| queue_ := q; clients := cs; puts := puts s; takes := takes s ++ [x] |}.

(** A client that leaves its wait without a notification. *)
Inductive spurious (s : queue_state) : queue_state → Prop :=
  | wakes i c c' :
      clients s !! i = Some c → wake_put c = Some c' ∨ wake_take c = Some c' →
      spurious s (with_clients s (<[i:=c']> (clients s))).

Definition any_step (s s' : queue_state) : Prop := queue_step s s' ∨ spurious s s'.

(** An empty queue, calls of [put] with the values [xs] and [n] calls of [take]. *)
Definition queue_start (xs : list T) (n : nat) : queue_state :=
  {| queue_ := []; clients := (PutReady <$> xs) ++ replicate n TakeReady;
     puts := []; takes := [] |}.

(** ** The invariant *)

Definition put_ready (c : client) : Z := match c with PutReady _ => 1 | _ => 0 end.
Definition put_waiting (c : client) : Z := match c with PutWaiting _ => 1 | _ => 0 end.
Definition take_ready (c : client) : Z := match c with TakeReady => 1 | _ => 0 end.
Definition take_waiting (c : client) : Z := match c with TakeWaiting => 1 | _ => 0 end.

(** The value a [put] has still to store. *)
Definition put_value (c : client) : option T :=
  match c with PutReady x | PutWaiting x => Some x | _ => None end.

(** Values come out in the order they went in; the capacity is kept; and a
    client only waits while every value (or free place) has somebody awake who
    will get it. *)
Definition queue_ok (xs : list T) (n : nat) (s : queue_state) : Prop :=
  let cs := clients s in
  puts s = takes s ++ queue_ s ∧
  omap put_value cs ++ puts s ≡ₚ xs ∧
  tally take_ready cs + tally take_waiting cs + Z.of_nat (length (takes s)) = Z.of_nat n ∧
  (0 < tally take_waiting cs → Z.of_nat (length (queue_ s)) ≤ tally take_ready cs) ∧
  match capacity with
  | Some m =>
      (length (queue_ s) ≤ m)%nat ∧
      (0 < tally put_waiting cs →
         Z.of_nat m - Z.of_nat (length (queue_ s)) ≤ tally put_ready cs)
  | None => tally put_waiting cs = 0
  end.

(** The weights of both kinds of notification. *)
Lemma notify_take_ok cs cs' :
  notify wake_take cs cs' →
  tally take_ready cs' + tally take_waiting cs' = tally take_ready cs + tally take_waiting cs ∧
  tally take_ready cs' =
    tally take_ready cs + (if decide (0 < tally take_waiting cs) then 1 else 0) ∧
  tally put_ready cs' = tally put_ready cs ∧ tally put_waiting cs' = tally put_waiting cs ∧
  omap put_value cs' ≡ₚ omap put_value cs.
Proof.
  intros Hn.
  destruct (notify_weights wake_take cs cs' take_ready take_waiting) as [H1 H2];
    [by intros [] c' [= <-]|by intros []|done|].
  split_and!; [done|done|..]; [eapply notify_other|eapply notify_other|eapply notify_holds];
    try exact Hn; by intros [] c' [= <-].
Qed.

Lemma notify_put_ok cs cs' :
  notify wake_put cs cs' →
  tally put_ready cs' + tally put_waiting cs' = tally put_ready cs + tally put_waiting cs ∧
  tally put_ready cs' =
    tally put_ready cs + (if decide (0 < tally put_waiting cs) then 1 else 0) ∧
  tally take_ready cs' = tally take_ready cs ∧ tally take_waiting cs' = tally take_waiting cs ∧
  omap put_value cs' ≡ₚ omap put_value cs.
Proof.
  intros Hn.
  destruct (notify_weights wake_put cs cs' put_ready put_waiting) as [H1 H2];
    [by intros [] c' [= <-]|by intros []|done|].
  split_and!; [done|done|..]; [eapply notify_other|eapply notify_other|eapply notify_holds];
    try exact Hn; by intros [] c' [= <-].
Qed.

Lemma weights_nonneg (c : client) :
  0 ≤ put_ready c ∧ 0 ≤ put_waiting c ∧ 0 ≤ take_ready c ∧ 0 ≤ take_waiting c.
Proof. destruct c; cbn; lia. Qed.

Lemma tallies_nonneg cs :
  0 ≤ tally put_ready cs ∧ 0 ≤ tally put_waiting cs ∧
  0 ≤ tally take_ready cs ∧ 0 ≤ tally take_waiting cs.
Proof. split_and!; apply tally_nonneg; intros c; apply weights_nonneg. Qed.

(** [move Hi] rewrites the weights after client [i] changed its state. *)
Ltac move_client Hi :=
  rewrite !(tally_insert _ _ _ _ _ Hi) in *;
  cbn [put_ready put_waiting take_ready take_waiting] in *.

Lemma step_ok xs n s s' : queue_ok xs n s → queue_step s s' → queue_ok xs n s'.
Proof.
  intros (Hfifo & Hval & Hcount & Htake & Hput) Hs.
  pose proof (tallies_nonneg (clients s)) as Hpos.
  destruct Hs as [i x Hi Hfull|i x cs Hi Hfull Hn|i Hi Hq|i x q cs Hi Hq Hn];
    unfold queue_ok; cbn [clients queue_ puts takes with_clients].
  - pose proof (omap_insert_perm put_value _ i _ (PutWaiting x) Hi) as Hv.
    apply Permutation_app_inv_l in Hv. rewrite Hv.
    pose proof (tallies_nonneg (<[i:=PutWaiting x]> (clients s))) as Hpos'. move_client Hi.
    split_and!; [done|done|lia|intros; lia|]. unfold full in Hfull.
    destruct capacity as [m|]; [|done]. split; [lia|]. lia.
  - apply notify_take_ok in Hn as (Ht1 & Ht2 & Hp1 & Hp2 & Hv).
    pose proof (omap_insert_perm put_value _ i _ PutDone Hi) as Hv'. cbn in Hv'.
    rewrite Hp1, Hp2, Hv.
    pose proof (tallies_nonneg (<[i:=PutDone]> (clients s))) as Hpos'. move_client Hi. split_and!.
    + by rewrite Hfifo, app_assoc.
    + rewrite <- Hval, <- Hv'. cbn. rewrite app_assoc. apply Permutation_app_comm with (l':=[x]).
    + lia.
    + rewrite length_app. cbn. destruct (decide _); lia.
    + unfold full in Hfull. destruct capacity as [m|]; [|lia].
      rewrite length_app. cbn. lia.
  - pose proof (omap_insert_perm put_value _ i _ TakeWaiting Hi) as Hv.
    apply Permutation_app_inv_l in Hv. rewrite Hv.
    pose proof (tallies_nonneg (<[i:=TakeWaiting]> (clients s))) as Hpos'. move_client Hi.
    rewrite Hq in *.
    split_and!; [done|done|lia|cbn; lia|].
    destruct capacity as [m|]; [|lia]. cbn in *. lia.
  - apply notify_put_ok in Hn as (Ht1 & Ht2 & Hp1 & Hp2 & Hv).
    pose proof (omap_insert_perm put_value _ i _ (TakeDone x) Hi) as Hv'. cbn in Hv'.
    rewrite Hp1, Hp2, Hv, Hv'.
    pose proof (tallies_nonneg (<[i:=TakeDone x]> (clients s))) as Hpos'. move_client Hi.
    rewrite Hq in *. cbn in *. split_and!.
    + by rewrite Hfifo, <- app_assoc.
    + done.
    + rewrite length_app. cbn. lia.
    + lia.
    + destruct capacity as [m|]; [|destruct (decide _); lia]. destruct (decide _); lia.
Qed.

Lemma spurious_ok xs n s s' : queue_ok xs n s → spurious s s' → queue_ok xs n s'.
Proof.
  intros (Hfifo & Hval & Hcount & Htake & Hput) [i c c' Hi Hc].
  pose proof (tallies_nonneg (clients s)) as Hpos.
  unfold queue_ok; cbn [clients queue_ puts takes with_clients].
  pose proof (omap_insert_perm put_value _ i _ c' Hi) as Hv.
  pose proof (tallies_nonneg (<[i:=c']> (clients s))) as Hpos'.
  destruct c; destruct Hc as [[= <-]|[= <-]]; cbn in Hv;
    try apply Permutation_cons_inv in Hv; rewrite Hv; move_client Hi;
    (split_and!; [done|done|lia|intros; lia|]); (destruct capacity; [split|]; lia).
Qed.

(** ** Runs *)

Lemma tally_ready_start w (xs : list T) n :
  tally w ((PutReady <$> xs) ++ replicate n TakeReady) =
  tally w (PutReady <$> xs) + Z.of_nat n * w TakeReady.
Proof.
  induction xs as [|x xs IH]; cbn.
  - induction n as [|n IH]; [done|]. cbn [replicate tally foldr]. unfold tally in IH. lia.
  - unfold tally in *. lia.
Qed.

Lemma queue_start_ok xs n : queue_ok xs n (queue_start xs n).
Proof.
  unfold queue_ok, queue_start. cbn [clients queue_ puts takes]. rewrite !tally_ready_start.
  assert (H0 : ∀ w, (∀ x, w (PutReady x) = 0) → tally w (PutReady <$> xs) = 0).
  { intros w Hw. induction xs as [|x xs IH]; cbn; [done|]. rewrite Hw. unfold tally in IH. lia. }
  assert (Hv : omap put_value ((PutReady <$> xs) ++ replicate n TakeReady) = xs).
  { rewrite omap_app. replace (omap put_value (replicate n TakeReady)) with (@nil T)
      by (induction n; done). rewrite app_nil_r. clear H0. induction xs as [|x xs IH]; cbn; [done|].
    by f_equal. }
  rewrite Hv, !(H0 take_ready), !(H0 take_waiting), !(H0 put_waiting) by done.
  cbn. rewrite app_nil_r. split_and!; [done|done|lia|lia|].
  destruct capacity; [split; lia|lia].
Qed.

Lemma any_run_ok xs n s s' : queue_ok xs n s → rtc any_step s s' → queue_ok xs n s'.
Proof.
  intros Hok Hr. induction Hr as [|s s1 s2 [Hs|Hs] _ IH]; [done|..]; apply IH;
    eauto using step_ok, spurious_ok.
Qed.

(** The work left: calls that have not ended, and clients that are awake. *)
Definition pending (c : client) : Z :=
  match c with PutDone | TakeDone _ => 0 | _ => 1 end.
Definition awake (c : client) : Z :=
  match c with PutReady _ | TakeReady => 1 | _ => 0 end.
Definition work (s : queue_state) : Z := tally pending (clients s) + tally awake (clients s).

Lemma notify_work wake cs cs' :
  wake = wake_put ∨ wake = wake_take → notify wake cs cs' →
  tally pending cs' = tally pending cs ∧ tally awake cs' ≤ tally awake cs + 1.
Proof.
  intros Hw [j c c' Hj Hc|_]; [|lia].
  rewrite !(tally_insert _ _ _ _ _ Hj).
  assert (pending c = pending c' ∧ awake c = 0 ∧ awake c' = 1)
    by (destruct Hw as [->| ->]; destruct c; simplify_eq/=; done).
  lia.
Qed.

(** Every step that is not a spurious wake-up uses up work. *)
Lemma step_work s s' : queue_step s s' → work s' < work s.
Proof.
  intros [i x Hi Hf|i x cs Hi Hf Hn|i Hi Hq|i x q cs Hi Hq Hn]; unfold work;
    cbn [clients with_clients].
  1,3: rewrite !(tally_insert _ _ _ _ _ Hi); cbn [pending awake]; lia.
  all: apply notify_work in Hn as [Hp Ha]; [|by auto];
    rewrite !(tally_insert _ _ _ _ _ Hi) in *; cbn [pending awake] in *; lia.
Qed.

Lemma work_nonneg s : 0 ≤ work s.
Proof.
  unfold work. pose proof (tally_nonneg pending (clients s)).
  pose proof (tally_nonneg awake (clients s)).
  assert (0 ≤ tally pending (clients s)) by (apply tally_nonneg; by intros []).
  assert (0 ≤ tally awake (clients s)) by (apply tally_nonneg; by intros []). lia.
Qed.

Lemma run_work n s s' : nsteps queue_step n s s' → Z.of_nat n + work s' ≤ work s.
Proof.
  induction 1 as [s|n s s1 s2 Hs _ IH]; [lia|]. apply step_work in Hs. lia.
Qed.

Lemma work_start xs n : work (queue_start xs n) = 2 * (Z.of_nat (length xs) + Z.of_nat n).
Proof.
  unfold work, queue_start. cbn [clients]. rewrite !tally_ready_start. cbn [pending awake].
  assert (∀ w, (∀ x, w (PutReady x) = 1) → tally w (PutReady <$> xs) = Z.of_nat (length xs)).
  { intros w Hw. induction xs as [|x xs IH]; cbn; [done|]. rewrite Hw.
    unfold tally in IH. lia. }
  rewrite !H by done. lia.
Qed.

(** An awake client can always take a step. *)
Lemma awake_steps s : 0 < tally awake (clients s) → ∃ s', queue_step s s'.
Proof.
  intros Ha. apply tally_pos in Ha as (i & c & Hi & Hc).
  destruct c as [x| | | | |]; cbn in Hc; try lia.
  - destruct (decide (full (queue_ s))); [eexists; by econstructor|].
    destruct (notify_exists wake_take (<[i:=PutDone]> (clients s))) as [cs' Hn].
    eexists. by eapply put_stores.
  - destruct (queue_ s) as [|x q] eqn:Hq; [eexists; by eapply take_waits|].
    destruct (notify_exists wake_put (<[i:=TakeDone x]> (clients s))) as [cs' Hn].
    eexists. by eapply take_returns.
Qed.

Definition done_client (c : client) : Prop :=
  match c with PutDone | TakeDone _ => True | _ => False end.

Lemma values_count cs :
  Z.of_nat (length (omap put_value cs)) = tally put_ready cs + tally put_waiting cs.
Proof.
  induction cs as [|c cs IH]; [done|]. unfold tally in *.
  destruct c; cbn in *; rewrite ?IH; cbn; lia.
Qed.

Lemma all_done cs :
  tally put_ready cs = 0 → tally put_waiting cs = 0 → tally take_ready cs = 0 →
  tally take_waiting cs = 0 → Forall done_client cs.
Proof.
  intros H1 H2 H3 H4. apply Forall_forall. intros c Hc.
  pose proof (λ w Hw H, tally_zero w cs c Hw H Hc) as Hz.
  pose proof (Hz put_ready (λ x, proj1 (weights_nonneg x)) H1).
  pose proof (Hz put_waiting (λ x, proj1 (proj2 (weights_nonneg x))) H2).
  pose proof (Hz take_ready (λ x, proj1 (proj2 (proj2 (weights_nonneg x)))) H3).
  pose proof (Hz take_waiting (λ x, proj2 (proj2 (proj2 (weights_nonneg x)))) H4).
  by destruct c.
Qed.

Lemma awake_count cs : tally awake cs = tally put_ready cs + tally take_ready cs.
Proof. unfold tally. induction cs as [|c cs IH]; [done|]. destruct c; cbn in *; lia. Qed.

(** Where nobody is awake, equally many calls of both kinds have all ended. *)
Lemma quiet_is_done xs s :
  capacity ≠ Some 0%nat → queue_ok xs (length xs) s → tally awake (clients s) = 0 →
  Forall done_client (clients s) ∧ queue_ s = [] ∧ takes s = puts s ∧ takes s ≡ₚ xs.
Proof.
  intros Hcap (Hfifo & Hval & Hcount & Htake & Hput) Ha.
  rewrite awake_count in Ha. pose proof (tallies_nonneg (clients s)) as Hpos.
  pose proof (Permutation_length Hval) as Hlen. rewrite length_app in Hlen.
  pose proof (values_count (clients s)) as Hv.
  pose proof (f_equal length Hfifo) as Hl. rewrite length_app in Hl.
  assert (Hw : tally take_waiting (clients s) = 0).
  { destruct (decide (0 < tally take_waiting (clients s))) as [Hw|]; [|lia].
    specialize (Htake Hw). destruct capacity as [m|]; [|lia].
    destruct Hput as [_ Hput]. assert (m ≠ 0)%nat by congruence.
    destruct (decide (0 < tally put_waiting (clients s))) as [Hp|]; [specialize (Hput Hp)|]; lia. }
  assert (length (queue_ s) = 0)%nat as Hq by lia.
  apply nil_length_inv in Hq. rewrite Hq, app_nil_r in Hfifo.
  assert (length (omap put_value (clients s)) = 0)%nat as Hp by lia.
  apply nil_length_inv in Hp. rewrite Hp in Hval. cbn in Hval.
  split; [apply all_done; lia|]. split; [done|]. split; [done|]. by rewrite <- Hfifo.
Qed.

(** ** Theorems *)

(** C21: The queues at every moment of every run, spurious wake-ups included, for
    any number of calls of [put] and [take]: what was returned, followed by what
    is stored, is what was put, in that order (first in, first out, nothing lost
    or invented); the capacity is never exceeded; and no wake-up is lost: while a
    [take] waits and a value is there, another [take] is awake, and while a [put]
    waits and a place is free, another [put] is awake. *)
Theorem queue_invariant xs n s :
  rtc any_step (queue_start xs n) s →
  puts s = takes s ++ queue_ s ∧
  (∀ m, capacity = Some m → (length (queue_ s) ≤ m)%nat) ∧
  (TakeWaiting ∈ clients s → queue_ s ≠ [] → TakeReady ∈ clients s) ∧
  (∀ x, PutWaiting x ∈ clients s → ¬ full (queue_ s) → ∃ y, PutReady y ∈ clients s).
Proof.
  intros Hr. pose proof (any_run_ok xs n _ _ (queue_start_ok xs n) Hr)
    as (Hfifo & _ & _ & Htake & Hput).
  assert (Hout : ∀ w, 0 < tally w (clients s) → ∃ c, c ∈ clients s ∧ 0 < w c).
  { intros w H0. apply tally_pos in H0 as (i & c & Hi & Hc). exists c.
    split; [by eapply list_elem_of_lookup_2|done]. }
  split; [done|]. split; [|split].
  - intros m Hm. rewrite Hm in Hput. apply Hput.
  - intros Hw Hq. specialize (Htake (tally_in take_waiting _ _ (λ x, proj2 (proj2 (proj2 (weights_nonneg x)))) Hw eq_refl)).
    destruct (Hout take_ready) as (c & Hc & Hp).
    { destruct (queue_ s); [done|]. cbn in Htake. lia. }
    by destruct c.
  - intros x Hw Hf.
    pose proof (tally_in put_waiting _ _ (λ x, proj1 (proj2 (weights_nonneg x))) Hw eq_refl) as Hp.
    unfold full in Hf. destruct capacity as [m|]; [|lia].
    destruct Hput as [_ Hput]. specialize (Hput Hp).
    destruct (Hout put_ready) as (c & Hc & Hc'); [lia|]. destruct c; try done. eauto.
Qed.

(** C10: Liveness. With as many calls of [take] as of [put], and a capacity that
    is not zero, every run without spurious wake-ups, whatever the scheduler and
    [notify] choose, is over after at most four steps per value, and a run that
    cannot go on has ended every call: the queue is empty and the values
    returned are exactly the values put. No call waits for ever. *)
Theorem queue_delivers xs k s :
  capacity ≠ Some 0%nat → nsteps queue_step k (queue_start xs (length xs)) s →
  (k ≤ 4 * length xs)%nat ∧
  ((¬ ∃ s', queue_step s s') →
   Forall done_client (clients s) ∧ queue_ s = [] ∧ takes s = puts s ∧ takes s ≡ₚ xs).
Proof.
  intros Hcap Hk. split.
  - apply run_work in Hk. rewrite work_start in Hk. pose proof (work_nonneg s). lia.
  - intros Hstuck. apply quiet_is_done; [done|..].
    + eapply any_run_ok; [apply queue_start_ok|].
      apply (rtc_subrel queue_step); [by left|]. by eapply rtc_nsteps_2.
    + destruct (decide (0 < tally awake (clients s))) as [Ha|Ha].
      * by apply awake_steps in Ha.
      * assert (0 ≤ tally awake (clients s)) by (apply tally_nonneg; by intros []). lia.
Qed.
End queue.
Arguments queue_state : clear implicits.

(** A bounded queue of one place, with two calls of each kind. *)
Lemma queue_invariant_witness :
  let s := {| queue_ := [1]; clients := [PutDone; PutWaiting 2; TakeReady; TakeReady];
              puts := [1]; takes := [] |} in
  puts s = takes s ++ queue_ s ∧
  (∀ m, Some 1%nat = Some m → (length (queue_ s) ≤ m)%nat) ∧
  (TakeWaiting ∈ clients s → queue_ s ≠ [] → TakeReady ∈ clients s) ∧
  (∀ x, PutWaiting x ∈ clients s → ¬ full (Some 1%nat) (queue_ s) → ∃ y, PutReady y ∈ clients s).
Proof.
  intros s. apply (queue_invariant (Some 1%nat) [1; 2] 2).
  eapply rtc_l; [left; apply (put_stores _ _ 0 1)|]; [done|cbn; lia|apply notify_none; repeat constructor|].
  eapply rtc_l; [left; apply (put_waits _ _ 1 2)|]; [done|cbn; lia|]. apply rtc_refl.
Defined.

Lemma queue_delivers_witness :
  let s := {| queue_ := []; clients := [PutDone; TakeDone 5]; puts := [5]; takes := [5] |} in
  (3 ≤ 4 * 1)%nat ∧
  ((¬ ∃ s', queue_step None s s') →
   Forall done_client (clients s) ∧ queue_ s = [] ∧ takes s = puts s ∧ takes s ≡ₚ [5]).
Proof.
  intros s. apply (queue_delivers None [5] 3 s); [done|].
  eapply nsteps_l; [apply (take_waits _ _ 1); done|].
  eapply nsteps_l; [apply (put_stores _ _ 0 5); [done|cbn; tauto|by eapply (notify_one _ _ 1)]|].
  eapply nsteps_l; [apply (take_returns _ _ 1 5 []); [done|done|apply notify_none; repeat constructor]|].
  apply nsteps_O.
Defined.
