(* ===== verification/Thread.v ===== *)
(** Threads of the C++ logging library:
    [src/src/log/muduo-clog/muduo/base/CountDownLatch.cc] and [Thread.cc].

    A latch has any number of calls of [countDown] and [wait]; critical sections
    are steps and spurious wake-ups steps of their own, as in BlockingQueue.v.
    A [Thread] is its owner, who constructs, starts and then joins or destroys
    it, and the function [runInThread] of the new thread, with the latch of one
    count between them. [pthread_create] may fail; the function the thread runs
    is one step. *)

From stdpp Require Import relations.
From S2P Require Import Prelude Monitor.

Open Scope Z_scope.

(** ** CountDownLatch *)

Inductive latch_client :=
  | DownReady
  | DownDone
  | WaitReady               (* about to test count_ > 0 *)
  | WaitWaiting             (* in condition_.wait() *)
  | WaitDone.

Record latch := { latch_count : Z; latch_clients : list latch_client }.

Definition wake_wait (c : latch_client) : option latch_client :=
  match c with WaitWaiting => Some WaitReady | _ => None end.

Inductive latch_step (s : latch) : latch → Prop :=
  | latch_down i :
      latch_clients s !! i = Some DownReady →
      let cs := <[i:=DownDone]> (latch_clients s) in
      latch_step s {| latch_count := latch_count s - 1;
                      latch_clients := if decide (latch_count s - 1 = 0)
                                       then notify_all wake_wait cs else cs |}
  | latch_blocks i :
      latch_clients s !! i = Some WaitReady → 0 < latch_count s →
      latch_step s {| latch_count := latch_count s;
                      latch_clients := <[i:=WaitWaiting]> (latch_clients s) |}
  | latch_passes i :
      latch_clients s !! i = Some WaitReady → latch_count s ≤ 0 →
      latch_step s {| latch_count := latch_count s;
                      latch_clients := <[i:=WaitDone]> (latch_clients s) |}.

Inductive latch_spurious (s : latch) : latch → Prop :=
  | latch_wakes i :
      latch_clients s !! i = Some WaitWaiting →
      latch_spurious s {| latch_count := latch_count s;
                          latch_clients := <[i:=WaitReady]> (latch_clients s) |}.

Definition latch_start (count : Z) (downs waits : nat) : latch :=
  {| latch_count := count;
     latch_clients := replicate downs DownReady ++ replicate waits WaitReady |}.

Definition down_ready (c : latch_client) : Z := match c with DownReady => 1 | _ => 0 end.
Definition wait_waiting (c : latch_client) : Z := match c with WaitWaiting => 1 | _ => 0 end.
Definition wait_done (c : latch_client) : Z := match c with WaitDone => 1 | _ => 0 end.

(** The count is what the finished calls left of it; nobody waits at zero, and
    nobody passed before. *)
Definition latch_ok (count : Z) (downs : nat) (s : latch) : Prop :=
  latch_count s = count - (Z.of_nat downs - tally down_ready (latch_clients s)) ∧
  (0 < tally wait_waiting (latch_clients s) → 0 < latch_count s) ∧
  (0 < tally wait_done (latch_clients s) → latch_count s ≤ 0).

Lemma latch_nonneg cs :
  0 ≤ tally down_ready cs ∧ 0 ≤ tally wait_waiting cs ∧ 0 ≤ tally wait_done cs.
Proof. split_and!; apply tally_nonneg; by intros []. Qed.

Lemma latch_notify cs :
  tally down_ready (notify_all wake_wait cs) = tally down_ready cs ∧
  tally wait_waiting (notify_all wake_wait cs) = 0 ∧
  tally wait_done (notify_all wake_wait cs) = tally wait_done cs.
Proof.
  induction cs as [|c cs (H1 & H2 & H3)]; [done|]. unfold notify_all, tally in *.
  cbn in *. rewrite H1, H2, H3. by destruct c.
Qed.

Lemma latch_any_ok count downs s s' :
  latch_ok count downs s → latch_step s s' ∨ latch_spurious s s' → latch_ok count downs s'.
Proof.
  intros (Hc & Hw & Hd) Hs. pose proof (latch_nonneg (latch_clients s)) as Hpos.
  destruct Hs as [[i Hi cs|i Hi Hcount|i Hi Hcount]|[i Hi]]; unfold latch_ok;
    cbn [latch_count latch_clients].
  - subst cs. pose proof (latch_nonneg (<[i:=DownDone]> (latch_clients s))) as Hpos'.
    destruct (decide (latch_count s - 1 = 0)) as [E|E].
    + destruct (latch_notify (<[i:=DownDone]> (latch_clients s))) as (-> & -> & ->).
      rewrite !(tally_insert _ _ _ _ _ Hi) in *. cbn [down_ready wait_waiting wait_done] in *.
      split_and!; lia.
    + rewrite !(tally_insert _ _ _ _ _ Hi) in *. cbn [down_ready wait_waiting wait_done] in *.
      split_and!; lia.
  - rewrite !(tally_insert _ _ _ _ _ Hi). cbn [down_ready wait_waiting wait_done].
    split_and!; lia.
  - rewrite !(tally_insert _ _ _ _ _ Hi). cbn [down_ready wait_waiting wait_done].
    split_and!; lia.
  - rewrite !(tally_insert _ _ _ _ _ Hi). cbn [down_ready wait_waiting wait_done].
    split_and!; lia.
Qed.

Lemma latch_tally_start w count downs waits :
  tally w (latch_clients (latch_start count downs waits)) =
  Z.of_nat downs * w DownReady + Z.of_nat waits * w WaitReady.
Proof.
  unfold latch_start, tally. cbn [latch_clients].
  induction downs as [|n IH]; cbn [replicate app foldr]; [|lia].
  induction waits as [|n IH]; cbn [replicate foldr]; lia.
Qed.

Lemma latch_run_ok count downs waits s :
  rtc (λ s s', latch_step s s' ∨ latch_spurious s s') (latch_start count downs waits) s →
  latch_ok count downs s.
Proof.
  assert (latch_ok count downs (latch_start count downs waits)) as Hok.
  { unfold latch_ok. rewrite !latch_tally_start. cbn [latch_count latch_start down_ready wait_waiting wait_done].
    split_and!; lia. }
  revert Hok. generalize (latch_start count downs waits). intros s0 Hok Hr.
  induction Hr as [|s0 s1 s2 Hs _ IH]; [done|]. eauto using latch_any_ok.
Qed.

(** A call of one kind stays one. *)
Definition is_down (c : latch_client) : bool :=
  match c with DownReady | DownDone => true | _ => false end.

Lemma latch_kinds s s' :
  rtc (λ s s', latch_step s s' ∨ latch_spurious s s') s s' →
  is_down <$> latch_clients s' = is_down <$> latch_clients s.
Proof.
  induction 1 as [|s s1 s2 Hs _ IH]; [done|]. rewrite IH.
  assert (Hi : ∀ i c c', latch_clients s !! i = Some c → is_down c = is_down c' →
    is_down <$> <[i:=c']> (latch_clients s) = is_down <$> latch_clients s).
  { intros i c c' Hi Hc. rewrite list_fmap_insert. apply list_insert_id.
    by rewrite list_lookup_fmap, Hi, <- Hc. }
  destruct Hs as [[i Hc cs|i Hc Hcount|i Hc Hcount]|[i Hc]]; cbn [latch_clients];
    try by eapply Hi.
  assert (Hn : ∀ l, is_down <$> notify_all wake_wait l = is_down <$> l).
  { intros l. unfold notify_all. induction l as [|c l IHl]; [done|]. cbn. rewrite IHl. by destruct c. }
  subst cs. case_decide; rewrite ?Hn; by eapply Hi.
Qed.

(** The work left in the calls; the last [countDown] wakes at most every call. *)
Definition wait_left (c : latch_client) : Z :=
  match c with WaitReady => 2 | WaitWaiting => 1 | _ => 0 end.
Definition latch_work (s : latch) : Z :=
  (zlen (latch_clients s) + 1) * tally down_ready (latch_clients s) +
  tally wait_left (latch_clients s).

Lemma latch_work_nonneg s : 0 ≤ latch_work s.
Proof.
  unfold latch_work. pose proof (latch_nonneg (latch_clients s)) as (? & _).
  assert (0 ≤ tally wait_left (latch_clients s)) by (apply tally_nonneg; by intros []).
  unfold zlen. nia.
Qed.

Lemma latch_step_work s s' : latch_step s s' → latch_work s' < latch_work s.
Proof.
  intros Hs. pose proof (latch_nonneg (latch_clients s)) as (? & _). unfold latch_work, zlen.
  destruct Hs as [i Hi cs|i Hi Hcount|i Hi Hcount]; cbn [latch_count latch_clients].
  - assert (Hw : tally wait_left (notify_all wake_wait cs) ≤ tally wait_left cs + zlen cs).
    { clear Hi. unfold zlen. induction cs as [|c cs' IH]; [done|]. unfold notify_all, tally in *. cbn.
      destruct c; cbn in *; lia. }
    assert (length (if decide (latch_count s - 1 = 0) then notify_all wake_wait cs else cs)
            = length (latch_clients s)) as ->.
    { unfold notify_all. subst cs. by case_decide; rewrite ?length_fmap, length_insert. }
    subst cs. unfold zlen in Hw. rewrite length_insert in Hw. case_decide.
    + destruct (latch_notify (<[i:=DownDone]> (latch_clients s))) as (-> & _).
      rewrite !(tally_insert _ _ _ _ _ Hi) in *. cbn in *. lia.
    + rewrite !(tally_insert _ _ _ _ _ Hi) in *. cbn in *. lia.
  - rewrite length_insert, !(tally_insert _ _ _ _ _ Hi). cbn. lia.
  - rewrite length_insert, !(tally_insert _ _ _ _ _ Hi). cbn. lia.
Qed.

(** A call of [wait] has returned only after as many calls of [countDown] as the
    latch counts. *)
Lemma latch_waits count downs waits s :
  rtc (λ s s', latch_step s s' ∨ latch_spurious s s') (latch_start count downs waits) s →
  WaitDone ∈ latch_clients s →
  count ≤ Z.of_nat downs - tally down_ready (latch_clients s).
Proof.
  intros Hr Hin. destruct (latch_run_ok _ _ _ _ Hr) as (Hc & _ & Hd).
  enough (0 < tally wait_done (latch_clients s)) by (specialize (Hd H); lia).
  pose proof (latch_nonneg (latch_clients s)) as Hpos.
  destruct (decide (tally wait_done (latch_clients s) = 0)) as [E|]; [|lia].
  pose proof (tally_zero wait_done _ WaitDone ltac:(by intros []) E Hin). done.
Qed.

(** With enough calls of [countDown], a run that cannot go on has no call of
    [wait] left. *)
Lemma latch_opens count downs waits s :
  rtc (λ s s', latch_step s s' ∨ latch_spurious s s') (latch_start count downs waits) s →
  count ≤ Z.of_nat downs → (¬ ∃ s', latch_step s s') →
  Forall (λ c, c = DownDone ∨ c = WaitDone) (latch_clients s).
Proof.
  intros Hr Hle Hstuck. destruct (latch_run_ok _ _ _ _ Hr) as (Hc & Hw & _).
  assert (Hno : ∀ i c, latch_clients s !! i = Some c → c ≠ DownReady ∧ c ≠ WaitReady).
  { intros i c Hi. split; intros ->; apply Hstuck.
    - eexists. by apply (latch_down _ i).
    - destruct (decide (0 < latch_count s)); eexists;
        [by apply (latch_blocks _ i)|apply (latch_passes _ i); [done|lia]]. }
  assert (Hdown : tally down_ready (latch_clients s) = 0).
  { pose proof (latch_nonneg (latch_clients s)) as Hpos.
    destruct (decide (0 < tally down_ready (latch_clients s))) as [Hp|]; [|lia].
    apply tally_pos in Hp as (i & c & Hi & Hp). destruct c; try done.
    by destruct (Hno i DownReady Hi). }
  apply Forall_forall. intros c Hin. apply list_elem_of_lookup in Hin as [i Hi].
  destruct (Hno i c Hi) as [? ?]. destruct c; try done; [by left| |by right]. exfalso.
  assert (0 < tally wait_waiting (latch_clients s)); [|specialize (Hw H1); lia].
  rewrite (tally_perm _ _ _ (delete_Permutation _ _ _ Hi)). cbn.
  pose proof (latch_nonneg (delete i (latch_clients s))) as (_ & ? & _).
  fold (tally wait_waiting (delete i (latch_clients s))). lia.
Qed.

(** ** Thread *)

Inductive owner_pc :=
  | ONew
  | OTest                   (* start(), about to test the latch *)
  | OWait                   (* in the wait of the latch *)
  | OStarted                (* start() returned *)
  | OJoining                (* in pthread_join *)
  | OJoined
  | ODetached               (* destroyed without a join *)
  | OAborted.               (* a failed pthread_create, or a failed assertion *)

#[export] Instance owner_pc_eq_dec : EqDecision owner_pc.
Proof. solve_decision. Defined.

Inductive runner_pc :=
  | RNone
  | RSetTid                 (* *tid_ = tid() *)
  | RCountDown              (* latch_->countDown() *)
  | RFunc                   (* func_() *)
  | RFinished.

Record Thread := {
  started_ : bool; joined_ : bool; tid_ : Z;
  latch_ : Z;
  owner : owner_pc; runner : runner_pc
}.

Definition Thread_new : Thread :=
  {| started_ := false; joined_ := false; tid_ := 0; latch_ := 1;
     owner := ONew; runner := RNone |}.

Definition set_owner (s : Thread) (o : owner_pc) : Thread :=
  {| started_ := started_ s; joined_ := joined_ s; tid_ := tid_ s; latch_ := latch_ s;
     owner := o; runner := runner s |}.

(** [tid] is what [gettid] gives the new thread. *)
Inductive Thread_step (tid : Z) (s : Thread) : Thread → Prop :=
  | start_creates :
      owner s = ONew → started_ s = false →
      Thread_step tid s {| started_ := true; joined_ := joined_ s; tid_ := tid_ s;
                           latch_ := latch_ s; owner := OTest; runner := RSetTid |}
  | start_fails :
      owner s = ONew → started_ s = false → Thread_step tid s (set_owner s OAborted)
  | start_blocks :
      owner s = OTest → 0 < latch_ s → Thread_step tid s (set_owner s OWait)
  | start_returns :
      owner s = OTest → latch_ s ≤ 0 →
      Thread_step tid s (set_owner s (if decide (0 < tid_ s) then OStarted else OAborted))
  | start_spurious :
      owner s = OWait → Thread_step tid s (set_owner s OTest)
  | runner_sets_tid :
      runner s = RSetTid →
      Thread_step tid s {| started_ := started_ s; joined_ := joined_ s; tid_ := tid;
                           latch_ := latch_ s; owner := owner s; runner := RCountDown |}
  | runner_counts_down :
      runner s = RCountDown →
      Thread_step tid s {| started_ := started_ s; joined_ := joined_ s; tid_ := tid_ s;
                           latch_ := latch_ s - 1;
                           owner := if decide (latch_ s - 1 = 0 ∧ owner s = OWait)
                                    then OTest else owner s;
                           runner := RFunc |}
  | runner_finishes :
      runner s = RFunc →
      Thread_step tid s {| started_ := started_ s; joined_ := joined_ s; tid_ := tid_ s;
                           latch_ := latch_ s; owner := owner s; runner := RFinished |}
  | join_begins :
      owner s = OStarted →
      Thread_step tid s
        {| started_ := started_ s; joined_ := true; tid_ := tid_ s; latch_ := latch_ s;
           owner := if started_ s && negb (joined_ s) then OJoining else OAborted;
           runner := runner s |}
  | join_returns :
      owner s = OJoining → runner s = RFinished → Thread_step tid s (set_owner s OJoined)
  | destroy_detaches :
      owner s = OStarted → started_ s = true → joined_ s = false →
      Thread_step tid s (set_owner s ODetached).

Definition Thread_ok (tid : Z) (s : Thread) : Prop :=
  match runner s with
  | RNone => latch_ s = 1 ∧ tid_ s = 0
  | RSetTid => latch_ s = 1
  | RCountDown => latch_ s = 1 ∧ tid_ s = tid
  | RFunc | RFinished => latch_ s = 0 ∧ tid_ s = tid
  end ∧
  match owner s with
  | ONew => runner s = RNone ∧ started_ s = false ∧ joined_ s = false
  | OTest => started_ s = true ∧ joined_ s = false ∧ runner s ≠ RNone
  | OWait => started_ s = true ∧ joined_ s = false ∧ latch_ s = 1 ∧ runner s ≠ RNone
  | OStarted | ODetached => started_ s = true ∧ joined_ s = false ∧ latch_ s = 0
  | OJoining => joined_ s = true ∧ latch_ s = 0
  | OJoined => runner s = RFinished
  | OAborted => runner s = RNone ∧ started_ s = false
  end.

Lemma Thread_step_ok tid s s' :
  0 < tid → Thread_ok tid s → Thread_step tid s s' → Thread_ok tid s'.
Proof.
  intros Htid [Hr Ho] Hs. unfold Thread_ok. destruct s as [st jo ti la ow ru].
  destruct Hs; cbn in *; simplify_eq/=;
    repeat match goal with
           | x : owner_pc |- _ => destruct x; try done
           | x : runner_pc |- _ => destruct x; try done
           end; simplify_eq/=; repeat case_decide; destruct_and?; simplify_eq/=; try done; try lia;
    split_and?; try done; try lia.
  all: match goal with H : ¬ _ |- _ => by destruct H end.
Qed.

Lemma Thread_reach_ok tid s :
  0 < tid → rtc (Thread_step tid) Thread_new s → Thread_ok tid s.
Proof.
  intros Htid Hr. assert (Thread_ok tid Thread_new) as Hok by (by split).
  induction Hr as [|s0 s1 s2 Hs _ IH]; [done|]. eauto using Thread_step_ok.
Qed.

(** Starting a thread: in every run, when [start] has returned the thread has its
    identifier, no assertion fails (the process is only aborted by a failed
    [pthread_create]), and [join] returns only after the function has ended. *)
Lemma Thread_start_join tid s :
  0 < tid → rtc (Thread_step tid) Thread_new s →
  (owner s = OStarted → tid_ s = tid) ∧
  (owner s = OAborted → started_ s = false) ∧
  (owner s = OJoined → runner s = RFinished).
Proof.
  intros Htid Hr. destruct (Thread_reach_ok tid s Htid Hr) as [H1 H2].
  destruct (owner s); split_and!; intros; try done; destruct_and?; try done.
  destruct (runner s); destruct_and?; simplify_eq/=; try done; lia.
Qed.
