(* ===== verification/CurrentThread.v ===== *)
(** What a thread of the C++ logging library knows of itself: the atomic
    counters of [src/src/log/muduo-clog/muduo/base/Atomic.h], the cached
    identifier and the names of [CurrentThread.h] and [Thread.cc], the end of
    [runInThread] with the exceptions of [Exception.cc], and the objects of
    [ThreadLocal.h].

    The atomic operations of the compiler are one step and wrap around; the
    addition that [addAndGet] does afterwards is an ordinary one. *)

From S2P Require Import Prelude CString Memory Timestamp.

(** ** AtomicIntegerT *)

Section atomic.
(** The width of [T], and its arithmetic. *)
Context (w : Z) (arith : Z → outcome Z).

Definition atomic_get (value_ : Z) : Z := value_.
(** The value before, and the new contents. *)
Definition getAndAdd (value_ x : Z) : Z * Z := (value_, to_s w (value_ + x)).
Definition addAndGet (value_ x : Z) : outcome (Z * Z) :=
  let '(old, new) := getAndAdd value_ x in
  r ← arith (old + x); mret (r, new).
Definition incrementAndGet (value_ : Z) : outcome (Z * Z) := addAndGet value_ 1.
Definition decrementAndGet (value_ : Z) : outcome (Z * Z) := addAndGet value_ (-1).
Definition atomic_add (value_ x : Z) : Z := snd (getAndAdd value_ x).
Definition atomic_increment (value_ : Z) : outcome Z := r ← incrementAndGet value_; mret r.2.
Definition atomic_decrement (value_ : Z) : outcome Z := r ← decrementAndGet value_; mret r.2.
Definition getAndSet (value_ newValue : Z) : Z * Z := (value_, newValue).
End atomic.

Definition AtomicInt32_incrementAndGet := incrementAndGet 32 int_.
Definition AtomicInt64_incrementAndGet := incrementAndGet 64 long_.

Lemma increment_counts c : 0 ≤ c < INT_MAX → AtomicInt32_incrementAndGet c = Ret (c + 1, c + 1).
Proof.
  intros Hc. unfold AtomicInt32_incrementAndGet, incrementAndGet, addAndGet, getAndAdd.
  rewrite int_bind by (unfold in_int, INT_MIN, INT_MAX in *; lia).
  rewrite to_s_small by (unfold INT_MAX in *; cbn; lia). done.
Qed.

(** [getAndAdd] wraps around, the result of [addAndGet] must not. *)
Lemma add_overflows : getAndAdd 32 INT_MAX 1 = (INT_MAX, INT_MIN) ∧
  AtomicInt32_incrementAndGet INT_MAX = Undef SignedOverflow.
Proof. split; reflexivity. Qed.

(** ** Names *)

(** [numCreated_] and the name of a new thread. *)
Definition setDefaultName (numCreated_ : Z) (name_ : bytes) : outcome (Z * bytes) :=
  '(num, c) ← AtomicInt32_incrementAndGet numCreated_;
  mret (c, if decide (name_ = []) then snprintf 32 (lit "Thread" ++ print_d num) else name_).

(** The threads constructed one after another; the counter is atomic, so threads
    constructed at the same time are in some order. *)
Fixpoint create_threads (numCreated_ : Z) (names : list bytes) : outcome (list bytes) :=
  match names with
  | [] => mret []
  | name :: names =>
      '(c, name) ← setDefaultName numCreated_ name;
      rest ← create_threads c names; mret (name :: rest)
  end.

Lemma print_d_inj n m : in_int n → in_int m → print_d n = print_d m → n = m.
Proof.
  intros Hn Hm E. pose proof (atoi_print n Hn) as H. rewrite E, atoi_print in H by done.
  congruence.
Qed.

Lemma setDefaultName_names c name :
  0 ≤ c < INT_MAX →
  setDefaultName c name =
  Ret (c + 1, if decide (name = []) then lit "Thread" ++ print_d (c + 1) else name).
Proof.
  intros Hc. unfold setDefaultName. rewrite increment_counts, Ret_bind by done.
  rewrite snprintf_short; [done|]. rewrite zlen_app.
  pose proof (print_d_short (c + 1)) as Hs.
  change (zlen (lit "Thread")) with 6. lia.
Qed.

(** Every thread has its given name, or a number of its own. *)
Lemma default_names_distinct names c :
  0 ≤ c → c + zlen names ≤ INT_MAX →
  ∃ out, create_threads c names = Ret out ∧ length out = length names ∧
    (∀ i name, names !! i = Some name →
       out !! i = Some (if decide (name = []) then lit "Thread" ++ print_d (c + 1 + Z.of_nat i)
                        else name)) ∧
    (∀ i j n, names !! i = Some [] → names !! j = Some [] →
       out !! i = Some n → out !! j = Some n → i = j).
Proof.
  intros Hc Hl.
  assert (∃ out, create_threads c names = Ret out ∧ length out = length names ∧
    ∀ i name, names !! i = Some name →
      out !! i = Some (if decide (name = []) then lit "Thread" ++ print_d (c + 1 + Z.of_nat i)
                       else name)) as (out & Ho & Hlen & Hout).
  { revert c Hc Hl. induction names as [|name names IH]; intros c Hc Hl.
    - exists []. by split_and!.
    - unfold zlen in *. cbn [length create_threads] in *.
      destruct (IH (c + 1) ltac:(lia) ltac:(lia)) as (out & Ho & Hlen & Hout).
      rewrite setDefaultName_names, Ret_bind, Ho by lia. eexists. split; [done|].
      split; [cbn; lia|]. intros [|i] n Hi.
      + cbn in Hi |- *. simplify_eq. by rewrite Z.add_0_r.
      + rewrite lookup_cons in Hi |- *. rewrite (Hout i n Hi).
        by replace (c + 1 + 1 + Z.of_nat i) with (c + 1 + Z.of_nat (S i)) by lia. }
  exists out. split_and!; try done. intros i j n Hi Hj Hni Hnj.
  rewrite (Hout i [] Hi) in Hni. rewrite (Hout j [] Hj) in Hnj.
  rewrite decide_True in Hni, Hnj by done. rewrite <- Hnj in Hni.
  apply lookup_lt_Some in Hi, Hj. unfold zlen in *.
  apply (inj Some), app_inv_head in Hni as E.
  apply print_d_inj in E; unfold in_int, INT_MIN, INT_MAX in *; lia.
Qed.

(** ** The cached identifier *)

Record CurrentThread := {
  t_cachedTid : Z; t_tidString : bytes; t_tidStringLength : Z; t_threadName : bytes
}.

Definition CurrentThread_new : CurrentThread :=
  {| t_cachedTid := 0; t_tidString := replicate 32 NUL; t_tidStringLength := 6;
     t_threadName := lit "unknown" |}.

Definition tid_text (tid : Z) : bytes := print_space 5 tid ++ lit " ".

(** [gettid] is what the system answers. *)
Definition cacheTid (gettid : Z) (s : CurrentThread) : outcome CurrentThread :=
  if t_cachedTid s =? 0 then
    '(buf, len) ← snprintf_at (t_tidString s) 0 32 (tid_text gettid);
    mret {| t_cachedTid := gettid; t_tidString := buf; t_tidStringLength := len;
            t_threadName := t_threadName s |}
  else mret s.

Definition tid (gettid : Z) (s : CurrentThread) : outcome (CurrentThread * Z) :=
  s ← (if t_cachedTid s =? 0 then cacheTid gettid s else mret s);
  mret (s, t_cachedTid s).

Definition afterFork (gettid : Z) (s : CurrentThread) : outcome CurrentThread :=
  r ← tid gettid {| t_cachedTid := 0; t_tidString := t_tidString s;
                    t_tidStringLength := t_tidStringLength s; t_threadName := lit "main" |};
  mret r.1.

Definition isMainThread (gettid getpid : Z) (s : CurrentThread) : outcome (CurrentThread * bool) :=
  '(s, t) ← tid gettid s; mret (s, t =? getpid).

(** What [Logger] takes as the text of the thread is the text of its identifier. *)
Definition tid_ok (gettid : Z) (s : CurrentThread) : Prop :=
  t_cachedTid s = gettid ∧ t_tidStringLength s = zlen (tid_text gettid) ∧
  take (Z.to_nat (t_tidStringLength s)) (t_tidString s) = tid_text gettid ∧
  zlen (t_tidString s) = 32.

Lemma tid_text_short gettid : 0 ≤ zlen (tid_text gettid) < 32.
Proof.
  pose proof (print_d_short gettid). unfold tid_text, print_space.
  rewrite !zlen_app. unfold zlen in *. rewrite length_replicate. cbn. lia.
Qed.

Lemma cacheTid_ok gettid s :
  0 < gettid ≤ INT_MAX → t_cachedTid s = 0 → zlen (t_tidString s) = 32 →
  ∃ s', cacheTid gettid s = Ret s' ∧ tid_ok gettid s' ∧ t_threadName s' = t_threadName s.
Proof.
  intros Hg Hc Hl. pose proof (tid_text_short gettid) as Hs.
  unfold cacheTid. rewrite Hc.
  destruct (snprintf_at_ok (t_tidString s) 0 32 (tid_text gettid)) as (d & -> & Hd & _ & Hshort);
    [lia..|unfold INT_MAX in *; lia|].
  rewrite Ret_bind. eexists. split; [done|]. split; [|done]. unfold tid_ok.
  cbn [t_cachedTid t_tidStringLength t_tidString]. split_and!; try done; [|congruence].
  rewrite Hshort by lia.
  assert (zlen (tid_text gettid ++ [NUL]) = zlen (tid_text gettid) + 1) as Hn
    by (by rewrite zlen_app).
  pose proof (take_blit (t_tidString s) 0 (tid_text gettid ++ [NUL]) ltac:(lia) ltac:(lia)) as Ht.
  rewrite Hn in Ht.
  transitivity (take (length (tid_text gettid))
    (take (Z.to_nat (0 + (zlen (tid_text gettid) + 1)))
       (blit (t_tidString s) 0 (tid_text gettid ++ [NUL])))).
  - rewrite take_take. f_equal. unfold zlen. lia.
  - rewrite Ht. change (take (Z.to_nat 0) (t_tidString s)) with (@nil ascii).
    rewrite app_nil_l. apply take_app_length.
Qed.

(** The first use asks the system and prints the number; later uses answer from
    the cache, whatever the system would say; a child after [fork] asks again. *)
Lemma tid_cached gettid later child :
  0 < gettid ≤ INT_MAX → 0 < child ≤ INT_MAX →
  ∃ s s', tid gettid CurrentThread_new = Ret (s, gettid) ∧ tid_ok gettid s ∧
    tid later s = Ret (s, gettid) ∧
    afterFork child s = Ret s' ∧ tid_ok child s' ∧ t_threadName s' = lit "main".
Proof.
  intros Hg Hc.
  destruct (cacheTid_ok gettid CurrentThread_new Hg eq_refl eq_refl) as (s & Hs & Hok & _).
  assert (tid gettid CurrentThread_new = Ret (s, gettid)) as H1.
  { unfold tid. cbn [t_cachedTid CurrentThread_new Z.eqb]. rewrite Hs.
    destruct Hok as [<- _]. done. }
  pose proof Hok as (Hcache & _ & _ & Hlen).
  destruct (cacheTid_ok child {| t_cachedTid := 0; t_tidString := t_tidString s;
              t_tidStringLength := t_tidStringLength s; t_threadName := lit "main" |}
              Hc eq_refl Hlen) as (s' & Hs' & Hok' & Hname).
  exists s, s'. split_and!; try done.
  - unfold tid. assert ((t_cachedTid s =? 0) = false) as -> by lia. cbn. by rewrite Hcache.
  - unfold afterFork, tid. cbn [t_cachedTid Z.eqb]. by rewrite Hs'.
Qed.

(** [sleepUsec]: seconds and nanoseconds of the request. *)
Definition sleepUsec (usec : Z) : Z * Z :=
  (Z.quot usec kMicroSecondsPerSecond, Z.rem usec kMicroSecondsPerSecond * 1000).

Lemma sleepUsec_request usec :
  0 ≤ usec → let '(s, ns) := sleepUsec usec in
  0 ≤ ns < 1000000000 ∧ s * 1000000000 + ns = usec * 1000.
Proof.
  intros Hu. unfold sleepUsec, kMicroSecondsPerSecond.
  pose proof (Z.quot_rem' usec (1000 * 1000)).
  pose proof (Z.rem_bound_pos usec (1000 * 1000) Hu ltac:(lia)). lia.
Qed.

(** ** The end of runInThread *)

(** [Exception::fillStackTrace]; [None] when [backtrace_symbols] gives [NULL]. *)
Definition fillStackTrace (strings : option (list bytes)) (stack_ : bytes) : bytes :=
  match strings with
  | Some l => stack_ ++ concat ((λ s, cstr s ++ [LF]) <$> l)
  | None => stack_
  end.

Inductive func_end :=
  | Returned
  | ThrewException (message_ stack_ : bytes)
  | ThrewStd (message : bytes)
  | ThrewOther.

Definition caught (kind name_ : bytes) : bytes := kind ++ cstr name_ ++ [LF].

(** What the thread writes to the standard error, its name at the end, and
    whether the process goes on; an exception that is thrown on terminates it. *)
Definition runInThread (name_ : bytes) (func_ : func_end) : bytes * bytes * outcome unit :=
  match func_ with
  | Returned => ([], lit "finished", mret ())
  | ThrewException what stack =>
      (caught (lit "exception caught in Thread ") name_ ++
       lit "reason: " ++ cstr what ++ [LF] ++ lit "stack trace: " ++ cstr stack ++ [LF],
       lit "crashed", Exited SIGABRT_status)
  | ThrewStd what =>
      (caught (lit "exception caught in Thread ") name_ ++ lit "reason: " ++ cstr what ++ [LF],
       lit "crashed", Exited SIGABRT_status)
  | ThrewOther =>
      (caught (lit "unknown exception caught in Thread ") name_,
       lit "crashed", Exited SIGABRT_status)
  end.

(** The name while the function runs. *)
Definition running_name (name_ : bytes) : bytes :=
  if decide (name_ = []) then lit "muduoThread" else cstr name_.

(** The constructor gives every thread a name, so [muduoThread] is never used. *)
Lemma muduoThread_unused c name c' name' :
  setDefaultName c name = Ret (c', name') → 0 ≤ c < INT_MAX → running_name name' = cstr name'.
Proof.
  intros E Hc. rewrite setDefaultName_names in E by done. unfold running_name.
  rewrite decide_False; [done|]. intros ->. case_decide; naive_solver.
Qed.

(** The process survives a function only if it returns. *)
Lemma only_return_survives name f : (runInThread name f).2 = mret () ↔ f = Returned.
Proof. by destruct f. Qed.

(** ** ThreadLocal *)

(** The objects by thread, the next address and the deleted ones. *)
Record ThreadLocal := { specific : gmap Z Z; next_object : Z; deleted : list Z }.

Definition ThreadLocal_new : ThreadLocal := {| specific := ∅; next_object := 1; deleted := [] |}.

Definition value (t : Z) (s : ThreadLocal) : ThreadLocal * Z :=
  match specific s !! t with
  | Some o => (s, o)
  | None => ({| specific := <[t:=next_object s]> (specific s);
                next_object := next_object s + 1; deleted := deleted s |}, next_object s)
  end.

(** A thread ends: the destructor of the key deletes its object. *)
Definition destructor (t : Z) (s : ThreadLocal) : ThreadLocal :=
  match specific s !! t with
  | Some o => {| specific := delete t (specific s); next_object := next_object s;
                 deleted := deleted s ++ [o] |}
  | None => s
  end.

Inductive local_op := Value (t : Z) | ThreadEnds (t : Z).

Definition local_run (ops : list local_op) : ThreadLocal :=
  foldl (λ s op, match op with Value t => (value t s).1 | ThreadEnds t => destructor t s end)
    ThreadLocal_new ops.

Definition local_ok (s : ThreadLocal) : Prop :=
  (∀ t o, specific s !! t = Some o → o < next_object s ∧ o ∉ deleted s) ∧
  (∀ t u o, specific s !! t = Some o → specific s !! u = Some o → t = u) ∧
  (∀ o, o ∈ deleted s → o < next_object s) ∧ NoDup (deleted s).

Lemma value_ok t s : local_ok s → local_ok (value t s).1.
Proof.
  intros (H1 & H2 & H3 & H4). unfold value. destruct (specific s !! t) as [o|] eqn:E; [done|].
  split_and!; cbn [fst specific next_object deleted]; try done.
  - intros u o Hu. rewrite lookup_insert_Some in Hu.
    destruct Hu as [[<- <-]|[_ Hu]]; [split; [lia|]|destruct (H1 u o Hu); split; [lia|done]].
    intros Hd%H3. lia.
  - intros u v o. rewrite !lookup_insert_Some.
    intros [[<- <-]|[_ Hu]] [[<- Hv]|[_ Hv]]; try done; simplify_eq.
    + destruct (H1 v _ Hv). lia.
    + destruct (H1 u _ Hu). lia.
    + by eapply H2.
  - intros o Ho%H3. lia.
Qed.

Lemma destructor_ok t s : local_ok s → local_ok (destructor t s).
Proof.
  intros (H1 & H2 & H3 & H4). unfold destructor. destruct (specific s !! t) as [o|] eqn:E; [|done].
  destruct (H1 t o E) as [Hlt Hd].
  split_and!; cbn [specific next_object deleted].
  - intros u p [Hut Hu]%lookup_delete_Some. destruct (H1 u p Hu) as [? Hp]. split; [done|].
    rewrite elem_of_app, list_elem_of_singleton. intros [?| ->]; [done|].
    destruct Hut. by eapply H2.
  - intros u v p [_ Hu]%lookup_delete_Some [_ Hv]%lookup_delete_Some. by eapply H2.
  - intros p [Hp| ->%list_elem_of_singleton]%elem_of_app; [by apply H3|done].
  - apply NoDup_app. split_and!; [done| |apply NoDup_singleton].
    intros p Hp ->%list_elem_of_singleton. done.
Qed.

(** After any uses by any threads: a thread gets the same object until it ends,
    no two threads share one, a live object is not deleted, and none is deleted
    twice. *)
Lemma thread_local_own ops t u :
  let s := local_run ops in
  let '(s', o) := value t s in
  (value t s' = (s', o)) ∧ (o ∉ deleted s') ∧ NoDup (deleted s') ∧
  (specific s' !! u = Some o → u = t).
Proof.
  intros s. assert (local_ok s) as Hok.
  { subst s. unfold local_run. assert (local_ok ThreadLocal_new) as H0.
    { unfold local_ok. cbn. split_and!; [set_solver..|inversion 1|constructor]. }
    revert H0. generalize ThreadLocal_new. induction ops as [|op ops IH]; intros s0 H0; [done|].
    cbn [foldl]. apply IH. destruct op; [by apply value_ok|by apply destructor_ok]. }
  pose proof (value_ok t s Hok) as (H1 & H2 & H3 & H4).
  destruct (value t s) as [s' o] eqn:E. cbn [fst] in *.
  assert (specific s' !! t = Some o) as Ho.
  { unfold value in E. destruct (specific s !! t) eqn:Es; simplify_eq/=; [done|].
    apply lookup_insert_eq. }
  split_and!; [by unfold value; rewrite Ho|by apply (H1 t)|done|].
  intros Hu. by eapply H2.
Qed.
