(* ===== verification/OnceLocal.v ===== *)
(** Objects with a managed life in the C++ logging library:
    [src/src/log/muduo-clog/muduo/base/Singleton.h], [ThreadLocalSingleton.h],
    [WeakCallback.h] and [GzipFile.h].

    Addresses are numbers from 1 on, given out in order; 0 is [NULL]. What
    [pthread_once] promises is part of the steps of [Singleton]: the first caller
    runs [init], the others wait for it. zlib and the functions called are
    arguments or only counted. *)

From stdpp Require Import relations.
From S2P Require Import Prelude Monitor CurrentThread.

Open Scope Z_scope.

(** ** Singleton *)

Inductive once_control := OnceNever | OnceRunning | OnceDone.

(** A call of [instance()]. *)
Inductive instance_pc :=
  | ICalls                  (* about to call pthread_once *)
  | IInit                   (* in init(), about to store the new object *)
  | IRegister               (* in init(), about to call atexit *)
  | IReads                  (* after pthread_once *)
  | IReturned (object : Z).

Record Singleton := {
  ponce_ : once_control; value_ : Z;
  created : list Z;         (* objects, newest first *)
  registered_exits : nat;   (* calls of atexit(destroy) *)
  calls : list instance_pc
}.

Definition Singleton_start (n : nat) : Singleton :=
  {| ponce_ := OnceNever; value_ := 0; created := []; registered_exits := 0;
     calls := replicate n ICalls |}.

Definition call_moves (s : Singleton) (i : nat) (o : once_control) (c : instance_pc) : Singleton :=
  {| ponce_ := o; value_ := value_ s; created := created s;
     registered_exits := registered_exits s; calls := <[i:=c]> (calls s) |}.

(** [has_destroy]: the class has no [no_destroy] member. *)
Inductive Singleton_step (has_destroy : bool) (s : Singleton) : Singleton → Prop :=
  | once_first i :
      calls s !! i = Some ICalls → ponce_ s = OnceNever →
      Singleton_step has_destroy s (call_moves s i OnceRunning IInit)
  | once_later i :
      calls s !! i = Some ICalls → ponce_ s = OnceDone →
      Singleton_step has_destroy s (call_moves s i OnceDone IReads)
  | init_creates i :
      calls s !! i = Some IInit →
      let object := Z.of_nat (length (created s)) + 1 in
      Singleton_step has_destroy s
        {| ponce_ := ponce_ s; value_ := object; created := object :: created s;
           registered_exits := registered_exits s; calls := <[i:=IRegister]> (calls s) |}
  | init_registers i :
      calls s !! i = Some IRegister →
      Singleton_step has_destroy s
        {| ponce_ := OnceDone; value_ := value_ s; created := created s;
           registered_exits := (registered_exits s + if has_destroy then 1 else 0)%nat;
           calls := <[i:=IReads]> (calls s) |}
  | instance_returns i :
      calls s !! i = Some IReads →
      Singleton_step has_destroy s (call_moves s i (ponce_ s) (IReturned (value_ s))).

Definition in_init (c : instance_pc) : bool :=
  match c with IInit | IRegister => true | _ => false end.

Definition Singleton_ok (has_destroy : bool) (s : Singleton) : Prop :=
  (∀ i j c d, calls s !! i = Some c → calls s !! j = Some d →
     in_init c = true → in_init d = true → i = j) ∧
  (∀ i c, calls s !! i = Some c →
     match c with
     | ICalls => True
     | IInit => ponce_ s = OnceRunning ∧ created s = []
     | IRegister => ponce_ s = OnceRunning ∧ created s = [1] ∧ value_ s = 1
     | IReads => ponce_ s = OnceDone
     | IReturned o => ponce_ s = OnceDone ∧ o = 1
     end) ∧
  match ponce_ s with
  | OnceNever => created s = [] ∧ registered_exits s = 0%nat
  | OnceRunning => registered_exits s = 0%nat ∧
      ∃ i c, calls s !! i = Some c ∧ in_init c = true
  | OnceDone => created s = [1] ∧ value_ s = 1 ∧
      registered_exits s = if has_destroy then 1%nat else 0%nat
  end.

Lemma Singleton_step_ok b s s' : Singleton_ok b s → Singleton_step b s s' → Singleton_ok b s'.
Proof.
  intros (Hu & Hc & Ho) Hs.
  assert (Hins : ∀ i c j d, calls s !! i = Some c →
    <[i:=d]> (calls s) !! j = (if decide (i = j) then Some d else calls s !! j)).
  { intros i c j d Hi. destruct (decide (i = j)) as [<-|];
      [apply list_lookup_insert_eq; by eapply lookup_lt_Some|by apply list_lookup_insert_ne]. }
  assert (Hone : ∀ i j c d, calls s !! i = Some c → calls s !! j = Some d →
    in_init c = true → i ≠ j → in_init d = false).
  { intros i j c d Hi Hj Hcin Hij. destruct (in_init d) eqn:E; [|done].
    destruct Hij. by eapply Hu. }
  destruct Hs as [i Hi E|i Hi E|i Hi|i Hi|i Hi]; pose proof (Hc i _ Hi) as Hci; cbn in Hci;
    try (assert (E : ponce_ s = OnceRunning) by apply Hci);
    try (assert (E : ponce_ s = OnceDone) by apply Hci);
    rewrite E in *; destruct_and?; unfold Singleton_ok; cbn; rewrite ?E;
    try subst object; repeat match goal with H : created s = _ |- _ => rewrite H in *; clear H end;
    (split; [|split]).
  all: try (intros j k c d; rewrite !(Hins i _ _ _ Hi); repeat case_decide; intros; simplify_eq/=;
    try done; try (by eapply Hu);
    match goal with
    | H1 : _ !! ?j = Some ?c, H2 : in_init ?c = true |- _ =>
        pose proof (Hc j c H1); destruct c; try done; destruct_and?; congruence
    end).
  all: try (intros j c; rewrite (Hins i _ _ _ Hi); case_decide; intros; simplify_eq/=;
    [try done; split_and?; try done; congruence|
     match goal with
     | H1 : _ !! ?j = Some ?c, H2 : ?i ≠ ?j |- _ =>
         pose proof (Hc j c H1) as Hcj;
         try (pose proof (Hone i j _ c Hi H1 eq_refl H2));
         destruct c; try done; destruct_and?; try congruence
     end]).
  all: try (split; [done|]; exists i; eexists; rewrite (Hins i _ i _ Hi), decide_True by done; done).
  all: split_and?; try done. destruct b; lia.
Qed.

Lemma Singleton_reach_ok b n s :
  rtc (Singleton_step b) (Singleton_start n) s → Singleton_ok b s ∧ length (calls s) = n.
Proof.
  intros Hr. assert (Singleton_ok b (Singleton_start n) ∧ length (calls (Singleton_start n)) = n) as Hok.
  { split; [|apply length_replicate]. split_and!; try done; cbn.
    - by intros i j c d [-> _]%lookup_replicate.
    - by intros i c [-> _]%lookup_replicate. }
  induction Hr as [|s0 s1 s2 Hs _ IH]; [done|]. apply IH. destruct Hok as [Hok Hlen].
  split; [by eapply Singleton_step_ok|]. by destruct Hs; cbn; rewrite length_insert.
Qed.

(** Whatever the interleaving of the calls of [instance()]: at most one object is
    created, every call returns it, its destruction is registered once if the
    class wants it, and where nothing can go on every call has returned. *)
Lemma singleton_once b n s :
  rtc (Singleton_step b) (Singleton_start n) s →
  (length (created s) ≤ 1)%nat ∧
  (∀ o, IReturned o ∈ calls s → o = 1 ∧ created s = [1] ∧
     registered_exits s = if b then 1%nat else 0%nat) ∧
  ((¬ ∃ s', Singleton_step b s s') → Forall (λ c, c = IReturned 1) (calls s)).
Proof.
  intros Hr. destruct (Singleton_reach_ok b n s Hr) as [(Hu & Hc & Ho) Hlen].
  assert (Hret : ∀ o, IReturned o ∈ calls s → o = 1 ∧ created s = [1] ∧
    registered_exits s = if b then 1%nat else 0%nat).
  { intros o [i Hi]%list_elem_of_lookup. destruct (Hc i _ Hi) as [E ->]. rewrite E in Ho.
    by destruct Ho as (? & _ & ?). }
  split; [|split; [exact Hret|]].
  - destruct (ponce_ s); [destruct Ho as [-> _]; cbn; lia| |destruct Ho as [-> _]; cbn; lia].
    destruct Ho as (_ & i & c & Hi & Hin). specialize (Hc i c Hi).
    destruct c; try done; destruct Hc as [_ Hc]; [rewrite Hc|destruct Hc as [-> _]]; cbn; lia.
  - intros Hstuck. apply Forall_lookup. intros i c Hi.
    assert (ponce_ s ≠ OnceRunning) as Hnot.
    { intros E. rewrite E in Ho. destruct Ho as (_ & j & d & Hj & Hd). apply Hstuck.
      destruct d; try done; eexists; [by eapply init_creates|by eapply init_registers]. }
    destruct c as [| | | |o].
    + destruct Hstuck. destruct (ponce_ s) eqn:E; [|done|];
        eexists; [by eapply once_first|by eapply once_later].
    + destruct Hstuck. eexists. by eapply init_creates.
    + destruct Hstuck. eexists. by eapply init_registers.
    + destruct Hstuck. eexists. by eapply instance_returns.
    + destruct (Hret o) as [-> _]; [by eapply list_elem_of_lookup_2|done].
Qed.

(** ** ThreadLocalSingleton *)

(** [t_value_] of each thread, what [pkey_] holds for it, the next address and
    the deleted objects. *)
Record ThreadLocalSingleton := {
  t_value_ : gmap Z Z; pkey_ : gmap Z Z; tls_next : Z; tls_deleted : list Z
}.

Definition tls_start : ThreadLocalSingleton :=
  {| t_value_ := ∅; pkey_ := ∅; tls_next := 1; tls_deleted := [] |}.

(** [instance()] in thread [t]. *)
Definition instance (t : Z) (s : ThreadLocalSingleton) : outcome (ThreadLocalSingleton * Z) :=
  match t_value_ s !! t with
  | Some o => mret (s, o)
  | None =>
      let o := tls_next s in
      _ ← assertion (bool_decide (pkey_ s !! t = None));
      mret ({| t_value_ := <[t:=o]> (t_value_ s); pkey_ := <[t:=o]> (pkey_ s);
               tls_next := o + 1; tls_deleted := tls_deleted s |}, o)
  end.

Definition tls_pointer (t : Z) (s : ThreadLocalSingleton) : Z := default 0 (t_value_ s !! t).

(** Thread [t] ends: the key is cleared and [destructor] gets what it held. *)
Definition tls_destructor (t : Z) (s : ThreadLocalSingleton) : outcome ThreadLocalSingleton :=
  match pkey_ s !! t with
  | None => mret s
  | Some obj =>
      _ ← assertion (bool_decide (t_value_ s !! t = Some obj));
      mret {| t_value_ := delete t (t_value_ s); pkey_ := delete t (pkey_ s);
              tls_next := tls_next s; tls_deleted := tls_deleted s ++ [obj] |}
  end.

Fixpoint tls_run (s : ThreadLocalSingleton) (ops : list local_op) : outcome ThreadLocalSingleton :=
  match ops with
  | [] => mret s
  | Value t :: ops => r ← instance t s; tls_run r.1 ops
  | ThreadEnds t :: ops => s ← tls_destructor t s; tls_run s ops
  end.

(** The two copies of the pointer agree, and are those of [ThreadLocal]. *)
Definition tls_same (s : ThreadLocalSingleton) (l : ThreadLocal) : Prop :=
  t_value_ s = specific l ∧ pkey_ s = specific l ∧ tls_next s = next_object l ∧
  tls_deleted s = deleted l.

(** It behaves as [ThreadLocal] does, and neither of its assertions fails. *)
Lemma tls_refines ops :
  wp (tls_run tls_start ops) (λ s, tls_same s (local_run ops)).
Proof.
  unfold local_run. assert (tls_same tls_start ThreadLocal_new) as H0 by done.
  revert H0. generalize tls_start, ThreadLocal_new.
  induction ops as [|op ops IH]; intros s l Hs; [exact Hs|].
  pose proof Hs as (H1 & H2 & H3 & H4). cbn [tls_run foldl]. destruct op as [t|t].
  - unfold instance, value. rewrite H1, H2. destruct (specific l !! t) as [o|] eqn:E.
    + rewrite mret_bind. by apply IH.
    + rewrite bool_decide_true by done. apply IH. unfold tls_same. cbn. by rewrite ?H1, ?H2, ?H3.
  - unfold tls_destructor, destructor. rewrite H1, H2. destruct (specific l !! t) as [o|] eqn:E.
    + rewrite bool_decide_true by done. apply IH. unfold tls_same. cbn. by rewrite ?H1, ?H2, ?H4.
    + rewrite mret_bind. by apply IH.
Qed.

(** ** WeakCallback *)

(** The object is held by [owners] other pointers and by the calls that locked
    it; [expired] calls found it gone. *)
Record WeakCallback := {
  owners : nat; running_calls : nat; deletions : nat; invoked : nat; expired : nat
}.

Definition use_count (s : WeakCallback) : nat := owners s + running_calls s.

(** The counts after a pointer went away. *)
Definition released (o r inv ex d : nat) : WeakCallback :=
  {| owners := o; running_calls := r;
     deletions := (d + if decide (o + r = 0)%nat then 1 else 0)%nat;
     invoked := inv; expired := ex |}.

Inductive weak_step (s : WeakCallback) : WeakCallback → Prop :=
  | owner_copies :
      (0 < owners s)%nat →
      weak_step s {| owners := S (owners s); running_calls := running_calls s;
                     deletions := deletions s; invoked := invoked s; expired := expired s |}
  | owner_drops o :
      owners s = S o →
      weak_step s (released o (running_calls s) (invoked s) (expired s) (deletions s))
  | callback_locks :
      (0 < use_count s)%nat →
      weak_step s {| owners := owners s; running_calls := S (running_calls s);
                     deletions := deletions s; invoked := S (invoked s); expired := expired s |}
  | callback_expired :
      use_count s = 0%nat →
      weak_step s {| owners := owners s; running_calls := running_calls s;
                     deletions := deletions s; invoked := invoked s; expired := S (expired s) |}
  | callback_returns r :
      running_calls s = S r →
      weak_step s (released (owners s) r (invoked s) (expired s) (deletions s)).

Definition weak_start : WeakCallback :=
  {| owners := 1; running_calls := 0; deletions := 0; invoked := 0; expired := 0 |}.

(** While a call runs its object is not deleted; the object is deleted once, when
    nothing holds it any more, and every later call does nothing. *)
Lemma weak_callback_safe s s' :
  rtc weak_step weak_start s → rtc weak_step s s' →
  deletions s = (if decide (use_count s = 0%nat) then 1%nat else 0%nat) ∧
  ((0 < running_calls s)%nat → deletions s = 0%nat) ∧
  ((0 < deletions s)%nat → deletions s' = 1%nat ∧ invoked s' = invoked s).
Proof.
  intros Hr Hr'.
  assert (∀ a b, deletions a = (if decide (use_count a = 0%nat) then 1%nat else 0%nat) →
    rtc weak_step a b → deletions b = (if decide (use_count b = 0%nat) then 1%nat else 0%nat))
    as Hinv.
  { intros a b Ha Hab. induction Hab as [|a b c Hs _ IH]; [done|]. apply IH.
    destruct Hs; unfold use_count in *; cbn in *; repeat case_decide; lia. }
  pose proof (Hinv weak_start s eq_refl Hr) as Hd. split; [done|].
  unfold use_count in *. split; [intros; case_decide; lia|]. intros Hpos.
  assert (use_count s = 0%nat) as Hzero by (unfold use_count; case_decide; lia).
  clear Hr Hinv. assert (deletions s = 1%nat) as Hone by (case_decide; lia). clear Hd Hpos.
  induction Hr' as [|a b c Hs _ IH]; [done|].
  assert (use_count b = 0%nat ∧ deletions b = 1%nat ∧ invoked b = invoked a) as (? & ? & <-).
  { destruct Hs; unfold use_count in *; cbn in *; lia. }
  auto.
Qed.

(** ** GzipFile *)

(** The [file_] of each object, and the handles zlib has given out and closed. *)
Record gzip_state := { gz_objects : list (option Z); gz_opened : list Z; gz_closed : list Z }.

Definition with_objects (s : gzip_state) (os : list (option Z)) : gzip_state :=
  {| gz_objects := os; gz_opened := gz_opened s; gz_closed := gz_closed s |}.

Inductive gzip_step (s : gzip_state) : gzip_state → Prop :=
  | gz_open h :                     (* openForRead and the like *)
      h ∉ gz_opened s →
      gzip_step s {| gz_objects := gz_objects s ++ [Some h]; gz_opened := h :: gz_opened s;
                     gz_closed := gz_closed s |}
  | gz_open_fails : gzip_step s (with_objects s (gz_objects s ++ [None]))
  | gz_move i f :                   (* GzipFile(GzipFile&&) *)
      gz_objects s !! i = Some f →
      gzip_step s (with_objects s (<[i:=None]> (gz_objects s) ++ [f]))
  | gz_assign i j f g :             (* operator=(GzipFile&&), which swaps *)
      gz_objects s !! i = Some f → gz_objects s !! j = Some g → i ≠ j →
      gzip_step s (with_objects s (<[i:=g]> (<[j:=f]> (gz_objects s))))
  | gz_destroy i f :                (* ~GzipFile() *)
      gz_objects s !! i = Some f →
      gzip_step s {| gz_objects := delete i (gz_objects s); gz_opened := gz_opened s;
                     gz_closed := gz_closed s ++ option_list f |}.

Definition gz_held (os : list (option Z)) : list Z := omap id os.

Lemma gz_held_insert os i f g :
  os !! i = Some f → option_list f ++ gz_held (<[i:=g]> os) ≡ₚ option_list g ++ gz_held os.
Proof. intros Hi. by apply (omap_insert_perm id os i f g). Qed.

Lemma gz_held_delete os i f : os !! i = Some f → option_list f ++ gz_held (delete i os) ≡ₚ gz_held os.
Proof.
  intros Hi. unfold gz_held. rewrite (omap_perm id _ _ (delete_Permutation os i f Hi)).
  by destruct f.
Qed.

Definition gz_ok (s : gzip_state) : Prop :=
  gz_closed s ++ gz_held (gz_objects s) ≡ₚ gz_opened s ∧ NoDup (gz_opened s).

Lemma gzip_step_ok s s' : gz_ok s → gzip_step s s' → gz_ok s'.
Proof.
  intros [Hp Hnd] Hs. destruct Hs as [h Hh| |i f Hi|i j f g Hi Hj Hij|i f Hi]; split; cbn; try done.
  - unfold gz_held. rewrite omap_app. cbn. rewrite app_assoc. rewrite <- Hp.
    by rewrite Permutation_app_comm.
  - by constructor.
  - unfold gz_held. rewrite omap_app. cbn. by rewrite app_nil_r.
  - rewrite <- Hp. f_equiv. rewrite <- (gz_held_insert _ i f None Hi).
    unfold gz_held. rewrite omap_app. cbn. rewrite Permutation_app_comm. by destruct f.
  - rewrite <- Hp. f_equiv.
    assert (<[j:=f]> (gz_objects s) !! i = Some f) as Hi'
      by (rewrite list_lookup_insert_ne; done).
    pose proof (gz_held_insert _ i f g Hi') as H1. pose proof (gz_held_insert _ j g f Hj) as H2.
    apply (Permutation_app_inv_l (option_list f)). by rewrite H1.
  - rewrite <- Hp, <- (gz_held_delete _ i f Hi). by rewrite app_assoc.
Qed.

(** Each handle is owned by one object or closed: none is closed twice, and when
    all objects are destroyed every handle has been closed. *)
Lemma gzip_no_leak s :
  rtc gzip_step {| gz_objects := []; gz_opened := []; gz_closed := [] |} s →
  gz_closed s ++ gz_held (gz_objects s) ≡ₚ gz_opened s ∧ NoDup (gz_closed s) ∧
  (gz_objects s = [] → gz_closed s ≡ₚ gz_opened s).
Proof.
  intros Hr.
  assert (gz_ok s) as [Hp Hnd].
  { assert (gz_ok {| gz_objects := []; gz_opened := []; gz_closed := [] |}) as Hok
      by (split; [done|constructor]).
    induction Hr as [|a b c Hs _ IH]; [done|]. eauto using gzip_step_ok. }
  split; [done|]. split.
  - rewrite <- Hp in Hnd. by apply NoDup_app in Hnd as [? _].
  - intros E. rewrite E in Hp. cbn in Hp. by rewrite app_nil_r in Hp.
Qed.
