(* ===== verification/ThreadPool.v ===== *)
(** The thread pool of the C++ logging library:
    [src/src/log/muduo-clog/muduo/base/ThreadPool.cc] and [ThreadPool.h].

    Workers run [runInThread]; producers are calls of [run] of a started pool
    with threads; [stop] clears [running_] and broadcasts [notEmpty_] in one
    critical section, and then joins. A task is an element; running it is one
    step, recorded in [executed]. [maxQueueSize_] 0 is a queue without bound. As
    in BlockingQueue.v, a critical section is one step and a spurious wake-up a
    step of its own. *)

From stdpp Require Import relations.
From S2P Require Import Prelude Monitor.

Open Scope Z_scope.

Section pool.
Context {Task : Type} (maxQueueSize_ : nat).

(** Where a worker is in [runInThread] and [take]. *)
Inductive worker :=
  | WLoop                   (* while (running_) *)
  | WTake                   (* in take(), about to test the queue *)
  | WWaiting                (* in notEmpty_.wait() *)
  | WRun (t : Task)         (* task() *)
  | WExit.

(** A call of [run]. *)
Inductive producer :=
  | RReady (t : Task)       (* about to test isFull() *)
  | RWaiting (t : Task)     (* in notFull_.wait() *)
  | RDone.

Inductive pool_thread := Worker (w : worker) | Producer (p : producer).

Record pool := {
  queue_ : list Task;
  running_ : bool;
  threads : list pool_thread;
  accepted : list Task;     (* in the order run() stored them *)
  started : list Task;      (* in the order take() returned them *)
  executed : list Task
}.

Definition isFull (q : list Task) : Prop :=
  (0 < maxQueueSize_)%nat ∧ (maxQueueSize_ ≤ length q)%nat.
#[global] Instance isFull_dec q : Decision (isFull q).
Proof. unfold isFull. apply _. Defined.

Definition wake_not_empty (c : pool_thread) : option pool_thread :=
  match c with Worker WWaiting => Some (Worker WTake) | _ => None end.
Definition wake_not_full (c : pool_thread) : option pool_thread :=
  match c with Producer (RWaiting t) => Some (Producer (RReady t)) | _ => None end.

Definition with_threads (s : pool) (ts : list pool_thread) : pool :=
  {| queue_ := queue_ s; running_ := running_ s; threads := ts; accepted := accepted s;
     started := started s; executed := executed s |}.

Inductive pool_step (s : pool) : pool → Prop :=
  (** [run]. *)
  | run_waits i t :
      threads s !! i = Some (Producer (RReady t)) → isFull (queue_ s) →
      pool_step s (with_threads s (<[i:=Producer (RWaiting t)]> (threads s)))
  | run_stores i t ts :
      threads s !! i = Some (Producer (RReady t)) → ¬ isFull (queue_ s) →
      notify wake_not_empty (<[i:=Producer RDone]> (threads s)) ts →
      pool_step s {| queue_ := queue_ s ++ [t]; running_ := running_ s; threads := ts;
                     accepted := accepted s ++ [t]; started := started s;
                     executed := executed s |}
  (** [runInThread]. *)
  | loop_test i :
      threads s !! i = Some (Worker WLoop) →
      pool_step s (with_threads s (<[i:=Worker (if running_ s then WTake else WExit)]> (threads s)))
  | task_runs i t :
      threads s !! i = Some (Worker (WRun t)) →
      pool_step s {| queue_ := queue_ s; running_ := running_ s;
                     threads := <[i:=Worker WLoop]> (threads s); accepted := accepted s;
                     started := started s; executed := executed s ++ [t] |}
  (** [take]: without a task it returns an empty one, which is not run. *)
  | take_waits i :
      threads s !! i = Some (Worker WTake) → queue_ s = [] → running_ s = true →
      pool_step s (with_threads s (<[i:=Worker WWaiting]> (threads s)))
  | take_nothing i :
      threads s !! i = Some (Worker WTake) → queue_ s = [] → running_ s = false →
      pool_step s (with_threads s (<[i:=Worker WLoop]> (threads s)))
  | take_task i t q ts :
      threads s !! i = Some (Worker WTake) → queue_ s = t :: q →
      (if decide (0 < maxQueueSize_)%nat
       then notify wake_not_full (<[i:=Worker (WRun t)]> (threads s)) ts
       else ts = <[i:=Worker (WRun t)]> (threads s)) →
      pool_step s {| queue_ := q; running_ := running_ s; threads := ts;
                     accepted := accepted s; started := started s ++ [t];
                     executed := executed s |}.

(** [stop()], up to the joins. *)
Definition stop (s : pool) : pool :=
  {| queue_ := queue_ s; running_ := false; threads := notify_all wake_not_empty (threads s);
     accepted := accepted s; started := started s; executed := executed s |}.

(** A thread that leaves its wait without a notification. *)
Inductive pool_wakes (s : pool) : pool → Prop :=
  | pool_wakes_one i c c' :
      threads s !! i = Some c → wake_not_empty c = Some c' ∨ wake_not_full c = Some c' →
      pool_wakes s (with_threads s (<[i:=c']> (threads s))).

Definition pool_any (s s' : pool) : Prop :=
  pool_step s s' ∨ pool_wakes s s' ∨ s' = stop s.

(** [start(n)] with the calls of [run] that are to come. *)
Definition pool_start (n : nat) (ts : list Task) : pool :=
  {| queue_ := []; running_ := true;
     threads := replicate n (Worker WLoop) ++ ((λ t, Producer (RReady t)) <$> ts);
     accepted := []; started := []; executed := [] |}.

(** The joins of [stop] return. *)
Definition joined (s : pool) : Prop :=
  Forall (λ c, match c with Worker WExit | Producer _ => True | _ => False end) (threads s).

(** ** The invariant *)

(** The task a worker has taken and not finished, and the task a call of [run]
    has still to store. *)
Definition in_hand (c : pool_thread) : option Task :=
  match c with Worker (WRun t) => Some t | _ => None end.
Definition to_store (c : pool_thread) : option Task :=
  match c with Producer (RReady t) | Producer (RWaiting t) => Some t | _ => None end.

Definition worker_waits (c : pool_thread) : Z :=
  match c with Worker WWaiting => 1 | _ => 0 end.
Definition worker_takes (c : pool_thread) : Z :=
  match c with Worker WTake => 1 | _ => 0 end.
Definition worker_exits (c : pool_thread) : Z :=
  match c with Worker WExit => 1 | _ => 0 end.
Definition is_worker (c : pool_thread) : Z :=
  match c with Worker _ => 1 | Producer _ => 0 end.
Definition run_ready (c : pool_thread) : Z :=
  match c with Producer (RReady _) => 1 | _ => 0 end.
Definition run_waiting (c : pool_thread) : Z :=
  match c with Producer (RWaiting _) => 1 | _ => 0 end.

Ltac pool_weights :=
  cbn [worker_waits worker_takes worker_exits is_worker run_ready run_waiting
       in_hand to_store option_list option_rect app] in *.

(** Arithmetic with the invariant's implications. *)
Ltac pool_arith :=
  try done; intros;
  repeat match goal with H : ?P → _, HP : ?P |- _ => specialize (H HP) end; try (lia || congruence).

(** Nothing is lost or reordered, the bound is kept, a worker only waits while
    the pool runs and every queued task has a worker awake for it, and a call of
    [run] only waits while every free place has a call awake for it. *)
Definition pool_ok (n : nat) (tasks : list Task) (s : pool) : Prop :=
  let ts := threads s in
  let queued := Z.of_nat (length (queue_ s)) in
  accepted s = started s ++ queue_ s ∧
  started s ≡ₚ executed s ++ omap in_hand ts ∧
  omap to_store ts ++ accepted s ≡ₚ tasks ∧
  tally is_worker ts = Z.of_nat n ∧
  (running_ s = true → tally worker_exits ts = 0) ∧
  (running_ s = false → tally worker_waits ts = 0) ∧
  (0 < tally worker_waits ts → queued ≤ tally worker_takes ts) ∧
  ((0 < maxQueueSize_)%nat → (length (queue_ s) ≤ maxQueueSize_)%nat) ∧
  (0 < tally run_waiting ts →
     (0 < maxQueueSize_)%nat ∧ Z.of_nat maxQueueSize_ - queued ≤ tally run_ready ts).

Lemma pool_tallies ts :
  0 ≤ tally worker_waits ts ∧ 0 ≤ tally worker_takes ts ∧ 0 ≤ tally worker_exits ts ∧
  0 ≤ tally is_worker ts ∧ 0 ≤ tally run_ready ts ∧ 0 ≤ tally run_waiting ts.
Proof. split_and!; apply tally_nonneg; by intros [[]|[]]. Qed.

(** What the notifications leave alone, and what they move. *)
Lemma notify_not_empty ts ts' :
  notify wake_not_empty ts ts' →
  omap in_hand ts' ≡ₚ omap in_hand ts ∧ omap to_store ts' ≡ₚ omap to_store ts ∧
  tally is_worker ts' = tally is_worker ts ∧ tally worker_exits ts' = tally worker_exits ts ∧
  tally run_ready ts' = tally run_ready ts ∧ tally run_waiting ts' = tally run_waiting ts ∧
  tally worker_takes ts' + tally worker_waits ts' =
    tally worker_takes ts + tally worker_waits ts ∧
  (0 < tally worker_waits ts ∧ tally worker_takes ts' = tally worker_takes ts + 1 ∨
   tally worker_waits ts <= 0 ∧ tally worker_takes ts' = tally worker_takes ts).
Proof.
  intros Hn.
  destruct (notify_weights wake_not_empty ts ts' worker_takes worker_waits) as [H1 H2];
    [by intros [[]|[]] c' [= <-]|by intros [[]|[]]|done|].
  split_and!; [..|done|destruct (decide _); lia]; (eapply notify_other || eapply notify_holds); try exact Hn;
    by intros [[]|[]] c' [= <-].
Qed.

Lemma notify_not_full ts ts' :
  notify wake_not_full ts ts' →
  omap in_hand ts' ≡ₚ omap in_hand ts ∧ omap to_store ts' ≡ₚ omap to_store ts ∧
  tally is_worker ts' = tally is_worker ts ∧ tally worker_exits ts' = tally worker_exits ts ∧
  tally worker_takes ts' = tally worker_takes ts ∧
  tally worker_waits ts' = tally worker_waits ts ∧
  tally run_ready ts' + tally run_waiting ts' = tally run_ready ts + tally run_waiting ts ∧
  (0 < tally run_waiting ts ∧ tally run_ready ts' = tally run_ready ts + 1 ∨
   tally run_waiting ts <= 0 ∧ tally run_ready ts' = tally run_ready ts).
Proof.
  intros Hn.
  destruct (notify_weights wake_not_full ts ts' run_ready run_waiting) as [H1 H2];
    [by intros [[]|[]] c' [= <-]|by intros [[]|[]]|done|].
  split_and!; [..|done|destruct (decide _); lia]; (eapply notify_other || eapply notify_holds); try exact Hn;
    by intros [[]|[]] c' [= <-].
Qed.

(** [move_thread Hi c'] sets the facts up after thread [i] moved to [c']. *)
Ltac move_thread Hi c' :=
  match type of Hi with
  | ?ts !! ?i = Some ?c =>
      pose proof (omap_insert_perm in_hand ts i c c' Hi) as Hhand;
      pose proof (omap_insert_perm to_store ts i c c' Hi) as Hstore;
      pose proof (pool_tallies (<[i:=c']> ts)) as Hpos'
  end;
  rewrite !(tally_insert _ _ _ _ _ Hi) in *; pool_weights.

Lemma run_step_ok n tasks s s' i t :
  pool_ok n tasks s → threads s !! i = Some (Producer (RReady t)) →
  (isFull (queue_ s) ∧ s' = with_threads s (<[i:=Producer (RWaiting t)]> (threads s))) ∨
  (¬ isFull (queue_ s) ∧ ∃ ts, notify wake_not_empty (<[i:=Producer RDone]> (threads s)) ts ∧
     s' = {| queue_ := queue_ s ++ [t]; running_ := running_ s; threads := ts;
             accepted := accepted s ++ [t]; started := started s;
             executed := executed s |}) →
  pool_ok n tasks s'.
Proof.
  intros (Hfifo & Hex & Hacc & Hn & Hexit & Hstop & Htake & Hbound & Hrun) Hi Hs.
  pose proof (pool_tallies (threads s)) as Hpos.
  destruct Hs as [[Hfull ->]|(Hfull & ts & Hnot & ->)]; unfold isFull in Hfull; unfold pool_ok;
    cbn [threads queue_ running_ accepted started executed with_threads].
  - move_thread Hi (Producer (RWaiting t)).
    apply Permutation_app_inv_l with (l := [t]) in Hstore. rewrite Hhand, Hstore.
    split_and!; pool_arith.
  - apply notify_not_empty in Hnot as (Hh & Hst & H1 & H2 & H3 & H4 & H5 & H6).
    rewrite Hh, Hst, H1, H2, H3, H4. move_thread Hi (Producer RDone).
    rewrite length_app. cbn [length]. split_and!; pool_arith.
    + by rewrite Hfifo, app_assoc.
    + by rewrite Hhand.
    + rewrite <- Hacc, <- Hstore. cbn. rewrite app_assoc.
      apply Permutation_app_comm with (l' := [t]).
Qed.

Lemma take_step_ok n tasks s i t q ts :
  pool_ok n tasks s → threads s !! i = Some (Worker WTake) → queue_ s = t :: q →
  (if decide (0 < maxQueueSize_)%nat
   then notify wake_not_full (<[i:=Worker (WRun t)]> (threads s)) ts
   else ts = <[i:=Worker (WRun t)]> (threads s)) →
  pool_ok n tasks {| queue_ := q; running_ := running_ s; threads := ts;
                     accepted := accepted s; started := started s ++ [t];
                     executed := executed s |}.
Proof.
  intros (Hfifo & Hex & Hacc & Hn & Hexit & Hstop & Htake & Hbound & Hrun) Hi Hq Hs.
  pose proof (pool_tallies (threads s)) as Hpos. unfold pool_ok.
  cbn [threads queue_ running_ accepted started executed]. rewrite Hq in *. cbn [length] in *.
  assert (Hcase : accepted s = (started s ++ [t]) ++ q ∧
    started s ++ [t] ≡ₚ executed s ++ omap in_hand (<[i:=Worker (WRun t)]> (threads s))).
  { split; [by rewrite Hfifo, <- app_assoc|]. move_thread Hi (Worker (WRun t)).
    by rewrite Hhand, Hex, <- !Permutation_middle, app_nil_r. }
  destruct Hcase as [Hf He]. destruct (decide (0 < maxQueueSize_)%nat) as [Hm|Hm].
  - apply notify_not_full in Hs as (Hh & Hst & H1 & H2 & H3 & H4 & H5 & H6).
    rewrite Hh, Hst, H1, H2, H3, H4. move_thread Hi (Worker (WRun t)).
    rewrite Hstore. split_and!; pool_arith.
  - subst ts. move_thread Hi (Worker (WRun t)). rewrite Hstore. split_and!; pool_arith.
Qed.

Lemma pool_step_ok n tasks s s' : pool_ok n tasks s → pool_step s s' → pool_ok n tasks s'.
Proof.
  intros Hok Hs. destruct Hs; [eapply run_step_ok; eauto..| | | | |by eapply take_step_ok];
    destruct Hok as (Hfifo & Hex & Hacc & Hn & Hexit & Hstop & Htake & Hbound & Hrun);
    pose proof (pool_tallies (threads s)) as Hpos; unfold pool_ok;
    cbn [threads queue_ running_ accepted started executed with_threads].
  - move_thread H (Worker (if running_ s then WTake else WExit)).
    destruct (running_ s); pool_weights; cbn in Hhand, Hstore; rewrite Hhand, Hstore;
      (split_and!; pool_arith).
  - move_thread H (Worker WLoop). rewrite Hstore. split_and!; pool_arith.
    rewrite Hex, <- Hhand, <- app_assoc. done.
  - rewrite H0 in *. cbn [length] in *. move_thread H (Worker WWaiting). rewrite Hhand, Hstore.
    split_and!; pool_arith.
  - move_thread H (Worker WLoop). rewrite Hhand, Hstore. split_and!; pool_arith.
Qed.

Lemma pool_wakes_ok n tasks s s' : pool_ok n tasks s → pool_wakes s s' → pool_ok n tasks s'.
Proof.
  intros (Hfifo & Hex & Hacc & Hn & Hexit & Hstop & Htake & Hbound & Hrun) [i c c' Hi Hc].
  pose proof (pool_tallies (threads s)) as Hpos. unfold pool_ok.
  cbn [threads queue_ running_ accepted started executed with_threads].
  pose proof (omap_insert_same in_hand _ i c c' Hi) as Hhand.
  pose proof (omap_insert_same to_store _ i c c' Hi) as Hstore.
  pose proof (pool_tallies (<[i:=c']> (threads s))) as Hpos'.
  rewrite !(tally_insert _ _ _ _ _ Hi) in *.
  destruct c as [[]|[]]; destruct Hc as [[= <-]|[= <-]]; rewrite Hhand, Hstore by done;
    pool_weights; (split_and!; pool_arith).
Qed.

Lemma stop_weights ts :
  let ts' := notify_all wake_not_empty ts in
  omap in_hand ts' = omap in_hand ts ∧ omap to_store ts' = omap to_store ts ∧
  tally is_worker ts' = tally is_worker ts ∧ tally worker_exits ts' = tally worker_exits ts ∧
  tally run_ready ts' = tally run_ready ts ∧ tally run_waiting ts' = tally run_waiting ts ∧
  tally worker_waits ts' = 0.
Proof.
  induction ts as [|c ts (H1 & H2 & H3 & H4 & H5 & H6 & H7)]; [done|].
  unfold notify_all, tally in *. cbn in *. rewrite H1, H2, H3, H4, H5, H6, H7.
  by destruct c as [[]|[]].
Qed.

Lemma stop_ok n tasks s : pool_ok n tasks s → pool_ok n tasks (stop s).
Proof.
  intros (Hfifo & Hex & Hacc & Hn & Hexit & Hstop & Htake & Hbound & Hrun).
  destruct (stop_weights (threads s)) as (H1 & H2 & H3 & H4 & H5 & H6 & H7).
  unfold pool_ok, stop. cbn [threads queue_ running_ accepted started executed].
  rewrite H1, H2, H3, H4, H5, H6, H7. split_and!; pool_arith.
Qed.

Lemma tally_pool_start w v n tasks :
  (∀ t, w (Producer (RReady t)) = v) →
  tally w (threads (pool_start n tasks)) =
  Z.of_nat n * w (Worker WLoop) + Z.of_nat (length tasks) * v.
Proof.
  intros Hw. unfold pool_start. cbn [threads].
  unfold tally. induction n as [|n IH]; cbn [replicate app foldr]; [|lia]. induction tasks as [|t tasks IH]; [done|].
  cbn [fmap list_fmap foldr length] in *. rewrite Hw. lia.
Qed.

Lemma pool_start_ok n tasks : pool_ok n tasks (pool_start n tasks).
Proof.
  unfold pool_ok.
  rewrite (tally_pool_start is_worker 0), (tally_pool_start worker_exits 0),
    (tally_pool_start worker_waits 0), (tally_pool_start worker_takes 0),
    (tally_pool_start run_waiting 0), (tally_pool_start run_ready 1) by done.
  unfold pool_start; cbn [threads queue_ running_ accepted started executed]. pool_weights.
  assert (Hh : omap in_hand (replicate n (Worker WLoop) ++
                             ((λ t, Producer (RReady t)) <$> tasks)) = []).
  { rewrite omap_app. replace (omap in_hand (replicate n _)) with (@nil Task)
      by (induction n; done). induction tasks; done. }
  assert (Hs : omap to_store (replicate n (Worker WLoop) ++
                              ((λ t, Producer (RReady t)) <$> tasks)) = tasks).
  { clear Hh. rewrite omap_app. replace (omap to_store (replicate n _)) with (@nil Task)
      by (induction n; done). induction tasks as [|t tasks IH]; [done|]. cbn. by f_equal. }
  rewrite Hh, Hs, app_nil_r.
  split_and!; pool_arith; try (cbn; lia).
Qed.

Lemma pool_any_ok n tasks s : rtc pool_any (pool_start n tasks) s → pool_ok n tasks s.
Proof.
  pose proof (pool_start_ok n tasks) as Hok. revert Hok. generalize (pool_start n tasks).
  intros s0 Hok Hr. induction Hr as [|s0 s1 s2 [Hs|[Hs| ->]] _ IH]; [done|..]; apply IH;
    eauto using pool_step_ok, pool_wakes_ok, stop_ok.
Qed.

(** ** The work left *)

(** A bound of the steps a thread can still take by itself; a stored task is
    worth 5 more. In a pool that runs a worker ends up waiting, in one that was
    stopped it ends up out of its loop. *)
Definition thread_work (running : bool) (c : pool_thread) : Z :=
  match c with
  | Worker WLoop => if running then 2 else 1
  | Worker WTake => if running then 1 else 2
  | Worker WWaiting | Worker WExit => 0
  | Worker (WRun _) => 3
  | Producer (RReady _) => 8
  | Producer (RWaiting _) => 7
  | Producer RDone => 0
  end.

Definition pool_work (s : pool) : Z :=
  tally (thread_work (running_ s)) (threads s) + 5 * Z.of_nat (length (queue_ s)).

Lemma notify_thread_work r wake ts ts' :
  wake = wake_not_empty ∨ wake = wake_not_full → notify wake ts ts' →
  tally (thread_work r) ts' ≤ tally (thread_work r) ts + 2.
Proof.
  intros Hw [j c c' Hj Hc|_]; [|lia]. rewrite (tally_insert _ _ _ _ _ Hj).
  assert (thread_work r c' ≤ thread_work r c + 2); [|lia].
  destruct Hw as [->| ->]; destruct c as [[]|[]]; simplify_eq/=; destruct r; lia.
Qed.

Lemma pool_step_work s s' :
  pool_step s s' → pool_work s' < pool_work s ∧ running_ s' = running_ s.
Proof.
  intros Hs. destruct Hs; (split; [|done]); unfold pool_work;
    cbn [threads queue_ running_ with_threads]; rewrite ?length_app.
  1,3,4,5,6: rewrite (tally_insert _ _ _ _ _ H); destruct (running_ s); cbn; try lia; done.
  - apply (notify_thread_work (running_ s)) in H1; [|by left].
    rewrite (tally_insert _ _ _ _ _ H) in H1. cbn in *. lia.
  - rewrite H0. destruct (decide (0 < maxQueueSize_)%nat).
    + apply (notify_thread_work (running_ s)) in H1; [|by right].
      rewrite (tally_insert _ _ _ _ _ H) in H1. destruct (running_ s); cbn in *; lia.
    + subst ts. rewrite (tally_insert _ _ _ _ _ H). destruct (running_ s); cbn in *; lia.
Qed.

Lemma pool_work_nonneg s : 0 ≤ pool_work s.
Proof.
  unfold pool_work. pose proof (tally_nonneg (thread_work (running_ s)) (threads s)) as Hn.
  enough (0 ≤ tally (thread_work (running_ s)) (threads s)) by lia. apply Hn.
  by intros [[]|[]]; destruct (running_ s).
Qed.

Lemma pool_run_work k s s' :
  nsteps pool_step k s s' → Z.of_nat k + pool_work s' ≤ pool_work s ∧ running_ s' = running_ s.
Proof.
  induction 1 as [s|k s s1 s2 Hs _ [IH1 IH2]]; [split; [lia|done]|].
  apply pool_step_work in Hs as [Hs Hr]. split; [lia|congruence].
Qed.

Lemma pool_run_bound k s s' : nsteps pool_step k s s' → Z.of_nat k ≤ pool_work s.
Proof. intros H. apply pool_run_work in H as [H _]. pose proof (pool_work_nonneg s'). lia. Qed.

(** The threads that cannot take a step: those that wait, and those that ended. *)
Lemma stuck_threads s i c :
  (¬ ∃ s', pool_step s s') → threads s !! i = Some c →
  c = Worker WWaiting ∨ c = Worker WExit ∨ c = Producer RDone ∨
  ∃ t, c = Producer (RWaiting t).
Proof.
  intros Hstuck Hi. destruct c as [[| | |t|]|[t|t|]]; eauto 6; exfalso; apply Hstuck.
  - eexists. by eapply loop_test.
  - destruct (queue_ s) as [|t q] eqn:Hq.
    + destruct (running_ s) eqn:Hr; eexists; [by eapply take_waits|by eapply take_nothing].
    + assert (∃ ts, if decide (0 < maxQueueSize_)%nat
                    then notify wake_not_full (<[i:=Worker (WRun t)]> (threads s)) ts
                    else ts = <[i:=Worker (WRun t)]> (threads s)) as [ts Hts]
        by (destruct (decide _); [apply notify_exists|eauto]).
      eexists. by eapply take_task.
  - eexists. by eapply task_runs.
  - destruct (decide (isFull (queue_ s))) as [Hf|Hf]; [eexists; by eapply run_waits|].
    destruct (notify_exists wake_not_empty (<[i:=Producer RDone]> (threads s))) as [ts Hts].
    eexists. by eapply run_stores.
Qed.

Lemma stuck_tally s w :
  (¬ ∃ s', pool_step s s') →
  w (Worker WWaiting) = 0 → w (Worker WExit) = 0 → w (Producer RDone) = 0 →
  (∀ t, w (Producer (RWaiting t)) = 0) → tally w (threads s) = 0.
Proof.
  intros Hstuck H1 H2 H3 H4.
  assert (Hall : ∀ c, c ∈ threads s → w c = 0).
  { intros c Hc. apply list_elem_of_lookup in Hc as [i Hi].
    by destruct (stuck_threads s i c Hstuck Hi) as [->|[->|[->|[t ->]]]]. }
  revert Hall. generalize (threads s) as ts. unfold tally.
  induction ts as [|c ts IH]; intros Hall; cbn; [done|].
  rewrite IH, Hall by set_solver. done.
Qed.

Lemma omap_nil {B} (f : pool_thread → option B) (ts : list pool_thread) :
  (∀ c, c ∈ ts → f c = None) → omap f ts = [].
Proof.
  induction ts as [|c ts IH]; intros H; [done|]. cbn. rewrite H by set_solver.
  apply IH. set_solver.
Qed.

(** A running pool in which nothing can move has executed everything. *)
Lemma stuck_executed n tasks s :
  n ≠ 0%nat → pool_ok n tasks s → running_ s = true → (¬ ∃ s', pool_step s s') →
  executed s ≡ₚ tasks ∧ queue_ s = [] ∧
  Forall (λ c, c = Worker WWaiting ∨ c = Producer RDone) (threads s).
Proof.
  intros Hn (Hfifo & Hex & Hacc & Hwork & Hexit & Hstop & Htake & Hbound & Hwait) Hrun Hstuck.
  pose proof (pool_tallies (threads s)) as Hpos. specialize (Hexit Hrun).
  pose proof (stuck_tally s worker_takes Hstuck eq_refl eq_refl eq_refl (λ _, eq_refl)) as Ht.
  pose proof (stuck_tally s run_ready Hstuck eq_refl eq_refl eq_refl (λ _, eq_refl)) as Hready.
  assert (Hlast : ∀ c, c ∈ threads s →
    c = Worker WWaiting ∨ c = Producer RDone ∨ ∃ t, c = Producer (RWaiting t)).
  { intros c Hc. pose proof Hc as Hc'. apply list_elem_of_lookup in Hc as [i Hi].
    destruct (stuck_threads _ _ _ Hstuck Hi) as [?|[->|?]]; auto.
    pose proof (tally_in worker_exits _ _ (ltac:(by intros [[]|[]])) Hc' eq_refl). lia. }
  assert (0 < tally worker_waits (threads s)) as Hw.
  { destruct (tally_pos is_worker (threads s)) as (i & c & Hi & Hc); [lia|].
    apply list_elem_of_lookup_2 in Hi.
    apply (tally_in _ _ c); [by intros [[]|[]]|done|].
    destruct (Hlast c Hi) as [->|[->|[t ->]]]; done. }
  specialize (Htake Hw). assert (queue_ s = []) as Hq by (apply nil_length_inv; lia).
  assert (Hnw : tally run_waiting (threads s) = 0).
  { destruct (decide (0 < tally run_waiting (threads s))) as [Hp|]; [|lia].
    specialize (Hwait Hp) as [? ?]. lia. }
  assert (Hend : ∀ c, c ∈ threads s → c = Worker WWaiting ∨ c = Producer RDone).
  { intros c Hc. destruct (Hlast c Hc) as [?|[?|[t ->]]]; auto.
    pose proof (tally_in run_waiting _ _ (ltac:(by intros [[]|[]])) Hc eq_refl). lia. }
  rewrite !omap_nil in * by (intros c Hc; by destruct (Hend c Hc) as [->| ->]).
  rewrite Hq, ?app_nil_r in *. split; [by rewrite <- Hex, <- Hfifo, <- Hacc|].
  split; [done|]. by apply Forall_forall.
Qed.

(** A stopped one can be joined. *)
Lemma stuck_joined n tasks s :
  pool_ok n tasks s → running_ s = false → (¬ ∃ s', pool_step s s') →
  joined s ∧ accepted s ≡ₚ executed s ++ queue_ s.
Proof.
  intros (Hfifo & Hex & _ & _ & _ & Hstop & _) Hrun Hstuck. specialize (Hstop Hrun).
  assert (Hall : ∀ c, c ∈ threads s →
    match c with Worker WExit => True | Worker _ => False | Producer _ => True end).
  { intros c Hc. pose proof Hc as Hc'. apply list_elem_of_lookup in Hc as [i Hi].
    destruct (stuck_threads _ _ _ Hstuck Hi) as [->|[->|[->|[t ->]]]]; try done.
    pose proof (tally_in worker_waits _ _ (ltac:(by intros [[]|[]])) Hc' eq_refl). lia. }
  split.
  - apply Forall_forall. intros c Hc. specialize (Hall c Hc). by destruct c as [[]|[]].
  - rewrite omap_nil in Hex; [by rewrite Hfifo, Hex, app_nil_r|].
    intros c Hc. specialize (Hall c Hc). by destruct c as [[]|[]].
Qed.

(** A new call of [run]. *)
Lemma run_call_ok n tasks s i t :
  pool_ok n tasks s → threads s !! i = Some (Producer RDone) →
  pool_ok n (t :: tasks) (with_threads s (<[i:=Producer (RReady t)]> (threads s))).
Proof.
  intros (Hfifo & Hex & Hacc & Hn & Hexit & Hstop & Htake & Hbound & Hrun) Hi.
  pose proof (pool_tallies (threads s)) as Hpos. unfold pool_ok.
  cbn [threads queue_ running_ accepted started executed with_threads].
  move_thread Hi (Producer (RReady t)). rewrite Hhand, Hstore, <- Hacc.
  split_and!; pool_arith.
Qed.

(** ** Theorems *)

(** C11: A started pool at every moment of every run, with any number of workers
    and calls of [run], spurious wake-ups and calls of [stop] included: the tasks
    leave the queue in the order they entered it, each is executed once, by the
    worker that took it; the bound is kept; and no wake-up is lost: while a
    worker waits for a task that is there, another one is about to take it, and
    a stopped pool has no worker that waits. *)
Theorem pool_invariant n tasks s :
  rtc pool_any (pool_start n tasks) s →
  accepted s = started s ++ queue_ s ∧
  started s ≡ₚ executed s ++ omap in_hand (threads s) ∧
  ((0 < maxQueueSize_)%nat → (length (queue_ s) ≤ maxQueueSize_)%nat) ∧
  (Worker WWaiting ∈ threads s →
     running_ s = true ∧ (queue_ s ≠ [] → Worker WTake ∈ threads s)).
Proof.
  intros Hr. destruct (pool_any_ok _ _ _ Hr)
    as (Hfifo & Hex & _ & _ & _ & Hstop & Htake & Hbound & _).
  split; [done|]. split; [done|]. split; [done|]. intros Hw.
  assert (0 < tally worker_waits (threads s)) as Hpos
    by (eapply tally_in; [|exact Hw|done]; by intros [[]|[]]).
  split; [destruct (running_ s); [done|]; specialize (Hstop eq_refl); lia|].
  intros Hq. specialize (Htake Hpos).
  destruct (tally_pos worker_takes (threads s)) as (i & c & Hi & Hc).
  { destruct (queue_ s); [done|]. cbn in Htake. lia. }
  apply list_elem_of_lookup_2 in Hi. by destruct c as [[]|[]].
Qed.

(** C7: Liveness. As long as nobody stops the pool, and it has a worker, every
    run without spurious wake-ups comes to an end whatever the scheduler and
    [notify] choose, and where it cannot go on every call of [run] has returned,
    the queue is empty and every task has been executed. No call waits for ever. *)
Theorem pool_executes_every_task n tasks s k s' :
  n ≠ 0%nat → rtc pool_any (pool_start n tasks) s → running_ s = true →
  nsteps pool_step k s s' →
  Z.of_nat k ≤ pool_work s ∧
  ((¬ ∃ s'', pool_step s' s'') →
   executed s' ≡ₚ tasks ∧ queue_ s' = [] ∧
   Forall (λ c, c = Worker WWaiting ∨ c = Producer RDone) (threads s')).
Proof.
  intros Hn Hr Hrun Hk. split; [by eapply pool_run_bound|]. intros Hstuck.
  pose proof (pool_run_work _ _ _ Hk) as [_ Hrun']. rewrite Hrun in Hrun'.
  apply (stuck_executed n); [done| |done|done]. apply pool_any_ok.
  etrans; [exact Hr|]. apply (rtc_subrel pool_step); [by left|]. by eapply rtc_nsteps_2.
Qed.

(** Termination of [stop]. After it every run without spurious wake-ups ends,
    and where it cannot go on the workers have all left their loops: the joins
    return. Every task that [run] stored has been executed or is left in the
    queue. *)
Theorem stop_terminates n tasks s k s' :
  rtc pool_any (pool_start n tasks) s → nsteps pool_step k (stop s) s' →
  Z.of_nat k ≤ pool_work (stop s) ∧
  ((¬ ∃ s'', pool_step s' s'') →
   joined s' ∧ accepted s' ≡ₚ executed s' ++ queue_ s').
Proof.
  intros Hr Hk. split; [by eapply pool_run_bound|]. intros Hstuck.
  pose proof (pool_run_work _ _ _ Hk) as [_ Hrun].
  apply (stuck_joined n tasks); [|done|done]. apply pool_any_ok.
  etrans; [exact Hr|]. eapply rtc_l; [right; right; reflexivity|].
  apply (rtc_subrel pool_step); [by left|]. by eapply rtc_nsteps_2.
Qed.

(** Steps of a pool whose workers are gone. *)
Lemma joined_step s s' i t :
  joined s → running_ s = false → threads s !! i = Some (Producer (RWaiting t)) →
  pool_step s s' →
  joined s' ∧ running_ s' = false ∧ threads s' !! i = Some (Producer (RWaiting t)) ∧
  executed s' = executed s ∧ queue_ s `prefix_of` queue_ s'.
Proof.
  intros Hj Hr Hi Hs. unfold joined in *. rewrite Forall_forall in Hj.
  assert (Hno : ∀ j w, threads s !! j = Some (Worker w) → w = WExit).
  { intros j w Hw. apply list_elem_of_lookup_2 in Hw. specialize (Hj _ Hw). by destruct w. }
  assert (Hins : ∀ p j, joined (with_threads s (<[j:=Producer p]> (threads s)))).
  { intros p j. unfold joined. cbn. apply Forall_insert; [by apply Forall_forall|done]. }
  destruct Hs as [j u Hj'|j u ts Hj' Hf Hnot|j Hj'|j u Hj'|j Hj'|j Hj'|j u q ts Hj'];
    try (by apply Hno in Hj'); cbn [threads queue_ running_ executed with_threads].
  - assert (i ≠ j) by congruence. rewrite list_lookup_insert_ne by done.
    by split_and!; [apply Hins| | | |].
  - assert (i ≠ j) by congruence. specialize (Hins RDone j). unfold joined in Hins. cbn in Hins.
    assert (ts = <[j:=Producer RDone]> (threads s)) as ->.
    { destruct Hnot as [l c c' Hl Hc|]; [|done]. rewrite Forall_forall in Hins.
      apply list_elem_of_lookup_2 in Hl. specialize (Hins _ Hl). by destruct c as [[]|[]]. }
    rewrite list_lookup_insert_ne by done. split_and!; try done. by exists [u].
Qed.

(** What [stop] leaves behind. It neither drains the queue nor broadcasts
    [notFull_]: once the workers are gone nothing is executed any more, the tasks
    in the queue stay there, and a call of [run] that waits for a place waits for
    ever. *)
Theorem stop_abandons s i t s' :
  running_ s = false → joined s →
  threads s !! i = Some (Producer (RWaiting t)) → rtc pool_step s s' →
  executed s' = executed s ∧ queue_ s `prefix_of` queue_ s' ∧
  threads s' !! i = Some (Producer (RWaiting t)).
Proof.
  intros Hrun Hj Hi Hs. induction Hs as [s|s s1 s2 Hs _ IH]; [done|].
  destruct (joined_step _ _ _ _ Hj Hrun Hi Hs) as (Hj1 & Hr1 & Hi1 & He1 & Hq1).
  destruct (IH Hr1 Hj1 Hi1) as (He & Hq & Ht).
  split; [by rewrite He|]. split; [by etrans|done].
Qed.
End pool.
Arguments pool : clear implicits.

(** One worker, a queue of one place and three calls of [run]: two tasks are stored, the
    first of them executed. *)
Lemma pool_invariant_witness :
  let s := {| queue_ := [2]; running_ := true;
              threads := [Worker WLoop; Producer RDone; Producer RDone; Producer (RWaiting 3)];
              accepted := [1; 2]; started := [1]; executed := [1] |} in
  accepted s = started s ++ queue_ s ∧
  started s ≡ₚ executed s ++ omap in_hand (threads s) ∧
  ((0 < 1)%nat → (length (queue_ s) ≤ 1)%nat) ∧
  (Worker WWaiting ∈ threads s →
     running_ s = true ∧ (queue_ s ≠ [] → Worker WTake ∈ threads s)).
Proof.
  intros s. apply (pool_invariant 1 1 [1; 2; 3]).
  eapply rtc_l; [left; apply (run_stores _ _ 1 1);
    [done|cbv; lia|apply notify_none; repeat constructor]|].
  eapply rtc_l; [left; by apply (loop_test _ _ 0)|].
  eapply rtc_l; [left; eapply (take_task _ _ 0 1 []); [done|done|];
    cbn; apply notify_none; repeat constructor|].
  eapply rtc_l; [left; apply (run_stores _ _ 2 2);
    [done|cbv; lia|apply notify_none; repeat constructor]|].
  eapply rtc_l; [left; apply (run_waits _ _ 3 3); [done|cbv; lia]|].
  eapply rtc_l; [left; by apply (task_runs _ _ 0 1)|]. apply rtc_refl.
Defined.

Lemma pool_executes_every_task_witness :
  let s := {| queue_ := []; running_ := true; threads := [Worker WWaiting; Producer RDone];
              accepted := [7]; started := [7]; executed := [7] |} in
  6 ≤ pool_work (pool_start 1 [7]) ∧
  ((¬ ∃ s', pool_step 0 s s') →
   executed s ≡ₚ [7] ∧ queue_ s = [] ∧
   Forall (λ c, c = Worker WWaiting ∨ c = Producer RDone) (threads s)).
Proof.
  intros s. apply (pool_executes_every_task 0 1 [7] (pool_start 1 [7]) 6 s);
    [done|apply rtc_refl|done|].
  eapply nsteps_l; [apply (run_stores _ _ 1 7);
    [done|cbv; lia|apply notify_none; repeat constructor]|].
  eapply nsteps_l; [by apply (loop_test _ _ 0)|].
  eapply nsteps_l; [by eapply (take_task _ _ 0 7 [])|].
  eapply nsteps_l; [by apply (task_runs _ _ 0 7)|].
  eapply nsteps_l; [by apply (loop_test _ _ 0)|].
  eapply nsteps_l; [by apply (take_waits _ _ 0)|]. apply nsteps_O.
Defined.

(** The pool is stopped before the worker looked at the queue. *)
Lemma stop_terminates_witness :
  let s := {| queue_ := [1]; running_ := true;
              threads := [Worker WLoop; Producer RDone; Producer (RWaiting 2)];
              accepted := [1]; started := []; executed := [] |} in
  let s' := {| queue_ := [1]; running_ := false;
               threads := [Worker WExit; Producer RDone; Producer (RWaiting 2)];
               accepted := [1]; started := []; executed := [] |} in
  1 ≤ pool_work (stop s) ∧
  ((¬ ∃ s'', pool_step 1 s' s'') →
   joined s' ∧ accepted s' ≡ₚ executed s' ++ queue_ s').
Proof.
  intros s s'. apply (stop_terminates 1 1 [1; 2] s 1 s').
  - eapply rtc_l; [left; apply (run_stores _ _ 1 1);
      [done|cbv; lia|apply notify_none; repeat constructor]|].
    eapply rtc_l; [left; apply (run_waits _ _ 2 2); [done|cbv; lia]|]. apply rtc_refl.
  - eapply nsteps_l; [by apply (loop_test _ _ 0)|]. apply nsteps_O.
Defined.

(** That state, which a run of the pool reaches, with task 1 in the queue and the
    call with task 2 waiting: a task is lost and a thread hangs. *)
Lemma stop_abandons_witness :
  let s := {| queue_ := [1]; running_ := false;
              threads := [Worker WExit; Producer RDone; Producer (RWaiting 2)];
              accepted := [1]; started := []; executed := [] |} in
  rtc (pool_any 1) (pool_start 1 [1; 2]) s ∧
  ∀ s', rtc (pool_step 1) s s' →
    executed s' = [] ∧ [1] `prefix_of` queue_ s' ∧
    threads s' !! 2%nat = Some (Producer (RWaiting 2)).
Proof.
  intros s. split.
  - eapply rtc_l; [left; apply (run_stores _ _ 1 1);
      [done|cbv; lia|apply notify_none; repeat constructor]|].
    eapply rtc_l; [left; apply (run_waits _ _ 2 2); [done|cbv; lia]|].
    eapply rtc_l; [right; right; reflexivity|].
    eapply rtc_l; [left; by apply (loop_test _ _ 0)|]. apply rtc_refl.
  - intros s' Hs. apply (stop_abandons 1 s 2 2 s'); [done| |done|exact Hs].
    by repeat constructor.
Defined.
