(* ===== verification/FileExt.v ===== *)
(** Matching files by extension, [src/src/utils/file_ext/file_ext.c]: a set of
    lower-case extensions, a scratch buffer as long as the longest one, and a
    flag that inverts the answer.

    The keys of the table are copies it owns; inserting a present key frees the
    new copy, whose pointer becomes the value, which is only compared with
    [NULL]. [g_malloc] does not return on failure. *)

From S2P Require Import Prelude CString GHash.

Definition FILE_EXT_NOT_MATCH : Z := 0.
Definition FILE_EXT_MATCH : Z := 1.

(** [g_ascii_strdown]. *)
Definition ascii_tolower (c : ascii) : ascii :=
  let n := char_code c in
  if (65 <=? n) && (n <=? 90) then ascii_of_N (Z.to_N (n + 32)) else c.
Definition strdown (s : bytes) : bytes := map ascii_tolower s.

Section file_ext.
Context {T : Type → Type → Type} `{!GHashTable T}.

Record file_ext_t := {
  count : Z;
  ext_hs : T unit unit;
  max_str : option bytes;   (** the scratch buffer *)
  max_str_len : Z;
  is_black : Z
}.

(** A [file_ext_t*]. *)
Inductive file_ext_ptr :=
  | FNull
  | FLive (f : file_ext_t)
  | FFreed.

Definition init_file_ext : file_ext_ptr :=
  FLive {| count := 0; ext_hs := gh_new; max_str := Some (replicate 6 NUL);
           max_str_len := 5; is_black := 0 |}.

Definition clear_file_ext (p : file_ext_ptr) : outcome file_ext_ptr :=
  match p with
  | FNull => mret FNull
  | FFreed => Undef UseAfterFree
  | FLive f => mret (FLive {| count := 0; ext_hs := gh_new; max_str := None;
                              max_str_len := 0; is_black := is_black f |})
  end.

(** The caller's pointer is not cleared. *)
Definition destroy_file_ext (p : file_ext_ptr) : outcome file_ext_ptr :=
  match p with
  | FNull => mret FNull
  | _ => match p with FFreed => Undef UseAfterFree | _ => mret FFreed end
  end.

Definition add_file_ext (p : file_ext_ptr) (ext : option bytes)
    : outcome (Z * file_ext_ptr) :=
  match p, ext with
  | FNull, _ | _, None => mret (-1, p)
  | FFreed, Some _ => Undef UseAfterFree
  | FLive f, Some ext =>
      let len := to_s 32 (zlen ext) in
      count ← int_ (count f + 1);
      let hs := gh_insert (strdown ext) tt tt (ext_hs f) in
      if decide (len > max_str_len f) then
        mret (0, FLive {| count := count; ext_hs := hs;
                          max_str := Some (replicate (Z.to_nat (len + 1)) NUL);
                          max_str_len := len; is_black := is_black f |})
      else
        mret (0, FLive {| count := count; ext_hs := hs; max_str := max_str f;
                          max_str_len := max_str_len f; is_black := is_black f |})
  end.

(** What the backward scan ends with: the characters after the last dot in
    reverse, in the buffer and their number, or [None] when the file has no
    extension or it is too long. *)
Definition extract_ext (file_name : bytes) (max_len : Z) (buf : bytes)
    : outcome (bytes * option Z) :=
  loop (S (length file_name)) (λ '(i, ext_len, buf),
    if decide (i > 0) then
      c ← aget file_name i;
      if decide (c = "."%char) then mret (Stop (buf, Some ext_len))
      else
        buf ← aset buf ext_len c;
        let ext_len := ext_len + 1 in
        if decide (ext_len > max_len) then mret (Stop (buf, None))
        else mret (Next (i - 1, ext_len, buf))
    else mret (Stop (buf, None))) (to_s 32 (zlen file_name) - 1, 0, buf).

(** [is_black] inverts. *)
Definition apply_black (f : file_ext_t) (match_result : Z) : Z :=
  if decide (is_black f ≠ 0) then
    if decide (FILE_EXT_MATCH = match_result) then FILE_EXT_NOT_MATCH else FILE_EXT_MATCH
  else match_result.

Definition set_buffer (f : file_ext_t) (b : bytes) : file_ext_t :=
  {| count := count f; ext_hs := ext_hs f; max_str := Some b;
     max_str_len := max_str_len f; is_black := is_black f |}.

(** [strlen(file_name)] comes before the test of the pointer. *)
Definition is_need_file_ext (p : file_ext_ptr) (file_name : option bytes)
    : outcome (Z * file_ext_ptr) :=
  match file_name with
  | None => Undef NullDeref
  | Some file_name =>
      match p with
      | FNull => mret (-1, FNull)
      | FFreed => Undef UseAfterFree
      | FLive f =>
          match max_str f with
          | None => Undef NullDeref
          | Some buf =>
              buf ← aset buf 0 NUL;
              '(buf, found) ← extract_ext file_name (max_str_len f) buf;
              match found with
              | None => mret (apply_black f FILE_EXT_NOT_MATCH, FLive (set_buffer f buf))
              | Some ext_len =>
                  buf ← aset buf ext_len NUL;
                  let new_ext := rev (cstr buf) in    (* g_strreverse *)
                  let buf := new_ext ++ drop (length new_ext) buf in
                  let result := match gh_lookup (strdown new_ext) (ext_hs f) with
                                | Some _ => FILE_EXT_MATCH
                                | None => FILE_EXT_NOT_MATCH
                                end in
                  mret (apply_black f result, FLive (set_buffer f buf))
              end
          end
      end
  end.

Definition set_file_ext_black_white (p : file_ext_ptr) (black : Z) : outcome file_ext_ptr :=
  match p with
  | FNull => mret FNull
  | FFreed => Undef UseAfterFree
  | FLive f => mret (FLive {| count := count f; ext_hs := ext_hs f; max_str := max_str f;
                              max_str_len := max_str_len f; is_black := black |})
  end.
End file_ext.

(** ** The extension of a name *)

(** The part behind the last dot, unless that dot is the first character. *)
Definition extension (file_name : bytes) : option bytes :=
  match last_dot file_name with
  | Some (_ :: _, e) => Some e
  | _ => None
  end.

Definition no_dot (s : bytes) : Prop := Forall (λ c, c ≠ "."%char) s.

Lemma extension_split s e :
  extension s = Some e → ∃ c b, s = (c :: b) ++ "."%char :: e ∧ no_dot e.
Proof.
  unfold extension. pose proof (last_dot_spec s) as H.
  destruct (last_dot s) as [[[|c b] e']|]; try done. intros [= ->]. by exists c, b.
Qed.

Lemma extension_app c b e :
  no_dot e → extension ((c :: b) ++ "."%char :: e) = Some e.
Proof. intros He. unfold extension. by rewrite last_dot_app. Qed.

(** A suffix without dots begins behind the last dot. *)
Lemma no_dot_suffix b e k : no_dot (drop k (b ++ "."%char :: e)) → (length b < k)%nat.
Proof.
  intros H. destruct (decide (length b < k)%nat) as [|Hk]; [done|].
  unfold no_dot in H. rewrite drop_app_le, Forall_app in H by lia.
  destruct H as [_ H]. by apply Forall_cons in H as [H _].
Qed.

(** One more character of the name in the buffer. *)
Lemma scan_push (s b : bytes) i n :
  0 ≤ i < zlen s → 0 ≤ n < zlen b →
  take (Z.to_nat n) b = rev (drop (Z.to_nat (i + 1)) s) →
  take (Z.to_nat (n + 1)) (upd b n (rd s i)) = rev (drop (Z.to_nat i) s).
Proof.
  intros Hi Hn Ht.
  assert (drop (Z.to_nat i) s = rd s i :: drop (Z.to_nat (i + 1)) s) as ->.
  { replace (Z.to_nat (i + 1)) with (S (Z.to_nat i)) by lia.
    apply drop_S, lookup_rd. lia. }
  simpl. rewrite <- Ht. replace (Z.to_nat (n + 1)) with (S (Z.to_nat n)) by lia.
  unfold upd. erewrite take_S_r.
  - f_equal. rewrite take_insert_ge by lia. done.
  - rewrite list_lookup_insert_eq by (unfold zlen in Hn; lia). done.
Qed.

Section file_ext_facts.
Context {T : Type → Type → Type} `{!GHashTable T, !GHashTableLaws T}.
Implicit Types (f : file_ext_t (T:=T)).

(** The buffer has room for the longest extension, and no key is longer. *)
Definition ext_ok f : Prop :=
  0 ≤ max_str_len f ≤ INT_MAX - 1 ∧
  (∃ b, max_str f = Some b ∧ zlen b = max_str_len f + 1) ∧
  ∀ k e, gh_lookup k (ext_hs f) = Some e → zlen k ≤ max_str_len f.

(** The scan: the buffer keeps its size and begins with the reversed
    extension; it fails exactly when there is no extension that fits. *)
Lemma extract_ext_spec file_name max_len buf :
  no_nul file_name → zlen file_name ≤ INT_MAX → 0 ≤ max_len → zlen buf = max_len + 1 →
  wp (extract_ext file_name max_len buf) (λ '(b, r), zlen b = max_len + 1 ∧
    match r with
    | Some n => ∃ e, extension file_name = Some e ∧ zlen e = n ∧ n ≤ max_len ∧
                     take (length e) b = rev e
    | None => ∀ e, extension file_name = Some e → max_len < zlen e
    end).
Proof.
  intros Hnn Hlen Hmax Hbuf. unfold extract_ext.
  set (n := zlen file_name) in *.
  rewrite to_s_small by (unfold n, zlen, INT_MAX in *; lia).
  apply (wp_loop (λ '(i, ext_len, b),
    -1 ≤ i < n ∧ (i = -1 → n = 0) ∧ ext_len = n - 1 - i ∧
    zlen b = max_len + 1 ∧ ext_len ≤ max_len ∧
    no_dot (drop (Z.to_nat (i + 1)) file_name) ∧
    take (Z.to_nat ext_len) b = rev (drop (Z.to_nat (i + 1)) file_name))
    (λ s, Z.to_nat s.1.1)).
  - assert (0 ≤ n) by (unfold n, zlen; lia).
    replace (Z.to_nat (n - 1 + 1)) with (length file_name) by (unfold n, zlen; lia).
    rewrite drop_all. split_and!; try lia; [constructor|done].
  - simpl. unfold n, zlen. lia.
  - intros [[i ext_len] b] (Hi&Hi0&->&Hb&Hfit&Hdot&Ht). cbn beta iota.
    case_decide as Hpos.
    2: { wp_steps. split; [done|]. intros e (c&b0&Heq&_)%extension_split. exfalso.
         rewrite Heq in Hdot. apply no_dot_suffix in Hdot. simpl in Hdot. lia. }
    wp_steps. case_decide as Hc; wp_steps.
    + assert (Hlk : file_name !! Z.to_nat i = Some "."%char).
      { rewrite <- Hc. apply lookup_rd. lia. }
      split; [done|]. exists (drop (Z.to_nat (i + 1)) file_name).
      rewrite length_drop. split_and!; [..|done|].
      * rewrite <- (take_drop_middle _ _ _ Hlk) at 1.
        replace (S (Z.to_nat i)) with (Z.to_nat (i + 1)) by lia.
        destruct (take (Z.to_nat i) file_name) as [|c b0] eqn:E; [|by apply extension_app].
        apply (f_equal length) in E. rewrite length_take in E. unfold n, zlen in *. simpl in E. lia.
      * unfold zlen. rewrite length_drop. unfold n, zlen in *. lia.
      * rewrite <- Ht. f_equal. unfold n, zlen in *. lia.
    + assert (Hdot' : no_dot (drop (Z.to_nat i) file_name)).
      { assert (drop (Z.to_nat i) file_name = rd file_name i :: drop (Z.to_nat (i + 1)) file_name)
          as ->; [|by constructor].
        replace (Z.to_nat (i + 1)) with (S (Z.to_nat i)) by lia. apply drop_S, lookup_rd. lia. }
      case_decide as Hfull; wp_steps.
      * rewrite zlen_upd. split; [done|]. intros e (c&b0&Heq&_)%extension_split.
        rewrite Heq in Hdot'. apply no_dot_suffix in Hdot'.
        assert (n = zlen ((c :: b0) ++ "."%char :: e)) as Hn by (unfold n; by rewrite Heq).
        unfold zlen in *. rewrite length_app in Hn. simpl in *. lia.
      * rewrite zlen_upd. replace (i - 1 + 1) with i by lia.
        split; [split_and!; try lia; [done|]|simpl; lia].
        apply scan_push; [fold n; lia|lia|done].
Qed.

(** The extensions of the table, up to case. *)
Definition listed f (e : bytes) : Prop := is_Some (gh_lookup (strdown e) (ext_hs f)).

Lemma strdown_length s : zlen (strdown s) = zlen s.
Proof. unfold zlen, strdown. by rewrite length_map. Qed.

Lemma init_ok f : init_file_ext = FLive f → ext_ok f ∧ count f = 0 ∧ is_black f = 0 ∧
  ∀ e, ¬ listed f e.
Proof.
  intros [= <-]. split_and!; [|done|done|].
  - split_and!; [done|done|by eexists|]. intros k e. simpl. by rewrite gh_lookup_new.
  - intros e [x H]. simpl in H. by rewrite gh_lookup_new in H.
Qed.

(** Adding an extension. *)
Lemma add_file_ext_spec f ext :
  ext_ok f → zlen ext < INT_MAX → 0 ≤ count f < INT_MAX →
  ∃ f', add_file_ext (FLive f) (Some ext) = Ret (0, FLive f') ∧ ext_ok f' ∧
    count f' = count f + 1 ∧ is_black f' = is_black f ∧
    ∀ e, listed f' e ↔ strdown e = strdown ext ∨ listed f e.
Proof.
  intros (Hm&(b&Hb&Hz)&Hk) Hlen Hcount. unfold add_file_ext.
  assert (to_s 32 (zlen ext) = zlen ext) as ->
    by (apply to_s_small; unfold zlen, INT_MAX in *; lia).
  unfold int_. rewrite decide_True by (unfold in_int, INT_MIN, INT_MAX in *; lia).
  cbn [mbind outcome_bind].
  assert (Hlist : ∀ e, is_Some (gh_lookup (strdown e) (gh_insert (strdown ext) tt tt (ext_hs f))) ↔
    strdown e = strdown ext ∨ listed f e).
  { intros e. unfold listed. rewrite gh_lookup_insert_case. case_decide as E.
    - split; [by left|by eexists].
    - split; [by right|intros [?|?]; [congruence|done]]. }
  assert (Hkeys : ∀ k e L, max_str_len f ≤ L → zlen ext ≤ L →
    gh_lookup k (gh_insert (strdown ext) tt tt (ext_hs f)) = Some e → zlen k ≤ L).
  { intros k e L HL1 HL2. rewrite gh_lookup_insert_case. case_decide as E.
    - intros _. subst k. by rewrite strdown_length.
    - intros Hin. apply Hk in Hin. lia. }
  assert (0 ≤ zlen ext) by (unfold zlen; lia).
  case_decide as Hlong; eexists; (split; [done|]);
    (split; [|by split_and!]); unfold ext_ok; simpl; split_and!; try lia.
  - eexists. split; [done|]. unfold zlen. rewrite length_replicate. lia.
  - intros k e. by apply Hkeys; [lia|].
  - by exists b.
  - intros k e. by apply Hkeys; [|lia].
Qed.

(** The answer for a table in order. *)
Lemma is_need_file_ext_spec f file_name :
  ext_ok f → no_nul file_name → zlen file_name ≤ INT_MAX →
  ∃ f' r, is_need_file_ext (FLive f) (Some file_name) = Ret (apply_black f r, FLive f') ∧
    ext_ok f' ∧ ext_hs f' = ext_hs f ∧ is_black f' = is_black f ∧
    ((r = FILE_EXT_MATCH ∧ ∃ e, extension file_name = Some e ∧ listed f e) ∨
     (r = FILE_EXT_NOT_MATCH ∧ ∀ e, extension file_name = Some e → ¬ listed f e)).
Proof.
  intros (Hm&(b&Hb&Hz)&Hk) Hnn Hlen. unfold is_need_file_ext. rewrite Hb.
  rewrite aset_ok by lia. cbn [mbind outcome_bind].
  assert (Hub : zlen (upd b 0 NUL) = max_str_len f + 1) by by rewrite zlen_upd.
  pose proof (extract_ext_spec file_name (max_str_len f) (upd b 0 NUL) Hnn Hlen
    (proj1 Hm) Hub) as He.
  apply wp_iff in He as ([b1 found]&->&Hz1&He). cbn [mbind outcome_bind].
  assert (Hok : ∀ b', zlen b' = max_str_len f + 1 → ext_ok (set_buffer f b')).
  { intros b' Hb'. split_and!; simpl; [lia|lia|by exists b'|done]. }
  destruct found as [n|].
  2: { eexists _, FILE_EXT_NOT_MATCH. split; [done|]. split; [by apply Hok|].
       split_and!; [done|done|]. right. split; [done|]. intros e Hext [x Hx].
       apply He in Hext. apply Hk in Hx. rewrite strdown_length in Hx. lia. }
  destruct He as (e&Hext&Hen&Hn&Htake).
  rewrite aset_ok by (unfold zlen in *; lia). cbn [mbind outcome_bind].
  assert (Hcstr : rev (cstr (upd b1 n NUL)) = e).
  { assert (upd b1 n NUL = rev e ++ NUL :: drop (S (length e)) b1) as ->.
    { unfold upd. rewrite insert_take_drop by (unfold zlen in *; lia).
      replace (Z.to_nat n) with (length e) by (unfold zlen in *; lia). by rewrite Htake. }
    unfold cstr. rewrite take_while_app.
    - rewrite take_while_stop by done. rewrite app_nil_r. apply rev_involutive.
    - apply Forall_rev. apply extension_split in Hext as (c&b0&Heq&_).
      unfold no_nul in Hnn. rewrite Heq, Forall_app in Hnn. destruct Hnn as [_ Hnn].
      by apply Forall_cons in Hnn as [_ Hnn]. }
  rewrite Hcstr. set (b2 := e ++ drop (length e) (upd b1 n NUL)).
  assert (Hz2 : zlen b2 = max_str_len f + 1).
  { unfold b2. pose proof (zlen_upd b1 n NUL) as Hu. unfold zlen in *.
    rewrite length_app, length_drop. lia. }
  destruct (gh_lookup (strdown e) (ext_hs f)) as [x|] eqn:E.
  - eexists _, FILE_EXT_MATCH. split; [done|]. split; [by apply Hok|].
    split_and!; [done|done|]. left. split; [done|]. exists e. split; [done|].
    unfold listed. rewrite E. by eexists.
  - eexists _, FILE_EXT_NOT_MATCH. split; [done|]. split; [by apply Hok|].
    split_and!; [done|done|]. right. split; [done|]. intros e' Hext'.
    rewrite Hext in Hext'. injection Hext' as <-. unfold listed. rewrite E. by intros [].
Qed.

(** A series of additions. *)
Fixpoint add_all (p : file_ext_ptr (T:=T)) (exts : list bytes) : outcome (file_ext_ptr (T:=T)) :=
  match exts with
  | [] => mret p
  | x :: exts => '(_, p) ← add_file_ext p (Some x); add_all p exts
  end.

Lemma add_all_spec exts : ∀ f,
  ext_ok f → Forall (λ x, zlen x < INT_MAX) exts → 0 ≤ count f →
  count f + zlen exts ≤ INT_MAX →
  ∃ f', add_all (FLive f) exts = Ret (FLive f') ∧ ext_ok f' ∧
    count f' = count f + zlen exts ∧ is_black f' = is_black f ∧
    ∀ e, listed f' e ↔ (∃ x, x ∈ exts ∧ strdown e = strdown x) ∨ listed f e.
Proof.
  induction exts as [|x exts IH]; intros f Hok Hl Hc Hn; cbn [add_all].
  - exists f. split_and!; [done|apply Hok..|unfold zlen; simpl; lia|done|].
    intros e. split; [by right|]. by intros [(?&?%elem_of_nil&_)|].
  - apply Forall_cons in Hl as [Hx Hl].
    assert (Hlen : zlen (x :: exts) = zlen exts + 1) by (unfold zlen; simpl; lia).
    destruct (add_file_ext_spec f x Hok Hx) as (f1&Hadd&Hok1&Hc1&Hb1&Hl1).
    { unfold zlen in *. lia. }
    rewrite Hadd. cbn [mbind outcome_bind].
    destruct (IH f1 Hok1 Hl) as (f2&Hadd2&Hok2&Hc2&Hb2&Hl2); [lia|lia|].
    exists f2. split; [done|]. split; [done|]. split_and!; [lia|congruence|].
    intros e. rewrite Hl2, Hl1. split.
    + intros [(y&Hy&Hyx)|[Hxe|He]]; [left; exists y; split; [by right|done]|
        left; exists x; split; [by left|done]|by right].
    + intros [(y&[->|Hy]%elem_of_cons&Hyx)|He]; [right; by left|
        left; by exists y|right; by right].
Qed.

(** ** Properties *)


(** clearing a filter breaks it: the scratch buffer is freed and not
    allocated again, so the next query, for any name, writes through a null
    pointer, unless an extension has been added in between. *)
Lemma cleared_filter_crashes p q file_name :
  clear_file_ext (T:=T) p = Ret q → p ≠ FNull →
  is_need_file_ext q (Some file_name) = Undef NullDeref.
Proof. destruct p; [done| |done]. by intros [= <-]. Qed.
End file_ext_facts.

(** ** Witnesses *)


Lemma cleared_filter_crashes_witness :
  ∃ q, clear_file_ext (T:=gmap_table) init_file_ext = Ret q ∧
       is_need_file_ext q (Some (lit "a.b")) = Undef NullDeref.
Proof.
  eexists. split; [reflexivity|].
  by apply (cleared_filter_crashes (T:=gmap_table) init_file_ext _ (lit "a.b")).
Defined.
