(* ===== verification/GetTrace.v ===== *)
(** The stack trace, [src/src/utils/get_trace/get_trace.c].

    [backtrace] and [backtrace_symbols] are the argument [strings], [None] when
    the latter fails. [stack_info] is the caller's buffer, an object of its own;
    [len] is what the caller says of it. The result is the buffer and what was
    printed. *)

From S2P Require Import Prelude CString Memory.

(** One line: ["%d\t%s\n"]. *)
Definition trace_line (j : Z) (s : bytes) : bytes :=
  print_d (j + 1) ++ [TAB] ++ cstr s ++ [LF].

(** The loop on a buffer. [len - offset] is converted to [size_t]. *)
Fixpoint trace_into (len j offset : Z) (buf : bytes) (strings : list bytes) : outcome bytes :=
  match strings with
  | [] => mret buf
  | s :: strings =>
      d ← int_ (len - offset);
      '(buf, n) ← snprintf_at buf offset (to_u 64 d) (trace_line j s);
      offset ← int_ (offset + n);
      trace_into len (j + 1) offset buf strings
  end.

Fixpoint trace_text (j : Z) (strings : list bytes) : bytes :=
  match strings with
  | [] => []
  | s :: strings => trace_line j s ++ trace_text (j + 1) strings
  end.

Definition get_trace (stack_info : option bytes) (len : Z) (strings : option (list bytes))
    : outcome (option bytes * bytes) :=
  match strings with
  | None => Exited 1
  | Some strings =>
      match stack_info with
      | Some buf => buf ← trace_into len 0 0 buf strings; mret (Some buf, [])
      | None => mret (None, trace_text 0 strings)
      end
  end.

Lemma trace_text_app j ss ts :
  trace_text j (ss ++ ts) = trace_text j ss ++ trace_text (j + Z.of_nat (length ss)) ts.
Proof.
  revert j. induction ss as [|s ss IH]; intros j; cbn [trace_text app length].
  - by rewrite Z.add_0_r.
  - rewrite IH, <- app_assoc. do 3 f_equal. lia.
Qed.

(** The turns while the text so far fits in [len]. *)
Lemma trace_into_fits len j done_text buf ss :
  zlen buf = len → len ≤ INT_MAX → zlen done_text + zlen (trace_text j ss) < len →
  take (length done_text) buf = done_text →
  ∃ buf', trace_into len j (zlen done_text) buf ss = Ret buf' ∧ zlen buf' = len ∧
    take (length (done_text ++ trace_text j ss)) buf' = done_text ++ trace_text j ss ∧
    (ss ≠ [] → buf' !! length (done_text ++ trace_text j ss) = Some NUL).
Proof.
  intros Hlen Hint. revert j done_text buf Hlen.
  induction ss as [|s ss IH]; intros j dt buf Hlen Hfit Hbuf.
  - exists buf. cbn [trace_text trace_into]. by rewrite app_nil_r.
  - cbn [trace_text trace_into] in *. rewrite zlen_app in Hfit.
    set (l := trace_line j s) in *.
    pose proof (zlen_nonneg dt). pose proof (zlen_nonneg l).
    pose proof (zlen_nonneg (trace_text (j + 1) ss)).
    rewrite int_bind by (unfold in_int, INT_MIN, INT_MAX in *; lia).
    rewrite to_u_small by (change (2 ^ 64) with 18446744073709551616; unfold INT_MAX in *; lia).
    destruct (snprintf_at_ok buf (zlen dt) (len - zlen dt) l)
      as (buf1 & -> & Hlen1 & Hkeep & Hblit); [lia..|].
    rewrite Ret_bind, int_bind by (unfold in_int, INT_MIN, INT_MAX in *; lia).
    specialize (Hblit ltac:(lia)). rewrite <- zlen_app.
    assert (Hroom : zlen dt + zlen (l ++ [NUL]) ≤ zlen buf)
      by (rewrite zlen_app; unfold zlen at 3; cbn; lia).
    pose proof (take_blit buf (zlen dt) (l ++ [NUL]) ltac:(lia) Hroom) as Htake.
    rewrite <- Hblit in Htake.
    replace (Z.to_nat (zlen dt)) with (length dt) in Htake by (unfold zlen; lia).
    rewrite Hbuf in Htake.
    replace (Z.to_nat (zlen dt + zlen (l ++ [NUL]))) with (S (length (dt ++ l))) in Htake
      by (unfold zlen; rewrite !length_app; cbn; lia).
    rewrite app_assoc in Htake.
    destruct (IH (j + 1) (dt ++ l) buf1) as (buf2 & E2 & Hlen2 & Ht2 & Hn2).
    + lia.
    + rewrite zlen_app. lia.
    + apply (f_equal (take (length (dt ++ l)))) in Htake.
      rewrite take_take, Nat.min_l in Htake by lia. rewrite Htake. apply take_app_length.
    + exists buf2. rewrite <- app_assoc in Ht2, Hn2. split_and!; [done|done|done|]. intros _.
      destruct ss as [|s' ss]; [|by apply Hn2].
      cbn [trace_into trace_text] in *. apply Ret_inj in E2 as <-. rewrite app_nil_r.
      rewrite <- (lookup_take_lt _ (S (length (dt ++ l)))) by lia.
      rewrite Htake. by rewrite lookup_app_r, Nat.sub_diag by lia.
Qed.

(** Once the text is longer than [len], the next line is written outside. *)
Lemma trace_into_outside len j off buf s ss :
  zlen buf = len → len < off → in_int (len - off) →
  trace_into len j off buf (s :: ss) = Undef OutOfBounds.
Proof.
  intros Hlen Hoff Hint. cbn [trace_into]. rewrite int_bind by done.
  unfold snprintf_at. by rewrite decide_False by lia.
Qed.

Lemma trace_into_overruns len j off buf ss s ts :
  zlen buf = len → 0 ≤ off → len < off + zlen (trace_text j ss) →
  off ≤ len → off + zlen (trace_text j (ss ++ s :: ts)) ≤ INT_MAX →
  trace_into len j off buf (ss ++ s :: ts) = Undef OutOfBounds.
Proof.
  revert j off buf. induction ss as [|u ss IH]; intros j off buf Hlen Hoff Hover Hin Hmax.
  { cbn in Hover. unfold zlen in Hover at 1. cbn in Hover. lia. }
  cbn [trace_text trace_into app] in *. rewrite !zlen_app in *. set (l := trace_line j u) in *.
  pose proof (zlen_nonneg l). pose proof (zlen_nonneg (trace_text (j + 1) ss)).
  assert (zlen (trace_text (j + 1) ss) ≤ zlen (trace_text (j + 1) (ss ++ s :: ts)))
    by (rewrite trace_text_app, zlen_app; unfold zlen at 3; lia).
  rewrite int_bind by (unfold in_int, INT_MIN, INT_MAX in *; lia).
  rewrite to_u_small by (change (2 ^ 64) with 18446744073709551616; unfold INT_MAX in *; lia).
  destruct (snprintf_at_ok buf off (len - off) l) as (buf1 & -> & Hlen1 & _ & _); [lia..|].
  rewrite Ret_bind, int_bind by (unfold in_int, INT_MIN, INT_MAX in *; lia).
  destruct (decide (off + zlen l ≤ len)) as [Hle|Hgt].
  - apply IH; lia.
  - assert (in_int (len - (off + zlen l))) by (unfold in_int, INT_MIN, INT_MAX in *; lia).
    destruct ss as [|u' ss]; by apply trace_into_outside; [lia|lia|].
Qed.

(** ** Theorems *)

(** When the whole trace is shorter than the buffer, [get_trace] leaves exactly
    its lines in it, terminated. *)
Lemma get_trace_text buf ss :
  zlen buf ≤ INT_MAX → zlen (trace_text 0 ss) < zlen buf → ss ≠ [] →
  wp (get_trace (Some buf) (zlen buf) (Some ss)) (λ '(r, out), out = [] ∧
    ∃ buf', r = Some buf' ∧ zlen buf' = zlen buf ∧
      take (length (trace_text 0 ss)) buf' = trace_text 0 ss ∧
      buf' !! length (trace_text 0 ss) = Some NUL).
Proof.
  intros Hint Hfit Hne. unfold get_trace.
  destruct (trace_into_fits (zlen buf) 0 [] buf ss) as (buf' & E & Hlen & Ht & Hn);
    [done|done|done|done|].
  change (zlen []) with 0 in E. rewrite E, Ret_bind. cbn [wp app] in *. split; [done|].
  exists buf'. split_and!; auto.
Qed.

(** A longer trace is written past the end of the buffer, although its length
    is passed: [snprintf] returns the length it would have needed, [offset] passes
    [len], and [len - offset] becomes an enormous [size_t]. If the lines before
    some line are longer than the buffer, the call is undefined. *)
Lemma get_trace_overruns buf ss s ts :
  zlen buf < zlen (trace_text 0 ss) → zlen (trace_text 0 (ss ++ s :: ts)) ≤ INT_MAX →
  get_trace (Some buf) (zlen buf) (Some (ss ++ s :: ts)) = Undef OutOfBounds.
Proof.
  intros Hover Hmax. unfold get_trace. rewrite trace_into_overruns; [done|done|lia|lia| |lia].
  apply zlen_nonneg.
Qed.

Lemma get_trace_overruns_witness :
  get_trace (Some (replicate 20 NUL)) 20 (Some ([lit "./a.out(main+0x1d)"] ++ lit "start" :: []))
  = Undef OutOfBounds.
Proof.
  refine (get_trace_overruns (replicate 20 NUL) [lit "./a.out(main+0x1d)"] (lit "start") [] _ _);
    vm_compute; done.
Defined.
