(* ===== verification/OptEntry.v ===== *)
(** The command line of the analysis tool,
    [src/src/utils/opt_entry/opt_entry_inner.c]: the options that
    [getopt_long] delivers are folded into two records, which are then checked.

    [getopt_long] is glibc's: its answers are the list of (option character,
    [optarg]) pairs of a run; [delivered] states which characters the option
    strings of the code allow. [DEFAULT_ANALYSIS_CONFIG_FILE] comes from a
    generated header and is a parameter. A [const char *] is [None] for
    [NULL]. *)

From S2P Require Import Prelude CString.

Record filter_option := {
  sip : option bytes; dip : option bytes;
  sport : Z; dport : Z;
  smac : option bytes; dmac : option bytes;
  domain_id : option bytes; app_id : option bytes;
  port : Z; ip : option bytes; is_ipv6 : Z; mac : option bytes;
  protocol : option bytes; find_type : Z;
  start_timestamp : Z; end_timestamp : Z;
  is_only_check : Z; download_file_name : option bytes; key_name : option bytes
}.
Record deep_dissector_option := {
  is_from_pcap : Z; pcap_file_name : option bytes; is_non_deamon : Z;
  d_table_tag : option bytes; pkts_num : Z
}.
Record format_opts := {
  conf_path : bytes; f_opt : filter_option; d_opt : deep_dissector_option;
  is_only_version : Z
}.

(** After [memset]. *)
Definition zero_filter : filter_option :=
  {| sip := None; dip := None; sport := 0; dport := 0; smac := None; dmac := None;
     domain_id := None; app_id := None; port := 0; ip := None; is_ipv6 := 0; mac := None;
     protocol := None; find_type := 0; start_timestamp := 0; end_timestamp := 0;
     is_only_check := 0; download_file_name := None; key_name := None |}.
Definition default_table_tag : bytes := lit "01234567890123456789012345678912".
Definition default_deep : deep_dissector_option :=
  {| is_from_pcap := 1; pcap_file_name := None; is_non_deamon := 0;
     d_table_tag := Some default_table_tag; pkts_num := 0 |}.

(** [NULL] tests. *)
Definition given (p : option bytes) : bool := match p with Some _ => true | None => false end.
Definition set (n : Z) : bool := negb (n =? 0).

Definition check_filter_opts (f : filter_option) : Z :=
  if negb (set (start_timestamp f)) || negb (set (end_timestamp f)) then -1
  else if start_timestamp f >? end_timestamp f then -1
  else if set (is_only_check f) && negb (given (key_name f)) then -1
  else if given (download_file_name f) && negb (given (key_name f)) then -1
  else if set (is_only_check f) && given (download_file_name f) then -1
  else if (given (sip f) || given (dip f)) && given (ip f) then -1
  else if (set (sport f) || set (dport f)) && set (port f) then -1
  else if (given (smac f) || given (smac f)) && given (mac f) then -1
  else 0.

Definition check_deep_opts (d : deep_dissector_option) : Z :=
  if set (is_from_pcap d) && negb (given (pcap_file_name d)) then -1
  else if negb (set (is_from_pcap d)) && given (pcap_file_name d) then -1
  else if pkts_num d <=? 0 then -1
  else 0.

(** The long options' values. *)
Definition ENTRY_FILTER_IP := "A"%char.
Definition ENTRY_FILTER_SIP := "B"%char.
Definition ENTRY_FILTER_DIP := "C"%char.
Definition ENTRY_FILTER_MAC := "D"%char.
Definition ENTRY_FILTER_SMAC := "E"%char.
Definition ENTRY_FILTER_DMAC := "F"%char.
Definition ENTRY_FILTER_PORT := "G"%char.
Definition ENTRY_FILTER_SPORT := "H"%char.
Definition ENTRY_FILTER_DPORT := "I"%char.
Definition ENTRY_FILTER_PROTOCOL := "J"%char.
Definition ENTRY_FILTER_FIND_TYPE := "K"%char.
Definition ENTRY_FILTER_IPV6 := "L"%char.
Definition ENTRY_FILTER_DOMAIN := "M"%char.
Definition ENTRY_FILTER_APPID := "N"%char.

(** The variables of the parsing loop. *)
Record parse_state := {
  ps_conf : bytes;
  ps_filter : filter_option;
  ps_deep : deep_dissector_option;
  is_only_filter_lib : bool;
  is_only_deep : bool
}.

Definition on_filter (s : parse_state) (g : filter_option → filter_option) : parse_state :=
  {| ps_conf := ps_conf s; ps_filter := g (ps_filter s); ps_deep := ps_deep s;
     is_only_filter_lib := is_only_filter_lib s; is_only_deep := is_only_deep s |}.
Definition on_deep (s : parse_state) (g : deep_dissector_option → deep_dissector_option)
    : parse_state :=
  {| ps_conf := ps_conf s; ps_filter := ps_filter s; ps_deep := g (ps_deep s);
     is_only_filter_lib := is_only_filter_lib s; is_only_deep := is_only_deep s |}.
Definition only_filter (s : parse_state) : parse_state :=
  {| ps_conf := ps_conf s; ps_filter := ps_filter s; ps_deep := ps_deep s;
     is_only_filter_lib := true; is_only_deep := is_only_deep s |}.
Definition only_deep (s : parse_state) : parse_state :=
  {| ps_conf := ps_conf s; ps_filter := ps_filter s; ps_deep := ps_deep s;
     is_only_filter_lib := is_only_filter_lib s; is_only_deep := true |}.

(** The assignments to the filter record: addresses, then numbers. *)
Definition set_address (c : ascii) (v : option bytes) (f : filter_option) : filter_option :=
  let '(Build_filter_option si di sp dp sm dm dom app p i v6 m pr ft st en oc dl k) := f in
  if decide (c = ENTRY_FILTER_IP) then
    Build_filter_option si di sp dp sm dm dom app p v v6 m pr ft st en oc dl k
  else if decide (c = ENTRY_FILTER_SIP) then
    Build_filter_option v di sp dp sm dm dom app p i v6 m pr ft st en oc dl k
  else if decide (c = ENTRY_FILTER_DIP) then
    Build_filter_option si v sp dp sm dm dom app p i v6 m pr ft st en oc dl k
  else if decide (c = ENTRY_FILTER_MAC) then
    Build_filter_option si di sp dp sm dm dom app p i v6 v pr ft st en oc dl k
  else if decide (c = ENTRY_FILTER_SMAC) then
    Build_filter_option si di sp dp v dm dom app p i v6 m pr ft st en oc dl k
  else if decide (c = ENTRY_FILTER_DMAC) then
    Build_filter_option si di sp dp sm v dom app p i v6 m pr ft st en oc dl k
  else if decide (c = ENTRY_FILTER_PROTOCOL) then
    Build_filter_option si di sp dp sm dm dom app p i v6 m v ft st en oc dl k
  else if decide (c = ENTRY_FILTER_DOMAIN) then
    Build_filter_option si di sp dp sm dm v app p i v6 m pr ft st en oc dl k
  else if decide (c = ENTRY_FILTER_APPID) then
    Build_filter_option si di sp dp sm dm dom v p i v6 m pr ft st en oc dl k
  else if decide (c = "f"%char) then
    Build_filter_option si di sp dp sm dm dom app p i v6 m pr ft st en oc v k
  else if decide (c = "k"%char) then
    Build_filter_option si di sp dp sm dm dom app p i v6 m pr ft st en oc dl v
  else f.
Definition set_number (c : ascii) (v : Z) (f : filter_option) : filter_option :=
  let '(Build_filter_option si di sp dp sm dm dom app p i v6 m pr ft st en oc dl k) := f in
  if decide (c = ENTRY_FILTER_PORT) then
    Build_filter_option si di sp dp sm dm dom app (to_u 16 v) i v6 m pr ft st en oc dl k
  else if decide (c = ENTRY_FILTER_SPORT) then
    Build_filter_option si di (to_u 16 v) dp sm dm dom app p i v6 m pr ft st en oc dl k
  else if decide (c = ENTRY_FILTER_DPORT) then
    Build_filter_option si di sp (to_u 16 v) sm dm dom app p i v6 m pr ft st en oc dl k
  else if decide (c = ENTRY_FILTER_FIND_TYPE) then
    Build_filter_option si di sp dp sm dm dom app p i v6 m pr v st en oc dl k
  else if decide (c = "a"%char) then
    Build_filter_option si di sp dp sm dm dom app p i v6 m pr ft (to_u 64 v) en oc dl k
  else if decide (c = "z"%char) then
    Build_filter_option si di sp dp sm dm dom app p i v6 m pr ft st (to_u 64 v) oc dl k
  else if decide (c = "c"%char) then
    Build_filter_option si di sp dp sm dm dom app p i v6 m pr ft st en 1 dl k
  else if decide (c = ENTRY_FILTER_IPV6) then
    Build_filter_option si di sp dp sm dm dom app p i 1 m pr ft st en oc dl k
  else f.

Definition set_deep_source (from_pcap : Z) (d : deep_dissector_option) :=
  {| is_from_pcap := from_pcap; pcap_file_name := pcap_file_name d;
     is_non_deamon := is_non_deamon d; d_table_tag := d_table_tag d; pkts_num := pkts_num d |}.
Definition set_deep_file (v : option bytes) (d : deep_dissector_option) :=
  {| is_from_pcap := is_from_pcap d; pcap_file_name := v;
     is_non_deamon := is_non_deamon d; d_table_tag := d_table_tag d; pkts_num := pkts_num d |}.
Definition set_deep_other (daemon : Z) (tag : option bytes) (n : Z)
    (d : deep_dissector_option) :=
  {| is_from_pcap := is_from_pcap d; pcap_file_name := pcap_file_name d;
     is_non_deamon := daemon; d_table_tag := tag; pkts_num := n |}.

(** [optarg] used as a string. *)
Definition arg (v : option bytes) : outcome bytes :=
  match v with Some v => mret v | None => Undef NullDeref end.

Definition number_option (c : ascii) : bool :=
  bool_decide (c ∈ [ENTRY_FILTER_PORT; ENTRY_FILTER_SPORT; ENTRY_FILTER_DPORT;
                    ENTRY_FILTER_FIND_TYPE]).
Definition address_option (c : ascii) : bool :=
  bool_decide (c ∈ [ENTRY_FILTER_IP; ENTRY_FILTER_SIP; ENTRY_FILTER_DIP; ENTRY_FILTER_MAC;
                    ENTRY_FILTER_SMAC; ENTRY_FILTER_DMAC; ENTRY_FILTER_PROTOCOL;
                    ENTRY_FILTER_DOMAIN; ENTRY_FILTER_APPID; "k"%char]).

(** One turn of the switch. An unknown character is reported and ignored. *)
Definition option_case (c : ascii) (v : option bytes) (s : parse_state)
    : outcome parse_state :=
  if decide (c = "v"%char ∨ c = "V"%char ∨ c = "h"%char) then Exited 0
  else if decide (c = "o"%char) then
    mret (only_filter (on_deep s (set_deep_source 0)))
  else if decide (c = "r"%char) then mret (only_deep (on_deep s (set_deep_file v)))
  else if decide (c = "a"%char ∨ c = "z"%char) then
    v ← arg v; n ← atol v; mret (on_filter s (set_number c n))
  else if decide (c = "t"%char) then
    mret (on_deep s (λ d, set_deep_other (is_non_deamon d) v (pkts_num d) d))
  else if decide (c = "s"%char) then
    v ← arg v; n ← atoi v;
    mret (on_deep s (λ d, set_deep_other (is_non_deamon d) (d_table_tag d) n d))
  else if decide (c = "p"%char) then
    v ← arg v;
    mret {| ps_conf := v; ps_filter := ps_filter s; ps_deep := ps_deep s;
            is_only_filter_lib := is_only_filter_lib s; is_only_deep := is_only_deep s |}
  else if decide (c = "f"%char) then mret (only_filter (on_filter s (set_address c v)))
  else if decide (c = "c"%char) then mret (only_filter (on_filter s (set_number c 1)))
  else if decide (c = "m"%char) then
    mret (on_deep s (λ d, set_deep_other 1 (d_table_tag d) (pkts_num d) d))
  else if number_option c then
    v ← arg v; n ← atoi v; mret (on_filter s (set_number c n))
  else if decide (c = ENTRY_FILTER_IPV6) then mret (on_filter s (set_number c 1))
  else if address_option c then mret (on_filter s (set_address c v))
  else mret s.

Fixpoint parse_options (opts : list (ascii * option bytes)) (s : parse_state)
    : outcome parse_state :=
  match opts with
  | [] => mret s
  | (c, v) :: opts => s ← option_case c v s; parse_options opts s
  end.

Definition start_state (conf : bytes) : parse_state :=
  {| ps_conf := conf; ps_filter := zero_filter; ps_deep := default_deep;
     is_only_filter_lib := false; is_only_deep := false |}.

(** Which module's options are checked. *)
Definition check_options (s : parse_state) : Z :=
  let '(f_ret, d_ret) :=
    if negb (is_only_filter_lib s) && negb (is_only_deep s)
    then (check_filter_opts (ps_filter s), check_deep_opts (ps_deep s))
    else if is_only_filter_lib s then (check_filter_opts (ps_filter s), 0)
    else (0, check_deep_opts (ps_deep s)) in
  if (f_ret =? 0) && (d_ret =? 0) then 0 else -1.

(** [getopt_long_entry(argc, argv, opts)]: [valid] tells whether [opts] and its
    members are non-[NULL], which is logged but not acted on; [argc < 2] is
    tested first. *)
Definition getopt_long_entry (conf : bytes) (valid : bool) (argc : Z)
    (delivered : list (ascii * option bytes)) : outcome (Z * option format_opts) :=
  if decide (argc < 2) then mret (-1, None)
  else if negb valid then Undef NullDeref
  else
    s ← parse_options delivered (start_state conf);
    mret (check_options s,
          Some {| conf_path := ps_conf s; f_opt := ps_filter s; d_opt := ps_deep s;
                  is_only_version := 0 |}).

(** ** What is accepted *)

(** The characters that choose a module. *)
Definition filter_char (c : ascii) : bool :=
  bool_decide (c ∈ ["o"%char; "f"%char; "c"%char]).
Definition deep_char (c : ascii) : bool := bool_decide (c = "r"%char).
Definition some_char (p : ascii → bool) (opts : list (ascii * option bytes)) : bool :=
  existsb (λ o, p o.1) opts.

(** A consistent set of filter options, as the checks have it. *)
Definition filter_consistent (f : filter_option) : Prop :=
  start_timestamp f ≠ 0 ∧ end_timestamp f ≠ 0 ∧ start_timestamp f ≤ end_timestamp f ∧
  (is_only_check f ≠ 0 → key_name f ≠ None) ∧
  (download_file_name f ≠ None → key_name f ≠ None) ∧
  (is_only_check f ≠ 0 → download_file_name f = None) ∧
  (ip f ≠ None → sip f = None ∧ dip f = None) ∧
  (port f ≠ 0 → sport f = 0 ∧ dport f = 0) ∧
  (mac f ≠ None → smac f = None).

Lemma given_true p : given p = true ↔ p ≠ None.
Proof. by destruct p; simpl; split; intros; try congruence. Qed.
Lemma given_false p : given p = false ↔ p = None.
Proof. by destruct p. Qed.
Lemma set_true n : set n = true ↔ n ≠ 0.
Proof. unfold set. rewrite negb_true_iff, Z.eqb_neq. done. Qed.
Lemma set_false n : set n = false ↔ n = 0.
Proof. unfold set. rewrite negb_false_iff, Z.eqb_eq. done. Qed.

(** One refusal of a chain of checks. *)
Lemma check_step (b : bool) z : (if b then -1 else z) = 0 ↔ b = false ∧ z = 0.
Proof. destruct b; intuition (discriminate || lia). Qed.

Lemma and_congr (A A' B B' : Prop) : (A ↔ A') → (B ↔ B') → (A ∧ B ↔ A' ∧ B').
Proof. tauto. Qed.

Lemma check_filter_opts_0 f : check_filter_opts f = 0 ↔ filter_consistent f.
Proof.
  unfold check_filter_opts, filter_consistent. rewrite !check_step, orb_false_iff.
  rewrite !negb_false_iff, !set_true, Logic.and_assoc.
  do 2 (apply and_congr; [done|]).
  apply and_congr; [destruct (Z.gtb_spec (start_timestamp f) (end_timestamp f)); split; try done; lia|].
  rewrite <- !given_true, <- !given_false, <- !set_true, <- (set_false (sport f)),
    <- (set_false (dport f)).
  repeat (apply and_congr; [|]);
    repeat match goal with
    | |- context [set ?x] => destruct (set x)
    | |- context [given ?x] => destruct (given x)
    end; simpl; intuition congruence.
Qed.

Lemma check_deep_opts_0 d :
  check_deep_opts d = 0 ↔
  (is_from_pcap d ≠ 0 ↔ pcap_file_name d ≠ None) ∧ 0 < pkts_num d.
Proof.
  unfold check_deep_opts. rewrite <- given_true, <- set_true.
  destruct (set (is_from_pcap d)), (given (pcap_file_name d)), (Z.leb_spec (pkts_num d) 0);
    simpl; split; intros; destruct_and?; try done; try lia; naive_solver.
Qed.

(** The value the last [-r] left. *)
Fixpoint last_file (opts : list (ascii * option bytes)) (v : option bytes) : option bytes :=
  match opts with
  | [] => v
  | (c, w) :: opts => last_file opts (if decide (c = "r"%char) then w else v)
  end.

(** What one option does to the choice of the modules. *)
Lemma option_case_mode c v s s' :
  option_case c v s = Ret s' →
  is_only_filter_lib s' = is_only_filter_lib s || filter_char c ∧
  is_only_deep s' = is_only_deep s || deep_char c ∧
  is_from_pcap (ps_deep s') =
    (if decide (c = "o"%char) then 0 else is_from_pcap (ps_deep s)) ∧
  pcap_file_name (ps_deep s') =
    (if decide (c = "r"%char) then v else pcap_file_name (ps_deep s)).
Proof.
  unfold option_case, filter_char, deep_char. intros H.
  destruct (decide (c = "o"%char)) as [->|Ho];
    [|destruct (decide (c = "r"%char)) as [->|Hr]];
    [| |destruct (decide (c = "f"%char)) as [->|Hf];
        [|destruct (decide (c = "c"%char)) as [->|Hc]]];
    ret_inv H; simpl; rewrite ?orb_true_r, ?orb_false_r; try done.
  all: rewrite !bool_decide_eq_false_2 by set_solver; by rewrite ?orb_false_r.
Qed.

Lemma parse_options_mode opts s s' :
  parse_options opts s = Ret s' →
  is_only_filter_lib s' = is_only_filter_lib s || some_char filter_char opts ∧
  is_only_deep s' = is_only_deep s || some_char deep_char opts ∧
  is_from_pcap (ps_deep s') =
    (if some_char (λ c, bool_decide (c = "o"%char)) opts then 0
     else is_from_pcap (ps_deep s)) ∧
  pcap_file_name (ps_deep s') = last_file opts (pcap_file_name (ps_deep s)).
Proof.
  revert s. induction opts as [|[c v] opts IH]; intros s H; simpl in H.
  - ret_inv H. simpl. by rewrite !orb_false_r.
  - apply bind_Ret in H as (s1 & E & H).
    apply option_case_mode in E as (E1 & E2 & E3 & E4).
    apply IH in H as (-> & -> & -> & ->). rewrite E1, E2, E3, E4. simpl.
    rewrite <- !orb_assoc. split_and!; [done|done| |done].
    unfold some_char. rewrite bool_decide_decide.
    by destruct (existsb _ opts), (decide (c = "o"%char)).
Qed.

Lemma some_char_sub (p q : ascii → bool) opts :
  (∀ c, p c = true → q c = true) → some_char q opts = false → some_char p opts = false.
Proof.
  unfold some_char. intros Hpq. induction opts as [|[c v] opts IH]; simpl; [done|].
  rewrite !orb_false_iff. intros [Hq ?]. split; [|by apply IH].
  specialize (Hpq c). destruct (p c); [|done]. by rewrite Hpq in Hq.
Qed.

Lemma last_file_none opts v : some_char deep_char opts = false → last_file opts v = v.
Proof.
  unfold some_char, deep_char. revert v. induction opts as [|[c w] opts IH]; intros v; simpl; [done|].
  case_bool_decide; [done|]. intros. by rewrite decide_False, IH.
Qed.

(** [check_options] when the mode is known. *)
Lemma check_options_0 s :
  check_options s = 0 ↔
  (is_only_filter_lib s || negb (is_only_deep s) = true → check_filter_opts (ps_filter s) = 0) ∧
  (is_only_filter_lib s = false → check_deep_opts (ps_deep s) = 0).
Proof.
  unfold check_options. destruct (is_only_filter_lib s), (is_only_deep s); simpl;
  destruct (Z.eqb_spec (check_filter_opts (ps_filter s)) 0),
    (Z.eqb_spec (check_deep_opts (ps_deep s)) 0); simpl; intuition (discriminate || congruence).
Qed.


(** [-a 5 -z 9 -o -r x.pcap]: accepted, though [check_deep_opts] means to
    refuse [-r] with [-o]. *)
Definition o_with_r : list (ascii * option bytes) :=
  [("a"%char, Some (lit "5")); ("z"%char, Some (lit "9")); ("o"%char, None);
   ("r"%char, Some (lit "x.pcap"))].

(** What glibc's [getopt_long] delivers for the option strings of the code: an
    argument to every option that takes one; numbers are taken to fit their
    type. *)
Definition exit_char (c : ascii) : bool :=
  bool_decide (c ∈ ["v"%char; "V"%char; "h"%char]).
Definition delivered (o : ascii * option bytes) : Prop :=
  (o.1 ∈ ["a"%char; "z"%char] → ∃ w n, o.2 = Some w ∧ atol w = Ret n) ∧
  (o.1 = "s"%char ∨ number_option o.1 = true → ∃ w n, o.2 = Some w ∧ atoi w = Ret n) ∧
  (o.1 = "p"%char → o.2 ≠ None).

Lemma option_case_returns c v s :
  delivered (c, v) →
  if exit_char c then option_case c v s = Exited 0 else ∃ s', option_case c v s = Ret s'.
Proof.
  intros (Hl & Hi & Hp). unfold exit_char, option_case. simpl in *.
  case_bool_decide as E; [rewrite decide_True by set_solver; done|].
  rewrite decide_False by set_solver.
  assert (Hnum : ∀ (f : bytes → outcome Z) g, (∃ w n, v = Some w ∧ f w = Ret n) →
    ∃ s', (v ← arg v; n ← f v; mret (g n)) = Ret (A:=parse_state) s').
  { intros f g (w & n & -> & Hn). simpl. rewrite Hn. simpl. eauto. }
  do 2 (destruct (decide _) as [?|_]; [eauto|]).
  destruct (decide _) as [Ha|_]; [apply Hnum, Hl; set_solver|].
  destruct (decide _) as [?|_]; [eauto|].
  destruct (decide _) as [Hs|_]; [apply Hnum; auto|].
  destruct (decide _) as [Hp'|_]; [destruct v; [simpl; eauto|by destruct Hp]|].
  do 3 (destruct (decide _) as [?|_]; [eauto|]).
  destruct (number_option c) eqn:En; [apply Hnum; auto|].
  destruct (decide _) as [?|_]; [eauto|]. destruct (address_option c); eauto.
Qed.

(** Every command line [getopt_long] can deliver is processed: the parser
    leaves the process with status 0 when it meets [-v], [-V] or [-h], and
    otherwise returns with 0 or -1 and the records filled. *)
Lemma getopt_long_entry_returns conf argc opts :
  2 ≤ argc → Forall delivered opts →
  if some_char exit_char opts
  then getopt_long_entry conf true argc opts = Exited 0
  else ∃ res fo, getopt_long_entry conf true argc opts = Ret (res, Some fo) ∧
                 (res = 0 ∨ res = -1).
Proof.
  intros Hargc Hopts. unfold getopt_long_entry. rewrite decide_False by lia. simpl.
  cut (∀ s, if some_char exit_char opts then parse_options opts s = Exited 0
            else ∃ s', parse_options opts s = Ret s').
  { intros H. specialize (H (start_state conf)).
    destruct (some_char exit_char opts); [by rewrite H|].
    destruct H as [s' ->]. simpl. eexists _, _. split; [done|].
    unfold check_options. repeat case_match; auto. }
  induction Hopts as [|[c v] opts Hcv _ IH]; intros s; simpl; [eauto|].
  pose proof (option_case_returns c v s Hcv) as Hc.
  destruct (exit_char c); simpl; [by rewrite Hc|]. destruct Hc as [s' ->]. apply IH.
Qed.
Lemma getopt_long_entry_returns_witness :
  ∃ res fo, getopt_long_entry (lit "c") true 8 o_with_r = Ret (res, Some fo) ∧
            (res = 0 ∨ res = -1).
Proof.
  refine (getopt_long_entry_returns (lit "c") 8 o_with_r _ _); [lia|].
  unfold o_with_r. repeat constructor; simpl; try (intros; done).
  all: try (intros _; eexists _, _; split; [reflexivity|vm_compute; reflexivity]).
  all: try (intros [|]; discriminate).
  all: intros Hin; exfalso; set_solver.
Defined.
