(* ===== verification/RedisOpt.v ===== *)
(** The subscription client, [src/src/utils/redis/redis_opt.c]: one control
    connection, and per channel a thread with its own connection and a table of
    at most [FUNC_MAX_COUNT] callbacks.

    hiredis answers are arguments of the operations: what
    [redisConnectWithTimeout] gave, and the sequence of [redisGetReply]
    results. A context that is not live makes [redisCommand] undefined. The log
    macros come from a header outside the sources; [logs] tells whether they
    evaluate their arguments. [g_malloc] does not return on failure, so the
    branches that test it are not reachable. A callback is known by a number. *)

From S2P Require Import Prelude CString GHash.

Definition SUB_OK : Z := 0.
Definition SUB_ERR : Z := -1.
Definition CHANNEL_NAME_LEN : Z := 128.
Definition DEFINE_IP_LEN : Z := 16.
Definition FUNC_MAX_COUNT : Z := 50.

(** A global pointer. *)
Inductive pointer (A : Type) :=
  | Null
  | Live (x : A)
  | Dangling.
Arguments Null {A}.
Arguments Live {A} x.
Arguments Dangling {A}.

Definition deref {A} (p : pointer A) : outcome A :=
  match p with
  | Null => Undef NullDeref
  | Live x => mret x
  | Dangling => Undef UseAfterFree
  end.

Record redis_conn_info_t := { host : bytes; port : Z }.
Definition message_func_t : Type := nat.
Record sub_msg_t := {
  joinable : bool;                (** the thread [pt] *)
  channel_name : bytes;           (** the caller's string *)
  message_func : list message_func_t;
  size : Z
}.

(** [redisConnectWithTimeout]: no context, or one with or without an error. *)
Inductive connected := NoContext | Context (err : bool).

(** [snprintf(dst, n, s)]: the text is the format. *)
Fixpoint format (s : bytes) : outcome bytes :=
  match s with
  | [] => mret []
  | c :: s =>
      if decide (c = "%"%char) then
        match s with
        | d :: s => if decide (d = "%"%char) then r ← format s; mret (c :: r)
                    else Undef BadFormat
        | [] => Undef BadFormat
        end
      else r ← format s; mret (c :: r)
  end.
Definition snprintf_text (n : Z) (s : bytes) : outcome bytes :=
  r ← format s; mret (take (Z.to_nat (n - 1)) r).

Section redis.
Context {T : Type → Type → Type} `{!GHashTable T}.

(** The globals. [contexts] counts the hiredis contexts not yet freed; the
    control connection itself has no contents here. *)
Record redis_state := {
  redis_conn_info : pointer redis_conn_info_t;
  redis_conn_hd : pointer unit;
  sub_hash : option (T unit sub_msg_t);
  contexts : Z
}.
Definition redis_start : redis_state :=
  {| redis_conn_info := Null; redis_conn_hd := Null; sub_hash := None; contexts := 0 |}.

(** [IRIDIUM_LOG_...(c->errstr)] on a freed context. *)
Definition log_freed (logs : bool) : outcome unit :=
  if logs then Undef UseAfterFree else mret tt.

Definition init_redis_conn (logs : bool) (answer : connected) (h : bytes) (p : Z)
    (st : redis_state) : outcome (Z * redis_state) :=
  match redis_conn_info st with
  | Null =>
      h ← snprintf_text DEFINE_IP_LEN h;
      match answer with
      | NoContext => Undef NullDeref
      | Context true =>
          _ ← log_freed logs;
          mret (SUB_ERR, {| redis_conn_info := Null; redis_conn_hd := Dangling;
                            sub_hash := Some gh_new; contexts := contexts st |})
      | Context false =>
          mret (SUB_OK, {| redis_conn_info := Live {| host := h; port := to_u 32 p |};
                           redis_conn_hd := Live tt; sub_hash := Some gh_new;
                           contexts := contexts st + 1 |})
      end
  | _ => mret (SUB_OK, st)
  end.

(** The destructor of a table value; the thread was detached when it was
    created, and POSIX leaves joining it undefined. *)
Definition sub_value_destroy (m : sub_msg_t) : outcome unit :=
  if joinable m then mret tt else Undef BadJoin.

(** [g_hash_table_insert(sub_hash, key, m)] with the destructor of the value it
    replaces; a [NULL] table is refused. *)
Definition sub_insert (key : bytes) (m : sub_msg_t) (st : redis_state)
    : outcome redis_state :=
  match sub_hash st with
  | None => mret st
  | Some t =>
      _ ← match gh_lookup key t with
          | Some (_, old) => sub_value_destroy old
          | None => mret tt
          end;
      mret {| redis_conn_info := redis_conn_info st; redis_conn_hd := redis_conn_hd st;
              sub_hash := Some (gh_insert key tt m t); contexts := contexts st |}
  end.

Definition sub_lookup (channel : bytes) (st : redis_state) : option sub_msg_t :=
  match sub_hash st with
  | None => None
  | Some t => snd <$> (gh_lookup channel t : option (unit * sub_msg_t))
  end.

(** The lookup's value is changed in place. *)
Definition sub_update (channel : bytes) (m : sub_msg_t) (st : redis_state) : redis_state :=
  {| redis_conn_info := redis_conn_info st; redis_conn_hd := redis_conn_hd st;
     sub_hash := option_map (gh_insert channel tt m) (sub_hash st); contexts := contexts st |}.

Definition new_context (n : Z) (st : redis_state) : redis_state :=
  {| redis_conn_info := redis_conn_info st; redis_conn_hd := redis_conn_hd st;
     sub_hash := sub_hash st; contexts := contexts st + n |}.

(** [pthread_create] fails when [created] is false. *)
Definition init_subscribe (logs : bool) (answer : connected) (created : bool)
    (channel : bytes) (func : message_func_t) (st : redis_state)
    : outcome (Z * redis_state) :=
  match sub_lookup channel st with
  | Some m =>
      if decide (size m >= FUNC_MAX_COUNT) then mret (SUB_ERR, st)
      else
        funcs ← aset (message_func m) (size m) func;
        mret (SUB_OK, sub_update channel
                        {| joinable := joinable m; channel_name := channel_name m;
                           message_func := funcs; size := size m + 1 |} st)
  | None =>
      _ ← deref (redis_conn_info st);
      match answer with
      | NoContext => Undef NullDeref
      | Context true => _ ← log_freed logs; mret (SUB_ERR, st)
      | Context false =>
          key ← snprintf_text CHANNEL_NAME_LEN channel;
          funcs ← aset (replicate 50 O) 0 func;
          if created then
            st ← sub_insert key {| joinable := false; channel_name := channel;
                                   message_func := funcs; size := 1 |} (new_context 1 st);
            mret (SUB_OK, st)
          else mret (SUB_ERR, new_context 1 st)
      end
  end.

Definition set_ttl_key (key value : option bytes) (st : redis_state) : outcome Z :=
  match key, value with
  | Some _, Some _ => _ ← deref (redis_conn_hd st); _ ← deref (redis_conn_hd st); mret 0
  | _, _ => mret (-1)
  end.

(** The control connection sends [UNSUBSCRIBE]; [answered]: a reply came. *)
Definition unsubscribe (answered : bool) (st : redis_state) : outcome Z :=
  match redis_conn_hd st with
  | Null => mret SUB_ERR
  | hd => _ ← deref hd; mret (if answered then SUB_OK else SUB_ERR)
  end.

Fixpoint destroy_values (ms : list sub_msg_t) : outcome unit :=
  match ms with
  | [] => mret tt
  | m :: ms => _ ← sub_value_destroy m; destroy_values ms
  end.

Fixpoint unsubscribe_all (answered : bool) (keys : list bytes) (st : redis_state)
    : outcome unit :=
  match keys with
  | [] => mret tt
  | _ :: keys => _ ← unsubscribe answered st; unsubscribe_all answered keys st
  end.

(** With a [NULL] table [g_hash_table_iter_init] leaves the iterator unset.
    [redisFree] accepts [NULL]. *)
Definition destory_redis_conn (answered : bool) (st : redis_state) : outcome redis_state :=
  match sub_hash st with
  | None => Undef Uninitialised
  | Some t =>
      _ ← unsubscribe_all answered (gh_foreach t).*1 st;
      _ ← destroy_values (snd <$> (gh_foreach t).*2);
      match redis_conn_hd st, redis_conn_info st with
      | Dangling, _ | _, Dangling => Undef DoubleFree
      | hd, info =>
          mret {| redis_conn_info := match info with Live _ => Dangling | p => p end;
                  redis_conn_hd := match hd with Live _ => Dangling | p => p end;
                  sub_hash := None;
                  contexts := contexts st - Z.of_nat (length (gh_foreach t)) -
                              (match hd with Live _ => 1 | _ => 0 end) |}
      end
  end.
End redis.
Arguments redis_state : clear implicits.

(** ** The subscriber thread *)

(** A reply: whether it is an array, and the strings of its elements ([None]
    when [str] is [NULL]). *)
Record reply := { is_array : bool; elements : list (option bytes) }.

(** One callback: the function and its three arguments. *)
Definition call : Type := message_func_t * (option bytes * bytes * Z).

(** The [for] loop over the callbacks, [n] of them left from index [i]. *)
Fixpoint run_callbacks (n : nat) (i : Z) (m : sub_msg_t) (name : option bytes)
    (message : bytes) : outcome (list call) :=
  match n with
  | O => mret []
  | S n =>
      f ← aget (message_func m) i;
      r ← run_callbacks n (i + 1) m name message;
      mret ((f, (name, message, to_s 32 (zlen message))) :: r)
  end.

Definition on_reply (m : sub_msg_t) (r : reply) : outcome (list call) :=
  match is_array r, elements r with
  | true, [_; name; Some message] => run_callbacks (Z.to_nat (size m)) 0 m name message
  | _, _ => mret []
  end.

(** The thread's endless loop over the answers of [redisGetReply]; [None] is
    an error, after which it sleeps and asks the same context again. *)
Fixpoint subscribe_func (m : sub_msg_t) (replies : list (option reply))
    : outcome (list call) :=
  match replies with
  | [] => mret []
  | None :: replies => subscribe_func m replies
  | Some r :: replies => a ← on_reply m r; b ← subscribe_func m replies; mret (a ++ b)
  end.

(** ** Subscribing and delivering *)

Section properties.
Context {T : Type → Type → Type} `{GHashTableLaws T}.
Implicit Types st : redis_state T.

(** Successive registrations on one channel, each with a live server. *)
Fixpoint subscribe_all (channel : bytes) (fs : list message_func_t) st
    : outcome (list Z * redis_state T) :=
  match fs with
  | [] => mret ([], st)
  | f :: fs =>
      r ← init_subscribe true (Context false) true channel f st;
      rs ← subscribe_all channel fs r.2;
      mret (r.1 :: rs.1, rs.2)
  end.

(** A text that is its own format and fits the key. *)
Definition plain_key (s : bytes) : Prop :=
  Forall (λ c, c ≠ "%"%char) s ∧ zlen s < CHANNEL_NAME_LEN.

Lemma format_plain s : Forall (λ c, c ≠ "%"%char) s → format s = mret s.
Proof.
  induction 1 as [|c s Hc _ IH]; [done|].
  cbn [format]. rewrite decide_False by done. by rewrite IH.
Qed.

Lemma snprintf_plain s : plain_key s → snprintf_text CHANNEL_NAME_LEN s = mret s.
Proof.
  intros [Hf Hl]. unfold snprintf_text. rewrite format_plain by done. simpl.
  unfold zlen, CHANNEL_NAME_LEN in *. rewrite take_ge; [done|lia].
Qed.

(** The entry of a channel holds exactly the callbacks [fs]. *)
Definition registered (fs : list message_func_t) (m : sub_msg_t) : Prop :=
  zlen (message_func m) = FUNC_MAX_COUNT ∧ size m = zlen fs ∧
  take (length fs) (message_func m) = fs.

(** What one message makes of the callbacks [fs]. *)
Definition delivered_to (fs : list message_func_t) (name : option bytes) (message : bytes)
    : list call :=
  map (λ f, (f, (name, message, to_s 32 (zlen message)))) fs.

Lemma run_callbacks_registered fs m i name message :
  registered fs m → (i ≤ length fs)%nat →
  run_callbacks (length fs - i) (Z.of_nat i) m name message =
    mret (delivered_to (drop i fs) name message).
Proof.
  intros (Hlen & Hsize & Htake). unfold zlen in Hlen.
  remember (length fs - i)%nat as n eqn:Hn. revert i Hn.
  induction n as [|n IH]; intros i Hn Hi; simpl; [by rewrite drop_ge by lia|].
  assert (length fs ≤ length (message_func m))%nat.
  { rewrite <- Htake, length_take. lia. }
  rewrite aget_ok by (unfold zlen; lia). simpl.
  destruct (lookup_lt_is_Some_2 fs i) as [f Hf]; [lia|].
  replace (Z.of_nat i + 1) with (Z.of_nat (S i)) by lia.
  rewrite IH by lia. simpl. rewrite (drop_S fs f i) by done. simpl. do 3 f_equal.
  unfold rd. rewrite Nat2Z.id. apply list_lookup_total_correct.
  rewrite <- (lookup_take_lt _ (length fs)) by lia. by rewrite Htake.
Qed.

Lemma on_reply_registered fs m ch name message :
  registered fs m →
  on_reply m {| is_array := true; elements := [ch; name; Some message] |} =
    mret (delivered_to fs name message).
Proof.
  intros Hm. unfold on_reply. simpl.
  destruct (Hm) as (_ & Hs & _). rewrite Hs. unfold zlen. rewrite Nat2Z.id.
  pose proof (run_callbacks_registered fs m 0 name message ltac:(done) ltac:(lia)) as H1.
  by rewrite Nat.sub_0_r in H1.
Qed.

Lemma sub_lookup_update channel m st :
  is_Some (sub_hash st) → sub_lookup channel (sub_update channel m st) = Some m.
Proof.
  intros [t Ht]. unfold sub_lookup, sub_update. rewrite Ht. simpl.
  by rewrite gh_lookup_insert.
Qed.
Lemma sub_lookup_live channel m st : sub_lookup channel st = Some m → is_Some (sub_hash st).
Proof. unfold sub_lookup. destruct (sub_hash st); [eauto|done]. Qed.

(** One more callback of a channel. *)
Lemma init_subscribe_more logs answer created channel f st m fs :
  sub_lookup channel st = Some m → registered fs m → zlen fs < FUNC_MAX_COUNT →
  ∃ m' st', init_subscribe logs answer created channel f st = mret (SUB_OK, st') ∧
    sub_lookup channel st' = Some m' ∧ registered (fs ++ [f]) m'.
Proof.
  intros E (Hlen & Hsize & Htake) Hlt. unfold init_subscribe. rewrite E.
  rewrite decide_False by lia. unfold FUNC_MAX_COUNT, zlen in *.
  rewrite aset_ok by (unfold zlen; lia). simpl. eexists _, _. split; [done|]. split.
  - by apply sub_lookup_update, (sub_lookup_live channel m).
  - unfold registered. simpl. rewrite zlen_upd. unfold zlen. rewrite length_app. simpl.
    split; [done|]. split; [lia|]. unfold upd. rewrite Hsize, Nat2Z.id.
    simpl.
    rewrite Nat.add_1_r, (take_S_r _ _ f), take_insert_ge, Htake; [done|lia|].
    apply list_lookup_insert_eq. lia.
Qed.

(** The first callback of a channel. *)
Lemma init_subscribe_first logs channel f st t :
  sub_hash st = Some t → is_Some (match redis_conn_info st with Live i => Some i | _ => None end) →
  plain_key channel → sub_lookup channel st = None →
  ∃ m' st', init_subscribe logs (Context false) true channel f st = mret (SUB_OK, st') ∧
    sub_lookup channel st' = Some m' ∧ registered [f] m'.
Proof.
  intros Ht Hinfo Hkey E. unfold init_subscribe. rewrite E.
  destruct (redis_conn_info st) as [|i|]; [by destruct Hinfo| |by destruct Hinfo].
  simpl. rewrite snprintf_plain by done. simpl.
  unfold sub_insert, sub_lookup in *. simpl. rewrite Ht in *.
  destruct (gh_lookup channel t) as [[]|] eqn:Et; [done|]. simpl.
  eexists _, _. split; [done|]. simpl. rewrite gh_lookup_insert. done.
Qed.

Lemma subscribe_all_more channel fs done st m :
  sub_lookup channel st = Some m → registered done m →
  zlen done + zlen fs ≤ FUNC_MAX_COUNT →
  ∃ m' st', subscribe_all channel fs st = mret (replicate (length fs) SUB_OK, st') ∧
    sub_lookup channel st' = Some m' ∧ registered (done ++ fs) m'.
Proof.
  revert done st m. induction fs as [|f fs IH]; intros done st m E Hm Hle; simpl.
  - exists m, st. by rewrite app_nil_r.
  - destruct (init_subscribe_more true (Context false) true channel f st m done)
      as (m1 & st1 & -> & E1 & H1); [done..|unfold zlen in *; simpl in *; lia|].
    simpl. destruct (IH (done ++ [f]) st1 m1) as (m2 & st2 & -> & E2 & H2); [done..| |].
    { unfold zlen in *. rewrite length_app. simpl in *. lia. }
    exists m2, st2. split; [done|]. by rewrite <- app_assoc in H2.
Qed.

(** The connection was initialised and the channel is new. *)
Definition fresh_channel (channel : bytes) st : Prop :=
  is_Some (sub_hash st) ∧
  match redis_conn_info st with Live _ => True | _ => False end ∧
  sub_lookup channel st = None ∧ plain_key channel.


(** A connection that fails leaves the control pointer dangling: where the
    log macro evaluates its arguments the error message is read from the freed
    context; otherwise [init_redis_conn] reports the failure, and
    [set_ttl_key] afterwards uses the freed context. *)
Lemma init_redis_conn_fails (logs : bool) h p (k v : bytes) st :
  redis_conn_info st = Null → Forall (λ c, c ≠ "%"%char) h →
  if logs then init_redis_conn logs (Context true) h p st = Undef UseAfterFree
  else ∃ st', init_redis_conn logs (Context true) h p st = mret (SUB_ERR, st') ∧
         redis_conn_info st' = Null ∧
         set_ttl_key (Some k) (Some v) st' = Undef UseAfterFree.
Proof.
  intros E Hh. unfold init_redis_conn, snprintf_text. rewrite E, format_plain by done.
  destruct logs; simpl; [done|]. eexists. done.
Qed.

(** The states the operations lead to. *)
Inductive reachable : redis_state T → Prop :=
  | reach_start : reachable redis_start
  | reach_init logs answer h p st r st' :
      reachable st → init_redis_conn logs answer h p st = Ret (r, st') → reachable st'
  | reach_subscribe logs answer created channel f st r st' :
      reachable st → init_subscribe logs answer created channel f st = Ret (r, st') →
      reachable st'
  | reach_destroy answered st st' :
      reachable st → destory_redis_conn answered st = Ret st' → reachable st'.

(** Every subscriber thread is detached. *)
Definition detached st : Prop :=
  ∀ channel m, sub_lookup channel st = Some m → joinable m = false.

Lemma sub_lookup_insert channel key m t i hd n :
  sub_lookup channel {| redis_conn_info := i; redis_conn_hd := hd;
                        sub_hash := Some (gh_insert key tt m t); contexts := n |} =
  if decide (key = channel) then Some m
  else snd <$> (gh_lookup channel t : option (unit * sub_msg_t)).
Proof. unfold sub_lookup. simpl. rewrite gh_lookup_insert_case. by destruct (decide _). Qed.

Lemma sub_update_detached channel m st :
  joinable m = false → detached st → detached (sub_update channel m st).
Proof.
  intros Hm Hst channel' m'. unfold sub_update. specialize (Hst channel').
  unfold sub_lookup in Hst. destruct (sub_hash st) as [t|]; simpl; [|done].
  rewrite sub_lookup_insert. destruct (decide _); [by intros [= <-]|apply Hst].
Qed.

Lemma sub_insert_detached key m st st' :
  joinable m = false → detached st → sub_insert key m st = Ret st' → detached st'.
Proof.
  intros Hm Hst H'. unfold sub_insert in H'. destruct (sub_hash st) as [t|] eqn:Ht.
  - apply bind_Ret in H' as (? & _ & H'). apply Ret_inj in H' as <-.
    intros channel m'. rewrite sub_lookup_insert. specialize (Hst channel).
    unfold sub_lookup in Hst. rewrite Ht in Hst.
    destruct (decide _); [by intros [= <-]|apply Hst].
  - by apply Ret_inj in H' as <-.
Qed.

Lemma init_subscribe_detached logs answer created channel f st r st' :
  detached st → init_subscribe logs answer created channel f st = Ret (r, st') → detached st'.
Proof.
  unfold init_subscribe. intros Hst H'.
  destruct (sub_lookup channel st) as [m|] eqn:E.
  - ret_inv H'; [done|]. apply sub_update_detached; [|done]. simpl. by apply (Hst channel).
  - apply bind_Ret in H' as (? & _ & H'). destruct answer as [|[]]; [done| |].
    + apply bind_Ret in H' as (? & _ & H'). by ret_inv H'.
    + apply bind_Ret in H' as (key & _ & H'). apply bind_Ret in H' as (funcs & _ & H').
      destruct created; [|by ret_inv H'].
      apply bind_Ret in H' as (st1 & E1 & H'). ret_inv H'.
      by eapply sub_insert_detached; [| |exact E1].
Qed.

Lemma reachable_detached st : reachable st → detached st.
Proof.
  induction 1 as [|logs answer h p st r st' _ IH E|logs answer created channel f st r st' _ IH E
    |answered st st' _ IH E]; [done| |by eapply init_subscribe_detached|].
  - unfold init_redis_conn in E. destruct (redis_conn_info st); [|by ret_inv E..].
    apply bind_Ret in E as (h' & _ & E).
    assert (∀ m channel, sub_lookup (T:=T) channel
      {| redis_conn_info := Null; redis_conn_hd := Null; sub_hash := Some gh_new;
         contexts := 0 |} = Some m → False) as Hnew.
    { intros m c. unfold sub_lookup. simpl. by rewrite gh_lookup_new. }
    ret_inv E; intros c m Hm; destruct (Hnew m c Hm).
  - unfold destory_redis_conn in E. ret_inv E; intros c m Hm; discriminate.
Qed.

(** Destroying the client. With any channel subscribed,
    [destory_redis_conn] joins a thread that was detached when it was created,
    which is undefined. Without one it returns, but the two pointers keep their
    freed targets: [init_redis_conn] then answers [SUB_OK] without
    connecting, and subscribing uses the freed connection data. *)
Lemma destory_redis_conn_ends answered st t i logs answer h p :
  sub_hash st = Some t → redis_conn_info st = Live i → redis_conn_hd st = Live tt →
  reachable st →
  if decide (gh_foreach t = []) then
    ∃ st', destory_redis_conn answered st = mret st' ∧
      init_redis_conn logs answer h p st' = mret (SUB_OK, st') ∧
      ∀ created channel f,
        init_subscribe logs answer created channel f st' = Undef UseAfterFree
  else destory_redis_conn answered st = Undef BadJoin.
Proof.
  intros Ht Hi Hhd Hj%reachable_detached. unfold destory_redis_conn. rewrite Ht, Hi, Hhd.
  destruct (decide (gh_foreach t = [])) as [E|E].
  { rewrite E. simpl. eexists. done. }
  assert (Hun : ∀ keys, unsubscribe_all answered keys st = mret tt).
  { induction keys as [|k keys IH]; simpl; [done|]. unfold unsubscribe. by rewrite Hhd. }
  rewrite Hun. simpl.
  destruct (gh_foreach t) as [|[key e] l] eqn:El; [done|]. simpl.
  unfold sub_value_destroy. rewrite (Hj key e.2); [done|].
  unfold sub_lookup. rewrite Ht. replace (gh_lookup key t) with (Some e); [done|].
  symmetry. apply gh_foreach_lookup. rewrite El. set_solver.
Qed.
End properties.

(** ** Witnesses *)

Definition channel1 : bytes := lit "lctools".
Definition connected_state : redis_state gmap_table :=
  {| redis_conn_info := Live {| host := lit "10.0.0.1"; port := 6379 |};
     redis_conn_hd := Live tt; sub_hash := Some gh_new; contexts := 1 |}.
Lemma connected_state_reached :
  init_redis_conn true (Context false) (lit "10.0.0.1") 6379 (redis_start (T:=gmap_table)) =
    mret (SUB_OK, connected_state).
Proof. reflexivity. Qed.


Lemma init_redis_conn_fails_witness :
  init_redis_conn true (Context true) (lit "10.0.0.1") 6379 (redis_start (T:=gmap_table)) =
    Undef UseAfterFree.
Proof.
  refine (init_redis_conn_fails true (lit "10.0.0.1") 6379 [] [] redis_start _ _);
    [reflexivity|].
  repeat (constructor; [discriminate|]). constructor.
Defined.

Definition subscribed_table : gmap_table unit sub_msg_t :=
  gh_insert channel1 tt {| joinable := false; channel_name := channel1;
                           message_func := 3%nat :: replicate 49 O; size := 1 |} gh_new.
Definition subscribed_state : redis_state gmap_table :=
  {| redis_conn_info := Live {| host := lit "10.0.0.1"; port := 6379 |};
     redis_conn_hd := Live tt; sub_hash := Some subscribed_table; contexts := 2 |}.
Lemma destory_redis_conn_ends_witness :
  destory_redis_conn true subscribed_state = Undef BadJoin.
Proof.
  pose proof (destory_redis_conn_ends true subscribed_state subscribed_table
    {| host := lit "10.0.0.1"; port := 6379 |} true NoContext [] 0) as H.
  specialize (H eq_refl eq_refl eq_refl).
  rewrite decide_False in H by (vm_compute; discriminate).
  apply H.
  apply (reach_subscribe true (Context false) true channel1 3%nat connected_state SUB_OK).
  - apply (reach_init true (Context false) (lit "10.0.0.1") 6379 redis_start SUB_OK);
      [apply reach_start|reflexivity].
  - vm_cast_no_check (eq_refl (Ret (SUB_OK, subscribed_state))).
Defined.
