(* ===== verification/RedisThreads.v ===== *)
(** A subscriber thread of [src/src/utils/redis/redis_opt.c] together with the
    callers of [init_subscribe] that add callbacks to its channel.

    The callers hold [mut_hash], so one of them at a time stores the function
    and then increases [size]; the thread reads [size] and the table without
    the lock. Each access is a step, in some order (accesses that C leaves
    unordered are found by [size_races]). The first callback is there when the
    thread starts. [registrations] are the functions counted in [size] so far;
    a delivery records how many there were when its message arrived and the
    functions called for it. *)

From stdpp Require Import relations.
From S2P Require Import Prelude CString RedisOpt.

Open Scope Z_scope.

(** ** Steps *)

Inductive listener_pc :=
  | LWait                                          (* in redisGetReply *)
  | LTest (k : nat) (i : Z) (called : list message_func_t) (* i < sub_msg->size *)
  | LCall (k : nat) (i : Z) (called : list message_func_t).

Record channel := {
  entry : sub_msg_t;
  registrant : option message_func_t;              (* stored, not yet counted *)
  listener : listener_pc;
  registrations : list message_func_t;
  deliveries : list (nat * list message_func_t)
}.

Definition channel_start (name : bytes) (f : message_func_t) : channel :=
  {| entry := {| joinable := false; channel_name := name;
                 message_func := f :: replicate 49 O; size := 1 |};
     registrant := None; listener := LWait; registrations := [f]; deliveries := [] |}.

Definition set_entry (s : channel) (funcs : list message_func_t) (n : Z) : sub_msg_t :=
  {| joinable := joinable (entry s); channel_name := channel_name (entry s);
     message_func := funcs; size := n |}.
Definition set_listener (s : channel) (l : listener_pc) : channel :=
  {| entry := entry s; registrant := registrant s; listener := l;
     registrations := registrations s; deliveries := deliveries s |}.

Inductive channel_step (s : channel) : channel → Prop :=
  | registrant_stores f funcs :
      registrant s = None → size (entry s) < FUNC_MAX_COUNT →
      aset (message_func (entry s)) (size (entry s)) f = Ret funcs →
      channel_step s {| entry := set_entry s funcs (size (entry s)); registrant := Some f;
                        listener := listener s; registrations := registrations s;
                        deliveries := deliveries s |}
  | registrant_counts f :
      registrant s = Some f →
      channel_step s {| entry := set_entry s (message_func (entry s)) (size (entry s) + 1);
                        registrant := None; listener := listener s;
                        registrations := registrations s ++ [f];
                        deliveries := deliveries s |}
  | listener_receives :
      listener s = LWait →
      channel_step s (set_listener s (LTest (length (registrations s)) 0 []))
  | listener_continues k i called :
      listener s = LTest k i called → i < size (entry s) →
      channel_step s (set_listener s (LCall k i called))
  | listener_calls k i called f :
      listener s = LCall k i called → aget (message_func (entry s)) i = Ret f →
      channel_step s (set_listener s (LTest k (i + 1) (called ++ [f])))
  | listener_ends k i called :
      listener s = LTest k i called → size (entry s) ≤ i →
      channel_step s {| entry := entry s; registrant := registrant s; listener := LWait;
                        registrations := registrations s;
                        deliveries := deliveries s ++ [(k, called)] |}.

(** ** The invariant *)

(** The functions called so far for a message are the first [i] registered. *)
Definition called_ok (s : channel) (k : nat) (i : Z) (called : list message_func_t) : Prop :=
  0 ≤ i ≤ zlen (registrations s) ∧ (k ≤ length (registrations s))%nat ∧
  called = take (Z.to_nat i) (registrations s).

Definition delivered (regs : list message_func_t) (d : nat * list message_func_t) : Prop :=
  ∃ n, (d.1 ≤ n ≤ length regs)%nat ∧ d.2 = take n regs.

Definition channel_ok (s : channel) : Prop :=
  registered (registrations s) (entry s) ∧
  zlen (registrations s) + (if registrant s is Some _ then 1 else 0) ≤ FUNC_MAX_COUNT ∧
  (∀ f, registrant s = Some f →
     message_func (entry s) !! length (registrations s) = Some f) ∧
  match listener s with
  | LWait => True
  | LTest k i called => called_ok s k i called
  | LCall k i called => called_ok s k i called ∧ i < zlen (registrations s)
  end ∧
  Forall (delivered (registrations s)) (deliveries s).

Lemma take_registered (regs : list message_func_t) f n :
  (n ≤ length regs)%nat → take n (regs ++ [f]) = take n regs.
Proof. intros. by rewrite take_app_le. Qed.

Lemma registered_call regs m i :
  registered regs m → 0 ≤ i < zlen regs → ∃ f, aget (message_func m) i = Ret f ∧
    regs !! Z.to_nat i = Some f.
Proof.
  intros (Hlen & Hsize & Htake) Hi.
  assert (zlen regs ≤ zlen (message_func m)).
  { rewrite <- Htake. unfold zlen. rewrite length_take. lia. }
  exists (rd (message_func m) i). rewrite aget_ok by lia. split; [done|].
  rewrite <- Htake, lookup_take_lt by (unfold zlen in *; lia).
  apply lookup_rd. lia.
Qed.

Lemma channel_step_ok s s' : channel_ok s → channel_step s s' → channel_ok s'.
Proof.
  intros (Hr & Hmax & Hstored & Hl & Hd) Hs. pose proof Hr as (Hlen & Hsize & Htake).
  destruct Hs as [f funcs Hn Hlt Ha|f Hf|Hw|k i called Hw Hi|k i called f Hw Ha|k i called Hw Hi];
    unfold channel_ok; cbn.
  - rewrite aset_ok in Ha by (unfold FUNC_MAX_COUNT in *; unfold zlen in *; lia).
    apply Ret_inj in Ha as <-. rewrite Hn in Hmax.
    assert (length (registrations s) < length (message_func (entry s)))%nat
      by (unfold zlen, FUNC_MAX_COUNT in *; lia).
    split; [|split; [lia|split; [|done]]].
    + split_and!; cbn; [by rewrite zlen_upd|done|].
      unfold upd. rewrite Hsize. unfold zlen. rewrite Nat2Z.id.
      by rewrite take_insert_ge by lia.
    + intros g [= <-]. unfold upd. rewrite Hsize. unfold zlen. rewrite Nat2Z.id.
      by rewrite list_lookup_insert_eq.
  - specialize (Hstored f Hf). rewrite Hf in Hmax.
    assert (Hz : zlen (registrations s ++ [f]) = zlen (registrations s) + 1)
      by (unfold zlen; rewrite length_app; cbn; lia).
    split; [|split; [lia|split; [done|split]]].
    + split_and!; cbn; [done|lia|]. rewrite length_app, Nat.add_1_r.
      by rewrite (take_S_r _ _ f), Htake.
    + destruct (listener s) as [|k i called|k i called]; [done|..]; unfold called_ok in *; cbn;
        rewrite Hz, length_app; unfold zlen in *; cbn.
      all: rewrite take_registered by lia. all: destruct_and?; split_and?; try done; lia.
    + eapply Forall_impl; [exact Hd|]. intros [k cs] (n & Hn & Hcs). exists n. cbn in *.
      rewrite length_app, take_registered by lia. split; [cbn; lia|done].
  - split_and!; try done. unfold called_ok. cbn. split_and!; [lia|unfold zlen; lia|lia|done].
  - rewrite Hw in Hl. split_and!; try done. lia.
  - rewrite Hw in Hl. destruct Hl as [(Hi & Hk & ->) Hlt].
    destruct (registered_call _ _ i Hr ltac:(lia)) as (g & Hg & Hreg).
    rewrite Ha in Hg. apply Ret_inj in Hg as <-.
    split_and!; try done. unfold called_ok. cbn. split_and!; [lia|lia|done|].
    replace (Z.to_nat (i + 1)) with (S (Z.to_nat i)) by lia. by rewrite (take_S_r _ _ f).
  - rewrite Hw in Hl. destruct Hl as (Hi' & Hk & ->). split_and!; try done.
    apply Forall_app. split; [done|]. constructor; [|done].
    exists (Z.to_nat i). cbn. split; [|done]. unfold zlen in *. lia.
Qed.

Lemma channel_reach_ok name f s :
  rtc channel_step (channel_start name f) s → channel_ok s.
Proof.
  intros Hr. assert (channel_ok (channel_start name f)) as Hok.
  { split_and!; try done. }
  induction Hr as [|s0 s1 s2 Hs _ IH]; [done|]. eauto using channel_step_ok.
Qed.

(** ** Theorems *)

(** C31: Callbacks added while messages arrive. Whatever the interleaving of the
    subscriber thread with the callers of [init_subscribe], one access at a time:
    every message is given to every callback that was counted when it arrived,
    possibly to some that were added meanwhile, to each once and in the order of
    registration; a call never reads an entry that was not registered, and the
    table is never overrun. *)
Theorem listener_delivers name f s :
  rtc channel_step (channel_start name f) s →
  Forall (delivered (registrations s)) (deliveries s) ∧
  (∀ k i called, listener s = LCall k i called →
     ∃ g, aget (message_func (entry s)) i = Ret g ∧
       registrations s !! length called = Some g) ∧
  zlen (registrations s) ≤ FUNC_MAX_COUNT.
Proof.
  intros Hr. destruct (channel_reach_ok name f s Hr) as (Hreg & Hmax & _ & Hl & Hd).
  split; [done|]. split; [|destruct (registrant s); lia].
  intros k i called Hc. rewrite Hc in Hl. destruct Hl as [(Hi & _ & ->) Hlt].
  destruct (registered_call _ _ i Hreg ltac:(lia)) as (g & Hg & Hi').
  exists g. split; [done|]. rewrite length_take. unfold zlen in *.
  by replace (Z.to_nat i `min` length (registrations s))%nat with (Z.to_nat i) by lia.
Qed.

(** C tells nothing about it all the same: the thread can be about to read [size]
    when a caller is about to write it, without the lock that the caller holds. *)
Lemma size_races :
  ∃ s, rtc channel_step (channel_start (lit "news") 7%nat) s ∧
    registrant s = Some 8%nat ∧ listener s = LTest 1 0 [].
Proof.
  eexists. split; [|split].
  - eapply rtc_l; [by eapply (registrant_stores _ 8%nat)|].
    eapply rtc_l; [by apply listener_receives|]. apply rtc_refl.
  - done.
  - done.
Qed.

(** A message that arrives while a callback is being added reaches both. *)
Lemma listener_delivers_witness :
  ∃ s, rtc channel_step (channel_start (lit "news") 7%nat) s ∧
    deliveries s = [(1%nat, [7%nat; 8%nat])] ∧ registrations s = [7%nat; 8%nat] ∧
  Forall (delivered (registrations s)) (deliveries s) ∧
  (∀ k i called, listener s = LCall k i called →
     ∃ g, aget (message_func (entry s)) i = Ret g ∧
       registrations s !! length called = Some g) ∧
  zlen (registrations s) ≤ FUNC_MAX_COUNT.
Proof.
  assert (∃ s, rtc channel_step (channel_start (lit "news") 7%nat) s ∧
    deliveries s = [(1%nat, [7%nat; 8%nat])] ∧ registrations s = [7%nat; 8%nat])
    as (s & Hr & Hd & Hreg).
  { eexists. split; [|split].
    - eapply rtc_l; [by eapply (registrant_stores _ 8%nat)|].
      eapply rtc_l; [by apply listener_receives|].
      eapply rtc_l; [by eapply listener_continues|].
      eapply rtc_l; [by eapply registrant_counts|].
      eapply rtc_l; [by eapply listener_calls|].
      eapply rtc_l; [by eapply listener_continues|].
      eapply rtc_l; [by eapply listener_calls|].
      eapply rtc_l; [by eapply listener_ends|]. apply rtc_refl.
    - done.
    - done. }
  exists s. split; [done|]. split; [done|]. split; [done|].
  exact (listener_delivers (lit "news") 7%nat s Hr).
Defined.
