(* ===== verification/ReadPacket.v ===== *)
(** Printing the TCP packets of a capture, [src/src/network/read_packet.c] and
    [packet_type.h].

    A packet is the list of the bytes libpcap delivers, [caplen] of them; the
    three header pointers are offsets into it. The headers are packed structs,
    read and written in place on a little-endian host. libpcap itself is
    outside: a capture file is the list of its packets. *)

From S2P Require Import Prelude CString.

Definition PACKET_FROM_CLIENT : Z := 8.
Definition PACKET_FROM_SERVER : Z := 9.
Definition SNIFF_SIZE_ETHERNET : Z := 14.
Definition SESSION_NO_INIT : Z := 0.
Definition SESSION_START : Z := 1.

(** [in_addr] values are the four bytes as the host reads them. *)
Record tcp_session_t := {
  flag : Z; ip_src : Z; sport : Z; ip_des : Z; dport : Z
}.
Definition no_session : tcp_session_t :=
  {| flag := 0; ip_src := 0; sport := 0; ip_des := 0; dport := 0 |}.

(** [ip], [tcp] and [payload] are offsets. *)
Record pkt_info_t := {
  ip : Z; tcp : Z; payload : Z; len : Z; direction : Z
}.

(** ** Memory *)

Definition load16 (m : list Z) (o : Z) : outcome Z :=
  a ← aget m o; b ← aget m (o + 1); mret (a + 256 * b).
Definition store16 (m : list Z) (o v : Z) : outcome (list Z) :=
  m ← aset m o (v mod 256); aset m (o + 1) (v / 256).
Definition load32 (m : list Z) (o : Z) : outcome Z :=
  a ← load16 m o; b ← load16 m (o + 2); mret (a + 65536 * b).
Definition store32 (m : list Z) (o v : Z) : outcome (list Z) :=
  m ← store16 m o (v mod 65536); store16 m (o + 2) (v / 65536).

Definition ntohs (v : Z) : Z := (v mod 256) * 256 + v / 256.
Definition ntohl (v : Z) : Z := ntohs (v mod 65536) * 65536 + ntohs (v / 65536).

(** A field assigned from the same place: as it is, or converted. *)
Definition keep8 (m : list Z) (o : Z) : outcome (list Z) :=
  v ← aget m o; aset m o v.
Definition conv16 (m : list Z) (o : Z) : outcome (list Z) :=
  v ← load16 m o; store16 m o (ntohs v).
Definition conv32 (m : list Z) (o : Z) : outcome (list Z) :=
  v ← load32 m o; store32 m o (ntohl v).

Definition ntoh_tcp (m : list Z) (t : Z) : outcome (list Z) :=
  m ← conv16 m t; m ← conv16 m (t + 2);
  m ← conv32 m (t + 4); m ← conv32 m (t + 8);
  m ← keep8 m (t + 12); m ← keep8 m (t + 13);
  m ← conv16 m (t + 14); m ← conv16 m (t + 16); conv16 m (t + 18).

(** [ip_off] at offset 6 is skipped. *)
Definition ntoh_ip (m : list Z) (p : Z) : outcome (list Z) :=
  m ← keep8 m p; m ← keep8 m (p + 1);
  m ← conv16 m (p + 2); m ← conv16 m (p + 4);
  m ← keep8 m (p + 8); m ← keep8 m (p + 9);
  conv16 m (p + 10).

(** The fields the code reads. *)
Definition ip_src_of (m : list Z) (p : Z) := load32 m (p + 12).
Definition ip_dst_of (m : list Z) (p : Z) := load32 m (p + 16).
Definition th_sport (m : list Z) (t : Z) := load16 m t.
Definition th_dport (m : list Z) (t : Z) := load16 m (t + 2).
Definition SNIFF_IP_HL (b : Z) : Z := Z.land b 15.
Definition SNIFF_TH_OFF (b : Z) : Z := Z.shiftr (Z.land b 240) 4.

(** [-1] as a [u_char]. *)
Definition packet_direction (m : list Z) (ses : tcp_session_t) (p t : Z) : outcome Z :=
  src ← ip_src_of m p; sp ← th_sport m t;
  if (ip_src ses =? src) && (sport ses =? sp) then mret PACKET_FROM_CLIENT
  else if (ip_des ses =? src) && (dport ses =? sp) then mret PACKET_FROM_SERVER
  else mret (to_u 8 (-1)).

(** The memory, the session and, unless the result is [NULL], the packet's
    data. *)
Definition slice_packet (m : list Z) (caplen : Z) (ses : tcp_session_t)
    : outcome (list Z * tcp_session_t * option pkt_info_t) :=
  let p := SNIFF_SIZE_ETHERNET in
  vh ← aget m p;
  let size_ip := SNIFF_IP_HL vh * 4 in
  if decide (size_ip < 10) then mret (m, ses, None)
  else
    m ← ntoh_ip m p;
    let t := SNIFF_SIZE_ETHERNET + size_ip in
    m ← ntoh_tcp m t;
    ses ← (if decide (flag ses = SESSION_NO_INIT) then
             src ← ip_src_of m p; dst ← ip_dst_of m p;
             sp ← th_sport m t; dp ← th_dport m t;
             mret {| flag := SESSION_START; ip_src := src; sport := sp;
                     ip_des := dst; dport := dp |}
           else mret ses);
    off ← aget m (t + 12);
    let size_tcp := SNIFF_TH_OFF off * 4 in
    if decide (size_tcp < 20) then mret (m, ses, None)
    else
      dir ← packet_direction m ses p t;
      mret (m, ses,
            Some {| ip := p; tcp := t; payload := SNIFF_SIZE_ETHERNET + size_ip + size_tcp;
                    len := to_u 16 (to_u 16 caplen
                                    - (SNIFF_SIZE_ETHERNET + size_ip + size_tcp));
                    direction := dir |}).

(** The nested conditionals of [same_session], on the four numbers of a
    packet. *)
Definition same_session (ses : tcp_session_t) (src sp dst dp : Z) : Z :=
  if ip_src ses =? src then
    if sport ses =? sp then
      if ip_des ses =? dst then if dport ses =? dp then 1 else 0 else 0
    else 0
  else if ip_src ses =? dst then
    if sport ses =? dp then
      if ip_des ses =? src then if dport ses =? sp then 1 else 0 else 0
    else 0
  else 0.

(** ** Printing *)

Definition tcp_flags : list bytes :=
  map lit ["FIN"; "SYN"; "RST"; "PUSH"; "ACK"; "URG"; "ECE"; "CWR"]%string.

Fixpoint blit (buf : bytes) (i : Z) (s : bytes) : outcome bytes :=
  match s with
  | [] => mret buf
  | c :: s => buf ← aset buf i c; blit buf (i + 1) s
  end.

(** The loop over the flag names from bit [i]. *)
Fixpoint flag_names (names : list bytes) (i fl : Z) (buf : bytes) (n : Z)
    : outcome (bytes * Z) :=
  match names with
  | [] => mret (buf, n)
  | s :: names =>
      if Z.land (Z.shiftr fl i) 1 =? 0 then flag_names names (i + 1) fl buf n
      else
        buf ← blit buf n s;
        buf ← aset buf (n + zlen s) ","%char;
        let n := n + zlen s + 1 in
        if decide (n > 60) then mret (buf, n) else flag_names names (i + 1) fl buf n
  end.

(** [str_tcp_flag] as [%s] prints it, the last comma removed. *)
Definition flag_text (fl : Z) : outcome bytes :=
  '(buf, n) ← flag_names tcp_flags 0 fl (replicate 64 NUL) 0;
  buf ← aset buf (n - 1) NUL;
  mret (cstr buf).

(** [inet_ntoa]: the four bytes in decimal. *)
Definition dotted (a : Z) : bytes :=
  print_u (a mod 256) ++ "."%char :: print_u (a / 256 mod 256) ++
  "."%char :: print_u (a / 65536 mod 256) ++ "."%char :: print_u (a / 16777216).

(** What a line of output shows. *)
Record line := {
  red : bool;
  shown_src : bytes; shown_sport : Z; shown_dst : bytes; shown_dport : Z;
  shown_flags : bytes; shown_seq : Z; shown_ack : Z; shown_win : Z; shown_len : Z
}.

(** Both calls of [inet_ntoa] fill the same static buffer before [printf]
    reads it; C leaves the order of the two argument evaluations open:
    [dst_last] when the destination is converted last. *)
Definition static_text (dst_last : bool) (src dst : Z) : bytes :=
  if dst_last then dotted dst else dotted src.

Definition read_packet (dst_last : bool) (m : list Z) (ses : tcp_session_t)
    : outcome (tcp_session_t * option line) :=
  '(m, ses, info) ← slice_packet m (zlen m) ses;
  match info with
  | None => mret (ses, None)
  | Some info =>
      fl ← aget m (tcp info + 13);
      text ← flag_text fl;
      src ← ip_src_of m (ip info); dst ← ip_dst_of m (ip info);
      sp ← th_sport m (tcp info); dp ← th_dport m (tcp info);
      seq ← load32 m (tcp info + 4); ack ← load32 m (tcp info + 8);
      win ← load16 m (tcp info + 14);
      let shown := static_text dst_last src dst in
      mret (ses, Some {| red := bool_decide (direction info = PACKET_FROM_SERVER);
                         shown_src := shown; shown_sport := sp;
                         shown_dst := shown; shown_dport := dp; shown_flags := text;
                         shown_seq := seq; shown_ack := ack; shown_win := win;
                         shown_len := len info |})
  end.

(** [pcap_loop(handle, 0, read_packet, &tcp_session_org)]. *)
Fixpoint read_packets (dst_last : bool) (packets : list (list Z)) (ses : tcp_session_t)
    : outcome (list line) :=
  match packets with
  | [] => mret []
  | m :: packets =>
      '(ses, l) ← read_packet dst_last m ses;
      ls ← read_packets dst_last packets ses;
      mret (match l with Some l => l :: ls | None => ls end)
  end.

(** [read_pcap_from_file] on a file that opens; the function then ends without
    a [return]. *)
Definition read_pcap_from_file (dst_last : bool) (packets : list (list Z))
    : outcome (list line) := read_packets dst_last packets no_session.

(** ** Headers in network order *)

Definition bytes_ok (m : list Z) : Prop := ∀ k, 0 ≤ k < zlen m → 0 ≤ rd m k < 256.
Definition be16 (m : list Z) (o : Z) : Z := 256 * rd m o + rd m (o + 1).
Definition be32 (m : list Z) (o : Z) : Z := 65536 * be16 m o + be16 m (o + 2).
(** An address stays as the host reads its bytes. *)
Definition le32 (m : list Z) (o : Z) : Z :=
  rd m o + 256 * rd m (o + 1) + 65536 * (rd m (o + 2) + 256 * rd m (o + 3)).

(** [m'] is [m] with its bytes moved around by [f]. *)
Definition moved (f : Z → Z) (m m' : list Z) : Prop :=
  zlen m' = zlen m ∧ ∀ k, 0 ≤ k < zlen m → rd m' k = rd m (f k).
(** Reversing the [n] bytes at [o]. *)
Definition flip_at (o n k : Z) : Z := if decide (o ≤ k < o + n) then 2 * o + n - 1 - k else k.

Lemma moved_bytes_ok f m m' :
  (∀ k, 0 ≤ k < zlen m → 0 ≤ f k < zlen m) → moved f m m' → bytes_ok m → bytes_ok m'.
Proof. intros Hf [Hl Hr] Hm k Hk. rewrite Hl in Hk. rewrite Hr by done. by apply Hm, Hf. Qed.

Lemma load16_ok m o : 0 ≤ o → o + 1 < zlen m → load16 m o = Ret (rd m o + 256 * rd m (o + 1)).
Proof. intros. unfold load16. rewrite !aget_ok by lia. done. Qed.
Lemma load32_ok m o : 0 ≤ o → o + 3 < zlen m → load32 m o = Ret (le32 m o).
Proof.
  intros. unfold load32, le32. rewrite !load16_ok by lia. simpl.
  do 2 f_equal. replace (o + 2 + 1) with (o + 3) by lia. lia.
Qed.

(** A 16-bit value and its bytes. *)
Lemma byte_low a b : 0 ≤ a < 256 → (a + 256 * b) mod 256 = a.
Proof. intros. rewrite Z.mul_comm, Z_mod_plus_full. apply Z.mod_small. lia. Qed.
Lemma byte_high a b : 0 ≤ a < 256 → (a + 256 * b) / 256 = b.
Proof. intros. rewrite Z.mul_comm, Z.div_add by lia. rewrite Z.div_small by lia. lia. Qed.
Lemma ntohs_bytes a b : 0 ≤ a < 256 → ntohs (a + 256 * b) = b + 256 * a.
Proof. intros. unfold ntohs. rewrite byte_low, byte_high by done. lia. Qed.

Lemma store16_ok m o a b :
  0 ≤ a < 256 → 0 ≤ o → o + 1 < zlen m →
  store16 m o (a + 256 * b) = Ret (upd (upd m o a) (o + 1) b).
Proof.
  intros. unfold store16. rewrite byte_low, byte_high by done.
  rewrite aset_ok by lia. simpl. rewrite aset_ok; [done|]. rewrite zlen_upd. lia.
Qed.

Lemma conv16_ok m o :
  bytes_ok m → 0 ≤ o → o + 1 < zlen m →
  ∃ m', conv16 m o = Ret m' ∧ moved (flip_at o 2) m m'.
Proof.
  intros Hm H0 H1. unfold conv16. rewrite load16_ok by lia. simpl.
  rewrite ntohs_bytes, store16_ok by (try apply Hm; lia).
  eexists. split; [done|]. split; [by rewrite !zlen_upd|]. intros k Hk. unfold flip_at.
  rewrite rd_upd by (rewrite ?zlen_upd; lia). rewrite rd_upd by lia.
  repeat case_decide; try lia; f_equal; lia.
Qed.

Lemma conv32_ok m o :
  bytes_ok m → 0 ≤ o → o + 3 < zlen m →
  ∃ m', conv32 m o = Ret m' ∧ moved (flip_at o 4) m m'.
Proof.
  intros Hm H0 H3. unfold conv32. rewrite load32_ok by lia. simpl. unfold le32.
  pose proof (Hm o). pose proof (Hm (o + 1)). pose proof (Hm (o + 2)). pose proof (Hm (o + 3)).
  set (a := rd m o) in *. set (b := rd m (o + 1)) in *. set (c := rd m (o + 2)) in *.
  set (d := rd m (o + 3)) in *.
  assert (E : ntohl (a + 256 * b + 65536 * (c + 256 * d)) =
              d + 256 * c + 65536 * (b + 256 * a)).
  { unfold ntohl. rewrite (Z.mul_comm 65536), Z_mod_plus_full, Z.div_add by lia.
    rewrite Z.mod_small, (Z.div_small (a + 256 * b)) by lia.
    rewrite Z.add_0_l, !ntohs_bytes by lia. lia. }
  rewrite E. unfold store32.
  rewrite (Z.mul_comm 65536), Z_mod_plus_full, Z.div_add by lia.
  rewrite Z.mod_small, (Z.div_small (d + 256 * c)) by lia.
  rewrite Z.add_0_l, store16_ok by lia. simpl.
  rewrite store16_ok by (rewrite ?zlen_upd; lia).
  eexists. split; [done|]. split; [by rewrite !zlen_upd|]. intros k Hk. unfold flip_at.
  rewrite !rd_upd by (rewrite ?zlen_upd; lia).
  subst a b c d. repeat case_decide; try lia; f_equal; lia.
Qed.

Lemma keep8_ok m o : 0 ≤ o < zlen m → keep8 m o = Ret m.
Proof. intros. unfold keep8. rewrite aget_ok by done. simpl. rewrite aset_ok, upd_rd by done. done. Qed.

(** Where the bytes come from after the conversions. *)
Definition ip_from (p k : Z) : Z :=
  flip_at (p + 2) 2 (flip_at (p + 4) 2 (flip_at (p + 10) 2 k)).
Definition tcp_from (t k : Z) : Z :=
  flip_at t 2 (flip_at (t + 2) 2 (flip_at (t + 4) 4 (flip_at (t + 8) 4
    (flip_at (t + 14) 2 (flip_at (t + 16) 2 (flip_at (t + 18) 2 k)))))).

Lemma flip_at_range o n k l : 0 ≤ o → o + n ≤ l → 0 ≤ k < l → 0 ≤ flip_at o n k < l.
Proof. unfold flip_at. intros. case_decide; lia. Qed.

Lemma moved_trans f g m m1 m2 :
  (∀ k, 0 ≤ k < zlen m → 0 ≤ g k < zlen m) →
  moved f m m1 → moved g m1 m2 → moved (λ k, f (g k)) m m2.
Proof.
  intros Hg [Hl1 H1] [Hl2 H2]. split; [congruence|]. intros k Hk.
  rewrite H2 by lia. apply H1, Hg, Hk.
Qed.

(** A conversion after others. *)
Lemma conv16_after f m m1 o :
  bytes_ok m → moved f m m1 → (∀ k, 0 ≤ k < zlen m → 0 ≤ f k < zlen m) →
  0 ≤ o → o + 1 < zlen m →
  ∃ m2, conv16 m1 o = Ret m2 ∧ moved (λ k, f (flip_at o 2 k)) m m2 ∧
    (∀ k, 0 ≤ k < zlen m → 0 ≤ f (flip_at o 2 k) < zlen m).
Proof.
  intros Hm Hf Hr H0 H1. pose proof (moved_bytes_ok f m m1 Hr Hf Hm) as Hm1.
  destruct Hf as [Hl Hf].
  destruct (conv16_ok m1 o) as (m2 & E & H2); [done|lia|lia|].
  assert (Hfl : ∀ k, 0 ≤ k < zlen m → 0 ≤ flip_at o 2 k < zlen m).
  { intros k Hk. apply flip_at_range; lia. }
  exists m2. split; [done|]. split; [|auto]. by apply (moved_trans f _ m m1).
Qed.
Lemma conv32_after f m m1 o :
  bytes_ok m → moved f m m1 → (∀ k, 0 ≤ k < zlen m → 0 ≤ f k < zlen m) →
  0 ≤ o → o + 3 < zlen m →
  ∃ m2, conv32 m1 o = Ret m2 ∧ moved (λ k, f (flip_at o 4 k)) m m2 ∧
    (∀ k, 0 ≤ k < zlen m → 0 ≤ f (flip_at o 4 k) < zlen m).
Proof.
  intros Hm Hf Hr H0 H1. pose proof (moved_bytes_ok f m m1 Hr Hf Hm) as Hm1.
  destruct Hf as [Hl Hf].
  destruct (conv32_ok m1 o) as (m2 & E & H2); [done|lia|lia|].
  assert (Hfl : ∀ k, 0 ≤ k < zlen m → 0 ≤ flip_at o 4 k < zlen m).
  { intros k Hk. apply flip_at_range; lia. }
  exists m2. split; [done|]. split; [|auto]. by apply (moved_trans f _ m m1).
Qed.
Lemma keep8_after f m m1 o : moved f m m1 → 0 ≤ o < zlen m → keep8 m1 o = Ret m1.
Proof. intros [Hl _] Ho. apply keep8_ok. lia. Qed.

Ltac convert H :=
  match type of H with moved ?f ?m ?m1 =>
    match goal with
    | |- context [conv16 m1 ?o] =>
        let E := fresh "E" in let H' := fresh "H" in
        destruct (conv16_after f m m1 o) as (? & E & H' & ?); [done|done|done|lia|lia|];
        rewrite E; simpl; clear E H; convert H'
    | |- context [conv32 m1 ?o] =>
        let E := fresh "E" in let H' := fresh "H" in
        destruct (conv32_after f m m1 o) as (? & E & H' & ?); [done|done|done|lia|lia|];
        rewrite E; simpl; clear E H; convert H'
    | |- context [keep8 m1 ?o] =>
        rewrite (keep8_after f m m1 o) by (done || lia); simpl; convert H
    | |- _ => idtac
    end
  end.

Lemma moved_refl m : moved (λ k, k) m m.
Proof. done. Qed.

Lemma ntoh_ip_ok m p :
  bytes_ok m → 0 ≤ p → p + 20 ≤ zlen m →
  ∃ m', ntoh_ip m p = Ret m' ∧ moved (ip_from p) m m'.
Proof.
  intros Hm H0 Hl. unfold ntoh_ip. pose proof (moved_refl m) as Hid.
  assert (∀ k, 0 ≤ k < zlen m → 0 ≤ k < zlen m) by auto. convert Hid. eauto.
Qed.
Lemma ntoh_tcp_ok m t :
  bytes_ok m → 0 ≤ t → t + 20 ≤ zlen m →
  ∃ m', ntoh_tcp m t = Ret m' ∧ moved (tcp_from t) m m'.
Proof.
  intros Hm H0 Hl. unfold ntoh_tcp. pose proof (moved_refl m) as Hid.
  assert (∀ k, 0 ≤ k < zlen m → 0 ≤ k < zlen m) by auto. convert Hid. eauto.
Qed.

(** ** A packet with complete headers *)

Definition ihl (m : list Z) : Z := SNIFF_IP_HL (rd m 14).
Definition tcp_at (m : list Z) : Z := 14 + ihl m * 4.
Definition doff (m : list Z) : Z := SNIFF_TH_OFF (rd m (tcp_at m + 12)).
(** Both headers have at least their minimal length, and the fixed part of the
    TCP header is inside the captured bytes. *)
Definition complete (m : list Z) : Prop :=
  bytes_ok m ∧ 5 ≤ ihl m ∧ 5 ≤ doff m ∧ tcp_at m + 20 ≤ zlen m.

(** The session after a packet: the first one sets it. *)
Definition opened (m : list Z) (ses : tcp_session_t) : tcp_session_t :=
  if decide (flag ses = SESSION_NO_INIT) then
    {| flag := SESSION_START; ip_src := le32 m 26; sport := be16 m (tcp_at m);
       ip_des := le32 m 30; dport := be16 m (tcp_at m + 2) |}
  else ses.
Definition direction_of (ses : tcp_session_t) (src sp : Z) : Z :=
  if decide (ip_src ses = src ∧ sport ses = sp) then PACKET_FROM_CLIENT
  else if decide (ip_des ses = src ∧ dport ses = sp) then PACKET_FROM_SERVER
  else 255.

(** The memory after both conversions. *)
Definition converted (m m' : list Z) : Prop :=
  moved (λ k, ip_from 14 (tcp_from (tcp_at m) k)) m m'.

Lemma flip_at_out o n k : k < o ∨ o + n ≤ k → flip_at o n k = k.
Proof. intros. unfold flip_at. by rewrite decide_False by lia. Qed.
Lemma flip_at_in o n k : o ≤ k < o + n → flip_at o n k = 2 * o + n - 1 - k.
Proof. intros. unfold flip_at. by rewrite decide_True by lia. Qed.

(** Follows a position through the flips, the innermost first. *)
Ltac flips :=
  unfold ip_from, tcp_from;
  repeat match goal with
  | |- context [flip_at ?o ?n ?k] =>
      lazymatch k with
      | context [flip_at] => fail
      | _ => first [ rewrite (flip_at_out o n k) by lia | rewrite (flip_at_in o n k) by lia ]
      end
  end; lia.

Lemma ihl_range m : 0 ≤ ihl m ≤ 15.
Proof.
  unfold ihl, SNIFF_IP_HL. change 15 with (Z.ones 4). rewrite Z.land_ones by lia.
  change (2 ^ 4) with 16. change (Z.ones 4) with 15.
  pose proof (Z.mod_pos_bound (rd m 14) 16). lia.
Qed.

Section converted.
Context (m m' : list Z) (Hc : complete m) (Hm : converted m m').

(** A byte of the result whose origin is known. *)
Lemma converted_rd k j :
  0 ≤ k < zlen m → ip_from 14 (tcp_from (tcp_at m) k) = j → rd m' k = rd m j.
Proof. intros Hk <-. by apply Hm. Qed.

Lemma converted_addr o : 26 ≤ o ≤ 30 → load32 m' o = Ret (le32 m o).
Proof.
  intros Ho. destruct Hc as (_ & Hi & _ & Hl). unfold tcp_at in Hl.
  rewrite load32_ok by (try rewrite (proj1 Hm); lia). unfold le32.
  assert (K : ∀ k, 26 ≤ k < 34 → rd m' k = rd m k).
  { intros k Hk. apply converted_rd; [lia|].
    unfold tcp_at. flips. }
  rewrite !K by lia. done.
Qed.

Lemma converted_16 d :
  d = 0 ∨ d = 2 ∨ d = 14 → load16 m' (tcp_at m + d) = Ret (be16 m (tcp_at m + d)).
Proof.
  intros Hd. destruct Hc as (_ & Hi & _ & Hl). pose proof (proj1 Hm) as Hlen.
  unfold tcp_at in *. set (x := ihl m) in *.
  rewrite load16_ok by lia. unfold be16.
  rewrite (converted_rd (14 + x * 4 + d) (14 + x * 4 + d + 1)),
    (converted_rd (14 + x * 4 + d + 1) (14 + x * 4 + d)).
  all: try lia.
  - f_equal; lia.
  - destruct Hd as [->|[->| ->]]; unfold tcp_at; fold x; flips.
  - destruct Hd as [->|[->| ->]]; unfold tcp_at; fold x; flips.
Qed.

Lemma converted_32 d :
  d = 4 ∨ d = 8 → load32 m' (tcp_at m + d) = Ret (be32 m (tcp_at m + d)).
Proof.
  intros Hd. destruct Hc as (_ & Hi & _ & Hl). pose proof (proj1 Hm) as Hlen.
  unfold tcp_at in *. set (x := ihl m) in *.
  rewrite load32_ok by lia. unfold be32, be16, le32.
  set (o := 14 + x * 4 + d).
  rewrite (converted_rd o (o + 3)), (converted_rd (o + 1) (o + 2)),
    (converted_rd (o + 2) (o + 1)), (converted_rd (o + 3) o).
  all: subst o; try lia.
  - replace (14 + x * 4 + d + 2 + 1) with (14 + x * 4 + d + 3) by lia. f_equal. lia.
  - destruct Hd as [->| ->]; unfold tcp_at; fold x; flips.
  - destruct Hd as [->| ->]; unfold tcp_at; fold x; flips.
  - destruct Hd as [->| ->]; unfold tcp_at; fold x; flips.
  - destruct Hd as [->| ->]; unfold tcp_at; fold x; flips.
Qed.

Lemma converted_8 d : d = 12 ∨ d = 13 → aget m' (tcp_at m + d) = Ret (rd m (tcp_at m + d)).
Proof.
  intros Hd. destruct Hc as (_ & Hi & _ & Hl). pose proof (proj1 Hm) as Hlen.
  unfold tcp_at in *. rewrite aget_ok by lia. f_equal. apply converted_rd; [lia|].
  destruct Hd as [->| ->]; unfold tcp_at; flips.
Qed.
End converted.

(** ** The flag names *)

(** The names of the set bits, and their text with commas between. *)
Definition set_names (fl : Z) : list bytes :=
  omap (λ '(i, s), if Z.testbit fl i then Some s else None)
    (zip [0; 1; 2; 3; 4; 5; 6; 7] tcp_flags).
Fixpoint join (names : list bytes) : bytes :=
  match names with
  | [] => []
  | [s] => s
  | s :: names => s ++ ","%char :: join names
  end.

Definition flag_text_right (fl : Z) : bool :=
  match flag_text fl with
  | Ret text => negb (fl =? 0) && bool_decide (text = join (set_names fl))
  | Undef OutOfBounds => fl =? 0
  | _ => false
  end.
Lemma flag_text_all : forallb flag_text_right (Z.of_nat <$> seq 0 256) = true.
Proof. vm_cast_no_check (eq_refl true). Qed.

(** All 256 flag bytes: the text is the list of the names, and without any flag
    the last comma is written before the buffer. *)
Lemma flag_text_ok fl :
  0 ≤ fl < 256 →
  flag_text fl = if decide (fl = 0) then Undef OutOfBounds else Ret (join (set_names fl)).
Proof.
  intros Hfl. pose proof flag_text_all as H. rewrite forallb_forall in H.
  assert (Hin : In fl (Z.of_nat <$> seq 0 256)).
  { apply list_elem_of_In, list_elem_of_fmap. exists (Z.to_nat fl).
    rewrite elem_of_seq. lia. }
  specialize (H fl Hin). unfold flag_text_right in H.
  destruct (flag_text fl) as [text|[]| |]; try done; destruct (decide (fl = 0)) as [->|];
    simpl in *; try done; try lia.
  apply andb_true_iff in H as [_ H]. apply bool_decide_eq_true in H. by f_equal.
Qed.

(** ** One packet *)

(** The conversions of a complete packet. *)
Lemma conversions_complete m :
  complete m →
  ∃ m1 m2, ntoh_ip m 14 = Ret m1 ∧ ntoh_tcp m1 (tcp_at m) = Ret m2 ∧ converted m m2.
Proof.
  intros (Hb & Hi & Hd & Hl). pose proof (ihl_range m).
  destruct (ntoh_ip_ok m 14) as (m1 & E1 & H1); [done|lia|unfold tcp_at in *; lia|].
  assert (R1 : ∀ k, 0 ≤ k < zlen m → 0 ≤ ip_from 14 k < zlen m).
  { intros k Hk. unfold ip_from. unfold tcp_at in *.
    repeat (apply flip_at_range; [lia|lia|]). done. }
  destruct (ntoh_tcp_ok m1 (tcp_at m)) as (m2 & E2 & H2).
  { by apply (moved_bytes_ok (ip_from 14) m m1). }
  { unfold tcp_at. lia. }
  { rewrite (proj1 H1). done. }
  exists m1, m2. split_and!; [done|done|].
  apply (moved_trans (ip_from 14) (tcp_from (tcp_at m)) m m1 m2); [|done|done].
  intros k Hk. unfold tcp_from.
  unfold tcp_at in *. repeat (apply flip_at_range; [lia|lia|]). done.
Qed.

Section complete.
Context (m m' : list Z) (Hc : complete m) (Hm : converted m m').

Lemma sport_ok : th_sport m' (tcp_at m) = Ret (be16 m (tcp_at m)).
Proof.
  unfold th_sport. pose proof (converted_16 m m' Hc Hm 0) as H.
  rewrite Z.add_0_r in H. auto.
Qed.

Lemma open_session_ok ses :
  (if decide (flag ses = SESSION_NO_INIT) then
     src ← ip_src_of m' 14; dst ← ip_dst_of m' 14;
     sp ← th_sport m' (tcp_at m); dp ← th_dport m' (tcp_at m);
     mret {| flag := SESSION_START; ip_src := src; sport := sp; ip_des := dst; dport := dp |}
   else mret ses) = Ret (opened m ses).
Proof.
  unfold opened. case_decide; [|done]. unfold ip_src_of, ip_dst_of, th_dport.
  rewrite !(converted_addr m m' Hc Hm) by lia. simpl. rewrite sport_ok. simpl.
  by rewrite (converted_16 m m' Hc Hm) by auto.
Qed.

Lemma packet_direction_ok ses :
  packet_direction m' ses 14 (tcp_at m) =
    Ret (direction_of ses (le32 m 26) (be16 m (tcp_at m))).
Proof.
  unfold packet_direction, ip_src_of. rewrite (converted_addr m m' Hc Hm) by lia. simpl.
  rewrite sport_ok. simpl. change (14 + 12) with 26. unfold direction_of.
  repeat case_decide; destruct (Z.eqb_spec (ip_src ses) (le32 m 26)),
    (Z.eqb_spec (sport ses) (be16 m (tcp_at m))), (Z.eqb_spec (ip_des ses) (le32 m 26)),
    (Z.eqb_spec (dport ses) (be16 m (tcp_at m))); simpl; first [done | exfalso; intuition congruence].
Qed.
End complete.

Definition info_of (m : list Z) (ses : tcp_session_t) : pkt_info_t :=
  {| ip := 14; tcp := tcp_at m; payload := tcp_at m + doff m * 4;
     len := to_u 16 (zlen m - (tcp_at m + doff m * 4));
     direction := direction_of (opened m ses) (le32 m 26) (be16 m (tcp_at m)) |}.

Lemma slice_packet_complete m ses :
  complete m →
  ∃ m', slice_packet m (zlen m) ses = Ret (m', opened m ses, Some (info_of m ses)) ∧
        converted m m'.
Proof.
  intros Hc. pose proof (ihl_range m).
  destruct (conversions_complete m Hc) as (m1 & m2 & E1 & E2 & Hm). exists m2.
  split; [|done]. destruct (Hc) as (_ & Hi & Hd & Hl).
  unfold slice_packet, SNIFF_SIZE_ETHERNET, info_of.
  rewrite aget_ok by (unfold tcp_at in *; lia). simpl. fold (ihl m).
  rewrite decide_False by lia. rewrite E1. simpl. fold (tcp_at m). rewrite E2. simpl.
  rewrite (open_session_ok m m2 Hc Hm). simpl.
  rewrite (converted_8 m m2 Hc Hm) by auto. simpl. fold (doff m).
  rewrite decide_False by lia. rewrite (packet_direction_ok m m2 Hc Hm). simpl.
  unfold to_u. by rewrite Zminus_mod_idemp_l.
Qed.

(** C18: What is printed for a captured TCP packet with complete headers. Ports,
    sequence numbers and window are the big-endian fields of the header, the
    length is what follows both headers, modulo 2^16 of the captured bytes; the
    first packet of the file defines the client. The text for the source and
    the text for the destination address are the same, because both come from
    the static buffer of [inet_ntoa]. A packet without any TCP flag makes the
    program write before its flag buffer. *)
Theorem read_packet_prints (dst_last : bool) m ses :
  complete m →
  let t := tcp_at m in
  let shown := dotted (if dst_last then le32 m 30 else le32 m 26) in
  read_packet dst_last m ses =
    if decide (rd m (t + 13) = 0) then Undef OutOfBounds
    else Ret (opened m ses, Some
      {| red := bool_decide (direction_of (opened m ses) (le32 m 26) (be16 m t)
                             = PACKET_FROM_SERVER);
         shown_src := shown; shown_sport := be16 m t;
         shown_dst := shown; shown_dport := be16 m (t + 2);
         shown_flags := join (set_names (rd m (t + 13)));
         shown_seq := be32 m (t + 4); shown_ack := be32 m (t + 8);
         shown_win := be16 m (t + 14);
         shown_len := to_u 16 (zlen m - (t + doff m * 4)) |}).
Proof.
  intros Hc. simpl. destruct (slice_packet_complete m ses Hc) as (m' & E & Hm).
  unfold read_packet. rewrite E. unfold info_of. simpl.
  pose proof (ihl_range m). destruct (Hc) as (Hb & Hi & _ & Hl).
  rewrite (converted_8 m m' Hc Hm) by auto. simpl.
  rewrite flag_text_ok by (apply Hb; unfold tcp_at in *; lia).
  destruct (decide (rd m (tcp_at m + 13) = 0)); simpl; [done|].
  unfold ip_src_of, ip_dst_of, th_dport.
  rewrite (converted_addr m m' Hc Hm (14 + 12)), (converted_addr m m' Hc Hm (14 + 16)) by lia. simpl. rewrite (sport_ok m m' Hc Hm). simpl.
  rewrite !(converted_16 m m' Hc Hm), !(converted_32 m m' Hc Hm) by auto. simpl.
  unfold static_text. by destruct dst_last.
Qed.

(** ** Short captures *)

(** A field access that leaves the captured bytes, or keeps their number. *)
Definition stays (m : list Z) (r : outcome (list Z)) : Prop :=
  r = Undef OutOfBounds ∨ ∃ m', r = Ret m' ∧ zlen m' = zlen m.

Lemma aget_stays (m : list Z) o : aget m o = Undef OutOfBounds ∨ ∃ v, aget m o = Ret v.
Proof. unfold aget. destruct (decide _); eauto. Qed.
Lemma aset_stays (m : list Z) o v : stays m (aset m o v).
Proof. unfold aset, stays. destruct (decide _); [right|auto]. eexists. by rewrite zlen_upd. Qed.
Lemma stays_bind m r (f : list Z → outcome (list Z)) :
  stays m r → (∀ m', zlen m' = zlen m → stays m' (f m')) → stays m (r ≫= f).
Proof.
  intros [->|(m1 & -> & H1)] Hf; [by left|]. simpl.
  destruct (Hf m1 H1) as [->|(m2 & -> & H2)]; [by left|]. right. exists m2. split; [done|lia].
Qed.
Lemma store16_stays m o v : stays m (store16 m o v).
Proof. apply stays_bind; [apply aset_stays|]. intros. apply aset_stays. Qed.
Lemma load16_stays m o : load16 m o = Undef OutOfBounds ∨ ∃ v, load16 m o = Ret v.
Proof.
  unfold load16. destruct (aget_stays m o) as [->|[a ->]]; [by left|]. simpl.
  destruct (aget_stays m (o + 1)) as [->|[b ->]]; [by left|]. simpl. eauto.
Qed.
Lemma keep8_stays m o : stays m (keep8 m o).
Proof.
  unfold keep8. destruct (aget_stays m o) as [->|[v ->]]; [by left|]. apply aset_stays.
Qed.
Lemma conv16_stays m o : stays m (conv16 m o).
Proof.
  unfold conv16. destruct (load16_stays m o) as [->|[v ->]]; [by left|]. apply store16_stays.
Qed.
Lemma conv32_stays m o : stays m (conv32 m o).
Proof.
  unfold conv32, load32. destruct (load16_stays m o) as [->|[a ->]]; [by left|]. simpl.
  destruct (load16_stays m (o + 2)) as [->|[b ->]]; [by left|]. simpl.
  apply stays_bind; [apply store16_stays|]. intros. apply store16_stays.
Qed.
#[export] Hint Resolve keep8_stays conv16_stays conv32_stays : lctools.

Lemma ntoh_ip_stays m p : stays m (ntoh_ip m p).
Proof. unfold ntoh_ip. repeat (apply stays_bind; [auto with lctools|intros]). auto with lctools. Qed.


Lemma ntoh_tcp_short m t : zlen m < t + 20 → ntoh_tcp m t = Undef OutOfBounds.
Proof.
  intros Hl. unfold ntoh_tcp.
  assert (K : ∀ m', zlen m' = zlen m → conv16 m' (t + 18) = Undef OutOfBounds).
  { intros m' Hm. unfold conv16, load16.
    destruct (aget_stays m' (t + 18)) as [->|[v ->]]; [done|]. simpl.
    unfold aget. by rewrite decide_False by lia. }
  assert (Kb : ∀ m1 r (f : list Z → outcome (list Z)), zlen m1 = zlen m → stays m1 r →
    (∀ m', zlen m' = zlen m → f m' = Undef OutOfBounds) → (r ≫= f) = Undef OutOfBounds).
  { intros m1 r f H1 [->|(m' & -> & H')] Hf; [done|]. apply Hf. lia. }
  repeat (eapply Kb; [|auto with lctools|intros]; try done). by apply K.
Qed.

(** A packet whose captured bytes end before the fixed part of the TCP
    header its IP header points to is read beyond its end: the captured length
    is never compared with the header lengths. *)
Lemma read_packet_overreads (dst_last : bool) m ses :
  15 ≤ zlen m → 5 ≤ ihl m → zlen m < tcp_at m + 20 →
  read_packet dst_last m ses = Undef OutOfBounds.
Proof.
  intros Hl Hi Hs. unfold read_packet, slice_packet, SNIFF_SIZE_ETHERNET.
  rewrite aget_ok by lia. simpl. fold (ihl m). rewrite decide_False by lia. fold (tcp_at m).
  destruct (ntoh_ip_stays m 14) as [->|(m1 & -> & H1)]; [done|]. simpl.
  by rewrite ntoh_tcp_short by lia.
Qed.

(** When two packets belong to the same session: the four numbers agree, or
    they agree with source and destination exchanged and the two addresses of
    the session differ. On a host talking to itself the replies are not
    recognised. *)
Lemma same_session_spec ses src sp dst dp :
  same_session ses src sp dst dp = 1 ↔
  (ip_src ses = src ∧ sport ses = sp ∧ ip_des ses = dst ∧ dport ses = dp) ∨
  (ip_src ses = dst ∧ sport ses = dp ∧ ip_des ses = src ∧ dport ses = sp ∧
   ip_src ses ≠ ip_des ses).
Proof.
  unfold same_session.
  destruct (Z.eqb_spec (ip_src ses) src), (Z.eqb_spec (ip_src ses) dst),
    (Z.eqb_spec (sport ses) sp), (Z.eqb_spec (sport ses) dp),
    (Z.eqb_spec (ip_des ses) dst), (Z.eqb_spec (ip_des ses) src),
    (Z.eqb_spec (dport ses) dp), (Z.eqb_spec (dport ses) sp); lia.
Qed.

(** ** Witnesses *)

(** A SYN from 10.0.0.1:12345 to 10.0.0.2:80. *)
Definition syn_packet : list Z :=
  replicate 12 0 ++ [8; 0] ++
  [69; 0; 0; 40; 0; 1; 0; 0; 64; 6; 0; 0; 10; 0; 0; 1; 10; 0; 0; 2] ++
  [48; 57; 0; 80; 0; 0; 0; 7; 0; 0; 0; 0; 80; 2; 255; 255; 0; 0; 0; 0].
Lemma syn_complete : complete syn_packet.
Proof.
  assert (Hall : Forall (λ b, 0 ≤ b < 256) syn_packet).
  { unfold syn_packet. repeat (apply Forall_app; split); repeat constructor; lia. }
  split; [|vm_compute; repeat split; discriminate].
  intros k Hk. rewrite Forall_lookup in Hall. eapply Hall, lookup_rd. done.
Qed.

Lemma read_packet_prints_witness :
  ∃ l, read_packet true syn_packet no_session = Ret (opened syn_packet no_session, Some l) ∧
       shown_src l = lit "10.0.0.2" ∧ shown_dst l = lit "10.0.0.2" ∧
       shown_sport l = 12345 ∧ shown_flags l = lit "SYN" ∧ shown_len l = 0.
Proof.
  rewrite (read_packet_prints true syn_packet no_session syn_complete). cbv zeta.
  rewrite decide_False by (vm_compute; discriminate).
  eexists. split; [reflexivity|]. vm_compute. repeat split; reflexivity.
Defined.

Lemma read_packet_overreads_witness :
  read_packet true (take 40 syn_packet) no_session = Undef OutOfBounds.
Proof.
  apply (read_packet_overreads true (take 40 syn_packet) no_session);
    vm_compute; first [reflexivity | discriminate].
Defined.
