(* ===== verification/Sniffer.v ===== *)
(** The first versions of the packet programs: [src/trash/sniffer/sniffer.c], which
    saves the packets of a device, and [packet_analyse.c], which prints the flags of
    the packets it saved; the structures of [packet_type.h] there.

    Packets are as in ReadPacket.v, but nothing is converted in place. The local
    [pkt_info] is not initialised: a member that is not set is [None]. libpcap is
    the list of packets. *)

From S2P Require Import Prelude CString Memory ReadPacket.

Open Scope Z_scope.

(** [struct _pkt_info], with offsets into the packet. *)
Record pkt_info := { i_ip : option Z; i_tcp : option Z; i_payload : option Z }.
Definition no_info : pkt_info := {| i_ip := None; i_tcp := None; i_payload := None |}.

(** [struct _tcp_session]. *)
Record session := { s_src : Z; s_sport : Z; s_des : Z; s_dport : Z }.
#[export] Instance session_eq_dec : EqDecision session.
Proof. solve_decision. Defined.

(** [get_payload] ([slice_packet] in packet_analyse.c): the members that are set and
    the result, [NULL] for headers that are too short. *)
Definition get_payload (m : list Z) : outcome (pkt_info * option Z) :=
  let p := SNIFF_SIZE_ETHERNET in
  vh ← aget m p;
  let size_ip := SNIFF_IP_HL vh * 4 in
  if decide (size_ip < 10) then
    mret ({| i_ip := Some p; i_tcp := None; i_payload := None |}, None)
  else
    let t := SNIFF_SIZE_ETHERNET + size_ip in
    off ← aget m (t + 12);
    let size_tcp := SNIFF_TH_OFF off * 4 in
    if decide (size_tcp < 20) then
      mret ({| i_ip := Some p; i_tcp := Some t; i_payload := None |}, None)
    else
      let d := t + size_tcp in
      mret ({| i_ip := Some p; i_tcp := Some t; i_payload := Some d |}, Some d).

(** A pointer is read. *)
Definition set_member (x : option Z) : outcome Z :=
  match x with Some v => mret v | None => Undef Uninitialised end.

Definition SNIFF_TH_SYN : Z := 2.
Definition SNIFF_TH_FLAGS : Z := 1 + 2 + 4 + 16 + 32 + 64 + 128.

(** The four numbers that name a connection, from the client's side. *)
Definition addresses (m : list Z) (p t : Z) : outcome session :=
  src ← ip_src_of m p; sp ← th_sport m t; dst ← ip_dst_of m p; dp ← th_dport m t;
  mret {| s_src := src; s_sport := sp; s_des := dst; s_dport := dp |}.

(** [got_packet]: [ses] is [None] until [ses_init_flag] is set; the packet is
    dumped in any case. *)
Definition got_packet (ses : option session) (m : list Z) : outcome (option session * list Z) :=
  '(info, _) ← get_payload m;
  ses ← (match ses with
         | Some s => mret (Some s)
         | None =>
             t ← set_member (i_tcp info);
             fl ← aget m (t + 13);
             if decide (Z.land fl SNIFF_TH_FLAGS = SNIFF_TH_SYN) then
               p ← set_member (i_ip info);
               s ← addresses m p t; mret (Some s)
             else mret None
         end);
  mret (ses, m).

(** [pcap_loop]: the session and the dump file. *)
Fixpoint sniff (ses : option session) (packets : list (list Z))
    : outcome (option session * list (list Z)) :=
  match packets with
  | [] => mret (ses, [])
  | m :: packets =>
      '(ses, d) ← got_packet ses m;
      '(ses, ds) ← sniff ses packets;
      mret (ses, d :: ds)
  end.

(** ** packet_analyse.c *)

(** [u_char tcp_flags[8][5]]: "PUSH " fills its row, so there is no terminator. *)
Definition flag_rows : bytes :=
  concat ((λ s, lit s ++ [NUL]) <$> ["FIN "; "SYN "; "RST "]%string) ++ lit "PUSH " ++
  concat ((λ s, lit s ++ [NUL]) <$> ["ACK "; "URG "; "ECE "; "CWR "]%string).

(** The loop from bit [i] on: [printf("%s ", tcp_flags[i])]. *)
Fixpoint print_flags (n : nat) (i fl : Z) : outcome bytes :=
  match n with
  | O => mret []
  | S n =>
      s ← (if decide (Z.land (Z.shiftr fl i) 1 ≠ 0) then
             s ← c_string (drop (Z.to_nat (5 * i)) flag_rows); mret (s ++ lit " ")
           else mret []);
      rest ← print_flags n (i + 1) fl;
      mret (s ++ rest)
  end.

(** [read_packet], on [count]: what is printed to [stdout]. *)
Definition analyse_packet (count : Z) (m : list Z) : outcome (Z * bytes) :=
  '(info, payload) ← get_payload m;
  match payload with
  | None => mret (count, [])
  | Some _ =>
      count ← int_ (count + 1);
      t ← set_member (i_tcp info);
      fl ← aget m (t + 13);
      s ← print_flags 8 0 fl;
      mret (count, s ++ lit "count : " ++ print_d count ++ [LF])
  end.

Fixpoint analyse (count : Z) (packets : list (list Z)) : outcome bytes :=
  match packets with
  | [] => mret []
  | m :: packets =>
      '(count, s) ← analyse_packet count m;
      rest ← analyse count packets;
      mret (s ++ rest)
  end.

(** ** What the sniffer does *)

(** A packet with whole headers whose lengths say so. *)
Record whole (m : list Z) (t : Z) : Prop := {
  whole_bytes : Forall (λ b, 0 ≤ b < 256) m;
  whole_ip : ∃ vh, aget m SNIFF_SIZE_ETHERNET = Ret vh ∧ 20 ≤ SNIFF_IP_HL vh * 4 ∧
    t = SNIFF_SIZE_ETHERNET + SNIFF_IP_HL vh * 4;
  whole_tcp : ∃ off, aget m (t + 12) = Ret off ∧ 20 ≤ SNIFF_TH_OFF off * 4;
  whole_length : t + 20 ≤ zlen m
}.

Lemma get_payload_whole m t :
  whole m t → ∃ d, get_payload m =
    Ret ({| i_ip := Some SNIFF_SIZE_ETHERNET; i_tcp := Some t; i_payload := Some d |}, Some d).
Proof.
  intros [_ (vh & Hvh & Hip & ->) (off & Hoff & Htcp) _]. unfold get_payload.
  rewrite Hvh, Ret_bind, decide_False by lia. rewrite Hoff, Ret_bind, decide_False by lia.
  by eexists.
Qed.

Lemma whole_offset m t : whole m t → 34 ≤ t.
Proof. intros [_ (vh & _ & H & ->) _ _]. unfold SNIFF_SIZE_ETHERNET. lia. Qed.

Lemma addresses_whole m t : whole m t → ∃ s, addresses m SNIFF_SIZE_ETHERNET t = Ret s.
Proof.
  intros H. pose proof (whole_offset m t H). pose proof (whole_length m t H).
  unfold addresses, ip_src_of, ip_dst_of, th_sport, th_dport, SNIFF_SIZE_ETHERNET.
  rewrite (load32_ok m (14 + 12)), Ret_bind by lia.
  rewrite (load16_ok m t), Ret_bind by lia.
  rewrite (load32_ok m (14 + 16)), Ret_bind by lia.
  rewrite (load16_ok m (t + 2)), Ret_bind by lia. by eexists.
Qed.

(** A packet that opens a connection, and its addresses. *)
Definition opens (m : list Z) (t : Z) : bool :=
  bool_decide (Z.land (rd m (t + 13)) SNIFF_TH_FLAGS = SNIFF_TH_SYN).
Definition opened (m : list Z) (t : Z) : option session :=
  match addresses m SNIFF_SIZE_ETHERNET t with Ret s => Some s | _ => None end.
(** The session of a capture: that of the first packet that opens one. *)
Fixpoint first_session (packets : list (list Z * Z)) : option session :=
  match packets with
  | [] => None
  | (m, t) :: packets => if opens m t then opened m t else first_session packets
  end.

(** The sniffer saves every packet. For packets with whole headers, the file
    gets all of them, unchanged and in order, and the session is that of the
    first packet whose flags, without PUSH, are SYN alone. *)
Theorem sniff_saves packets :
  Forall (λ x, whole x.1 x.2) packets →
  sniff None packets.*1 = Ret (first_session packets, packets.*1).
Proof.
  assert (∀ packets s, Forall (λ x, whole x.1 x.2) packets →
    sniff (Some s) packets.*1 = Ret (Some s, packets.*1)) as Hlater.
  { intros ps s H. induction H as [|[m t] ps Hm _ IH]; [done|]. cbn.
    destruct (get_payload_whole m t Hm) as [d Hd]. unfold got_packet. rewrite Hd. cbn.
    by rewrite IH. }
  induction 1 as [|[m t] ps Hm Hps IH]; [done|]. cbn [fmap list_fmap sniff fst first_session].
  cbn in Hm. unfold got_packet. destruct (get_payload_whole m t Hm) as [d Hd].
  rewrite Hd. cbn [mbind outcome_bind i_tcp i_ip set_member]. rewrite mret_bind.
  pose proof (whole_offset m t Hm). pose proof (whole_length m t Hm).
  rewrite aget_ok, Ret_bind by lia. unfold opens.
  case_decide as Ho; [rewrite bool_decide_true by done|rewrite bool_decide_false by done].
  - rewrite !mret_bind. destruct (addresses_whole m t Hm) as [s Hs]. unfold opened.
    rewrite Hs. cbn. by rewrite Hlater.
  - rewrite !mret_bind. by rewrite IH.
Qed.

(** A first packet whose IP header is shorter than 10 bytes leaves [tcp] as it was on
    the stack, and the flags are read through it. *)
Lemma short_header_undefined m vh :
  aget m SNIFF_SIZE_ETHERNET = Ret vh → SNIFF_IP_HL vh * 4 < 10 →
  got_packet None m = Undef Uninitialised.
Proof. intros Hvh Hl. unfold got_packet, get_payload. by rewrite Hvh, Ret_bind, decide_True. Qed.

(** [same_session], which is the function of read_packet.c on these structures; its
    call is commented out in [got_packet]. *)
Definition session_matches (ses pkt : session) : Z :=
  same_session {| flag := 0; ip_src := s_src ses; sport := s_sport ses; ip_des := s_des ses;
                  dport := s_dport ses |} (s_src pkt) (s_sport pkt) (s_des pkt) (s_dport pkt).

(** ** What the analysis prints *)

(** The row of PUSH runs on into the next one. *)
Definition shown_flags_of (fl : Z) : bytes :=
  concat (imap (λ i s, if bool_decide (Z.land (Z.shiftr fl (Z.of_nat i)) 1 ≠ 0) then lit s else [])
    ["FIN  "; "SYN  "; "RST  "; "PUSH ACK  "; "ACK  "; "URG  "; "ECE  "; "CWR  "]%string).

Lemma print_flags_ok fl : print_flags 8 0 fl = Ret (shown_flags_of fl).
Proof.
  unfold shown_flags_of. cbn [imap concat Z.of_nat].
  assert (∀ n i s k rest, c_string (drop (Z.to_nat (5 * i)) flag_rows) = Ret s →
    i + 1 = k → print_flags n k fl = Ret rest →
    print_flags (S n) i fl =
    Ret ((if bool_decide (Z.land (Z.shiftr fl i) 1 ≠ 0) then s ++ lit " " else []) ++ rest)) as Hstep.
  { intros n i s k rest Hs <- Hr. cbn [print_flags].
    destruct (decide (Z.land (Z.shiftr fl i) 1 ≠ 0)) as [H|H].
    - by rewrite bool_decide_true, Hs, Ret_bind, mret_bind, Hr, Ret_bind.
    - by rewrite bool_decide_false, mret_bind, Hr, Ret_bind. }
  etransitivity;
    [repeat (eapply Hstep; [vm_compute; reflexivity|vm_compute; reflexivity|]); reflexivity|].
  reflexivity.
Qed.

Fixpoint analysis (count : Z) (packets : list (list Z * Z)) : bytes :=
  match packets with
  | [] => []
  | (m, t) :: packets =>
      shown_flags_of (rd m (t + 13)) ++ lit "count : " ++ print_d (count + 1) ++ [LF] ++
      analysis (count + 1) packets
  end.

(** Every packet gives a line: the names of its flags, "PUSH ACK" for PUSH whether ACK
    is set or not, and its number. *)
Lemma analyse_prints packets : ∀ count,
  Forall (λ x, whole x.1 x.2) packets → 0 ≤ count → count + zlen packets ≤ INT_MAX →
  analyse count packets.*1 = Ret (analysis count packets).
Proof.
  induction packets as [|[m t] ps IH]; intros count Hps H0 Hc; [done|].
  apply Forall_cons in Hps as [Hm Hps]. cbn in Hm.
  assert (zlen ((m, t) :: ps) = zlen ps + 1) as Hz by (unfold zlen; cbn; lia).
  pose proof (zlen_nonneg ps). cbn [fmap list_fmap analyse analysis fst]. unfold analyse_packet.
  destruct (get_payload_whole m t Hm) as [d Hd]. rewrite Hd.
  cbn [mbind outcome_bind i_tcp set_member].
  pose proof (whole_offset m t Hm). pose proof (whole_length m t Hm).
  rewrite int_ok by (unfold in_int, INT_MIN, INT_MAX in *; lia).
  cbn [mbind outcome_bind mret outcome_ret].
  rewrite aget_ok by lia. cbn [mbind outcome_bind mret outcome_ret].
  rewrite print_flags_ok. cbn [mbind outcome_bind mret outcome_ret].
  rewrite IH by (done || lia). cbn [mbind outcome_bind mret outcome_ret].
  by rewrite <- !app_assoc.
Qed.

(** ** Witness: the three packets of a handshake *)

Definition handshake_packet (fl : Z) (from_client : bool) : list Z :=
  let client := [10; 0; 0; 1] in let server := [10; 0; 0; 2] in
  replicate 12 0 ++ [8; 0] ++ [69; 0; 0; 40; 0; 1; 64; 0; 64; 6; 0; 0] ++
  (if from_client then client ++ server else server ++ client) ++
  (if from_client then [200; 0; 0; 80] else [0; 80; 200; 0]) ++
  [0; 0; 0; 1; 0; 0; 0; 2; 80; fl; 16; 0; 0; 0; 0; 0].

Lemma sniff_saves_witness :
  let packets := [(handshake_packet 24 true, 34); (handshake_packet 2 true, 34);
                  (handshake_packet 18 false, 34); (handshake_packet 16 true, 34)] in
  sniff None packets.*1 = Ret (first_session packets, packets.*1) ∧
  first_session packets = Some {| s_src := 16777226; s_sport := 200; s_des := 33554442; s_dport := 20480 |}.
Proof.
  intros packets. split; [|by vm_compute]. apply (sniff_saves packets).
  subst packets. repeat constructor; cbn [fst snd]; try (by vm_compute);
    try (by apply (bool_decide_unpack _)); by (eexists; split; [by vm_compute|by vm_compute]).
Defined.

Example push_shows_ack :
  analyse 0 [handshake_packet 9 true] = Ret (lit "FIN  PUSH ACK  count : 1" ++ [LF]) ∧
  session_matches {| s_src := 1; s_sport := 2; s_des := 3; s_dport := 4 |}
    {| s_src := 3; s_sport := 4; s_des := 1; s_dport := 2 |} = 1.
Proof. split; by vm_compute. Qed.
