(* ===== verification/ProcName.v ===== *)
(** The name and the directory of the running program,
    [src/src/utils/get_proc_name/get_proc_name.c] and its older copy
    [src/src/log/iridiumSysLog/get_proc_name/get_proc_name.c].

    [readlink] does not terminate what it writes. A buffer is the list of its
    bytes; the caller's directory buffer has [PATH_MAX] of them with whatever
    they held before. *)

From S2P Require Import Prelude CString.

Definition PATH_MAX : nat := 4096.
Opaque PATH_MAX.

(** [strrchr(s, '/') + 1] as an offset. *)
Fixpoint path_end (s : bytes) : option nat :=
  match s with
  | [] => None
  | c :: s => match path_end s with
              | Some k => Some (S k)
              | None => if decide (c = "/"%char) then Some 1%nat else None
              end
  end.

(** [readlink(path, buf, PATH_MAX)] over the old contents. *)
Definition fill_link (link buf : bytes) : bytes :=
  take PATH_MAX link ++ drop (length (take PATH_MAX link)) buf.

(** From [readlink] to the [return], on the buffer [real_dir]: the offset
    [path_end - real_dir] and the two buffers; [None] for the result 0. [link]
    is [None] when [readlink] fails. *)
Definition split_path (real_dir : bytes) (len : nat) (link : option bytes)
    : outcome (option (nat * bytes * bytes)) :=
  match link with
  | None | Some [] => mret None
  | Some link =>
      let buf := fill_link link real_dir in
      if decide (NUL ∈ buf) then
        match path_end (cstr buf) with
        | None => mret None
        | Some k => mret (Some (k, <[k := NUL]> buf, strncpy len (drop k (cstr buf))))
        end
      else Undef OutOfBounds
  end.

(** [proc_dir] is [NULL] or a buffer; [len] bytes of [proc_name] are given. The
    result, the directory buffer and the name buffer ([None]: as they were, the
    name buffer cleared). *)
Definition get_proc_path_name (proc_dir : option bytes) (len : nat) (link : option bytes)
    : outcome (Z * option (bytes * bytes)) :=
  r ← split_path (default (replicate PATH_MAX NUL) proc_dir) len link;
  match r with
  | None => mret (0, None)
  | Some (k, dir, nm) => mret (Z.of_nat k, Some (dir, nm))
  end.

(** The older copy sets [real_dir] to [NULL] before it subtracts it: the result
    is the address [block + k] as an [int]. *)
Definition log_get_proc_path_name (block : Z) (proc_dir : option bytes) (len : nat)
    (link : option bytes) : outcome (Z * option (bytes * bytes)) :=
  r ← split_path (default (replicate PATH_MAX NUL) proc_dir) len link;
  match r with
  | None => mret (0, None)
  | Some (k, dir, nm) =>
      mret (match proc_dir with
            | Some _ => Z.of_nat k
            | None => to_s 32 (block + Z.of_nat k)
            end, Some (dir, nm))
  end.

(** ** Splitting a path *)

Definition no_slash (s : bytes) : Prop := Forall (λ c, c ≠ "/"%char) s.

Lemma path_end_none s : no_slash s → path_end s = None.
Proof. induction 1 as [|c s Hc _ IH]; simpl; [done|]. rewrite IH. by rewrite decide_False. Qed.

Lemma path_end_app d b :
  no_slash b → path_end (d ++ "/"%char :: b) = Some (S (length d)).
Proof.
  intros Hb. induction d as [|c d IH]; simpl.
  - by rewrite path_end_none by done.
  - by rewrite IH.
Qed.

(** The byte that follows the link in the buffer. *)
Definition terminated (link buf : bytes) : Prop :=
  (length link < PATH_MAX)%nat ∧ buf !! length link = Some NUL.

Lemma terminated_null link :
  (length link < PATH_MAX)%nat → terminated link (replicate PATH_MAX NUL).
Proof. intros. split; [done|]. by apply lookup_replicate_2. Qed.

Lemma fill_link_terminated link buf :
  terminated link buf → ∃ k, fill_link link buf = link ++ NUL :: k.
Proof.
  intros [Hl Hb]. unfold fill_link. rewrite take_ge by lia.
  exists (drop (S (length link)) buf). f_equal. by apply drop_S.
Qed.

(** What a link [d/b] is split into. *)
Lemma split_path_link buf n d b :
  no_nul d → no_nul b → no_slash b → terminated (d ++ "/"%char :: b) buf →
  ∃ dir, split_path buf n (Some (d ++ "/"%char :: b)) =
           mret (Some (S (length d), dir, strncpy n b)) ∧
         cstr dir = d ++ ["/"%char].
Proof.
  intros Hd Hb Hs Ht. unfold split_path.
  assert (Hn : no_nul (d ++ "/"%char :: b)).
  { apply Forall_app. split; [done|]. by constructor. }
  destruct (d ++ "/"%char :: b) as [|c r] eqn:E; [by destruct d|]. rewrite <- E in *. clear E c r.
  destruct (fill_link_terminated _ _ Ht) as [k ->].
  rewrite decide_True by set_solver. rewrite cstr_app_nul, path_end_app by done.
  eexists. split.
  - do 3 f_equal. change ("/"%char :: b) with (["/"%char] ++ b). rewrite (assoc_L (++)).
    rewrite drop_app_length'; [done|]. rewrite length_app. simpl. lia.
  - rewrite <- (assoc_L (++)). rewrite insert_app_r_alt by lia.
    replace (S (length d) - length d)%nat with 1%nat by lia.
    assert (Hd' : no_nul (d ++ ["/"%char])).
    { apply Forall_app. split; [done|]. by repeat constructor. }
    assert (Hc : ∀ k', cstr (d ++ "/"%char :: NUL :: k') = d ++ ["/"%char]).
    { intros k'. rewrite <- (cstr_app_nul (d ++ ["/"%char]) k' Hd'). by rewrite <- (assoc_L (++)). }
    destruct b as [|c b]; simpl; apply Hc.
Qed.

(** The running program's path [d/b] is split at its last slash: with a
    directory buffer in which a NUL follows the link (every byte is 0 when
    [NULL] is passed), the result is the length of [d/], the buffer holds
    [d/], and the name buffer holds [b], terminated exactly when [b] is shorter
    than the buffer. The older copy returns an address instead of that length
    when [NULL] is passed. *)
Lemma get_proc_path_name_splits proc_dir n d b block :
  let link := d ++ "/"%char :: b in
  no_nul d → no_nul b → no_slash b →
  terminated link (default (replicate PATH_MAX NUL) proc_dir) →
  ∃ dir nm,
    get_proc_path_name proc_dir n (Some link) = mret (zlen d + 1, Some (dir, nm)) ∧
    log_get_proc_path_name block proc_dir n (Some link) =
      mret (match proc_dir with
            | Some _ => zlen d + 1
            | None => to_s 32 (block + (zlen d + 1))
            end, Some (dir, nm)) ∧
    cstr dir = d ++ ["/"%char] ∧
    if decide (length b < n)%nat then cstr nm = b else NUL ∉ nm.
Proof.
  intros link Hd Hb Hs Ht. subst link.
  destruct (split_path_link _ n d b Hd Hb Hs Ht) as (dir & E & Hdir).
  exists dir, (strncpy n b). unfold get_proc_path_name, log_get_proc_path_name.
  rewrite E. simpl. replace (Z.of_nat (S (length d))) with (zlen d + 1) by (unfold zlen; lia).
  split; [done|]. split; [by destruct proc_dir|]. split; [done|].
  case_decide; [by apply strncpy_short|apply strncpy_long; [done|lia]].
Qed.

Lemma get_proc_path_name_splits_witness :
  ∃ dir nm, get_proc_path_name None 64 (Some (lit "/usr/bin/tool")) =
              mret (9, Some (dir, nm)) ∧ cstr dir = lit "/usr/bin/" ∧ cstr nm = lit "tool".
Proof.
  destruct (get_proc_path_name_splits None 64 (lit "/usr/bin") (lit "tool") 0)
    as (dir & nm & E & _ & Hdir & Hnm).
  1-3: repeat (constructor; [first [reflexivity | discriminate]|]); constructor.
  - apply terminated_null. vm_compute. lia.
  - rewrite decide_True in Hnm by (simpl; lia). exists dir, nm. done.
Defined.
