(* ===== verification/WritePacket.v ===== *)
(** Saving one packet, [src/src/utils/write_packet/write_single_packet.c].
    libpcap is outside: a dump file is [None] when it cannot be opened, and
    otherwise the list of the records [pcap_dump] was given. *)

From S2P Require Import Prelude CString.

(** [struct pcap_pkthdr]. *)
Record pcap_pkthdr := { tv_sec : Z; tv_usec : Z; caplen : Z; hdr_len : Z }.
Definition dump_record : Type := pcap_pkthdr * bytes.

(** [ts] is a [guint64]; the fields of the time are [long]. *)
Definition iridium_write_pcap_single (pdumper : list dump_record) (ts : Z) (data_buf : bytes)
    (len : Z) : list dump_record :=
  let hdr := {| tv_sec := to_s 64 (ts / 100000000); tv_usec := to_s 64 (ts / 100);
                caplen := to_u 32 len; hdr_len := to_u 32 len |} in
  pdumper ++ [(hdr, take (Z.to_nat (caplen hdr)) data_buf)].

(** [pcap_dump_open] truncates the file. *)
Definition init_pcap_handler (openable : bool) : option (list dump_record) :=
  if openable then Some [] else None.

(** The result and the contents of the file afterwards ([None]: as it was).
    The data is read up to [len]. *)
Definition write_this_packet (openable : bool) (ts : Z) (data_buf : option bytes) (len : Z)
    : outcome (Z * option (list dump_record)) :=
  match data_buf with
  | None => mret (-1, None)
  | Some data =>
      if decide (len <= 0) then mret (-1, None)
      else match init_pcap_handler openable with
      | None => mret (-2, None)
      | Some pdumper =>
          if decide (len ≤ zlen data)
          then mret (0, Some (iridium_write_pcap_single pdumper ts data len))
          else Undef OutOfBounds
      end
  end.

(** The instant a record stands for, in microseconds. *)
Definition record_usec (h : pcap_pkthdr) : Z := tv_sec h * 1000000 + tv_usec h.

(** Saving a packet whose time stamp counts 10 ns units writes one record
    with the packet's bytes; its microsecond field is below a million, and the
    record stands for the time of the packet, exactly when the time stamp lies
    in the first second of the epoch, because the field is not reduced modulo
    the second. *)
Lemma write_this_packet_time ts data len :
  0 ≤ ts < 2 ^ 63 → 0 < len ≤ zlen data → len < 2 ^ 32 →
  ∃ h, write_this_packet true ts (Some data) len =
         mret (0, Some [(h, take (Z.to_nat len) data)]) ∧
       caplen h = len ∧ hdr_len h = len ∧ tv_sec h = ts / 100000000 ∧
       (tv_usec h < 1000000 ↔ ts < 100000000) ∧
       (record_usec h = ts / 100 ↔ ts < 100000000).
Proof.
  intros Hts Hlen Hmax. unfold write_this_packet, iridium_write_pcap_single, init_pcap_handler.
  rewrite decide_False, decide_True by lia. simpl. rewrite to_u_small by lia.
  pose proof (Z.div_pos ts 100). pose proof (Z.div_pos ts 100000000).
  pose proof (Z.div_le_upper_bound ts 100 ts).
  pose proof (Z.div_le_upper_bound ts 100000000 ts).
  rewrite !to_s_small by lia.
  eexists. split; [done|]. unfold record_usec. simpl.
  pose proof (Z.div_mod ts 100). pose proof (Z.mod_pos_bound ts 100).
  pose proof (Z.div_mod ts 100000000). pose proof (Z.mod_pos_bound ts 100000000).
  split_and!; [done|done|done|split; lia|split; lia].
Qed.
Lemma write_this_packet_time_witness :
  ∃ h, write_this_packet true 152800000012345678 (Some (lit "abcd")) 4 =
         mret (0, Some [(h, lit "abcd")]) ∧ ¬ tv_usec h < 1000000.
Proof.
  destruct (write_this_packet_time 152800000012345678 (lit "abcd") 4)
    as (h & E & _ & _ & _ & Hu & _); [lia|vm_compute; split; [reflexivity|discriminate]|lia|].
  exists h. split; [exact E|]. rewrite Hu. lia.
Defined.
