(* ===== verification/SingleInstance.v ===== *)
(** One instance per name, and the daemon:
    [src/src/log/iridiumSysLog/wrapfcntl.c],
    [src/src/utils/single_instance/single_instance.c] and
    [src/src/utils/daemon/daemon.c].

    Record locks are the system's: the class [FileLocks] has the two operations
    the code relies on, [fcntl] with [F_SETLK] and the closing of a file, with
    POSIX's laws for a write lock on a whole file. A process is a number with
    its descriptor table; [exit] is [Exited]. *)

From S2P Require Import Prelude CString.

(** [struct flock] and the commands. *)
Inductive lock_cmd := F_SETLK | F_SETLKW.
Inductive lock_type := F_RDLCK | F_WRLCK | F_UNLCK.
Record flock := { l_type : lock_type; l_start : Z; l_whence : Z; l_len : Z }.
Definition SEEK_SET : Z := 0.

Section wrapfcntl.
(** [fcntl(fd, cmd, &lock)]. *)
Context {R : Type} (fcntl : Z → lock_cmd → flock → R).

Definition lock_reg (fd : Z) (cmd : lock_cmd) (type : lock_type) (offset whence len : Z) : R :=
  fcntl fd cmd {| l_type := type; l_start := offset; l_whence := whence; l_len := len |}.
Definition read_lock (fd offset whence len : Z) : R :=
  lock_reg fd F_SETLK F_RDLCK offset whence len.
Definition readw_lock (fd offset whence len : Z) : R :=
  lock_reg fd F_SETLKW F_RDLCK offset whence len.
Definition write_lock (fd offset whence len : Z) : R :=
  lock_reg fd F_SETLK F_WRLCK offset whence len.
Definition writew_lock (fd offset whence len : Z) : R :=
  lock_reg fd F_SETLKW F_WRLCK offset whence len.
Definition un_lock (fd offset whence len : Z) : R :=
  lock_reg fd F_SETLK F_UNLCK offset whence len.
End wrapfcntl.

(** The locks of a system: [setlk pid file cmd lock] is [fcntl] of a process on
    a descriptor of the file, [None] for -1; [close_file] is what closing any
    descriptor of the file does to the locks of the process. [writer] is the
    process with a write lock on the whole file. *)
Class FileLocks (L : Type) := {
  setlk : Z → bytes → lock_cmd → flock → L → option L;
  close_file : Z → bytes → L → L;
  writer : L → bytes → option Z
}.

Definition whole_file : flock :=
  {| l_type := F_WRLCK; l_start := 0; l_whence := SEEK_SET; l_len := 0 |}.

Class FileLocksLaws (L : Type) `{!FileLocks L} := {
  setlk_grants : ∀ pid file l l',
    setlk pid file F_SETLK whole_file l = Some l' →
    writer l' file = Some pid ∧ ∀ file', file' ≠ file → writer l' file' = writer l file';
  setlk_refuses : ∀ pid pid' file l,
    writer l file = Some pid' → pid' ≠ pid → setlk pid file F_SETLK whole_file l = None;
  close_file_releases : ∀ pid file l file',
    writer (close_file pid file l) file' =
      if decide (file' = file ∧ writer l file' = Some pid) then None else writer l file'
}.

(** A system with write locks on whole files only: the instance the witnesses
    compute with. *)
#[export] Instance gmap_FileLocks : FileLocks (gmap bytes Z) := {
  setlk pid file cmd lock l :=
    match l !! file with
    | Some pid' => if decide (pid' = pid) then Some l else None
    | None => Some (<[file := pid]> l)
    end;
  close_file pid file l := if decide (l !! file = Some pid) then delete file l else l;
  writer l file := l !! file
}.
#[export] Instance gmap_FileLocksLaws : FileLocksLaws (gmap bytes Z).
Proof.
  split; simpl.
  - intros pid file l l' E. destruct (l !! file) as [pid'|] eqn:El.
    + destruct (decide (pid' = pid)) as [->|]; [|done]. by injection E as <-.
    + injection E as <-. split; [by rewrite lookup_insert_eq|].
      intros file' Hne. by rewrite lookup_insert_ne.
  - intros pid pid' file l -> Hne. by rewrite decide_False.
  - intros pid file l file'. destruct (decide (l !! file = Some pid)) as [E|E].
    + destruct (decide (file' = file)) as [->|Hne].
      * rewrite lookup_delete_eq, decide_True; done.
      * rewrite lookup_delete_ne, decide_False; naive_solver.
    + rewrite decide_False; naive_solver.
Qed.

Section single_instance.
Context {L : Type} `{!FileLocks L}.

(** The machine: the locks and the contents of the lock files. *)
Record machine := { locks : L; files : gmap bytes bytes }.

(** From [open] to [return]: [opened] tells whether the file can be opened. *)
Definition lock_or_exit (path : bytes) (opened : bool) (pid : Z) (s : machine)
    : outcome (Z * machine) :=
  if negb opened then Exited 1
  else match lock_reg (λ fd, setlk pid path) 0 F_SETLK F_WRLCK 0 SEEK_SET 0 (locks s) with
  | None => Exited 1
  | Some l =>
      let buf := take 31 (print_d pid ++ [LF]) in
      mret (0, {| locks := l; files := <[path := buf]> (files s) |})
  end.

(** [LOCKFILE] comes from [single_instance.h]. *)
Definition LOCKFILE : bytes := lit "/var/run/default_proc.pid".
Definition already_running (opened : bool) (pid : Z) (s : machine) :=
  lock_or_exit LOCKFILE opened pid s.

(** [snprintf(file_buf, 64, "/var/run/%s.pid", lock_file_name)]. *)
Definition lock_path (name : bytes) : bytes :=
  take 63 (lit "/var/run/" ++ name ++ lit ".pid").
Definition already_running_with_name (name : bytes) (opened : bool) (pid : Z) (s : machine) :=
  lock_or_exit (lock_path name) opened pid s.
End single_instance.
Arguments machine : clear implicits.

(** ** The daemon *)

(** What [daemonize] changes of a process. *)
Record process := {
  pid : Z; fds : gmap Z bytes; mask : Z; cwd : bytes; leader : bool; hup_ignored : bool
}.
Definition DEV_NULL : bytes := lit "/dev/null".

(** The first free descriptor, where [open] and [dup] put their result. *)
Fixpoint free_from (fuel : nat) (i : Z) (t : gmap Z bytes) : Z :=
  match fuel with
  | O => i
  | S n => match t !! i with Some _ => free_from n (i + 1) t | None => i end
  end.
Definition lowest_free (t : gmap Z bytes) : Z := free_from (size t) 0 t.

Definition open_file (ok : bool) (file : bytes) (t : gmap Z bytes) : Z * gmap Z bytes :=
  if ok then (lowest_free t, <[lowest_free t := file]> t) else (-1, t).
Definition dup (fd : Z) (t : gmap Z bytes) : Z * gmap Z bytes :=
  match t !! fd with
  | Some file => (lowest_free t, <[lowest_free t := file]> t)
  | None => (-1, t)
  end.

(** [for (i = 0; i < rl.rlim_max; i++) close(i);] *)
Fixpoint close_from (n : nat) (i : Z) (t : gmap Z bytes) : gmap Z bytes :=
  match n with
  | O => t
  | S n => close_from n (i + 1) (delete i t)
  end.

(** [fork] as the calling process sees it: its result, and the pid it has
    afterwards when the result is 0. *)
Definition forked (r child : Z) (p : process) (next : process → outcome process)
    : outcome process :=
  if decide (r < 0) then mret p
  else if decide (r ≠ 0) then Exited 0
  else next {| pid := child; fds := fds p; mask := mask p; cwd := cwd p;
               leader := false; hup_ignored := hup_ignored p |}.

(** The lines after the second [fork]; [limit] is [rl.rlim_max], [None] for
    [RLIM_INFINITY]. *)
Definition detach (limit : option nat) (null_ok : bool) (p : process) : outcome process :=
  let t := close_from (default 1024%nat limit) 0 (fds p) in
  let '(fd0, t) := open_file null_ok DEV_NULL t in
  let '(fd1, t) := dup 0 t in
  let '(fd2, t) := dup 0 t in
  if negb (fd0 =? 0) || negb (fd1 =? 1) || negb (fd2 =? 2) then Exited 1
  else mret {| pid := pid p; fds := t; mask := mask p; cwd := lit "/"; leader := leader p;
               hup_ignored := hup_ignored p |}.

Definition daemonize (fork1 fork2 : Z * Z) (limit : option nat) (null_ok : bool) (p : process)
    : outcome process :=
  let p := {| pid := pid p; fds := fds p; mask := 0; cwd := cwd p; leader := leader p;
              hup_ignored := hup_ignored p |} in
  forked fork1.1 fork1.2 p (λ p,
    let p := {| pid := pid p; fds := fds p; mask := mask p; cwd := cwd p; leader := true;
                hup_ignored := true |} in
    forked fork2.1 fork2.2 p (detach limit null_ok)).

(** ** One instance *)

Section instances.
Context {L : Type} `{FileLocksLaws L}.

(** The processes that got through and still have the file open. *)
Record world := { mach : machine L; running : list (Z * bytes) }.

Definition started (r : outcome (Z * machine L)) (path : bytes) (p : Z) (w w' : world) : Prop :=
  match r with
  | Ret (_, s) => w' = {| mach := s; running := (p, path) :: running w |}
  | _ => w' = w
  end.

(** A process calls one of the two functions, or closes a lock file (when it
    ends at the latest). *)
Inductive world_step : world → world → Prop :=
  | calls_default opened p w w' :
      started (already_running opened p (mach w)) LOCKFILE p w w' → world_step w w'
  | calls_named name opened p w w' :
      started (already_running_with_name name opened p (mach w)) (lock_path name) p w w' →
      world_step w w'
  | closes p path w :
      world_step w
        {| mach := {| locks := close_file p path (locks (mach w)); files := files (mach w) |};
           running := filter (λ e, e ≠ (p, path)) (running w) |}.

(** Whoever got through holds the lock. *)
Definition running_ok (w : world) : Prop :=
  ∀ p path, (p, path) ∈ running w → writer (locks (mach w)) path = Some p.

Lemma lock_or_exit_ok path opened p s r s' l :
  (∀ q f, (q, f) ∈ l → writer (locks s) f = Some q) →
  lock_or_exit path opened p s = Ret (r, s') →
  ∀ q f, (q, f) ∈ (p, path) :: l → writer (locks s') f = Some q.
Proof.
  unfold lock_or_exit, lock_reg. fold whole_file. intros Hl E.
  destruct opened; [|done]. simpl in E.
  destruct (setlk p path F_SETLK whole_file (locks s)) as [l'|] eqn:Es; [|done].
  injection E as _ <-. simpl. destruct (setlk_grants _ _ _ _ Es) as [Hw Hne].
  intros q f [[= -> ->]|Hin]%elem_of_cons; [done|].
  destruct (decide (f = path)) as [->|Hf]; [|by rewrite Hne by done; apply Hl].
  destruct (decide (q = p)) as [->|Hq]; [done|].
  by rewrite (setlk_refuses p q path (locks s)) in Es by (auto).
Qed.

Lemma world_step_ok w w' : world_step w w' → running_ok w → running_ok w'.
Proof.
  assert (Hs : ∀ path opened p w w',
    started (lock_or_exit path opened p (mach w)) path p w w' → running_ok w → running_ok w').
  { intros path opened p w0 w1 Hst Hok. unfold started in Hst.
    destruct (lock_or_exit path opened p (mach w0)) as [[r s]| | |] eqn:E; subst w1; try done.
    intros q f. simpl. eapply lock_or_exit_ok; done. }
  intros [opened p w0 w1 Hst|nm opened p w0 w1 Hst|p path w0] Hok;
    [by eapply Hs|by eapply Hs|].
  intros q f. simpl. rewrite list_elem_of_filter. intros [Hne Hin].
  rewrite close_file_releases, decide_False; [by apply Hok|].
  intros [-> Hw]. apply Hne. f_equal. apply Hok in Hin. congruence.
Qed.

(** C25: Single instance. In every run of any processes, from a machine on which
    none got through, two processes that called [already_running] or
    [already_running_with_name], were not sent away, and still have the lock
    file open have different lock files. *)
Theorem single_instance s w p q path :
  rtc world_step {| mach := s; running := [] |} w →
  (p, path) ∈ running w → (q, path) ∈ running w → p = q.
Proof.
  intros Hr Hp Hq.
  assert (Hok : running_ok w).
  { cut (∀ w0, rtc world_step w0 w → running_ok w0 → running_ok w).
    { intros Hc. apply (Hc _ Hr). intros ? ? Hin. by apply not_elem_of_nil in Hin. }
    intros w0. induction 1; [done|]. intros. by eauto using world_step_ok. }
  apply Hok in Hp, Hq. congruence.
Qed.
End instances.

(** ** The daemon's descriptors *)

Lemma close_from_lookup n i t k :
  close_from n i t !! k = if decide (i ≤ k < i + Z.of_nat n) then None else t !! k.
Proof.
  revert i t. induction n as [|n IH]; intros i t; cbn [close_from].
  - rewrite decide_False by lia. done.
  - rewrite IH. destruct (decide (k = i)) as [->|Hne].
    + rewrite lookup_delete_eq. destruct (decide (i + 1 ≤ i < _)); [lia|].
      by rewrite decide_True by lia.
    + rewrite lookup_delete_ne by done.
      destruct (decide (i + 1 ≤ k < i + 1 + Z.of_nat n)), (decide (i ≤ k < i + Z.of_nat (S n)));
        done || lia.
Qed.

Lemma free_from_skip n (t : gmap Z bytes) i k :
  (k < n)%nat → (∀ j, i ≤ j < i + Z.of_nat k → is_Some (t !! j)) →
  t !! (i + Z.of_nat k) = None → free_from n i t = i + Z.of_nat k.
Proof.
  revert i n. induction k as [|k IH]; intros i [|n] Hn Hj Hk; try lia; simpl.
  - rewrite Z.add_0_r in *. by rewrite Hk.
  - destruct (Hj i) as [f ->]; [lia|]. rewrite (IH (i + 1) n); [lia|lia| |].
    + intros j ?. apply Hj. lia.
    + by replace (i + 1 + Z.of_nat k) with (i + Z.of_nat (S k)) by lia.
Qed.

Lemma size_insert_new (t : gmap Z bytes) i f : t !! i = None → (0 < size (<[i:=f]> t))%nat.
Proof. intros. rewrite map_size_insert_None by done. lia. Qed.

Lemma lowest_free_0 t : t !! 0 = None → lowest_free t = 0.
Proof. unfold lowest_free. destruct (size t); simpl; [done|]. by intros ->. Qed.
Lemma lowest_free_1 (t : gmap Z bytes) f : t !! 0 = None → t !! 1 = None → lowest_free (<[0:=f]> t) = 1.
Proof.
  intros H0 H1. unfold lowest_free. rewrite map_size_insert_None by done. cbn [free_from].
  rewrite lookup_insert_eq. change (0 + 1) with 1. destruct (size t); [done|]. cbn [free_from].
  by rewrite lookup_insert_ne, H1.
Qed.
Lemma lowest_free_2 (t : gmap Z bytes) f g :
  t !! 0 = None → t !! 1 = None → t !! 2 = None → lowest_free (<[1:=g]> (<[0:=f]> t)) = 2.
Proof.
  intros H0 H1 H2. unfold lowest_free.
  rewrite !map_size_insert_None by (rewrite ?lookup_insert_ne; done).
  cbn [free_from]. rewrite lookup_insert_ne, lookup_insert_eq by done.
  change (0 + 1) with 1. rewrite lookup_insert_eq. change (1 + 1) with 2.
  destruct (size t); [done|]. cbn [free_from].
  by rewrite !lookup_insert_ne, H2.
Qed.

(** A daemon's descriptors. In the process that survives both forks,
    descriptors 0, 1 and 2 are [/dev/null], every other one below the limit is
    closed, and those from the limit on (1024 when there is none) are what they
    were; its directory is the root, its mask is 0, it leads its session and
    ignores SIGHUP. When [/dev/null] cannot be opened it leaves with status
    1. *)
Lemma daemonize_descriptors c1 c2 limit null_ok p :
  let n := Z.of_nat (default 1024%nat limit) in
  3 ≤ n →
  if null_ok : bool then
    ∃ p', daemonize (0, c1) (0, c2) limit null_ok p = mret p' ∧
      (∀ k, 0 ≤ k → fds p' !! k =
        if decide (k < 3) then Some DEV_NULL else if decide (k < n) then None else fds p !! k) ∧
      pid p' = c2 ∧ mask p' = 0 ∧ cwd p' = lit "/" ∧ hup_ignored p' = true
  else daemonize (0, c1) (0, c2) limit null_ok p = Exited 1.
Proof.
  intros n Hn. unfold daemonize, forked. cbn [fst snd].
  do 4 (rewrite decide_False by lia). unfold detach. cbn [fds].
  set (t := close_from (default 1024%nat limit) 0 (fds p)).
  assert (Ht : ∀ k, t !! k = if decide (0 ≤ k < n) then None else fds p !! k).
  { intros k. unfold t. rewrite close_from_lookup. by rewrite Z.add_0_l. }
  assert (T0 : t !! 0 = None) by (rewrite Ht; by rewrite decide_True by lia).
  assert (T1 : t !! 1 = None) by (rewrite Ht; by rewrite decide_True by lia).
  assert (T2 : t !! 2 = None) by (rewrite Ht; by rewrite decide_True by lia).
  destruct null_ok; simpl; [|unfold dup; repeat (rewrite T0; simpl); done].
  rewrite (lowest_free_0 t T0). unfold dup at 1. rewrite lookup_insert_eq.
  rewrite (lowest_free_1 t DEV_NULL T0 T1). unfold dup.
  rewrite lookup_insert_ne, lookup_insert_eq by done.
  rewrite (lowest_free_2 t DEV_NULL DEV_NULL T0 T1 T2). simpl.
  eexists. split; [done|]. simpl. split; [|done]. intros k Hk.
  destruct (decide (k < 3)) as [Hk3|Hk3].
  { assert (k = 0 ∨ k = 1 ∨ k = 2) as [->|[->| ->]] by lia;
      rewrite ?(lookup_insert_ne _ 2), ?(lookup_insert_ne _ 1), lookup_insert_eq by done; done. }
  rewrite !lookup_insert_ne by lia. rewrite Ht.
  destruct (decide (0 ≤ k < n)), (decide (k < n)); done || lia.
Qed.

(** ** Witnesses *)

Definition shell : process :=
  {| pid := 7; fds := <[0 := lit "/dev/tty"]> (<[5 := lit "/tmp/x"]> ∅); mask := 18;
     cwd := lit "/home"; leader := false; hup_ignored := false |}.
Lemma daemonize_descriptors_witness :
  ∃ p', daemonize (0, 8) (0, 9) (Some 4%nat) true shell = mret p' ∧
    fds p' !! 0 = Some DEV_NULL ∧ fds p' !! 3 = None ∧ fds p' !! 5 = Some (lit "/tmp/x") ∧
    pid p' = 9.
Proof.
  destruct (daemonize_descriptors 8 9 (Some 4%nat) true shell ltac:(simpl; lia))
    as (p' & E & Hf & Hp & _).
  exists p'. split; [exact E|].
  rewrite (Hf 0), (Hf 3), (Hf 5) by lia. split; [reflexivity|]. split; [reflexivity|].
  split; [reflexivity|exact Hp].
Defined.

Definition first_machine : machine (gmap bytes Z) := {| locks := ∅; files := ∅ |}.
Definition second_machine : machine (gmap bytes Z) :=
  match already_running_with_name (lit "probe") true 41 first_machine with
  | Ret (_, s) => s
  | _ => first_machine
  end.
Definition one_running : world (L:=gmap bytes Z) :=
  {| mach := second_machine; running := [(41, lock_path (lit "probe"))] |}.

(** Process 41 got through; 42 was sent away. *)
Lemma single_instance_witness :
  already_running_with_name (lit "probe") true 42 second_machine = Exited 1 ∧
  ∀ q, (q, lock_path (lit "probe")) ∈ running one_running → 41 = q.
Proof.
  split; [vm_compute; reflexivity|]. intros q Hq.
  apply (single_instance first_machine one_running 41 q (lock_path (lit "probe"))).
  - apply rtc_once. apply (calls_named (lit "probe") true 41).
    vm_cast_no_check (eq_refl one_running).
  - constructor.
  - exact Hq.
Defined.
