(* ===== verification/HardInfo.v ===== *)
(** What identifies a machine: [src/trash/c_tools/miscellaneous/get_hardinfo.c].

    A [char *] that only moves forward is what is left of its string from there
    on, the terminator included. [SINGLE_MAC_LEN], [NET_ADAPTER_NUM] and
    [dmi_result] are defined nowhere in the repository and are variables; the
    answers of the system (files, [ioctl], [system]) are records. *)

From S2P Require Import Prelude CString Memory.

Open Scope Z_scope.

(** ** The names in /proc/net/dev *)

Definition IFNAMSIZ : Z := 16.

(** [fgets]: at most [n] characters of a line; nothing at the end of the file. *)
Fixpoint fgets (n : nat) (file : bytes) : bytes * bytes :=
  match n, file with
  | S n, c :: f =>
      if decide (c = LF) then ([c], f) else let '(l, r) := fgets n f in (c :: l, r)
  | _, _ => ([], file)
  end.

Fixpoint skip_space (p : bytes) : outcome bytes :=
  match p with
  | [] => Undef OutOfBounds
  | c :: q => if is_space c then skip_space q else mret p
  end.

(** [while (isdigit(p[0])) ...], with the position [n] in [name]. *)
Fixpoint copy_digits (name : bytes) (n : Z) (p : bytes) : outcome (bytes * Z * bytes) :=
  match p with
  | [] => Undef OutOfBounds
  | c :: q =>
      if is_digit c then name ← aset name n c; copy_digits name (n + 1) q
      else mret (name, n, p)
  end.

(** At a colon, [c :: q] being what is left: the alias number is kept when
    another colon follows it. [None] is the [return NULL]. *)
Definition after_colon (name : bytes) (n : Z) (c : ascii) (q : bytes)
    : outcome (bytes * Z * option bytes) :=
  name ← aset name n c;
  '(name, n', p') ← copy_digits name (n + 1) q;
  x ← aget p' 0;
  let '(n, p) := if decide (x = ":"%char) then (n', p') else (n, c :: q) in
  y ← aget p 0;
  mret (name, n, if decide (y = NUL) then None else Some (drop 1 p)).

Fixpoint copy_name (name : bytes) (n : Z) (p : bytes) : outcome (bytes * Z * option bytes) :=
  match p with
  | [] => Undef OutOfBounds
  | c :: q =>
      if decide (c = NUL) then mret (name, n, Some p)
      else if is_space c then mret (name, n, Some p)
      else if decide (c = ":"%char) then after_colon name n c q
      else name ← aset name n c; copy_name name (n + 1) q
  end.

Definition get_name (name p : bytes) : outcome (bytes * option bytes) :=
  p ← skip_space p;
  '(name, n, r) ← copy_name name 0 p;
  match r with
  | None => mret (name, None)
  | Some p => name ← aset name n NUL; mret (name, Some p)
  end.

(** Whether one of the first [n] rows from [i] on is [name]. *)
Fixpoint known (ifnames name : bytes) (n : nat) (i : Z) : outcome bool :=
  match n with
  | O => mret false
  | S n =>
      s ← c_string (drop (Z.to_nat (i * IFNAMSIZ)) ifnames);
      t ← c_string name;
      if decide (s = t) then mret true else known ifnames name n (i + 1)
  end.

Definition add_interface_name (ifnames name : bytes) (count : Z) : outcome (bytes * Z) :=
  b ← known ifnames name (Z.to_nat count) 0;
  if b : bool then mret (ifnames, count)
  else
    t ← c_string name;
    ifnames ← memcpy ifnames (count * IFNAMSIZ) (strncpy (Z.to_nat (IFNAMSIZ - 1)) t);
    mret (ifnames, count + 1).

Definition no_name : bytes := replicate 16 NUL.

(** One turn of [while (fgets(buf, sizeof buf, fh))]. *)
Definition procnet_turn (s : bytes * bytes * Z) : outcome (turn (bytes * bytes * Z) (bytes * Z)) :=
  let '(file, ifnames, count) := s in
  let '(line, file) := fgets 511 file in
  if decide (line = []) then mret (Stop (ifnames, count))
  else
    '(name, _) ← get_name no_name (line ++ [NUL]);
    '(ifnames, count) ← add_interface_name ifnames name count;
    mret (Next (file, ifnames, count)).

Definition get_procnet_list (fh : option bytes) (ifnames : bytes) (count : Z)
    : outcome (Z * bytes * Z) :=
  match fh with
  | None => mret (-1, ifnames, count)
  | Some file =>
      let file := (fgets 511 file).2 in
      let file := (fgets 511 file).2 in
      '(ifnames, count) ← loop (S (length file)) procnet_turn (file, ifnames, count);
      mret (0, ifnames, count)
  end.

(** ** The addresses of the adapters *)

Definition IFF_LOOPBACK : Z := 8.

(** The answers to [socket], [fopen("/proc/net/dev")] and the two [ioctl]s; an
    address is the first six bytes of [sa_data]. *)
Record net_env := {
  socket_ok : bool;
  procnet : option bytes;
  if_flags : bytes → option Z;
  if_hwaddr : bytes → option (list Z)
}.

Definition hex_digit (d : Z) : ascii := rd (lit "0123456789ABCDEF") d.
Definition hex2 (b : Z) : bytes := [hex_digit (b / 16); hex_digit (b mod 16)].
(** "%02X:%02X:%02X:%02X:%02X:%02X". *)
Definition mac_text (sa_data : list Z) : bytes :=
  concat (zip_with (λ b sep, hex2 b ++ sep) (take 6 sa_data)
    [lit ":"; lit ":"; lit ":"; lit ":"; lit ":"; []]).

Section adapters.
Context (SINGLE_MAC_LEN NET_ADAPTER_NUM : Z).

(** One turn of the loop over the names, on the addresses, their number and
    [tmp_mac]; [None] is the [return -1]. The comparison with the addresses
    found so far sets [ok], which is 1 already. *)
Definition adapter_turn (E : net_env) (ifname_buf : bytes) (i : Z) (addr : list bytes)
    (got_count : Z) (tmp_mac : bytes) : outcome (option (list bytes * Z * bytes)) :=
  name ← c_string (drop (Z.to_nat (i * IFNAMSIZ)) ifname_buf);
  match if_flags E name with
  | None => mret (Some (addr, got_count, tmp_mac))
  | Some flags =>
      if decide (Z.land flags IFF_LOOPBACK ≠ 0) then mret (Some (addr, got_count, tmp_mac))
      else match if_hwaddr E name with
      | None => mret (Some (addr, got_count, tmp_mac))
      | Some sa_data =>
          tmp_mac ← memcpy tmp_mac 0 (snprintf SINGLE_MAC_LEN (mac_text sa_data) ++ [NUL]);
          tmp_mac ← aset tmp_mac SINGLE_MAC_LEN NUL;
          if decide (got_count >= NET_ADAPTER_NUM) then mret None
          else
            row ← aget addr got_count;
            row ← memcpy row 0 tmp_mac;
            row ← aset row SINGLE_MAC_LEN NUL;
            addr ← aset addr got_count row;
            mret (Some (addr, got_count + 1, tmp_mac))
      end
  end.

Fixpoint adapters (E : net_env) (ifname_buf : bytes) (n : nat) (i : Z) (addr : list bytes)
    (got_count : Z) (tmp_mac : bytes) : outcome (option (list bytes * Z)) :=
  match n with
  | O => mret (Some (addr, got_count))
  | S n =>
      r ← adapter_turn E ifname_buf i addr got_count tmp_mac;
      match r with
      | None => mret None
      | Some (addr, got_count, tmp_mac) =>
          adapters E ifname_buf n (i + 1) addr got_count tmp_mac
      end
  end.

(** The result, the addresses and [*adapter_num]. [tmp_mac] is written before it
    is read. *)
Definition mac_addr_sys (E : net_env) (addr : list bytes) (adapter_num : Z)
    : outcome (Z * list bytes * Z) :=
  let ifname_buf := replicate 2048 NUL in
  if socket_ok E then
    '(r, ifname_buf, count) ← get_procnet_list (procnet E) ifname_buf 0;
    if decide (r ≠ 0) then mret (-1, addr, adapter_num)
    else
      let tmp_mac := replicate (Z.to_nat SINGLE_MAC_LEN) NUL in
      r ← adapters E ifname_buf (Z.to_nat count) 0 addr 0 tmp_mac;
      match r with
      | None => mret (-1, addr, adapter_num)
      | Some (addr, got_count) => mret (0, addr, got_count)
      end
  else mret (-1, addr, adapter_num).

(** The loop that joins the first [n] addresses from [i] on. *)
Fixpoint join_macs (addr : list bytes) (n : nat) (i : Z) (mac_buf : bytes) (len : Z)
    : outcome (bytes * Z) :=
  match n with
  | O => mret (mac_buf, len)
  | S n =>
      row ← aget addr i;
      mac_buf ← memcpy mac_buf len (take (Z.to_nat (SINGLE_MAC_LEN - 1)) row);
      mac_buf ← aset mac_buf (len + (SINGLE_MAC_LEN - 1)) "-"%char;
      join_macs addr n (i + 1) mac_buf (len + (SINGLE_MAC_LEN - 1) + 1)
  end.

Definition get_all_mac (E : net_env) (mac_buf : bytes) (buf_len : Z) : outcome (Z * bytes) :=
  let addr := replicate (Z.to_nat NET_ADAPTER_NUM)
                (replicate (Z.to_nat SINGLE_MAC_LEN) NUL) in
  '(stat, addr, act_adapter_num) ← mac_addr_sys E addr NET_ADAPTER_NUM;
  if decide (stat = 0) then
    if decide (buf_len <= act_adapter_num * SINGLE_MAC_LEN) then mret (-1, mac_buf)
    else
      '(mac_buf, len) ← join_macs addr (Z.to_nat act_adapter_num) 0 mac_buf 0;
      mac_buf ← aset mac_buf (len - 1) NUL;
      mret (0, mac_buf)
  else mret (-1, mac_buf).
End adapters.

(** ** Texts that commands print *)

(** [system] as the exit status and what [dmi_result] holds afterwards. *)
Record dmi_env := {
  getuid : Z;
  dmi_result : bytes;
  system : bytes → Z * option bytes
}.

(** [command], an array of [n] bytes, is cut where it does not fit. *)
Definition run_command (E : dmi_env) (n : Z) (text : bytes) : Z * option bytes :=
  system E (snprintf n (text ++ dmi_result E)).

Definition CPU_ID_LEN : Z := 24.

Definition get_cpu_id (E : dmi_env) (cpu_buf : bytes) (cpu_len : Z) : outcome (Z * bytes) :=
  if decide (getuid E ≠ 0) then mret (-1, cpu_buf)
  else if decide (cpu_len < CPU_ID_LEN) then mret (-1, cpu_buf)
  else
    match run_command E 100
      (lit "dmidecode -t processor | grep ID | awk -F: '{print $2}' | tail -1 > ") with
    | (0, None) => mret (0, cpu_buf)
    | (0, Some f) =>
        cpu_buf ← memcpy cpu_buf 0 (take (Z.to_nat (CPU_ID_LEN - 1)) (drop 1 f));
        cpu_buf ← aset cpu_buf (CPU_ID_LEN - 1) NUL;
        mret (0, cpu_buf)
    | _ => mret (-1, cpu_buf)
    end.

Definition get_baseboard_id (E : dmi_env) (baseboard_buf : bytes) (baseboard_len : Z)
    : outcome (Z * bytes) :=
  if decide (getuid E ≠ 0) then mret (-1, baseboard_buf)
  else
    match run_command E 100 (lit "dmidecode -s system-serial-number > ") with
    | (0, None) => mret (0, baseboard_buf)
    | (0, Some f) =>
        let buf := take 512 f ++ replicate (512 - length f) NUL in
        s ← c_string buf;
        let len := zlen s in
        if decide (len > baseboard_len) then mret (-1, baseboard_buf)
        else
          baseboard_buf ← memcpy baseboard_buf 0 s;
          baseboard_buf ← aset baseboard_buf (len - 1) NUL;
          mret (0, baseboard_buf)
    | _ => mret (-1, baseboard_buf)
    end.

(** [serial_no] is what [open] and [ioctl] give, 20 bytes; the two results are
    [None] when they fail. *)
Definition get_disk_id (fd : option unit) (serial_no : option bytes) (disk_buf : bytes)
    (disk_len : Z) : outcome (Z * bytes) :=
  match fd, serial_no with
  | None, _ | _, None => mret (-1, disk_buf)
  | Some _, Some serial_no =>
      s ← c_string serial_no;
      if decide (disk_len < zlen s) then mret (-1, disk_buf)
      else disk_buf ← memcpy disk_buf 0 (s ++ [NUL]); mret (0, disk_buf)
  end.

(** [while i < strlen(sin_buf)] from [i] on: the buffer and [ret]. *)
Definition newline_turn (s : bytes * Z * Z) : outcome (turn (bytes * Z * Z) (bytes * Z)) :=
  let '(sin_buf, i, ret) := s in
  t ← c_string sin_buf;
  if decide (i < zlen t) then
    c ← aget sin_buf i;
    if decide (c = LF) then
      sin_buf ← aset sin_buf i NUL; mret (Next (sin_buf, i + 1, 0))
    else mret (Next (sin_buf, i + 1, ret))
  else mret (Stop (sin_buf, ret)).

Definition QUOTE : ascii := "034"%char.
Definition productinfo : bytes :=
  lit "/opt/napatech3/bin/productinfo | grep " ++ [QUOTE] ++ lit "Main Board Serial No" ++
  [QUOTE] ++ lit " | awk -F: '{print $2}' | sed 's/^[ " ++ [TAB] ++ lit "]*//g' > ".

Definition get_mboard_sin (E : dmi_env) (sin_buf : bytes) (buf_len : Z) : outcome (Z * bytes) :=
  if decide (getuid E ≠ 0) then mret (-1, sin_buf)
  else if decide (buf_len < 128) then mret (-1, sin_buf)
  else
    match run_command E 150 productinfo with
    | (0, None) => mret (-1, sin_buf)
    | (0, Some f) =>
        sin_buf ← memcpy sin_buf 0 (take 128 f);
        let ret := zlen (take 128 f) in
        if decide (ret < 11) then mret (-1, sin_buf)
        else
          '(sin_buf, ret) ← loop (S (length sin_buf)) newline_turn (sin_buf, 0, ret);
          mret (ret, sin_buf)
    | _ => mret (-1, sin_buf)
    end.

(** ** The table of names *)

Definition name_ok (n : bytes) : Prop := no_nul n ∧ (length n ≤ 15)%nat.
Definition row (n : bytes) : bytes := n ++ replicate (16 - length n) NUL.
Definition rows (names : list bytes) : bytes := concat (row <$> names).
(** [ifname_buf] that holds these names. *)
Definition table_of (names : list bytes) : bytes :=
  rows names ++ replicate (2048 - 16 * length names) NUL.
Definition add_name (names : list bytes) (n : bytes) : list bytes :=
  if decide (n ∈ names) then names else names ++ [n].

Lemma length_rows names : Forall name_ok names → length (rows names) = (16 * length names)%nat.
Proof.
  induction 1 as [|n names [_ Hn] _ IH]; [done|]. unfold rows in *. cbn [fmap list_fmap concat].
  rewrite length_app, IH. unfold row. rewrite length_app, length_replicate. simpl. lia.
Qed.

Lemma row_terminated n : name_ok n → ∃ k, row n = n ++ NUL :: k.
Proof.
  intros [_ Hn]. unfold row. replace (16 - length n)%nat with (S (15 - length n)) by lia.
  by eexists.
Qed.

Lemma row_at names i n :
  Forall name_ok names → names !! i = Some n →
  ∃ k, drop (Z.to_nat (Z.of_nat i * IFNAMSIZ)) (table_of names) = n ++ NUL :: k.
Proof.
  intros Hok Hi. apply list_elem_of_split_length in Hi as (l1 & l2 & -> & ->).
  apply Forall_app in Hok as [H1 H2]. apply Forall_cons in H2 as [Hn _].
  destruct (row_terminated n Hn) as [k Hk].
  eexists. unfold table_of, rows. rewrite fmap_app, concat_app, <- app_assoc.
  rewrite drop_app_ge; change (concat (row <$> l1)) with (rows l1); rewrite length_rows by done;
    unfold IFNAMSIZ; [|lia].
  replace (Z.to_nat (Z.of_nat (length l1) * 16) - 16 * length l1)%nat with O by lia.
  rewrite drop_0. cbn [fmap list_fmap concat]. rewrite Hk, <- !app_assoc. done.
Qed.

Lemma known_table names name n k i :
  Forall name_ok names → c_string name = Ret n → (i + k = length names)%nat →
  known (table_of names) name k (Z.of_nat i) = Ret (bool_decide (n ∈ drop i names)).
Proof.
  intros Hok Hn. revert i. induction k as [|k IH]; intros i Hi; cbn [known].
  - rewrite drop_ge by lia. by rewrite bool_decide_false by set_solver.
  - destruct (lookup_lt_is_Some_2 names i) as [m Hm]; [lia|].
    destruct (row_at names i m Hok Hm) as [r ->].
    rewrite Forall_lookup in Hok. rewrite c_string_app_nul, Ret_bind, Hn, Ret_bind
      by by eapply (Hok i).
    rewrite (drop_S _ _ _ Hm). case_decide as Hd.
    + subst m. rewrite bool_decide_true by set_solver. done.
    + replace (Z.of_nat i + 1) with (Z.of_nat (S i)) by lia. rewrite IH by lia.
      f_equal. apply bool_decide_ext. rewrite elem_of_cons. intuition congruence.
Qed.

Lemma table_snoc names n :
  Forall name_ok names → name_ok n → (length names < 128)%nat →
  memcpy (table_of names) (zlen names * IFNAMSIZ) (strncpy (Z.to_nat (IFNAMSIZ - 1)) n) =
  Ret (table_of (names ++ [n])).
Proof.
  intros Hok [Hn Hl] Hm. pose proof (length_rows names Hok) as Hr.
  change (Z.to_nat (IFNAMSIZ - 1)) with 15%nat. unfold strncpy. rewrite take_ge by lia.
  assert (Hz : Z.to_nat (zlen names * IFNAMSIZ) = (16 * length names)%nat)
    by (unfold zlen, IFNAMSIZ; lia).
  rewrite memcpy_ok; [|unfold zlen, IFNAMSIZ; lia|].
  2: { unfold zlen, table_of, IFNAMSIZ. rewrite !length_app, Hr, !length_replicate. lia. }
  f_equal. unfold blit, table_of. rewrite Hz.
  rewrite take_app_le, take_ge by lia.
  rewrite drop_app_ge by (rewrite Hr, length_app, length_replicate; lia).
  rewrite Hr, drop_replicate, !length_app, length_replicate.
  unfold rows. rewrite fmap_app, concat_app, <- !app_assoc. f_equal. cbn [fmap list_fmap concat].
  unfold row. rewrite app_nil_r, <- !app_assoc, <- !replicate_add. do 2 f_equal. cbn. lia.
Qed.

Lemma add_interface_name_adds names name n :
  Forall name_ok names → name_ok n → c_string name = Ret n → (length names < 128)%nat →
  add_interface_name (table_of names) name (zlen names) =
  Ret (table_of (add_name names n), zlen (add_name names n)).
Proof.
  intros Hok Hn Hs Hl. unfold add_interface_name, add_name.
  change 0 with (Z.of_nat 0). rewrite (known_table names name n), Ret_bind
    by (done || (unfold zlen; lia)).
  rewrite drop_0. case_decide.
  - by rewrite bool_decide_true.
  - rewrite bool_decide_false, Hs, Ret_bind, table_snoc, Ret_bind by done. f_equal. f_equal.
    by rewrite zlen_app.
Qed.

(** ** Reading a line *)

Definition plain (c : ascii) : bool :=
  not_char NUL c && negb (is_space c) && not_char ":"%char c.

(** What is left of a buffer after a name and the terminator behind it. *)
Lemma terminated_name (x b : bytes) :
  no_nul b → take (length b) x = b → zlen b < zlen x →
  aset x (zlen b) NUL = Ret (upd x (zlen b) NUL) ∧ c_string (upd x (zlen b) NUL) = Ret b.
Proof.
  intros Hb Ht Hl. rewrite aset_ok by (unfold zlen in *; lia). split; [done|].
  unfold upd, zlen in *. rewrite Nat2Z.id, insert_take_drop, Ht by lia.
  by apply c_string_app_nul.
Qed.

Lemma skip_space_all sp c q :
  Forall (λ c, is_space c = true) sp → is_space c = false →
  skip_space (sp ++ c :: q) = Ret (c :: q).
Proof. intros Hsp Hc. induction Hsp as [|x sp Hx _ IH]; cbn; [by rewrite Hc|by rewrite Hx]. Qed.

Lemma copy_digits_all ds : ∀ name n x q,
  Forall (λ c, is_digit c = true) ds → is_digit x = false →
  0 ≤ n → n + zlen ds ≤ zlen name →
  copy_digits name n (ds ++ x :: q) = Ret (blit name n ds, n + zlen ds, x :: q).
Proof.
  induction ds as [|d ds IH]; intros name n x q Hd Hx Hn Hl; cbn.
  - rewrite Hx. unfold blit, zlen. cbn. rewrite Nat.add_0_r, take_drop, Z.add_0_r. done.
  - apply Forall_cons in Hd as [Hd Hds]. rewrite Hd.
    assert (zlen (d :: ds) = 1 + zlen ds) as Hz by (unfold zlen; cbn; lia).
    pose proof (zlen_nonneg ds). rewrite aset_ok, Ret_bind, IH, upd_blit
      by (done || rewrite ?zlen_upd; lia).
    change (n + 1) with (n + zlen [d]) at 1.
    rewrite blit_app by (change (zlen [d]) with 1; lia). cbn. do 2 f_equal. f_equal. lia.
Qed.

Lemma copy_name_plain s : ∀ name n q,
  Forall (λ c, plain c = true) s → 0 ≤ n → n + zlen s ≤ zlen name →
  copy_name name n (s ++ q) = copy_name (blit name n s) (n + zlen s) q.
Proof.
  induction s as [|c s IH]; intros name n q Hs Hn Hl; cbn [app].
  - unfold blit, zlen. cbn [length app]. by rewrite Nat.add_0_r, take_drop, Z.add_0_r.
  - apply Forall_cons in Hs as [Hc Hs]. unfold plain in Hc. rewrite !andb_true_iff in Hc.
    destruct Hc as [[Hc1 Hc2] Hc3]. rewrite !not_char_true in *. rewrite negb_true_iff in Hc2.
    assert (zlen (c :: s) = 1 + zlen s) as Hz by (unfold zlen; cbn; lia).
    pose proof (zlen_nonneg s). cbn [copy_name].
    rewrite decide_False, Hc2, decide_False by done.
    rewrite aset_ok, Ret_bind, IH, upd_blit by (done || rewrite ?zlen_upd; lia).
    change (n + 1) with (n + zlen [c]) at 1.
    rewrite blit_app by (change (zlen [c]) with 1; lia). cbn. f_equal. lia.
Qed.

(** A line of the file: an interface, perhaps with the number of an alias, a
    colon and the counters. *)
Record if_line := {
  if_pad : bytes; if_base : bytes; if_alias : option bytes; if_rest : bytes
}.
Definition if_name (l : if_line) : bytes :=
  if_base l ++ from_option (λ ds, ":"%char :: ds) [] (if_alias l).
Definition if_text (l : if_line) : bytes := if_pad l ++ if_name l ++ (":"%char :: if_rest l).

(** Without an alias, the digits that follow the colon at once pass through the
    16 bytes of the name as well. *)
Definition line_fits (l : if_line) : Prop :=
  Forall (λ c, is_space c = true ∧ c ≠ LF) (if_pad l) ∧
  Forall (λ c, plain c = true) (if_base l) ∧
  (LF ∉ if_rest l) ∧ (length (if_text l) < 511)%nat ∧ (length (if_name l) ≤ 15)%nat ∧
  match if_alias l with
  | Some ds => (Forall (λ c, is_digit c = true) ds)
  | None =>
      (length (if_base l) + 1 + length (take_while is_digit (if_rest l)) ≤ 16)%nat ∧
      hd_error (drop_while is_digit (if_rest l)) ≠ Some ":"%char
  end.

Lemma plain_no_nul s : Forall (λ c, plain c = true) s → no_nul s.
Proof.
  intros H. eapply Forall_impl; [exact H|]. intros c Hc. unfold plain in Hc.
  by rewrite !andb_true_iff in Hc; destruct Hc as [[? _] _].
Qed.

Lemma if_name_ok l : line_fits l → name_ok (if_name l).
Proof.
  intros (_ & Hb & _ & _ & Hl & Ha). split; [|done]. unfold if_name.
  apply Forall_app. split; [by apply plain_no_nul|].
  destruct (if_alias l); cbn; [constructor; [done|by apply digit_no_nul]|constructor].
Qed.

Lemma digits_then s : ∃ x t, s ++ [LF; NUL] = take_while is_digit s ++ x :: t ∧
  is_digit x = false ∧ (x = ":"%char → hd_error (drop_while is_digit s) = Some ":"%char).
Proof.
  pose proof (take_drop_while is_digit s) as Hs.
  assert (s ++ [LF; NUL] = take_while is_digit s ++ drop_while is_digit s ++ [LF; NUL]) as ->
    by (rewrite app_assoc; by rewrite Hs).
  destruct (drop_while is_digit s) as [|x t] eqn:E.
  - exists LF, [NUL]. done.
  - exists x, (t ++ [LF; NUL]). split; [done|]. split; [by eapply drop_while_head|].
    by intros ->.
Qed.

Lemma blit_prefix x b p : zlen b ≤ p → p ≤ zlen x → zlen b ≤ zlen x → ∀ s,
  p + zlen s ≤ zlen x → take (length b) x = b → take (length b) (blit x p s) = b.
Proof.
  intros H1 H2 H3 s Hs Hb. replace (length b) with (Z.to_nat (zlen b)) by (unfold zlen; lia).
  rewrite take_blit_before by (pose proof (zlen_nonneg b); lia).
  unfold zlen. by rewrite Nat2Z.id.
Qed.

Lemma take_blit_0 x s : zlen s ≤ zlen x → take (length s) (blit x 0 s) = s.
Proof.
  intros. replace (length s) with (Z.to_nat (0 + zlen s)) by (unfold zlen; lia).
  by rewrite take_blit by lia.
Qed.

Lemma copy_name_colon name n q : copy_name name n (":"%char :: q) = after_colon name n ":"%char q.
Proof. done. Qed.

Lemma after_colon_digits name n ds x t :
  Forall (λ c, is_digit c = true) ds → is_digit x = false →
  0 ≤ n → n + 1 + zlen ds ≤ zlen name →
  after_colon name n ":"%char (ds ++ x :: t) =
  Ret (blit name n (":"%char :: ds),
       if decide (x = ":"%char) then n + 1 + zlen ds else n,
       Some (if decide (x = ":"%char) then t else ds ++ x :: t)).
Proof.
  intros Hd Hx Hn Hl. unfold after_colon. pose proof (zlen_nonneg ds).
  rewrite aset_ok, Ret_bind, copy_digits_all, Ret_bind by (done || rewrite ?zlen_upd; lia).
  rewrite upd_blit by lia. change (n + 1) with (n + zlen [":"%char]) at 1.
  rewrite blit_app by (change (zlen [":"%char]) with 1; lia).
  rewrite aget_head, Ret_bind. case_decide as Hc; [subst x|]; by rewrite aget_head, Ret_bind.
Qed.

Lemma get_name_line l : line_fits l →
  ∃ name p, get_name no_name (if_text l ++ [LF; NUL]) = Ret (name, Some p) ∧
    c_string name = Ret (if_name l).
Proof.
  intros Hl. pose proof (if_name_ok l Hl) as [Hnul _].
  destruct Hl as (Hpad & Hb & _ & _ & Hlen & Ha).
  assert (zlen no_name = 16) as H16 by done.
  assert (zlen (if_base l) ≤ 15) as Hb15.
  { unfold if_name in Hlen. rewrite length_app in Hlen. unfold zlen. lia. }
  pose proof (zlen_nonneg (if_base l)) as Hb0.
  unfold get_name, if_text. rewrite <- !app_assoc.
  assert (∃ c q, (if_name l ++ (":"%char :: if_rest l) ++ [LF; NUL]) = c :: q ∧ is_space c = false)
    as (c & q & Hq & Hc).
  { unfold if_name. destruct (if_base l) as [|c b]; cbn.
    - destruct (if_alias l); by do 2 eexists.
    - apply Forall_cons in Hb as [Hc _]. unfold plain in Hc. rewrite !andb_true_iff in Hc.
      do 2 eexists. split; [done|]. destruct Hc as [[_ Hc] _]. by apply negb_true_iff. }
  rewrite Hq, skip_space_all, Ret_bind by first [done|eapply Forall_impl; [exact Hpad|by intros ? []]].
  rewrite <- Hq. unfold if_name. rewrite <- !app_assoc, copy_name_plain by (done || lia).
  rewrite Z.add_0_l. set (b := if_base l) in *.
  pose proof (take_blit_0 no_name b ltac:(lia)) as Htb.
  pose proof (zlen_blit no_name 0 b ltac:(lia) ltac:(lia)) as Hzb.
  set (nm := blit no_name 0 b) in *.
  destruct (if_alias l) as [ds|] eqn:Hal; cbn [from_option app].
  - assert (Hz : zlen (b ++ ":"%char :: ds) = zlen b + 1 + zlen ds)
      by (rewrite zlen_app; unfold zlen; cbn; lia).
    assert (zlen (b ++ ":"%char :: ds) ≤ 15).
    { unfold if_name in Hlen. rewrite Hal in Hlen. unfold zlen, b. cbn in *. lia. }
    rewrite copy_name_colon, after_colon_digits, Ret_bind by (done || lia).
    rewrite !decide_True, <- Hz by done.
    assert (Hnm : blit nm (zlen b) (":"%char :: ds) = blit no_name 0 (b ++ ":"%char :: ds)).
    { unfold nm. apply (blit_app no_name 0 b); [done|]. rewrite zlen_app in *. lia. }
    rewrite Hnm. destruct (terminated_name (blit no_name 0 (b ++ ":"%char :: ds))
      (b ++ ":"%char :: ds)) as [E1 E2].
    + unfold if_name in Hnul. by rewrite Hal in Hnul.
    + apply take_blit_0. lia.
    + rewrite zlen_blit; lia.
    + rewrite E1. by do 2 eexists.
  - destruct Ha as [Hfit Hnc]. destruct (digits_then (if_rest l)) as (x & t & Ht & Hx & Hxc).
    rewrite copy_name_colon. cbn [app]. rewrite Ht.
    pose proof (zlen_nonneg (take_while is_digit (if_rest l))).
    assert (zlen b + 1 + zlen (take_while is_digit (if_rest l)) ≤ 16) by (unfold zlen; lia).
    rewrite after_colon_digits, Ret_bind by (done || lia || apply take_while_all).
    rewrite !decide_False by (intros E; by apply Hnc, Hxc).
    destruct (terminated_name (blit nm (zlen b) (":"%char :: take_while is_digit (if_rest l))) b)
      as [E1 E2].
    + by apply plain_no_nul.
    + apply blit_prefix; try done; try lia. unfold zlen in *. cbn. lia.
    + rewrite zlen_blit; [lia|lia|]. unfold zlen in *. cbn. lia.
    + rewrite E1, app_nil_r. by do 2 eexists.
Qed.

(** ** The file *)

Lemma fgets_line s : ∀ n f, LF ∉ s → (length s < n)%nat → fgets n (s ++ LF :: f) = (s ++ [LF], f).
Proof.
  induction s as [|c s IH]; intros [|n] f Hs Hn; cbn in *; [lia|done|lia|].
  rewrite not_elem_of_cons in Hs. destruct Hs as [Hc Hs].
  rewrite decide_False by congruence. by rewrite IH by (done || lia).
Qed.

(** /proc/net/dev: two title lines, then a line for each interface. *)
Definition procnet_text (title1 title2 : bytes) (ls : list if_line) : bytes :=
  title1 ++ LF :: title2 ++ LF :: concat ((λ l, if_text l ++ [LF]) <$> ls).

Definition names_of (ls : list if_line) : list bytes := foldl add_name [] (if_name <$> ls).

Lemma if_text_no_LF l : line_fits l → LF ∉ if_text l.
Proof.
  intros (Hp & Hb & Hr & _ & _ & Ha). unfold if_text, if_name.
  assert (∀ s (f : ascii → bool), Forall (λ c, f c = true) s → f LF = false → LF ∉ s) as Hno.
  { intros s f Hs Hf Hin. rewrite Forall_forall in Hs. specialize (Hs _ Hin). congruence. }
  rewrite !elem_of_app, elem_of_cons. intros [H|[[H|H]|[H|H]]].
  - rewrite Forall_forall in Hp. by apply (Hp LF).
  - by eapply (Hno _ plain).
  - destruct (if_alias l) as [ds|]; cbn in H; [|by apply elem_of_nil in H].
    apply elem_of_cons in H as [H|H]; [done|]. by eapply (Hno _ is_digit).
  - done.
  - done.
Qed.

Lemma add_name_ok names n :
  Forall name_ok names → name_ok n → Forall name_ok (add_name names n).
Proof. intros. unfold add_name. case_decide; [done|]. apply Forall_app. by split; [|constructor]. Qed.

Lemma add_name_length names n : (length (add_name names n) ≤ S (length names))%nat.
Proof. unfold add_name. case_decide; [lia|]. rewrite length_app. cbn. lia. Qed.

Lemma procnet_turn_line l f names :
  line_fits l → Forall name_ok names → (length names < 128)%nat →
  procnet_turn (if_text l ++ LF :: f, table_of names, zlen names) =
  Ret (Next (f, table_of (add_name names (if_name l)), zlen (add_name names (if_name l)))).
Proof.
  intros Hl Hn Hmax. unfold procnet_turn.
  rewrite fgets_line by first [by apply if_text_no_LF|destruct Hl as (_ & _ & _ & ? & _); lia].
  rewrite decide_False by (by destruct (if_text l)).
  destruct (get_name_line l Hl) as (name & p & Hg & Hs).
  rewrite <- app_assoc. cbn [app]. rewrite Hg, Ret_bind.
  rewrite (add_interface_name_adds names name (if_name l)) by (done || by apply if_name_ok).
  done.
Qed.

Lemma procnet_loop ls : ∀ fuel names,
  Forall line_fits ls → Forall name_ok names → (length names + length ls ≤ 128)%nat →
  (length ls < fuel)%nat →
  loop fuel procnet_turn (concat ((λ l, if_text l ++ [LF]) <$> ls), table_of names, zlen names) =
  Ret (table_of (foldl add_name names (if_name <$> ls)),
       zlen (foldl add_name names (if_name <$> ls))).
Proof.
  induction ls as [|l ls IH]; intros [|fuel] names Hls Hn Hmax Hf; cbn in Hf; try lia; [done|].
  apply Forall_cons in Hls as [Hl Hls]. cbn [loop fmap list_fmap concat foldl].
  rewrite <- app_assoc. cbn [app]. cbn in Hmax.
  rewrite procnet_turn_line, Ret_bind by (done || lia).
  apply IH; [done| |pose proof (add_name_length names (if_name l)); lia|lia].
  by apply add_name_ok; [|apply if_name_ok].
Qed.

Lemma foldl_add_name ns : ∀ names, NoDup names →
  NoDup (foldl add_name names ns) ∧
  (∀ n, n ∈ foldl add_name names ns ↔ n ∈ names ∨ n ∈ ns).
Proof.
  induction ns as [|x ns IH]; intros names Hd; cbn.
  - split; [done|]. set_solver.
  - assert (NoDup (add_name names x)) as Hd'.
    { unfold add_name. case_decide; [done|]. apply NoDup_app.
      split; [done|]. split; [set_solver|]. apply NoDup_singleton. }
    destruct (IH _ Hd') as [H1 H2]. split; [done|]. intros n. rewrite H2, elem_of_cons.
    unfold add_name. case_decide; set_solver.
Qed.

(** Reading /proc/net/dev. For a file with two title lines and at most 128
    interfaces, the table of 16-byte rows ends up with the name of every
    interface once, in the order of the first lines that show it, an alias number
    between two colons being part of the name, and [count] is their number;
    whatever follows the colon, digits included as long as they fit into the
    buffer of the name. *)
Theorem get_procnet_list_reads t1 t2 ls :
  LF ∉ t1 → LF ∉ t2 → (length t1 < 511)%nat → (length t2 < 511)%nat →
  Forall line_fits ls → (length ls ≤ 128)%nat →
  get_procnet_list (Some (procnet_text t1 t2 ls)) (replicate 2048 NUL) 0 =
    Ret (0, table_of (names_of ls), zlen (names_of ls)) ∧
  NoDup (names_of ls) ∧ (∀ n, n ∈ names_of ls ↔ n ∈ if_name <$> ls).
Proof.
  intros H1 H2 Hl1 Hl2 Hls Hmax. split.
  - unfold get_procnet_list, procnet_text. rewrite fgets_line by (done || lia). cbn [snd].
    rewrite fgets_line by (done || lia). cbn [snd].
    change (replicate 2048 NUL) with (table_of []). change 0 with (zlen (@nil bytes)) at 2.
    rewrite (procnet_loop ls); [done|done|constructor|cbn; lia|].
    induction ls as [|l ls' IH]; cbn; [lia|]. apply Forall_cons in Hls as [_ Hls].
    cbn in Hmax. specialize (IH Hls ltac:(lia)). rewrite !length_app. cbn. lia.
  - destruct (foldl_add_name (if_name <$> ls) []) as [Hd He]; [constructor|].
    split; [done|]. intros n. unfold names_of. rewrite He. set_solver.
Qed.

(** Eleven digits behind the colon of a five-letter name are too many. *)
Example counter_overruns_name :
  get_name no_name (lit "wlan0:1234567890 7" ++ [LF; NUL]) =
    Ret (lit "wlan0" ++ [NUL] ++ lit "1234567890", Some (lit "1234567890 7" ++ [LF; NUL])) ∧
  get_name no_name (lit "wlan0:12345678901 7" ++ [LF; NUL]) = Undef OutOfBounds.
Proof. by vm_compute. Qed.

(** ** The addresses *)

Section addresses.
Context (SINGLE_MAC_LEN NET_ADAPTER_NUM : Z) (E : net_env).

Lemma memcpy_length data p s data' : memcpy data p s = Ret data' → zlen data' = zlen data.
Proof. unfold memcpy. case_decide; [|done]. intros [= <-]. apply zlen_blit; lia. Qed.

(** The terminator of the text would be behind the array. *)
Lemma adapter_turn_keeps buf i addr got tmp r :
  zlen tmp = SINGLE_MAC_LEN →
  adapter_turn SINGLE_MAC_LEN NET_ADAPTER_NUM E buf i addr got tmp = Ret r →
  r = Some (addr, got, tmp).
Proof.
  intros Hz Hr. unfold adapter_turn in Hr. ret_inv Hr; try done.
  all: match goal with H : memcpy _ _ (_ ++ [NUL]) = Ret _ |- _ => apply memcpy_length in H as Hm end.
  all: match goal with H : aset _ _ NUL = Ret _ |- _ =>
    unfold aset in H; rewrite decide_False in H by lia; done end.
Qed.

Lemma adapters_keep buf n : ∀ i addr got tmp r,
  zlen tmp = SINGLE_MAC_LEN →
  adapters SINGLE_MAC_LEN NET_ADAPTER_NUM E buf n i addr got tmp = Ret r →
  r = Some (addr, got).
Proof.
  induction n as [|n IH]; intros i addr got tmp r Hz Hr; cbn in Hr; [by ret_inv Hr|].
  apply bind_Ret in Hr as (x & Hx & Hr). apply adapter_turn_keeps in Hx as ->; [|done].
  by eapply IH.
Qed.

(** No address ever gets out. The terminator of an address is written behind
    its array, and without an address the last dash is looked for in front of
    the buffer: whatever the system answers, a call that stays within its arrays
    returns -1 and leaves the caller's buffer alone. *)
Theorem get_all_mac_fails mac_buf buf_len r b :
  0 < SINGLE_MAC_LEN →
  get_all_mac SINGLE_MAC_LEN NET_ADAPTER_NUM E mac_buf buf_len = Ret (r, b) →
  r = -1 ∧ b = mac_buf.
Proof.
  intros HS Hr. unfold get_all_mac in Hr.
  apply bind_Ret in Hr as ([[stat addr] k] & Hm & Hr).
  assert (stat = -1 ∨ stat = 0 ∧ k = 0) as [->|[-> ->]].
  { clear Hr. unfold mac_addr_sys in Hm. destruct (socket_ok E); [|ret_inv Hm; by left].
    apply bind_Ret in Hm as ([[x buf] count] & _ & Hm). case_decide; [ret_inv Hm; by left|].
    apply bind_Ret in Hm as (y & Hy & Hm). apply adapters_keep in Hy as ->.
    - ret_inv Hm. by right.
    - unfold zlen. rewrite length_replicate. lia. }
  - rewrite decide_False in Hr by lia. by ret_inv Hr.
  - rewrite decide_True in Hr by lia. case_decide; [by ret_inv Hr|].
    change (join_macs _ _ _ _ _ _) with (Ret (mac_buf, 0)) in Hr. rewrite Ret_bind in Hr.
    apply bind_Ret in Hr as (x & Hx & _). unfold aset in Hx.
    rewrite decide_False in Hx by lia. done.
Qed.
End addresses.

(** ** The texts *)

(** The identity of the processor is the 23 bytes behind the first one. *)
Lemma get_cpu_id_reads E c id rest cpu_buf :
  getuid E = 0 → (∀ command, system E command = (0, Some (c :: id ++ rest))) →
  length id = 23%nat → CPU_ID_LEN ≤ zlen cpu_buf →
  get_cpu_id E cpu_buf (zlen cpu_buf) = Ret (0, id ++ NUL :: drop 24 cpu_buf).
Proof.
  unfold CPU_ID_LEN, get_cpu_id, run_command. intros Hu Hs Hid Hl.
  rewrite decide_False, decide_False, Hs by (unfold CPU_ID_LEN; lia). cbn [drop]. rewrite drop_0.
  change (Z.to_nat (CPU_ID_LEN - 1)) with 23%nat. rewrite <- Hid, take_app_length.
  assert (zlen id = 23) as Hz by (unfold zlen; lia).
  pose proof (zlen_blit cpu_buf 0 id ltac:(lia) ltac:(lia)) as Hb.
  change (CPU_ID_LEN - 1) with 23.
  rewrite memcpy_ok, Ret_bind, aset_ok, Ret_bind by lia.
  do 2 f_equal. rewrite upd_blit by lia. rewrite <- Hz.
  rewrite (blit_app cpu_buf 0) by (change (zlen [NUL]) with 1; lia).
  unfold blit. cbn. rewrite <- app_assoc, length_app, Hid. done.
Qed.

(** The serial number is the output without its last byte, the end of the line;
    a command that prints nothing makes it write in front of the buffer. *)
Lemma get_baseboard_id_reads E s buf :
  getuid E = 0 → (∀ command, system E command = (0, Some (s ++ [LF]))) →
  no_nul s → (length s < 511)%nat → zlen s + 1 ≤ zlen buf →
  ∃ buf', get_baseboard_id E buf (zlen buf) = Ret (0, buf') ∧ c_string buf' = Ret s.
Proof.
  unfold get_baseboard_id, run_command. intros Hu Hs Hn Hl Hz.
  rewrite decide_False, Hs by lia.
  rewrite take_ge by (rewrite length_app; cbn; lia).
  assert (no_nul (s ++ [LF])) as Hn'.
  { apply Forall_app. split; [done|]. repeat constructor. }
  replace (512 - length (s ++ [LF]))%nat with (S (510 - length s))
    by (rewrite length_app; cbn; lia).
  cbn [replicate]. rewrite c_string_app_nul, Ret_bind by done.
  assert (zlen (s ++ [LF]) = zlen s + 1) as Hz' by (rewrite zlen_app; done).
  pose proof (zlen_nonneg s).
  rewrite decide_False, memcpy_ok, Ret_bind by lia. rewrite Hz', Z.add_simpl_r.
  destruct (terminated_name (blit buf 0 (s ++ [LF])) s) as [E1 E2].
  - done.
  - rewrite <- (blit_app buf 0 s [LF]) by (change (zlen [LF]) with 1; lia).
    apply blit_prefix; rewrite ?zlen_blit; change (zlen [LF]) with 1; try lia.
    by apply take_blit_0; lia.
  - rewrite zlen_blit; lia.
  - rewrite E1. by eexists.
Qed.

Lemma get_baseboard_id_empty E buf :
  getuid E = 0 → (∀ command, system E command = (0, Some [])) →
  get_baseboard_id E buf (zlen buf) = Undef OutOfBounds.
Proof.
  unfold get_baseboard_id, run_command. intros Hu Hs. rewrite decide_False, Hs by lia.
  pose proof (zlen_nonneg buf) as H0.
  change (c_string _) with (Ret (A:=bytes) []). rewrite Ret_bind.
  change (zlen (@nil ascii)) with 0. rewrite decide_False by lia.
  unfold memcpy. rewrite decide_True by (change (zlen (@nil ascii)) with 0; lia).
  cbn. unfold aset. by rewrite decide_False by lia.
Qed.

(** The serial number of a disk, 20 bytes. A buffer of just its length is
    accepted although the terminator does not fit. *)
Lemma get_disk_id_copies s k buf :
  no_nul s → zlen s ≤ zlen buf →
  get_disk_id (Some tt) (Some (s ++ NUL :: k)) buf (zlen buf) =
    if decide (zlen s < zlen buf) then Ret (0, s ++ NUL :: drop (S (length s)) buf)
    else Undef OutOfBounds.
Proof.
  intros Hs Hl. unfold get_disk_id. rewrite c_string_app_nul, Ret_bind by done.
  rewrite decide_False by lia. pose proof (zlen_nonneg s).
  assert (zlen (s ++ [NUL]) = zlen s + 1) as Hz by by rewrite zlen_app.
  case_decide.
  - rewrite memcpy_ok, Ret_bind by lia. unfold blit. cbn.
    by rewrite <- app_assoc, length_app, Nat.add_1_r.
  - unfold memcpy. by rewrite decide_False by lia.
Qed.

Lemma newline_turn_end X t i ret :
  c_string X = Ret t → zlen t ≤ i → newline_turn (X, i, ret) = Ret (Stop (X, ret)).
Proof. intros Hc Hi. unfold newline_turn. by rewrite Hc, Ret_bind, decide_False by lia. Qed.

Lemma newline_turn_char s c r t i ret :
  c_string (s ++ c :: r) = Ret t → i = zlen s → i < zlen t →
  newline_turn (s ++ c :: r, i, ret) =
  Ret (Next (if decide (c = LF) then (s ++ NUL :: r, i + 1, 0) else (s ++ c :: r, i + 1, ret))).
Proof.
  intros Hc -> Hi. unfold newline_turn. rewrite Hc, Ret_bind, decide_True by lia.
  assert (0 ≤ zlen s < zlen (s ++ c :: r)) by (rewrite zlen_app; unfold zlen; cbn; lia).
  rewrite aget_ok, Ret_bind, aset_ok by done.
  unfold rd, upd, zlen. rewrite Nat2Z.id, list_lookup_total_middle by done.
  case_decide; [|done]. rewrite Ret_bind, insert_app_r_alt, Nat.sub_diag by lia. done.
Qed.

(** The search for the end of the line skips a text without one. *)
Lemma newline_skip X s t : ∀ k fuel ret,
  c_string X = Ret t → s `prefix_of` X → LF ∉ s → (k ≤ length s)%nat → zlen s ≤ zlen t →
  loop (k + fuel) newline_turn (X, zlen s - Z.of_nat k, ret) =
  loop fuel newline_turn (X, zlen s, ret).
Proof.
  intros k fuel ret Hc [r ->] Hs Hk Ht. induction k as [|k IH]; cbn [Nat.add].
  { by rewrite Z.sub_0_r. }
  destruct (lookup_lt_is_Some_2 s (length s - S k)) as [x Hx]; [lia|].
  pose proof Hx as Hin%list_elem_of_lookup_2.
  apply list_elem_of_split_length in Hx as (s1 & s2 & -> & Hs1).
  rewrite <- app_assoc in *. cbn [app] in *. cbn [loop].
  rewrite (newline_turn_char s1 x (s2 ++ r) t); [|done|unfold zlen; lia|unfold zlen in *; lia].
  rewrite Ret_bind, decide_False by (intros Hx; apply Hs; by rewrite <- Hx).
  rewrite <- IH by lia. f_equal. f_equal. f_equal. lia.
Qed.

(** The serial number of the main board, a line of at least ten characters: the
    line is cut at its end and the result is 0. Without an end of line the result
    is the number of bytes. *)
Lemma get_mboard_sin_reads E s (newline : bool) n :
  getuid E = 0 →
  (∀ command, system E command = (0, Some (s ++ if newline then [LF] else []))) →
  no_nul s → LF ∉ s → 11 ≤ zlen s ≤ 126 → 128 ≤ n →
  ∃ buf, get_mboard_sin E (replicate (Z.to_nat n) NUL) n =
      Ret (if newline then 0 else zlen s, buf) ∧
    c_string buf = Ret s.
Proof.
  unfold get_mboard_sin, run_command. intros Hu Hs Hn Hlf Hl Hlen.
  rewrite decide_False, decide_False, Hs by lia.
  set (e := if newline then [LF] else []).
  assert (zlen e ≤ 1) as He by (unfold e; by destruct newline).
  pose proof (zlen_nonneg e). rewrite take_ge by (rewrite length_app; unfold zlen in *; lia).
  set (z := replicate (Z.to_nat n) NUL).
  assert (zlen z = n) as Hz by (unfold z, zlen; rewrite length_replicate; lia).
  rewrite memcpy_ok, Ret_bind, decide_False by (rewrite ?zlen_app; lia).
  set (k := (Z.to_nat n - length s - length e - 1)%nat).
  assert (blit z 0 (s ++ e) = s ++ e ++ NUL :: replicate k NUL) as ->.
  { unfold blit, z. change (take (Z.to_nat 0) (replicate (Z.to_nat n) NUL)) with (@nil ascii).
    change (NUL :: replicate k NUL) with (replicate (S k) NUL). cbn [app].
    rewrite drop_replicate, <- app_assoc. do 3 f_equal.
    rewrite length_app. unfold k, zlen in *. lia. }
  set (X := s ++ e ++ NUL :: replicate k NUL).
  assert (c_string X = Ret (s ++ e)) as HX.
  { unfold X. rewrite app_assoc. apply c_string_app_nul, Forall_app. split; [done|].
    unfold e. destruct newline; repeat constructor. }
  assert (∃ m, S (length X) = (length s + S (S m))%nat) as [m ->].
  { exists (length e + k)%nat. unfold X. rewrite !length_app. cbn. rewrite length_replicate. lia. }
  pose proof (newline_skip X s (s ++ e) (length s) (S (S m)) (zlen (s ++ e)) HX
    ltac:(by eexists) Hlf ltac:(lia) ltac:(rewrite zlen_app; lia)) as Hskip.
  replace (zlen s - Z.of_nat (length s)) with 0 in Hskip by (unfold zlen; lia).
  rewrite Hskip. clear Hskip.
  subst e X. destruct newline; cbn [app] in *; cbn [loop].
  - rewrite (newline_turn_char s LF _ _ _ _ HX), Ret_bind, decide_True
      by first [done|rewrite zlen_app; change (zlen [LF]) with 1; lia].
    rewrite (newline_turn_end _ s), Ret_bind by (by apply c_string_app_nul || lia).
    eexists. split; [done|]. by apply c_string_app_nul.
  - rewrite app_nil_r in *. rewrite (newline_turn_end _ _ _ _ HX), Ret_bind by lia. by eexists.
Qed.

(** ** Witnesses *)

Definition some_interfaces : list if_line :=
  [ {| if_pad := lit "    "; if_base := lit "lo"; if_alias := None; if_rest := lit " 8 8" |};
    {| if_pad := lit "  "; if_base := lit "eth0"; if_alias := None; if_rest := lit "123456 7" |};
    {| if_pad := []; if_base := lit "eth0"; if_alias := Some (lit "1"); if_rest := lit " 5" |};
    {| if_pad := lit "  "; if_base := lit "eth0"; if_alias := None; if_rest := [] |} ].

Lemma get_procnet_list_reads_witness :
  get_procnet_list (Some (procnet_text (lit "Inter-|") (lit " face |") some_interfaces))
    (replicate 2048 NUL) 0 =
    Ret (0, table_of (names_of some_interfaces), zlen (names_of some_interfaces)) ∧
  names_of some_interfaces = [lit "lo"; lit "eth0"; lit "eth0:1"] ∧
  NoDup (names_of some_interfaces) ∧
  (∀ n, n ∈ names_of some_interfaces ↔ n ∈ if_name <$> some_interfaces).
Proof.
  destruct (get_procnet_list_reads (lit "Inter-|") (lit " face |") some_interfaces)
    as (H1 & H2 & H3).
  - by apply (bool_decide_unpack _).
  - by apply (bool_decide_unpack _).
  - cbn. lia.
  - cbn. lia.
  - repeat constructor; try done; try (cbn; lia); by apply (bool_decide_unpack _).
  - cbn. lia.
  - split_and!; done.
Defined.

(** What the commands print, and a machine whose adapter answers. *)
Definition some_machine (output : bytes) : dmi_env :=
  {| getuid := 0; dmi_result := lit "/tmp/dmi"; system := λ _, (0, Some output) |}.

Example some_texts :
  get_cpu_id (some_machine (lit " C3 06 03 00 FF FB EB BF" ++ [LF])) (replicate 24 NUL) 24 =
    Ret (0, lit "C3 06 03 00 FF FB EB BF" ++ [NUL]) ∧
  get_baseboard_id (some_machine []) (replicate 64 NUL) 64 = Undef OutOfBounds ∧
  get_all_mac 18 8 {| socket_ok := true;
      procnet := Some (procnet_text [] [] some_interfaces);
      if_flags := λ n, if decide (n = lit "lo") then Some 9 else Some 1;
      if_hwaddr := λ _, Some [0; 27; 33; 1; 2; 3] |} (replicate 200 NUL) 200 =
    Undef OutOfBounds ∧
  get_all_mac 18 8 {| socket_ok := false; procnet := None; if_flags := λ _, None;
                      if_hwaddr := λ _, None |} (replicate 200 NUL) 200 =
    Ret (-1, replicate 200 NUL).
Proof. split_and!; by vm_compute. Qed.

Lemma get_all_mac_fails_witness :
  let E := {| socket_ok := false; procnet := None; if_flags := λ _, None;
              if_hwaddr := λ _, None |} in
  0 < 18 ∧ get_all_mac 18 8 E (replicate 200 NUL) 200 = Ret (-1, replicate 200 NUL) ∧
  -1 = -1.
Proof.
  split; [done|]. split; [done|].
  by destruct (get_all_mac_fails 18 8 {| socket_ok := false; procnet := None;
    if_flags := λ _, None; if_hwaddr := λ _, None |} (replicate 200 NUL) 200 (-1)
    (replicate 200 NUL)).
Defined.
