(* ===== verification/Days.v ===== *)
(** Counting days: [src/trash/c_tools/miscellaneous/compute_days.c] and the test
    [src/src/log/muduo-clog/muduo/base/tests/Date_unittest.cc] of the dates of
    MuduoDate.v, which walks through the calendar by its rules. *)

From S2P Require Import Prelude CString MuduoDate.

Open Scope Z_scope.

(** ** compute_days.c *)

(** [m1], [y1] and [d1] for one of the two dates. *)
Definition day_count (y m d : Z) : outcome Z :=
  t ← int_ (m + 9);
  let m1 := Z.rem t 12 in
  y1 ← int_ (y - Z.quot m1 10);
  s ← int_ (365 * y1);
  s ← int_ (s + Z.quot y1 4);
  s ← int_ (s - Z.quot y1 100);
  s ← int_ (s + Z.quot y1 400);
  t ← int_ (m1 * 306);
  t ← int_ (t + 5);
  s ← int_ (s + Z.quot t 10);
  t ← int_ (d - 1);
  int_ (s + t).

Definition compute_days (y_s m_s d_s y_e m_e d_e : Z) : outcome Z :=
  d1 ← day_count y_s m_s d_s;
  d2 ← day_count y_e m_e d_e;
  int_ (d2 - d1).

(** The years from March on that are not negative: the divisions truncate. *)
Definition counted_date (x : YearMonthDay) : Prop :=
  valid_date x ∧ (1 ≤ ymd_year x ∨ ymd_year x = 0 ∧ 3 ≤ ymd_month x).

Lemma day_count_jdn x :
  counted_date x →
  day_count (ymd_year x) (ymd_month x) (ymd_day x) = Ret (jdn x - 1721120).
Proof.
  intros [(Hy & Hm & Hd) Hc]. destruct x as [y m d]; cbn in *.
  pose proof (days_in_month_bounds y m). unfold MIN_YEAR, MAX_YEAR in *.
  unfold day_count, jdn, march_year, march_month; cbn [ymd_year ymd_month ymd_day].
  rewrite int_bind by in_int_tac. rewrite Z.rem_mod_nonneg by lia. cbv zeta.
  set (m1 := (m + 9) mod 12). assert (0 ≤ m1 ≤ 11) as Hm1 by (unfold m1; Z.div_mod_to_equations; lia).
  rewrite (Z.quot_div_nonneg m1) by lia.
  assert (0 ≤ y - m1 / 10) as Hy1.
  { unfold m1. destruct Hc as [Hc|[-> Hc]]; [Z.div_mod_to_equations; lia|].
    Z.div_mod_to_equations; lia. }
  assert (m1 / 10 = (14 - m) / 12 ∧ m1 = m + 12 * ((14 - m) / 12) - 3) as [Ea Em].
  { unfold m1. Z.div_mod_to_equations; lia. }
  rewrite Ea in *. rewrite <- Em. clearbody m1. set (a := (14 - m) / 12) in *.
  assert (0 ≤ a ≤ 1) as Ha by (unfold a; Z.div_mod_to_equations; lia). clearbody a.
  repeat int_ok_step. f_equal. Z.div_mod_to_equations. lia.
Qed.

(** ** Date_unittest.cc *)

Definition kMonthsOfYear : Z := 12.

Definition isLeapYear (year : Z) : Z :=
  if Z.rem year 400 =? 0 then 1
  else if Z.rem year 100 =? 0 then 0
  else if Z.rem year 4 =? 0 then 1
  else 0.

Definition days : list (list Z) :=
  [[0; 31; 28; 31; 30; 31; 30; 31; 31; 30; 31; 30; 31];
   [0; 31; 29; 31; 30; 31; 30; 31; 31; 30; 31; 30; 31]].
Definition daysOfMonth (year month : Z) : outcome Z :=
  row ← aget days (isLeapYear year); aget row month.

(** [assert] on the day number and the day of the week of a date, and on the
    date they are converted back to. *)
Definition check_date (year month day julianDayNumber week : Z) (d : Date) : outcome unit :=
  ymd ← yearMonthDay d;
  _ ← assertion (year =? ymd_year ymd);
  _ ← assertion (month =? ymd_month ymd);
  _ ← assertion (day =? ymd_day ymd);
  w ← weekDay d;
  _ ← assertion (week =? w);
  assertion (julianDayNumber =? julianDayNumber_ d).

(** One turn of the loop over the days, on [day], [julianDayNumber] and
    [weekDay]. *)
Definition day_turn (year month : Z) (s : Z * Z * Z) : outcome (turn (Z * Z * Z) (Z * Z)) :=
  let '(day, julianDayNumber, week) := s in
  n ← daysOfMonth year month;
  if decide (day <= n) then
    d ← Date_ymd year month day;
    _ ← check_date year month day julianDayNumber week d;
    _ ← check_date year month day julianDayNumber week (Date_jdn julianDayNumber);
    j ← int_ (julianDayNumber + 1);
    w ← int_ (week + 1);
    mret (Next (day + 1, j, Z.rem w 7))
  else mret (Stop (julianDayNumber, week)).

Definition month_turn (year : Z) (s : Z * Z * Z) : outcome (turn (Z * Z * Z) (Z * Z)) :=
  let '(month, julianDayNumber, week) := s in
  if decide (month <= kMonthsOfYear) then
    '(j, w) ← loop 32 (day_turn year month) (1, julianDayNumber, week);
    mret (Next (month + 1, j, w))
  else mret (Stop (julianDayNumber, week)).

(** The loop over the years, up to [last]. *)
Definition year_turn (last : Z) (s : Z * Z * Z) : outcome (turn (Z * Z * Z) unit) :=
  let '(year, julianDayNumber, week) := s in
  if decide (year < last) then
    a ← Date_ymd year 3 1;
    b ← Date_ymd year 2 29;
    t ← int_ (julianDayNumber_ a - julianDayNumber_ b);
    _ ← assertion (t =? isLeapYear year);
    '(j, w) ← loop 13 (month_turn year) (1, julianDayNumber, week);
    mret (Next (year + 1, j, w))
  else mret (Stop tt).

Definition Date_unittest (first last julianDayNumber week : Z) : outcome unit :=
  loop (S (Z.to_nat (last - first))) (year_turn last) (first, julianDayNumber, week).

Definition Date_unittest_main : outcome unit := Date_unittest 1900 2500 2415021 1.

(** ** The rules of the calendar *)

Lemma isLeapYear_ok y : 0 ≤ y → isLeapYear y = if is_leap y then 1 else 0.
Proof.
  intros. unfold isLeapYear, is_leap. rewrite !Z.rem_mod_nonneg by lia.
  destruct (Z.eqb_spec (y mod 400) 0), (Z.eqb_spec (y mod 100) 0), (Z.eqb_spec (y mod 4) 0);
    cbn; try done; Z.div_mod_to_equations; lia.
Qed.

Lemma daysOfMonth_ok y m : 0 ≤ y → 1 ≤ m ≤ 12 → daysOfMonth y m = Ret (days_in_month y m).
Proof.
  intros Hy Hm. unfold daysOfMonth, days_in_month. rewrite isLeapYear_ok by done.
  destruct (is_leap y); months m; done.
Qed.

Definition date (y m d : Z) : YearMonthDay := {| ymd_year := y; ymd_month := m; ymd_day := d |}.
Definition week_day (j : Z) : Z := (j + 1) mod 7.

Lemma check_date_ok x :
  valid_date x → 0 ≤ jdn x →
  check_date (ymd_year x) (ymd_month x) (ymd_day x) (jdn x) (week_day (jdn x))
    (Date_jdn (jdn x)) = Ret tt.
Proof.
  intros Hx H0. pose proof (jdn_range x Hx) as Hr. unfold MIN_JDN, MAX_JDN in Hr.
  unfold check_date, yearMonthDay, weekDay. cbn [julianDayNumber_ Date_jdn].
  rewrite getYearMonthDay_ok, ymd_of_jdn, Ret_bind by (done || lia).
  rewrite int_bind by in_int_tac. unfold kDaysPerWeek. rewrite Z.rem_mod_nonneg by lia.
  rewrite mret_bind. unfold week_day. by rewrite !Z.eqb_refl.
Qed.

Lemma day_turn_next y m d :
  let x := date y m d in
  0 ≤ y → valid_date x → 0 ≤ jdn x →
  day_turn y m (d, jdn x, week_day (jdn x)) =
  Ret (Next (d + 1, jdn x + 1, week_day (jdn x + 1))).
Proof.
  intros x Hy Hx H0. pose proof (jdn_range x Hx) as Hr. unfold MIN_JDN, MAX_JDN in Hr.
  pose proof Hx as (_ & Hm & Hd). cbn in Hm, Hd. unfold day_turn.
  rewrite daysOfMonth_ok, Ret_bind, decide_True by lia. unfold Date_ymd.
  pose proof (getJulianDayNumber_ok x Hx) as Hj. cbn in Hj. rewrite Hj. cbn [mbind outcome_bind].
  pose proof (check_date_ok x Hx H0) as Hc. cbn [x ymd_year ymd_month ymd_day date] in Hc.
  fold x in Hc. change {| julianDayNumber_ := jdn x |} with (Date_jdn (jdn x)).
  rewrite mret_bind, !Hc, !Ret_bind. unfold week_day at 1.
  pose proof (Z.mod_pos_bound (jdn x + 1) 7 ltac:(lia)).
  rewrite int_bind by in_int_tac. rewrite int_bind by in_int_tac.
  rewrite Z.rem_mod_nonneg by lia. unfold week_day.
  assert (((jdn x + 1) mod 7 + 1) mod 7 = (jdn x + 1 + 1) mod 7) as ->; [|done].
  by rewrite Zplus_mod_idemp_l.
Qed.

Lemma day_turn_stop y m d j w :
  0 ≤ y → 1 ≤ m ≤ 12 → days_in_month y m < d → day_turn y m (d, j, w) = Ret (Stop (j, w)).
Proof. intros. unfold day_turn. by rewrite daysOfMonth_ok, Ret_bind, decide_False by lia. Qed.

Lemma day_loop y m : ∀ k d fuel,
  0 ≤ y → MIN_YEAR ≤ y ≤ MAX_YEAR → 1 ≤ m ≤ 12 → 1 ≤ d → 0 ≤ jdn (date y m d) →
  d + Z.of_nat k = days_in_month y m + 1 → (k < fuel)%nat →
  let j := jdn (date y m (days_in_month y m)) + 1 in
  loop fuel (day_turn y m) (d, jdn (date y m d), week_day (jdn (date y m d))) =
  Ret (j, week_day j).
Proof.
  induction k as [|k IH]; intros d [|fuel] Hy Hyr Hm Hd H0 Hk Hf j; try lia; cbn [loop].
  - rewrite day_turn_stop, Ret_bind by lia. assert (jdn (date y m d) = j) as ->; [|done].
    unfold j, jdn. cbn. lia.
  - rewrite day_turn_next, Ret_bind by (try done; split_and!; cbn; lia).
    assert (jdn (date y m d) + 1 = jdn (date y m (d + 1))) as Ej by (unfold jdn; cbn; lia).
    rewrite Ej. apply IH; try lia.
Qed.

(** The first day of the next month. *)
Lemma month_end y m :
  MIN_YEAR ≤ y ≤ MAX_YEAR → 1 ≤ m ≤ 12 →
  jdn (date y m (days_in_month y m)) + 1 =
  jdn (if m <? 12 then date y (m + 1) 1 else date (y + 1) 1 1).
Proof.
  intros Hy Hm. pose proof (days_in_month_bounds y m). rewrite <- jdn_next.
  - unfold next_date, date. rewrite Z.ltb_irrefl. by destruct (m <? 12).
  - split_and!; cbn; lia.
Qed.

Lemma month_loop y : ∀ k m fuel,
  0 ≤ y → MIN_YEAR ≤ y ≤ MAX_YEAR → 1 ≤ m → 0 ≤ jdn (date y m 1) →
  m + Z.of_nat k = 12 → (S k < fuel)%nat →
  let j := jdn (date (y + 1) 1 1) in
  loop fuel (month_turn y) (m, jdn (date y m 1), week_day (jdn (date y m 1))) =
  Ret (j, week_day j).
Proof.
  assert (∀ m, 0 ≤ y → MIN_YEAR ≤ y ≤ MAX_YEAR → 1 ≤ m ≤ 12 → 0 ≤ jdn (date y m 1) →
    month_turn y (m, jdn (date y m 1), week_day (jdn (date y m 1))) =
    (let j := jdn (if m <? 12 then date y (m + 1) 1 else date (y + 1) 1 1) in
     Ret (Next (m + 1, j, week_day j)))) as Hturn.
  { intros m Hy Hyr Hm H0. unfold month_turn, kMonthsOfYear. rewrite decide_True by lia.
    pose proof (days_in_month_bounds y m).
    rewrite (day_loop y m (Z.to_nat (days_in_month y m))), Ret_bind, month_end by lia. done. }
  induction k as [|k IH]; intros m [|fuel] Hy Hyr Hm H0 Hk Hf; try lia; cbn [loop].
  - assert (m = 12) as -> by lia. rewrite Hturn, Ret_bind by lia. cbn [Z.ltb Z.compare].
    destruct fuel; [lia|]. done.
  - rewrite Hturn, Ret_bind by lia. rewrite (proj2 (Z.ltb_lt m 12)) by lia.
    apply IH; try lia.
    pose proof (month_end y m Hyr ltac:(lia)) as He. rewrite (proj2 (Z.ltb_lt m 12)) in He by lia.
    rewrite <- He. unfold jdn in *. cbn in *. pose proof (days_in_month_bounds y m). lia.
Qed.

(** The 29th of February has a number in every year. *)
Lemma february_29 y :
  0 ≤ y ≤ MAX_YEAR → getJulianDayNumber y 2 29 = Ret (jdn (date y 2 29)).
Proof.
  unfold MAX_YEAR. intros Hy. unfold getJulianDayNumber, jdn, march_year, march_month.
  cbn [date ymd_year ymd_month ymd_day]. cbv zeta.
  change ((14 - 2) / 12) with 1. rewrite int_bind by in_int_tac. change (Z.quot (14 - 2) 12) with 1.
  repeat int_ok_step. done.
Qed.

Lemma year_turn_next last y :
  0 ≤ y < last → y ≤ MAX_YEAR → 0 ≤ jdn (date y 1 1) →
  let j := jdn (date (y + 1) 1 1) in
  year_turn last (y, jdn (date y 1 1), week_day (jdn (date y 1 1))) =
  Ret (Next (y + 1, j, week_day j)).
Proof.
  intros Hy Hmax H0 j. unfold year_turn. rewrite decide_True by lia.
  assert (valid_date (date y 3 1)) as Hv.
  { split_and!; cbn; try lia; unfold MIN_YEAR; lia. }
  pose proof (getJulianDayNumber_ok _ Hv) as Hj. cbn in Hj.
  unfold Date_ymd. rewrite Hj, february_29 by lia. cbn [mbind outcome_bind].
  rewrite !mret_bind. cbn [julianDayNumber_].
  assert (jdn (date y 3 1) - jdn (date y 2 29) = isLeapYear y) as ->.
  { rewrite isLeapYear_ok by lia. unfold jdn, march_year, march_month, is_leap.
    cbn [date ymd_year ymd_month ymd_day]. change ((14 - 2) / 12) with 1.
    change ((14 - 3) / 12) with 0.
    destruct (Z.eqb_spec (y mod 400) 0), (Z.eqb_spec (y mod 100) 0), (Z.eqb_spec (y mod 4) 0);
      cbn [andb orb negb]; Z.div_mod_to_equations; lia. }
  rewrite int_bind by (rewrite isLeapYear_ok by lia; unfold in_int, INT_MIN, INT_MAX;
    destruct (is_leap y); lia).
  rewrite Z.eqb_refl. unfold assertion. rewrite mret_bind.
  rewrite (month_loop y 11), Ret_bind by (try done; unfold MIN_YEAR; lia). done.
Qed.

(** The test of the dates passes, whatever years it is given: walking
    through the calendar by its rules, from the day number and the weekday of the
    first January to any later year, every date has the next day number and the
    next day of the week, both are converted back to the date, and the first of
    March is one day farther from February 29 in leap years; no [assert] fails
    and no [int] overflows. *)
Theorem Date_unittest_passes first last :
  0 ≤ first → last ≤ MAX_YEAR + 1 → 
  let j := jdn (date first 1 1) in
  Date_unittest first last j (week_day j) = Ret tt.
Proof.
  intros H0 Hmax. unfold Date_unittest. cbv zeta.
  assert (Hnn : ∀ y, 0 ≤ y → 0 ≤ jdn (date y 1 1)).
  { intros y Hy. unfold jdn, march_year, march_month. cbn [date ymd_year ymd_month ymd_day].
    change ((14 - 1) / 12) with 1. Z.div_mod_to_equations; lia. }
  remember (Z.to_nat (last - first)) as k eqn:Hk. revert first H0 Hk.
  induction k as [|k IH]; intros first H0 Hk; cbn [loop].
  - unfold year_turn. by rewrite decide_False by lia.
  - rewrite year_turn_next, Ret_bind by (auto; lia). apply IH; lia.
Qed.

Lemma Date_unittest_passes_witness :
  0 ≤ 1900 ∧ 2500 ≤ MAX_YEAR + 1 ∧ Date_unittest_main = Ret tt.
Proof.
  split; [done|]. split; [done|].
  exact (Date_unittest_passes 1900 2500 ltac:(done) ltac:(done)).
Defined.

(** ** The days between two dates *)

Lemma next_date_counted x : counted_date x → jdn x < MAX_JDN → counted_date (next_date x).
Proof.
  intros [Hx Hc] Hm. split; [by apply next_date_valid|].
  destruct x as [y m d]. unfold next_date. cbn in Hc.
  destruct (d <? days_in_month y m), (m <? 12); cbn; lia.
Qed.

Lemma later_date n : ∀ x, counted_date x → jdn x + Z.of_nat n ≤ MAX_JDN →
  counted_date (Nat.iter n next_date x) ∧
  jdn (Nat.iter n next_date x) = jdn x + Z.of_nat n.
Proof.
  induction n as [|n IH]; intros x Hx Hn.
  - cbn. split; [done|lia].
  - change (Nat.iter (S n) next_date x) with (next_date (Nat.iter n next_date x)).
    destruct (IH x Hx ltac:(lia)) as [Hc Hj].
    split; [by apply next_date_counted; [|lia]|]. rewrite jdn_next by apply Hc. lia.
Qed.

(** [compute_days] counts days: from a date of the years 1 and later to the
    date [n] days after it by the rules of the calendar it gives [n], the other
    way round [-n], which is the difference of the day numbers of the dates of
    the C++ library. *)
Theorem compute_days_counts x n :
  counted_date x → jdn x + Z.of_nat n ≤ MAX_JDN →
  let y := Nat.iter n next_date x in
  compute_days (ymd_year x) (ymd_month x) (ymd_day x) (ymd_year y) (ymd_month y) (ymd_day y)
    = Ret (Z.of_nat n) ∧
  compute_days (ymd_year y) (ymd_month y) (ymd_day y) (ymd_year x) (ymd_month x) (ymd_day x)
    = Ret (- Z.of_nat n) ∧
  ∃ a b, Date_ymd (ymd_year x) (ymd_month x) (ymd_day x) = Ret a ∧
    Date_ymd (ymd_year y) (ymd_month y) (ymd_day y) = Ret b ∧
    julianDayNumber_ b - julianDayNumber_ a = Z.of_nat n.
Proof.
  intros Hx Hn y. destruct (later_date n x Hx Hn) as [Hy Hj]. fold y in Hy, Hj.
  pose proof (jdn_range x (proj1 Hx)) as Hr. unfold MIN_JDN, MAX_JDN in *.
  unfold compute_days, Date_ymd. rewrite !day_count_jdn, !Ret_bind by done.
  rewrite !getJulianDayNumber_ok by apply Hx || apply Hy.
  split_and!.
  - rewrite int_ok by in_int_tac. f_equal. lia.
  - rewrite int_ok by in_int_tac. f_equal. lia.
  - do 2 eexists. split; [done|]. split; [done|]. cbn. lia.
Qed.

Lemma compute_days_counts_witness :
  let x := date 2016 2 28 in let y := Nat.iter 367 next_date x in
  y = date 2017 3 1 ∧
  compute_days 2016 2 28 2017 3 1 = Ret (Z.of_nat 367) ∧
  compute_days 2017 3 1 2016 2 28 = Ret (- Z.of_nat 367) ∧
  ∃ a b, Date_ymd 2016 2 28 = Ret a ∧ Date_ymd 2017 3 1 = Ret b ∧
    julianDayNumber_ b - julianDayNumber_ a = Z.of_nat 367.
Proof.
  split; [by vm_compute|].
  apply (compute_days_counts (date 2016 2 28) 367).
  - split; [by apply (bool_decide_unpack _)|left; by cbn].
  - by vm_compute.
Defined.

(** In the year 0 the divisions no longer round down: the leap day is lost. *)
Example year_0_loses_day : compute_days 0 2 29 0 3 1 = Ret 0.
Proof. done. Qed.
