(* ===== verification/Ipv4.v ===== *)
(** The check of an IPv4 address:
    [src/trash/c_tools/miscellaneous/check_ipv4.c], with what
    [sscanf(ip, "%3u.%3u.%3u.%3u%s", ...)] accepts. *)

From S2P Require Import Prelude CString.

Open Scope Z_scope.

(** The sign of a number, which counts as one of its [w] characters. *)
Definition scan_sign (w : nat) (s : bytes) : bool * nat * bytes :=
  match s with
  | c :: t => if decide (c = "-"%char) then (true, pred w, t)
              else if decide (c = "+"%char) then (false, pred w, t) else (false, w, s)
  | [] => (false, w, s)
  end.

(** [%wu]: white space, then at most [w] characters. [None]: no digit where one is
    needed. *)
Definition scan_u (w : nat) (s : bytes) : option (Z * bytes) :=
  let '(neg, w, s) := scan_sign w (drop_while is_space s) in
  let ds := take_while is_digit (take w s) in
  if decide (ds = []) then None
  else Some (to_u 32 (if neg : bool then - scan_digits 0 ds else scan_digits 0 ds),
             drop (length ds) s).

Definition scan_dot (s : bytes) : option bytes :=
  match s with
  | c :: t => if decide (c = "."%char) then Some t else None
  | [] => None
  end.

(** The four numbers and what is left for [%s]. *)
Definition scan_quad (s : bytes) : option (list Z * bytes) :=
  '(a, s) ← scan_u 3 s; s ← scan_dot s;
  '(b, s) ← scan_u 3 s; s ← scan_dot s;
  '(c, s) ← scan_u 3 s; s ← scan_dot s;
  '(d, s) ← scan_u 3 s; Some ([a; b; c; d], s).

Definition is_valid_ipv4 (ip : option bytes) : outcome Z :=
  match ip with
  | None => mret 0
  | Some ip =>
      let s := cstr ip in
      if decide (zlen s > 30) then mret 0
      else match scan_quad s with
      | None => mret 0
      | Some (d, rest) =>
          let tail := take_while (negb ∘ is_space) (drop_while is_space rest) in
          if decide (zlen tail >= 16) then Undef OutOfBounds
          else if decide (tail ≠ []) then mret 0
          else mret (if decide (Exists (λ x, x > 255) d) then 0 else 1)
      end
  end.

(** ** What is accepted *)

(** A number of an address: blanks, perhaps a sign, digits; not more than three
    characters behind the blanks. *)
Record field := { f_blanks : bytes; f_sign : option bool; f_digits : bytes }.
Definition sign_text (minus : option bool) : bytes :=
  match minus with Some true => lit "-" | Some false => lit "+" | None => [] end.
Definition f_sign_text (f : field) : bytes := sign_text (f_sign f).
Definition f_text (f : field) : bytes := f_blanks f ++ f_sign_text f ++ f_digits f.
Definition f_value (f : field) : Z :=
  to_u 32 (if f_sign f is Some true then - scan_digits 0 (f_digits f)
           else scan_digits 0 (f_digits f)).
Definition field_ok (f : field) : Prop :=
  Forall (λ c, is_space c = true) (f_blanks f) ∧
  Forall (λ c, is_digit c = true) (f_digits f) ∧ f_digits f ≠ [] ∧
  (length (f_sign_text f) + length (f_digits f) ≤ 3)%nat.

Lemma take_while_take_all ds x k w :
  Forall (λ c, is_digit c = true) ds → (length ds ≤ w)%nat → is_digit x = false →
  take_while is_digit (take w (ds ++ x :: k)) = ds.
Proof.
  intros Hd Hw Hx. rewrite take_app, take_ge by lia.
  rewrite take_while_app by done. destruct (w - length ds)%nat; cbn; [by rewrite app_nil_r|].
  rewrite Hx. by rewrite app_nil_r.
Qed.

Lemma drop_while_digits ds s :
  Forall (λ c, is_digit c = true) ds → ds ≠ [] → drop_while is_space (ds ++ s) = ds ++ s.
Proof.
  intros Hd Hne. destruct ds as [|d ds]; [done|]. apply Forall_cons in Hd as [Hd _].
  cbn. by rewrite is_digit_not_space.
Qed.

Lemma scan_sign_digits w ds s :
  Forall (λ c, is_digit c = true) ds → ds ≠ [] → scan_sign w (ds ++ s) = (false, w, ds ++ s).
Proof.
  intros Hd Hne. destruct ds as [|d ds]; [done|]. apply Forall_cons in Hd as [Hd _].
  cbn. by rewrite decide_False, decide_False by (by intros ->).
Qed.

(** A number is read where no digit follows it. *)
Lemma scan_u_field f s :
  field_ok f → (∀ x k, s = x :: k → is_digit x = false) →
  scan_u 3 (f_text f ++ s) = Some (f_value f, s).
Proof.
  intros (Hb & Hd & Hne & Hl) Hs. unfold scan_u, f_text. rewrite <- !app_assoc.
  rewrite drop_while_app by done.
  assert (∀ w, (length (f_digits f) ≤ w)%nat →
    take_while is_digit (take w (f_digits f ++ s)) = f_digits f) as Htake.
  { intros w Hw. destruct s as [|x k].
    - rewrite app_nil_r, take_ge by done. rewrite <- (app_nil_r (f_digits f)) at 1.
      rewrite take_while_app by done. cbn. by rewrite app_nil_r.
    - by apply take_while_take_all; [..|eapply Hs]. }
  assert (∀ w, (length (f_digits f) ≤ w)%nat → ∀ v,
    (let ds := take_while is_digit (take w (f_digits f ++ s)) in
     if decide (ds = []) then None
     else Some (to_u 32 (if v : bool then - scan_digits 0 ds else scan_digits 0 ds),
             drop (length ds) (f_digits f ++ s))) =
    Some (to_u 32 (if v then - scan_digits 0 (f_digits f) else scan_digits 0 (f_digits f)), s))
    as Hscan.
  { intros w Hw v. cbv zeta. rewrite Htake, decide_False, drop_app_length by done. done. }
  unfold f_sign_text, sign_text, f_value in *. destruct (f_sign f) as [[]|].
  - apply (Hscan 2%nat). cbn in Hl. lia.
  - apply (Hscan 2%nat ltac:(cbn in Hl; lia) false).
  - cbn [app]. rewrite drop_while_digits, scan_sign_digits by done.
    apply (Hscan 3%nat ltac:(cbn in Hl; lia) false).
Qed.

(** What is read as a number has this form. *)
Lemma scan_u_inv s v r :
  scan_u 3 s = Some (v, r) → ∃ f, field_ok f ∧ s = f_text f ++ r ∧ v = f_value f.
Proof.
  unfold scan_u. intros H. pose proof (take_drop_while is_space s) as Hs.
  pose proof (take_while_all is_space s) as Hb. set (t := drop_while is_space s) in *.
  assert (∀ w u sgn, t = sign_text sgn ++ u →
    (length (sign_text sgn) + w ≤ 3)%nat →
    (if decide (take_while is_digit (take w u) = []) then None
     else Some (to_u 32 (if sgn is Some true then - scan_digits 0 (take_while is_digit (take w u))
                         else scan_digits 0 (take_while is_digit (take w u))),
             drop (length (take_while is_digit (take w u))) u)) = Some (v, r) →
    ∃ f, field_ok f ∧ s = f_text f ++ r ∧ v = f_value f) as Hgoal.
  { intros w u sgn Ht Hw Hr. case_decide as Hne; [done|]. injection Hr as <- <-.
    exists {| f_blanks := take_while is_space s; f_sign := sgn;
              f_digits := take_while is_digit (take w u) |}.
    pose proof (take_while_length is_digit (take w u)) as Hl. rewrite length_take in Hl.
    split; [|split; [|done]].
    - split_and!; cbn; [done|apply take_while_all|done|].
      unfold f_sign_text. cbn [f_sign f_digits]. lia.
    - unfold f_text, f_sign_text. cbn [f_blanks f_sign f_digits].
      rewrite <- Hs at 1. rewrite Ht, <- !app_assoc. do 2 f_equal.
      rewrite <- (take_drop (length (take_while is_digit (take w u))) u) at 1. f_equal.
      pose proof (take_drop_while is_digit (take w u)) as Htd.
      apply (f_equal (take (length (take_while is_digit (take w u))))) in Htd.
      rewrite take_app_length, take_take, Nat.min_l in Htd by lia. done. }
  unfold scan_sign in H. destruct t as [|c u]; [by apply (Hgoal 3%nat [] None)|].
  case_decide as H1; [subst c; by apply (Hgoal 2%nat u (Some true))|].
  case_decide as H2; [subst c; by apply (Hgoal 2%nat u (Some false))|].
  by apply (Hgoal 3%nat (c :: u) None).
Qed.

(** ** The language of the check *)

(** Four numbers with dots between them, and white space at the end. *)
Definition quad_text (a b c d : field) (e : bytes) : bytes :=
  f_text a ++ lit "." ++ f_text b ++ lit "." ++ f_text c ++ lit "." ++ f_text d ++ e.

Definition quad_ok (ip : bytes) : Prop :=
  zlen ip ≤ 30 ∧ ∃ a b c d e, ip = quad_text a b c d e ∧
    Forall (λ f, field_ok f ∧ f_value f ≤ 255) [a; b; c; d] ∧
    Forall (λ c, is_space c = true) e.

Lemma scan_field_dot f s : field_ok f →
  scan_u 3 (f_text f ++ lit "." ++ s) = Some (f_value f, lit "." ++ s).
Proof. intros Hf. apply scan_u_field; [done|]. by intros x k [= <- _]. Qed.

Lemma scan_dot_inv s t : scan_dot s = Some t → s = lit "." ++ t.
Proof. destruct s as [|c s]; cbn; [done|]. case_decide; [|done]. by intros [= ->]; subst. Qed.

Lemma scan_dot_app s : scan_dot (lit "." ++ s) = Some s.
Proof. done. Qed.
Lemma Some_bind {A B} (x : A) (f : A → option B) : Some x ≫= f = f x.
Proof. done. Qed.

Lemma scan_quad_text a b c d e :
  Forall field_ok [a; b; c; d] → (∀ x k, e = x :: k → is_digit x = false) →
  scan_quad (quad_text a b c d e) = Some ([f_value a; f_value b; f_value c; f_value d], e).
Proof.
  intros H He. rewrite !Forall_cons in H. destruct H as (Ha & Hb & Hc & Hd & _).
  unfold scan_quad, quad_text.
  rewrite scan_field_dot, Some_bind, scan_dot_app, Some_bind by done.
  rewrite scan_field_dot, Some_bind, scan_dot_app, Some_bind by done.
  rewrite scan_field_dot, Some_bind, scan_dot_app, Some_bind by done.
  by rewrite scan_u_field by done.
Qed.

Lemma scan_quad_inv s vs e :
  scan_quad s = Some (vs, e) → ∃ a b c d, s = quad_text a b c d e ∧
    Forall field_ok [a; b; c; d] ∧ vs = [f_value a; f_value b; f_value c; f_value d].
Proof.
  unfold scan_quad. intros H.
  apply bind_Some in H as ([va s1] & (a & Ha & -> & ->)%scan_u_inv & H).
  apply bind_Some in H as (s2 & ->%scan_dot_inv & H).
  apply bind_Some in H as ([vb s3] & (b & Hb & -> & ->)%scan_u_inv & H).
  apply bind_Some in H as (s4 & ->%scan_dot_inv & H).
  apply bind_Some in H as ([vc s5] & (c & Hc & -> & ->)%scan_u_inv & H).
  apply bind_Some in H as (s6 & ->%scan_dot_inv & H).
  apply bind_Some in H as ([vd s7] & (d & Hd & -> & ->)%scan_u_inv & H).
  injection H as <- <-. exists a, b, c, d. split; [done|]. split; [|done].
  repeat (apply Forall_cons_2; [done|]). constructor.
Qed.

Lemma blank_tail e : take_while (negb ∘ is_space) (drop_while is_space e) = [] ↔
  Forall (λ c, is_space c = true) e.
Proof.
  split.
  - intros H. pose proof (take_drop_while is_space e) as He. rewrite <- He.
    destruct (drop_while is_space e) as [|x t] eqn:E.
    + rewrite app_nil_r. apply take_while_all.
    + apply drop_while_head in E. cbn in H. by rewrite E in H.
  - intros H. rewrite <- (app_nil_r e), drop_while_app by done. done.
Qed.

Lemma quad_ok_scan ip :
  quad_ok ip ↔ zlen ip ≤ 30 ∧ ∃ vs e, scan_quad ip = Some (vs, e) ∧
    Forall (λ c, is_space c = true) e ∧ Forall (λ v, v ≤ 255) vs.
Proof.
  split.
  - intros (Hl & a & b & c & d & e & -> & Hf & He). split; [done|].
    apply Forall_and in Hf as [Hok Hv]. do 2 eexists. split; [|split; [exact He|]].
    + apply scan_quad_text; [done|]. intros x k ->. apply Forall_cons in He as [He _].
      destruct (is_digit x) eqn:E; [|done]. apply is_digit_not_space in E. congruence.
    + rewrite !Forall_cons in *. naive_solver.
  - intros (Hl & vs & e & Hs & He & Hv). split; [done|].
    apply scan_quad_inv in Hs as (a & b & c & d & -> & Hok & ->).
    exists a, b, c, d, e. split; [done|]. split; [|done].
    rewrite !Forall_cons in *. naive_solver.
Qed.

Lemma quad_accepted ip : no_nul ip → quad_ok ip → is_valid_ipv4 (Some ip) = Ret 1.
Proof.
  intros Hn (Hl & vs & e & Hs & He & Hv)%quad_ok_scan. unfold is_valid_ipv4.
  rewrite cstr_no_nul, decide_False, Hs by (done || lia). apply blank_tail in He as ->.
  rewrite decide_False by (unfold zlen; cbn; lia). rewrite decide_False by (by intros H).
  rewrite decide_False; [done|]. rewrite Exists_exists. intros (v & Hin & Hgt).
  rewrite Forall_forall in Hv. specialize (Hv v Hin). lia.
Qed.

(** The addresses that [is_valid_ipv4] accepts are exactly the texts of at
    most 30 characters that consist of four numbers up to 255 with dots between
    them and perhaps white space at the end, a number being at most three
    characters, a sign included, behind any white space. A text is refused with the
    result 0, except that one with 16 or more characters behind a fourth number overruns
    the array that receives them. *)
Theorem is_valid_ipv4_accepts ip :
  no_nul ip →
  (is_valid_ipv4 (Some ip) = Ret 1 ↔ quad_ok ip) ∧
  (is_valid_ipv4 (Some ip) ≠ Ret 1 →
   is_valid_ipv4 (Some ip) = Ret 0 ∨
   is_valid_ipv4 (Some ip) = Undef OutOfBounds ∧ ∃ a b c d blanks t rest,
     ip = quad_text a b c d (blanks ++ t ++ rest) ∧ 16 ≤ zlen t ∧
     Forall (λ c, is_space c = true) blanks ∧ Forall (λ c, is_space c = false) t).
Proof.
  intros Hn. rewrite quad_ok_scan. unfold is_valid_ipv4. rewrite cstr_no_nul by done.
  case_decide as Hl; [split; [split; [done|lia]|by left]|].
  destruct (scan_quad ip) as [[vs e]|] eqn:Hs.
  2: { split; [split; [done|by intros (_ & vs & e & [=] & _)]|by left]. }
  set (t := take_while (negb ∘ is_space) (drop_while is_space e)).
  assert (Hblank : t = [] ↔ Forall (λ c, is_space c = true) e) by apply blank_tail.
  case_decide as H16; [|case_decide as Hne].
  - split.
    + split; [done|]. intros (_ & ? & ? & [= <- <-] & He & _). apply Hblank in He.
      rewrite He in H16. unfold zlen in H16. cbn in H16. lia.
    + intros _. right. split; [done|].
      apply scan_quad_inv in Hs as (a & b & c & d & -> & _ & _).
      exists a, b, c, d, (take_while is_space e), t,
        (drop_while (negb ∘ is_space) (drop_while is_space e)).
      split; [unfold t; by rewrite !take_drop_while|]. split; [lia|].
      split; [apply take_while_all|]. eapply Forall_impl; [apply take_while_all|].
      intros x Hx. by apply negb_true_iff.
  - split; [|by left]. split; [done|]. intros (_ & ? & ? & [= <- <-] & He & _).
    by apply Hblank in He.
  - assert (t = []) as Ht by by destruct t. apply Hblank in Ht.
    case_decide as Hex; (split; [|by first [left|intros []]]).
    + split; [done|]. intros (_ & ? & ? & [= <- <-] & _ & Hv).
      apply Exists_exists in Hex as (v & Hin & Hgt). rewrite Forall_forall in Hv.
      specialize (Hv v Hin). lia.
    + split; [|done]. intros _. split; [lia|]. exists vs, e. split; [done|]. split; [done|].
      apply not_Exists_Forall in Hex; [|apply _]. eapply Forall_impl; [exact Hex|]. cbn. lia.
Qed.

#[export] Instance field_ok_dec f : Decision (field_ok f).
Proof. unfold field_ok. apply _. Defined.

Definition byte_field (v : Z) : field :=
  {| f_blanks := []; f_sign := None; f_digits := print_u v |}.

Lemma byte_field_ok v : 0 ≤ v ≤ 255 → field_ok (byte_field v) ∧ f_value (byte_field v) = v.
Proof.
  intros Hv.
  assert (Forall (λ v, field_ok (byte_field v) ∧ f_value (byte_field v) = v) (seqZ 0 256)) as H
    by (apply (bool_decide_unpack _); by vm_compute).
  rewrite Forall_forall in H. apply H, elem_of_seqZ. lia.
Qed.

(** Every dotted quad is accepted. *)
Lemma dotted_quad_valid a b c d :
  Forall (λ v, 0 ≤ v ≤ 255) [a; b; c; d] →
  is_valid_ipv4 (Some (print_u a ++ lit "." ++ print_u b ++ lit "." ++ print_u c ++
    lit "." ++ print_u d)) = Ret 1.
Proof.
  intros H. set (ip := _ ++ _).
  assert (Hip : ip = quad_text (byte_field a) (byte_field b) (byte_field c) (byte_field d) [])
    by (unfold quad_text, f_text; cbn; by rewrite app_nil_r).
  rewrite !Forall_cons in H. destruct H as (Ha & Hb & Hc & Hd & _).
  destruct (byte_field_ok a Ha) as [Oa Ea], (byte_field_ok b Hb) as [Ob Eb],
    (byte_field_ok c Hc) as [Oc Ec], (byte_field_ok d Hd) as [Od Ed].
  assert (∀ v, field_ok (byte_field v) → no_nul (f_text (byte_field v)) ∧
    (length (f_text (byte_field v)) ≤ 3)%nat) as Hfield.
  { intros v (_ & Hdig & _ & Hl). split; [by apply digit_no_nul|done]. }
  destruct (Hfield a Oa), (Hfield b Ob), (Hfield c Oc), (Hfield d Od).
  apply quad_accepted; rewrite Hip; unfold quad_text.
  - unfold no_nul. rewrite !Forall_app. by split_and!; first [done|repeat constructor].
  - split; [unfold zlen; rewrite !length_app; change (length (lit ".")) with 1%nat;
      change (length []) with 0%nat; lia|].
    exists (byte_field a), (byte_field b), (byte_field c), (byte_field d), [].
    split; [done|]. split; [|constructor].
    repeat (apply Forall_cons_2; [split; [done|lia]|]). constructor.
Qed.

(** Blanks and signs inside an address pass, and a long tail does not stay inside
    the array. *)
Example odd_addresses :
  is_valid_ipv4 (Some (lit " 1.+2. -0.  4 ")) = Ret 1 ∧
  is_valid_ipv4 (Some (lit "1.1.1.1aaaaaaaaaaaaaaaa")) = Undef OutOfBounds ∧
  is_valid_ipv4 (Some (lit "192.168.0.1000")) = Ret 0.
Proof. by vm_compute. Qed.

Lemma is_valid_ipv4_accepts_witness :
  no_nul (lit "10.0.0.7 ") ∧ is_valid_ipv4 (Some (lit "10.0.0.7 ")) = Ret 1 ∧
  quad_ok (lit "10.0.0.7 ").
Proof.
  assert (no_nul (lit "10.0.0.7 ")) as Hn by repeat constructor.
  split; [done|]. split; [by vm_compute|].
  by apply (is_valid_ipv4_accepts (lit "10.0.0.7 ")); [|vm_compute].
Defined.
