(* ===== verification/LogStreamTest.v ===== *)
(** The tests of the log streams,
    [src/src/log/muduo-clog/muduo/base/tests/LogStream_test.cc], as programs over
    the stream of LogStream.v, and that they pass. The literals of type [double]
    are the quotients nearest to them. *)

From Stdlib Require Import SpecFloat.
From S2P Require Import Prelude CString Double DoubleText LogStream.

Open Scope Z_scope.

(** The lines of a test: [os << x], [os.resetBuffer()] and the checks. *)
Inductive test_line :=
  | Put (x : item)
  | ResetBuffer
  | CheckText (s : bytes)
  | CheckLength (n : Z)
  | CheckAvail (n : Z)
  | Check (b : bool).

(** [BOOST_CHECK_EQUAL] counts a failure and goes on. *)
Fixpoint run_test (os : FixedBuffer) (failures : Z) (ls : list test_line) : outcome Z :=
  match ls with
  | [] => mret failures
  | l :: ls =>
      let count (b : bool) := if b then failures else failures + 1 in
      match l with
      | Put x => os ← stream_put os x; run_test os failures ls
      | ResetBuffer => run_test (fb_reset os) failures ls
      | CheckText s => run_test os (count (bool_decide (fb_toString os = s))) ls
      | CheckLength n => run_test os (count (fb_length os =? n)) ls
      | CheckAvail n => run_test os (count (fb_avail os =? n)) ls
      | Check b => run_test os (count b) ls
      end
  end.

(** A new [LogStream]: [kSmallBuffer] bytes. *)
Definition LogStream_test (ls : list test_line) : outcome Z :=
  run_test (fb_new (replicate 4000 NUL)) 0 ls.

Definition testLogStreamBooleans : list test_line :=
  [CheckText []; Put (IBool true); CheckText (lit "1"); Put (IChar LF);
   CheckText (lit "1" ++ [LF]); Put (IBool false); CheckText (lit "1" ++ [LF] ++ lit "0")].

Definition testLogStreamIntegers : list test_line :=
  [CheckText []; Put (IInt 1); CheckText (lit "1"); Put (IInt 0); CheckText (lit "10");
   Put (IInt (-1)); CheckText (lit "10-1"); ResetBuffer;
   Put (IInt 0); Put (IStr (Some (lit " " ++ [NUL]))); Put (IInt 123); Put (IChar "x"%char);
   Put (IInt 100); CheckText (lit "0 123x100")].

(** One value, its text and [resetBuffer()]. *)
Definition prints (x : item) (s : string) : list test_line :=
  [Put x; CheckText (lit s); ResetBuffer].

Definition testLogStreamIntegerLimits : list test_line :=
  [Put (IInt (-2147483647)); CheckText (lit "-2147483647");
   Put (IInt (-2147483647 - 1)); CheckText (lit "-2147483647-2147483648"); Put (IChar SP);
   Put (IInt 2147483647); CheckText (lit "-2147483647-2147483648 2147483647"); ResetBuffer] ++
  prints (IShort (- 2 ^ 15)) "-32768" ++ prints (IShort (2 ^ 15 - 1)) "32767" ++
  prints (IUShort 0) "0" ++ prints (IUShort (2 ^ 16 - 1)) "65535" ++
  prints (IInt INT_MIN) "-2147483648" ++ prints (IInt INT_MAX) "2147483647" ++
  prints (IUInt 0) "0" ++ prints (IUInt UINT_MAX) "4294967295" ++
  prints (ILong LONG_MIN) "-9223372036854775808" ++
  prints (ILong LONG_MAX) "9223372036854775807" ++
  prints (IULong 0) "0" ++ prints (IULong ULONG_MAX) "18446744073709551615" ++
  [Put (IShort 0); Put (IInt 0); Put (ILong 0); CheckText (lit "000")].

Definition testLogStreamFloats : list test_line :=
  let a := decimal 1 1 in let b := decimal 5 2 in let c := decimal 15 2 in
  prints (IDouble (double_of_Z 0)) "0" ++ prints (IDouble (double_of_Z 1)) "1" ++
  prints (IDouble (decimal 1 1)) "0.1" ++ prints (IDouble (decimal 5 2)) "0.05" ++
  prints (IDouble (decimal 15 2)) "0.15" ++ prints (IDouble a) "0.1" ++
  prints (IDouble b) "0.05" ++ prints (IDouble c) "0.15" ++ prints (IDouble (dadd a b)) "0.15" ++
  [Check (negb (deqb (dadd a b) c))] ++
  prints (IDouble (decimal 123456789 8)) "1.23456789" ++
  prints (IDouble (decimal 1234567 6)) "1.234567" ++
  prints (IDouble (decimal (-123456) 3)) "-123.456".

Definition testLogStreamVoid : list test_line :=
  prints (IPtr 0) "0x0" ++ prints (IPtr 8888) "0x22B8".

Definition testLogStreamStrings : list test_line :=
  [Put (IStr (Some (lit "Hello " ++ [NUL]))); CheckText (lit "Hello ");
   Put (IString (lit "Shuo Chen")); CheckText (lit "Hello Shuo Chen")].

(** [Fmt(fmt, val)]: the text is put as a piece. *)
Definition testLogStreamFmts : list test_line :=
  let fmt_d v := IPiece (snprintf 32 (print_space 4 v)) in
  let fmt_f v := IPiece (snprintf 32 (print_f 2 v)) in
  prints (fmt_d 1) "   1" ++ prints (fmt_f (decimal 12 1)) "1.20" ++
  [Put (fmt_f (decimal 12 1)); Put (fmt_d 43); CheckText (lit "1.20  43"); ResetBuffer].

Definition testLogStreamLong : list test_line :=
  concat ((λ i, [Put (IStr (Some (lit "123456789 " ++ [NUL])));
                 CheckLength (10 * (i + 1)); CheckAvail (4000 - 10 * (i + 1))]) <$> seqZ 0 399) ++
  [Put (IStr (Some (lit "abcdefghi " ++ [NUL]))); CheckLength 3990; CheckAvail 10;
   Put (IStr (Some (lit "abcdefghi" ++ [NUL]))); CheckLength 3999; CheckAvail 1].

(** Every test passes; in the last one the text of ten characters that finds ten
    characters free is not put. *)
Lemma short_tests_pass :
  Forall (λ t, LogStream_test t = Ret 0)
    [testLogStreamBooleans; testLogStreamIntegers; testLogStreamIntegerLimits;
     testLogStreamFloats; testLogStreamVoid; testLogStreamStrings; testLogStreamFmts].
Proof. repeat constructor; by vm_compute. Qed.

Lemma long_test_passes : LogStream_test testLogStreamLong = Ret 0.
Proof. by vm_compute. Qed.
