(* ===== verification/Base64.v ===== *)
(** Base64 without line ends (RFC 4648): an instance of what OpenSsl.v asks of the
    encoder, with the lengths and the round trip. *)

From S2P Require Import Prelude CString.

Open Scope Z_scope.

Definition alphabet : bytes :=
  lit "ABCDEFGHIJKLMNOPQRSTUVWXYZabcdefghijklmnopqrstuvwxyz0123456789+/".
Definition PAD : ascii := "="%char.

Definition sextet_char (d : Z) : ascii := rd alphabet d.
Definition sextet (c : ascii) : Z := Z.of_nat (default 64%nat (strchr alphabet c)).

Fixpoint encode (s : bytes) : bytes :=
  match s with
  | [] => []
  | [a] =>
      let a := char_code a in
      [sextet_char (a / 4); sextet_char (a mod 4 * 16); PAD; PAD]
  | [a; b] =>
      let a := char_code a in let b := char_code b in
      [sextet_char (a / 4); sextet_char (a mod 4 * 16 + b / 16); sextet_char (b mod 16 * 4); PAD]
  | a :: b :: c :: s =>
      let a := char_code a in let b := char_code b in let c := char_code c in
      sextet_char (a / 4) :: sextet_char (a mod 4 * 16 + b / 16) ::
      sextet_char (b mod 16 * 4 + c / 64) :: sextet_char (c mod 64) :: encode s
  end.

Fixpoint decode (t : bytes) : bytes :=
  match t with
  | w :: x :: y :: z :: t =>
      let first := byte_of (sextet w * 4 + sextet x / 16) in
      let second := byte_of (sextet x mod 16 * 16 + sextet y / 4) in
      let third := byte_of (sextet y mod 4 * 64 + sextet z) in
      if decide (y = PAD) then [first]
      else if decide (z = PAD) then [first; second]
      else first :: second :: third :: decode t
  | _ => []
  end.

Lemma sextets d : 0 ≤ d < 64 →
  sextet (sextet_char d) = d ∧ sextet_char d ≠ PAD ∧ not_char NUL (sextet_char d) = true.
Proof.
  intros Hd. assert (Forall (λ d, sextet (sextet_char d) = d ∧ sextet_char d ≠ PAD ∧
    not_char NUL (sextet_char d) = true) (seqZ 0 64)) as H
    by (apply (bool_decide_unpack _); by vm_compute).
  rewrite Forall_forall in H. apply H, elem_of_seqZ. lia.
Qed.

Lemma byte_of_code a : byte_of (char_code a) = a.
Proof. unfold byte_of, char_code. by rewrite N2Z.id, ascii_N_embedding. Qed.

(** Induction by three elements. *)
Lemma list_ind_3 {A} (P : list A → Prop) :
  P [] → (∀ a, P [a]) → (∀ a b, P [a; b]) → (∀ a b c s, P s → P (a :: b :: c :: s)) → ∀ s, P s.
Proof.
  intros H0 H1 H2 H3 s. remember (length s) as n eqn:Hn. revert s Hn.
  induction n as [n IH] using lt_wf_ind. intros [|a [|b [|c s]]] ->; auto.
  apply H3. by apply (IH (length s)); [cbn; lia|].
Qed.

Lemma decode_first a b : 0 ≤ b < 16 →
  byte_of (sextet (sextet_char (char_code a / 4)) * 4 +
           sextet (sextet_char (char_code a mod 4 * 16 + b)) / 16) = a.
Proof.
  intros Hb. pose proof (char_code_range a).
  destruct (sextets (char_code a / 4)) as [-> _]; [Z.div_mod_to_equations; lia|].
  destruct (sextets (char_code a mod 4 * 16 + b)) as [-> _]; [Z.div_mod_to_equations; lia|].
  rewrite <- (byte_of_code a) at 3. f_equal. Z.div_mod_to_equations; lia.
Qed.

Lemma decode_second a b c : 0 ≤ a < 4 → 0 ≤ c < 4 →
  byte_of (sextet (sextet_char (a * 16 + char_code b / 16)) mod 16 * 16 +
           sextet (sextet_char (char_code b mod 16 * 4 + c)) / 4) = b.
Proof.
  intros Ha Hc. pose proof (char_code_range b).
  destruct (sextets (a * 16 + char_code b / 16)) as [-> _]; [Z.div_mod_to_equations; lia|].
  destruct (sextets (char_code b mod 16 * 4 + c)) as [-> _]; [Z.div_mod_to_equations; lia|].
  rewrite <- (byte_of_code b) at 3. f_equal. Z.div_mod_to_equations; lia.
Qed.

Lemma decode_third b c : 0 ≤ b < 16 →
  byte_of (sextet (sextet_char (b * 4 + char_code c / 64)) mod 4 * 64 +
           sextet (sextet_char (char_code c mod 64))) = c.
Proof.
  intros Hb. pose proof (char_code_range c).
  destruct (sextets (b * 4 + char_code c / 64)) as [-> _]; [Z.div_mod_to_equations; lia|].
  destruct (sextets (char_code c mod 64)) as [-> _]; [Z.div_mod_to_equations; lia|].
  rewrite <- (byte_of_code c) at 3. f_equal. Z.div_mod_to_equations; lia.
Qed.

(** Sextets are never the padding. *)
Lemma sextet_pad d : 0 ≤ d < 64 → sextet_char d ≠ PAD.
Proof. intros. by apply sextets. Qed.

Lemma decode_encode s : decode (encode s) = s.
Proof.
  induction s as [|a|a b|a b c s IH] using list_ind_3; [done|..]; cbn [encode decode].
  - rewrite decide_True by done. f_equal.
    rewrite <- (Z.add_0_r (char_code a mod 4 * 16)). by apply decode_first.
  - pose proof (char_code_range b). pose proof (char_code_range a).
    rewrite decide_False by (apply sextet_pad; Z.div_mod_to_equations; lia).
    rewrite decide_True by done. rewrite decode_first by (Z.div_mod_to_equations; lia).
    do 2 f_equal. rewrite <- (Z.add_0_r (char_code b mod 16 * 4)).
    apply decode_second; Z.div_mod_to_equations; lia.
  - pose proof (char_code_range a). pose proof (char_code_range b). pose proof (char_code_range c).
    rewrite !decide_False by (apply sextet_pad; Z.div_mod_to_equations; lia).
    rewrite decode_first, decode_second, decode_third, IH by (Z.div_mod_to_equations; lia). done.
Qed.

Lemma zlen_cons {A} (x : A) l : zlen (x :: l) = zlen l + 1.
Proof. unfold zlen. cbn. lia. Qed.

Lemma encode_length s : zlen (encode s) = 4 * ((zlen s + 2) / 3).
Proof.
  induction s as [|a|a b|a b c s IH] using list_ind_3; [done..|].
  cbn [encode]. rewrite !zlen_cons, IH. Z.div_mod_to_equations; lia.
Qed.

Lemma encode_printable s : no_nul (encode s).
Proof.
  assert (∀ d, 0 ≤ d < 64 → not_char NUL (sextet_char d) = true) as Hd by (intros; by apply sextets).
  induction s as [|a|a b|a b c s IH] using list_ind_3; cbn [encode]; [constructor|..];
    try pose proof (char_code_range a); try pose proof (char_code_range b);
    try pose proof (char_code_range c);
    repeat first [apply Forall_nil_2|apply Forall_cons_2]; try done;
    apply Hd; Z.div_mod_to_equations; lia.
Qed.

Example encoded :
  encode (lit "light work.") = lit "bGlnaHQgd29yay4=" ∧ encode (lit "light wo") = lit "bGlnaHQgd28=" ∧
  decode (lit "bGlnaHQgdw==") = lit "light w".
Proof. by vm_compute. Qed.
