(* ===== verification/OpenSsl.v ===== *)
(** Activation codes and RSA messages as printable text:
    [src/trash/c_tools/openssl_ulities/aes_base64.c] and [lc_rsa.c].

    OpenSSL is an interface: the block cipher on whole blocks, base64 without line
    ends, the reader of PEM texts and the two RSA operations. [OpenSslLaws] states
    what is relied upon. Buffers on the stack have the contents they are found
    with, an argument. *)

From S2P Require Import Prelude CString Memory Base64.

Open Scope Z_scope.

(** ** OpenSSL *)

Class OpenSsl (key : Type) := {
  cbc_encrypt : list Z → list Z → bytes → bytes;     (* key, chaining value, whole blocks *)
  cbc_decrypt : list Z → list Z → bytes → bytes;
  b64_encode : bytes → bytes;
  b64_read : bytes → Z * bytes;                      (* what BIO_read returns and writes *)
  PEM_read_public : bytes → option key;
  PEM_read_private : bytes → option key;
  RSA_size : key → Z;
  RSA_public_encrypt : key → bytes → option bytes;   (* None: -1 *)
  RSA_private_decrypt : key → bytes → option bytes
}.

(** A pair of keys: what one encrypts the other decrypts. *)
Class KeyPair {key} `{!OpenSsl key} (pub prv : key) := {
  public_encrypt_length m c : RSA_public_encrypt pub m = Some c → zlen c = RSA_size pub;
  private_decrypt_length c m : RSA_private_decrypt prv c = Some m → zlen m ≤ RSA_size prv;
  private_decrypts m c : RSA_public_encrypt pub m = Some c → RSA_private_decrypt prv c = Some m
}.

Class OpenSslLaws (key : Type) `{!OpenSsl key} := {
  cbc_encrypt_length k v s : length (cbc_encrypt k v s) = length s;
  cbc_decrypt_length k v s : length (cbc_decrypt k v s) = length s;
  (* CBC: a block is decrypted from itself and the block before it *)
  cbc_decrypts k v s t : (16 | length s)%nat →
    take (length s) (cbc_decrypt k v (cbc_encrypt k v s ++ t)) = s;
  b64_length s : zlen (b64_encode s) = 4 * ((zlen s + 2) / 3);
  b64_printable s : no_nul (b64_encode s);
  b64_reads s : b64_read (b64_encode s) = (zlen s, s)
}.

(** ** aes_base64.c *)

Definition AES_BLOCK_SIZE : Z := 16.

Definition rkey : list Z :=
  [0xad; 0x1a; 0x21; 0x72; 0xed; 0x9f; 0x98; 0x6d; 0x6e; 0xf9; 0x31; 0xfa; 0x78; 0x9a; 0xa0; 0x5f].
Definition iv : list Z :=
  [0x47; 0xbc; 0xfe; 0x9d; 0x80; 0xdb; 0x3c; 0xfe; 0xd1; 0x09; 0x4d; 0xd9; 0x70; 0x43; 0xa6; 0xbf;
   0x9a; 0xe1; 0x94; 0xc1; 0xa2; 0xb2; 0x24; 0xfb; 0x0d; 0x5d; 0x7f; 0xb0; 0x54; 0xc3; 0xe3; 0x90;
   0xb1; 0x2f; 0xfe; 0xd2; 0xa5; 0x81; 0x89; 0xaf; 0xf1; 0x6c; 0x13; 0xf0; 0x11; 0x85; 0x17; 0x1a;
   0xd1; 0xba; 0xde; 0x58; 0x42; 0x20; 0x30; 0x5e; 0xfe; 0xe8; 0xac; 0x70; 0xa5; 0xe6; 0x1f; 0xaf].

(** [AES_cbc_encrypt] works on whole blocks: the last one is filled with zeros. *)
Definition blocks (len : Z) : Z := (len + 15) / 16 * 16.
Definition pad_blocks (s : bytes) : bytes :=
  s ++ replicate (Z.to_nat (blocks (zlen s) - zlen s)) NUL.

(** The first [n] bytes of an object. *)
Definition read_bytes (s : bytes) (n : Z) : outcome bytes :=
  if decide (0 ≤ n ≤ zlen s) then Ret (take (Z.to_nat n) s) else Undef OutOfBounds.

Section openssl.
Context {key : Type} `{!OpenSsl key}.

Definition aes_encrypte (plaintext ciphertext : bytes) (len : Z) : outcome (bytes * Z) :=
  s ← read_bytes plaintext len;
  ciphertext ← memcpy ciphertext 0 (cbc_encrypt rkey iv (pad_blocks s));
  mret (ciphertext, (len / 16 + 1) * 16).

(** The last block is read whole, what is written is cut to [len] bytes. *)
Definition aes_decrypte (ciphertext plaintext : bytes) (len : Z) : outcome bytes :=
  s ← read_bytes ciphertext (blocks len);
  memcpy plaintext 0 (take (Z.to_nat len) (cbc_decrypt rkey iv s)).

Definition base64_encode (str : bytes) (str_len : Z) (encode : bytes) (encode_len : Z)
    : outcome (bytes * Z) :=
  s ← read_bytes str str_len;
  let data := b64_encode s in
  if decide (zlen data > encode_len) then mret (encode, -1)
  else
    encode ← memcpy encode 0 data;
    encode ← aset encode (zlen data) NUL;
    mret (encode, zlen data).

(** The length of the buffer is not looked at. *)
Definition base64_decode (str : bytes) (str_len : Z) (decode : bytes) (decode_buffer_len : Z)
    : outcome (bytes * Z) :=
  s ← read_bytes str str_len;
  let '(len, data) := b64_read s in
  decode ← memcpy decode 0 data;
  decode ← aset decode len NUL;
  mret (decode, len).

(** [stack] is what the local array [ciphertext] holds. *)
Definition act_code_encrypt_encode (stack : bytes) (act_code : option bytes) (len : Z)
    (encode_buf : option bytes) (encode_buf_len : Z) : outcome (option bytes * Z) :=
  match act_code, encode_buf with
  | Some act_code, Some buf =>
      if decide (encode_buf_len < len) then mret (Some buf, -1)
      else
        '(ciphertext, _) ← aes_encrypte act_code stack len;
        let ciphertext_len := (len / 16 + 1) * 16 in
        '(buf, r) ← base64_encode ciphertext ciphertext_len buf encode_buf_len;
        mret (Some buf, r)
  | _, _ => mret (encode_buf, -1)
  end.

(** There is no [return]: only the buffer comes back. *)
Definition act_code_decrypt_decode (stack encode : bytes) (encode_len : Z) (act_code : bytes)
    : outcome bytes :=
  '(ciphertext, len) ← base64_decode encode encode_len stack (AES_BLOCK_SIZE * 4 - 1);
  aes_decrypte ciphertext act_code len.

(** ** lc_rsa.c *)

Definition PUB_KEY : Z := 1.
Definition PRIV_KEY : Z := 0.

(** The key of a PEM text in memory. *)
Definition create_RSA (text : bytes) (flag : Z) : option key :=
  if decide (flag = PUB_KEY) then PEM_read_public text
  else if decide (flag = PRIV_KEY) then PEM_read_private text
  else None.

(** An [RSA] object and whether it is still allocated. *)
Record rsa_object := { rsa_key : key; rsa_live : bool }.
Definition RSA_free (r : rsa_object) : outcome rsa_object :=
  if rsa_live r then mret {| rsa_key := rsa_key r; rsa_live := false |} else Undef DoubleFree.

(** The result, [*outstr] and the object. *)
Definition rsa_handle (rsa_ctx : option rsa_object) (instr : option bytes) (inlen : Z)
    (outstr : option bytes) (type : Z) : outcome (Z * option bytes * option rsa_object) :=
  match rsa_ctx, instr with
  | Some rsa, Some instr =>
      let rsa_len := RSA_size (rsa_key rsa) in
      let buf := replicate (Z.to_nat (rsa_len + 1)) NUL in
      s ← read_bytes instr inlen;
      let answer := if decide (type = PUB_KEY) then RSA_public_encrypt (rsa_key rsa) s
                    else if decide (type = PRIV_KEY) then RSA_private_decrypt (rsa_key rsa) s
                    else None in
      '(buf, ret) ← (match answer with
                     | Some t => buf ← memcpy buf 0 t; mret (buf, zlen t)
                     | None => mret (buf, -1)
                     end);
      rsa ← RSA_free rsa;
      if decide (ret = -1) then mret (ret, None, Some rsa)
      else mret (ret, Some buf, Some rsa)
  | _, _ => mret (-1, outstr, rsa_ctx)
  end.

(** [malloc] succeeds. [public_key] and [private_key] are the PEM texts
    [public_key_pair1] and [private_key_pair2]; the result and [*outstr]. *)
Definition rsa_base64 (public_key private_key : bytes) (instr : bytes) (inlen : Z)
    (outstr : option bytes) (type : Z) : outcome (Z * option bytes) :=
  if decide (type = PUB_KEY) then
    match create_RSA public_key type with
    | None => mret (-1, outstr)
    | Some rsa =>
        '(ret, out, _) ← rsa_handle (Some {| rsa_key := rsa; rsa_live := true |}) (Some instr)
                           inlen None type;
        if decide (ret < 0) then mret (ret, outstr)
        else
          match out with
          | None => Undef NullDeref
          | Some out =>
              let len := Z.quot ret 3 * 4 + 8 * 2 in
              let buf := replicate (Z.to_nat len) NUL in
              '(buf, ret) ← base64_encode out ret buf len;
              mret (ret, Some buf)
          end
    end
  else if decide (type = PRIV_KEY) then
    let out := replicate (Z.to_nat inlen) NUL in
    '(out, ret) ← base64_decode instr inlen out inlen;
    if decide (ret < 0) then mret (ret, outstr)
    else
      match create_RSA private_key type with
      | None => mret (-1, outstr)
      | Some rsa =>
          '(ret, outstr, _) ← rsa_handle (Some {| rsa_key := rsa; rsa_live := true |})
                                (Some out) ret outstr type;
          mret (ret, outstr)
      end
  else mret (-1, outstr).

(** The key file; [None]: it cannot be opened or holds no key. *)
Definition rsa_pub_crypt (file : option bytes) (str : bytes) (outstr : option bytes)
    : outcome (Z * option bytes) :=
  match file ≫= PEM_read_public with
  | None => mret (-1, outstr)
  | Some k =>
      s ← c_string str;
      '(num, outstr, rsa) ← rsa_handle (Some {| rsa_key := k; rsa_live := true |}) (Some str)
                              (zlen s) outstr PUB_KEY;
      match rsa with
      | Some rsa => _ ← RSA_free rsa; mret (num, outstr)
      | None => Undef NullDeref
      end
  end.

(** The key is read and nothing is decrypted. *)
Definition rsa_prv_crypt (file : option bytes) (str : bytes) (inlen : Z) (outstr : option bytes)
    : outcome (Z * option bytes) :=
  match file ≫= PEM_read_private with
  | None => mret (-1, outstr)
  | Some _ => mret (-1, outstr)
  end.

(** The reader of an encrypted key is an argument; the object of [RSA_new] is lost. *)
Definition getPRV (PEM_read_bio_RSAPrivateKey : bytes → bytes → option key)
    (file : option bytes) (pwd : bytes) : option key :=
  text ← file; PEM_read_bio_RSAPrivateKey text pwd.

(** [just_test()]: what it prints. *)
Definition test_message : bytes := lit "DATE:20160831,HDCODE:C89EC44082CE64EA6F37347135C13848".
Definition just_test (public_key private_key : bytes) : outcome bytes :=
  '(_, en) ← rsa_base64 public_key private_key (test_message ++ [NUL]) (zlen test_message) None PUB_KEY;
  match en with
  | Some en => s ← c_string en; mret (lit "--------->" ++ s ++ [LF])
  | None => Undef NullDeref
  end.
End openssl.

(** ** Activation codes *)

Section codes.
Context {key : Type} `{!OpenSsl key, !OpenSslLaws key}.

Lemma read_bytes_app s t : read_bytes (s ++ t) (zlen s) = Ret s.
Proof.
  unfold read_bytes. rewrite decide_True by (rewrite zlen_app; unfold zlen; lia).
  unfold zlen. by rewrite Nat2Z.id, take_app_length.
Qed.

Lemma blit_0 data s : zlen s ≤ zlen data → blit data 0 s = s ++ drop (length s) data.
Proof. done. Qed.

(** A text copied to the start of a buffer and terminated. *)
Lemma terminated_copy data s :
  zlen s < zlen data →
  (memcpy data 0 s ≫= λ d, aset d (zlen s) NUL) = Ret (s ++ NUL :: drop (S (length s)) data).
Proof.
  intros Hl. pose proof (zlen_nonneg s).
  rewrite memcpy_ok, Ret_bind, aset_ok by (rewrite ?zlen_blit; lia). f_equal.
  rewrite upd_blit by (rewrite zlen_blit; lia).
  pose proof (blit_app data 0 s [NUL]) as H1. rewrite Z.add_0_l in H1.
  rewrite H1 by (change (zlen [NUL]) with 1; lia).
  rewrite blit_0 by (rewrite zlen_app; change (zlen [NUL]) with 1; lia).
  by rewrite <- app_assoc, length_app, Nat.add_1_r.
Qed.

Lemma pad_blocks_length s : zlen (pad_blocks s) = blocks (zlen s).
Proof.
  unfold pad_blocks. rewrite zlen_app. unfold zlen at 2. rewrite length_replicate.
  unfold blocks. pose proof (zlen_nonneg s). Z.div_mod_to_equations; lia.
Qed.

Lemma pad_blocks_whole s : (16 | length (pad_blocks s))%nat.
Proof.
  pose proof (pad_blocks_length s) as H. unfold zlen, blocks in H.
  exists (Z.to_nat ((Z.of_nat (length s) + 15) / 16)). lia.
Qed.

(** The two halves of the encoding: what is encrypted into the local array, and
    base64 into the caller's buffer. *)
Lemma encode_steps stack code rest buf n :
  zlen stack = 64 → zlen code ≤ 48 → n = (zlen code / 16 + 1) * 16 →
  zlen code ≤ zlen buf → 4 * ((n + 2) / 3) < zlen buf →
  let ct := take (Z.to_nat n) (blit stack 0 (cbc_encrypt rkey iv (pad_blocks code))) in
  act_code_encrypt_encode stack (Some (code ++ rest)) (zlen code) (Some buf) (zlen buf) =
  Ret (Some (b64_encode ct ++ NUL :: drop (S (length (b64_encode ct))) buf), zlen (b64_encode ct)).
Proof.
  intros Hst Hc -> Hb Hn ct. unfold act_code_encrypt_encode, aes_encrypte.
  rewrite decide_False, read_bytes_app, Ret_bind by lia.
  set (e := cbc_encrypt rkey iv (pad_blocks code)) in *. pose proof (zlen_nonneg code).
  assert (zlen e = blocks (zlen code)) as He.
  { rewrite <- pad_blocks_length. unfold zlen, e. by rewrite cbc_encrypt_length. }
  assert (blocks (zlen code) ≤ 48) by (unfold blocks; Z.div_mod_to_equations; lia).
  rewrite memcpy_ok, Ret_bind, mret_bind by lia.
  assert (zlen (blit stack 0 e) = 64) as Hbl by (rewrite zlen_blit; lia).
  unfold base64_encode, read_bytes. rewrite decide_True by (Z.div_mod_to_equations; lia).
  rewrite Ret_bind. fold ct. assert (zlen ct = (zlen code / 16 + 1) * 16) as Hct.
  { unfold zlen, ct. rewrite length_take. unfold zlen in *. Z.div_mod_to_equations; lia. }
  pose proof (b64_length ct) as Hl. rewrite Hct in Hl.
  pose proof (zlen_nonneg (b64_encode ct)).
  rewrite decide_False by lia.
  assert (zlen (b64_encode ct) < zlen buf) as Hfit by lia.
  pose proof (terminated_copy buf (b64_encode ct) Hfit) as Ht.
  apply bind_Ret in Ht as (d & Hd1 & Hd2). by rewrite Hd1, Ret_bind, Hd2.
Qed.

(** The way back: the array receives at most 63 bytes. *)
Lemma decode_steps stack ct rest out :
  zlen stack = 64 → zlen ct ≤ 48 → (16 | zlen ct) → zlen ct ≤ zlen out →
  act_code_decrypt_decode stack (b64_encode ct ++ rest) (zlen (b64_encode ct)) out =
  Ret (cbc_decrypt rkey iv ct ++ drop (length ct) out).
Proof.
  intros Hst Hc Hd Ho. unfold act_code_decrypt_decode, base64_decode.
  rewrite read_bytes_app, Ret_bind, b64_reads. pose proof (zlen_nonneg ct).
  pose proof (terminated_copy stack ct ltac:(lia)) as Ht.
  apply bind_Ret in Ht as (d & Hd1 & Hd2). rewrite Hd1, Ret_bind, Hd2, Ret_bind, mret_bind.
  unfold aes_decrypte. assert (blocks (zlen ct) = zlen ct) as ->.
  { destruct Hd as [k ->]. unfold blocks. Z.div_mod_to_equations; lia. }
  rewrite read_bytes_app, Ret_bind.
  assert (length (cbc_decrypt rkey iv ct) = length ct) as Hl by apply cbc_decrypt_length.
  rewrite take_ge by (unfold zlen; lia).
  rewrite memcpy_ok by (unfold zlen in *; lia). by rewrite blit_0, Hl by (unfold zlen in *; lia).
Qed.

(** C34: An activation code comes back. For a code of less than 48 characters whose
    length is not a multiple of 16, whatever the local arrays hold, encrypting and
    encoding it into a buffer of 65 or more bytes, then decoding and decrypting
    the text from there, gives the code as a string; every access stays inside its
    array. *)
Theorem act_code_roundtrip stack1 stack2 code rest buf out :
  zlen stack1 = 64 → zlen stack2 = 64 →
  no_nul code → zlen code < 48 → ¬ (16 | zlen code) → 65 ≤ zlen buf → 48 ≤ zlen out →
  ∃ text n, act_code_encrypt_encode stack1 (Some (code ++ rest)) (zlen code) (Some buf)
      (zlen buf) = Ret (Some text, n) ∧
    ∃ out', act_code_decrypt_decode stack2 text n out = Ret out' ∧ c_string out' = Ret code.
Proof.
  intros H1 H2 Hn Hc Hd Hb Ho. pose proof (zlen_nonneg code).
  set (m := (zlen code / 16 + 1) * 16).
  assert (blocks (zlen code) = m) as Hm.
  { unfold blocks, m. destruct (decide (zlen code mod 16 = 0)) as [E|E].
    - destruct Hd. by apply Z.mod_divide.
    - Z.div_mod_to_equations; lia. }
  assert (m ≤ 48) by (unfold m; Z.div_mod_to_equations; lia).
  rewrite (encode_steps _ _ _ _ m); [|done|lia|done|lia|Z.div_mod_to_equations; lia].
  set (e := cbc_encrypt rkey iv (pad_blocks code)).
  assert (zlen e = m) as He.
  { rewrite <- Hm, <- pad_blocks_length. unfold zlen, e. by rewrite cbc_encrypt_length. }
  assert (take (Z.to_nat m) (blit stack1 0 e) = e) as ->.
  { rewrite blit_0 by lia. rewrite <- He. unfold zlen. rewrite Nat2Z.id. apply take_app_length. }
  do 2 eexists. split; [done|]. rewrite decode_steps; [|done|lia|by exists (zlen code / 16 + 1)|lia].
  eexists. split; [done|].
  pose proof (cbc_decrypts rkey iv (pad_blocks code) [] (pad_blocks_whole code)) as Hdec.
  rewrite app_nil_r in Hdec. fold e in Hdec.
  assert (length e = length (pad_blocks code)) as Hle by apply cbc_encrypt_length.
  rewrite take_ge in Hdec by (rewrite cbc_decrypt_length; lia). rewrite Hdec.
  unfold pad_blocks. rewrite Hm. assert (∃ k, Z.to_nat (m - zlen code) = S k) as [k ->].
  { exists (Z.to_nat (m - zlen code - 1)).
    assert (zlen code < m) by (unfold m; Z.div_mod_to_equations; lia). lia. }
  cbn [replicate]. rewrite <- app_assoc. by apply c_string_app_nul.
Qed.

(** A code of 16 or 32 characters, or none, sends 16 bytes of the stack along. *)
Lemma act_code_leaks stack code rest buf :
  zlen stack = 64 → (16 | zlen code) → zlen code ≤ 32 → 65 ≤ zlen buf →
  ∃ text n, act_code_encrypt_encode stack (Some (code ++ rest)) (zlen code) (Some buf)
      (zlen buf) = Ret (Some text, n) ∧
    text = b64_encode (cbc_encrypt rkey iv code ++ take 16 (drop (length code) stack)) ++
             NUL :: drop (S (Z.to_nat n)) buf.
Proof.
  intros Hst [q Hq] Hc Hb. pose proof (zlen_nonneg code).
  rewrite (encode_steps _ _ _ _ (zlen code + 16));
    [|done|lia|rewrite Hq; Z.div_mod_to_equations; lia|lia|Z.div_mod_to_equations; lia].
  do 2 eexists. split; [done|].
  assert (pad_blocks code = code) as ->.
  { unfold pad_blocks. assert (blocks (zlen code) - zlen code = 0) as ->; [|by rewrite app_nil_r].
    unfold blocks. rewrite Hq. Z.div_mod_to_equations; lia. }
  rewrite blit_0 by (unfold zlen in *; rewrite cbc_encrypt_length; lia).
  rewrite cbc_encrypt_length. set (e := cbc_encrypt rkey iv code).
  assert (take (Z.to_nat (zlen code + 16)) (e ++ drop (length code) stack) =
    e ++ take 16 (drop (length code) stack)) as ->.
  { rewrite take_app_ge; unfold e; rewrite cbc_encrypt_length; unfold zlen; [|lia].
    do 2 f_equal. lia. }
  f_equal. f_equal. f_equal. f_equal. unfold zlen. lia.
Qed.

(** The text of 64 bytes, which a code of 48 to 63 characters gives, is decoded one
    byte past the array. *)
Lemma act_code_decode_overruns stack ct rest out :
  zlen stack = 64 → zlen ct = 64 →
  act_code_decrypt_decode stack (b64_encode ct ++ rest) (zlen (b64_encode ct)) out =
  Undef OutOfBounds.
Proof.
  intros Hst Hc. unfold act_code_decrypt_decode, base64_decode.
  rewrite read_bytes_app, Ret_bind, b64_reads, memcpy_ok, Ret_bind by lia.
  unfold aset. by rewrite decide_False by (rewrite zlen_blit; lia).
Qed.
End codes.

(** ** RSA messages *)

Section messages.
Context {key : Type} `{!OpenSsl key, !OpenSslLaws key} (pub prv : key) `{!KeyPair pub prv}.

(** The buffer of the caller of [base64_encode] is always large enough. *)
Lemma encode_buffer_suffices n : 0 ≤ n → 4 * ((n + 2) / 3) < Z.quot n 3 * 4 + 8 * 2.
Proof. intros. rewrite Z.quot_div_nonneg by lia. Z.div_mod_to_equations; lia. Qed.

Lemma copy_zeros (n : Z) s :
  zlen s < n → memcpy (replicate (Z.to_nat n) NUL) 0 s =
  Ret (s ++ NUL :: replicate (Z.to_nat n - S (length s)) NUL).
Proof.
  intros Hn. pose proof (zlen_nonneg s). unfold zlen in *.
  rewrite memcpy_ok by (unfold zlen; rewrite ?length_replicate; lia). f_equal.
  rewrite blit_0 by (unfold zlen; rewrite length_replicate; lia). f_equal.
  rewrite drop_replicate. by replace (Z.to_nat n - length s)%nat with
    (S (Z.to_nat n - S (length s))) by lia.
Qed.

(** One RSA operation on the first bytes of a buffer. *)
Lemma rsa_handle_ok k s rest t o type :
  zlen t ≤ RSA_size k →
  (if decide (type = PUB_KEY) then RSA_public_encrypt k s
   else if decide (type = PRIV_KEY) then RSA_private_decrypt k s else None) = Some t →
  ∃ z, rsa_handle (Some {| rsa_key := k; rsa_live := true |}) (Some (s ++ rest)) (zlen s) o type =
    Ret (zlen t, Some (t ++ NUL :: z), Some {| rsa_key := k; rsa_live := false |}).
Proof.
  intros Ht Ha. unfold rsa_handle. cbn [rsa_key]. rewrite read_bytes_app, Ret_bind, Ha.
  rewrite copy_zeros, Ret_bind, mret_bind by lia. cbn [RSA_free rsa_live rsa_key].
  rewrite mret_bind, decide_False by (pose proof (zlen_nonneg t); lia). by eexists.
Qed.

(** The encryption: base64 of the RSA text, as a string of the returned length. *)
Lemma rsa_base64_encrypts public_key private_key m c rest outstr :
  PEM_read_public public_key = Some pub → RSA_public_encrypt pub m = Some c → 0 < RSA_size pub →
  ∃ z, rsa_base64 public_key private_key (m ++ rest) (zlen m) outstr PUB_KEY =
    Ret (zlen (b64_encode c), Some (b64_encode c ++ NUL :: z)).
Proof.
  intros Hpub Hc Hs. pose proof (public_encrypt_length _ _ Hc) as Hl.
  pose proof (b64_length c) as Hb. pose proof (encode_buffer_suffices (zlen c) ltac:(lia)) as Hfit.
  set (e := b64_encode c) in *. unfold rsa_base64. cbn [PUB_KEY PRIV_KEY].
  rewrite decide_True by done. unfold create_RSA. rewrite decide_True, Hpub by done.
  destruct (rsa_handle_ok pub m rest c None PUB_KEY) as [z Hz]; [lia|by rewrite decide_True|].
  rewrite Hz, Ret_bind, decide_False by lia.
  unfold base64_encode. rewrite read_bytes_app, Ret_bind. fold e.
  rewrite decide_False by lia. set (len := Z.quot (zlen c) 3 * 4 + 8 * 2) in *.
  assert (zlen e < zlen (replicate (Z.to_nat len) NUL)) as Hroom
    by (unfold zlen at 2; rewrite length_replicate; lia).
  pose proof (terminated_copy _ _ Hroom) as Ht. apply bind_Ret in Ht as (d & Hd1 & Hd2).
  rewrite Hd1, Ret_bind, Hd2, Ret_bind, mret_bind. by eexists.
Qed.

(** The decryption of such a text. *)
Lemma rsa_base64_decrypts public_key private_key m c z outstr :
  PEM_read_private private_key = Some prv → RSA_private_decrypt prv c = Some m → 0 < zlen c →
  ∃ z', rsa_base64 public_key private_key (b64_encode c ++ NUL :: z) (zlen (b64_encode c)) outstr
          PRIV_KEY = Ret (zlen m, Some (m ++ NUL :: z')).
Proof.
  intros Hprv Hd Hc. pose proof (private_decrypt_length _ _ Hd) as Hml.
  pose proof (b64_length c) as Hb. set (e := b64_encode c) in *.
  unfold rsa_base64. cbn [PUB_KEY PRIV_KEY].
  rewrite decide_False, decide_True by done. unfold base64_decode.
  rewrite read_bytes_app, Ret_bind.
  assert (b64_read e = (zlen c, c)) as -> by apply b64_reads.
  assert (zlen c < zlen (replicate (Z.to_nat (zlen e)) NUL)) as Hroom.
  { unfold zlen at 2. rewrite length_replicate, Hb. Z.div_mod_to_equations; lia. }
  pose proof (terminated_copy _ _ Hroom) as Ht. apply bind_Ret in Ht as (d & Hd1 & Hd2).
  rewrite Hd1, Ret_bind, Hd2, Ret_bind, mret_bind, decide_False by lia.
  unfold create_RSA. rewrite decide_False, decide_True, Hprv by done.
  edestruct (rsa_handle_ok prv c) as [z' Hz]; [exact Hml|..|rewrite Hz, Ret_bind; by eexists].
  by rewrite decide_False, decide_True.
Qed.

(** A message encrypted by [rsa_base64] is decrypted by [rsa_base64]. For the
    two keys of a pair: the encryption returns the length of its text, which
    fits into the buffer it allocates, and the decryption of this text gives the
    message as a string and its length; both free the [RSA] object once. *)
Theorem rsa_base64_roundtrip public_key private_key m c rest outstr :
  PEM_read_public public_key = Some pub → PEM_read_private private_key = Some prv →
  RSA_public_encrypt pub m = Some c → no_nul m → 0 < RSA_size pub →
  ∃ text n, rsa_base64 public_key private_key (m ++ rest) (zlen m) outstr PUB_KEY =
      Ret (n, Some text) ∧
    c_string text = Ret (b64_encode c) ∧ n = zlen (b64_encode c) ∧
    ∃ plain, rsa_base64 public_key private_key text n outstr PRIV_KEY =
        Ret (zlen m, Some plain) ∧ c_string plain = Ret m.
Proof.
  intros Hpub Hprv Hc Hm Hs. pose proof (public_encrypt_length _ _ Hc) as Hl.
  destruct (rsa_base64_encrypts public_key private_key m c rest outstr) as [z ->]; [done..|].
  do 2 eexists. split; [done|]. split; [apply c_string_app_nul, b64_printable|]. split; [done|].
  destruct (rsa_base64_decrypts public_key private_key m c z outstr Hprv) as [z' ->];
    [by apply private_decrypts|lia|].
  eexists. split; [done|]. by apply c_string_app_nul.
Qed.

(** [just_test] prints the encoded encryption of its message. *)
Lemma just_test_prints public_key private_key c :
  PEM_read_public public_key = Some pub → RSA_public_encrypt pub test_message = Some c →
  0 < RSA_size pub →
  just_test public_key private_key = Ret (lit "--------->" ++ b64_encode c ++ [LF]).
Proof.
  intros Hpub Hc Hs. unfold just_test.
  destruct (rsa_base64_encrypts public_key private_key test_message c [NUL] None) as [z ->]; [done..|].
  rewrite Ret_bind. by rewrite c_string_app_nul by apply b64_printable.
Qed.

(** [rsa_pub_crypt] frees the object that [rsa_handle] has freed: once a key is
    read and its operation returns, it never gives a result. *)
Lemma rsa_pub_crypt_frees_twice text m rest outstr c :
  PEM_read_public text = Some pub → RSA_public_encrypt pub m = Some c → no_nul m →
  rsa_pub_crypt (Some text) (m ++ NUL :: rest) outstr = Undef DoubleFree.
Proof.
  intros Hp Hc Hm. unfold rsa_pub_crypt. cbn [mbind option_bind]. rewrite Hp.
  rewrite c_string_app_nul, Ret_bind by done.
  destruct (rsa_handle_ok pub m (NUL :: rest) c outstr PUB_KEY) as [z Hz].
  - by rewrite (public_encrypt_length _ _ Hc).
  - by rewrite decide_True.
  - by rewrite Hz, Ret_bind.
Qed.

(** [rsa_prv_crypt] gives -1 and nothing else, whatever the key and the text. *)
Lemma rsa_prv_crypt_fails file str inlen outstr :
  rsa_prv_crypt file str inlen outstr = Ret (-1, outstr).
Proof. unfold rsa_prv_crypt. by destruct (file ≫= _). Qed.
End messages.

(** ** Witnesses *)

(** A concrete OpenSSL: base64, a chained cipher that adds the first byte of the
    key, and keys that are numbers, with what they encrypt in front of zeros. *)
Definition add_key (k : Z) (c : ascii) : ascii := byte_of ((char_code c + k) mod 256).
Definition toy_pad (m : bytes) : bytes := m ++ NUL :: replicate (63 - length m) NUL.

#[export] Instance toy_openssl : OpenSsl Z := {|
  cbc_encrypt k v s := add_key (k !!! 0%nat) <$> s;
  cbc_decrypt k v s := add_key (- (k !!! 0%nat)) <$> s;
  b64_encode := encode;
  b64_read t := (zlen (decode t), decode t);
  PEM_read_public t := Some (strlen t);
  PEM_read_private t := Some (strlen t);
  RSA_size _ := 64;
  RSA_public_encrypt k m := if decide (no_nul m ∧ (length m < 64)%nat)
                            then Some (add_key k <$> toy_pad m) else None;
  RSA_private_decrypt k c := Some (take 64 (cstr (add_key (- k) <$> c)))
|}.

Lemma add_key_inverse k c : add_key (- k) (add_key k c) = c.
Proof.
  unfold add_key, byte_of at 2. unfold char_code at 1.
  pose proof (Z.mod_pos_bound (char_code c + k) 256 ltac:(lia)) as Hb.
  rewrite N_ascii_embedding by lia. rewrite Z2N.id by lia.
  assert (((char_code c + k) mod 256 + - k) mod 256 = char_code c) as ->; [|apply byte_of_code].
  rewrite Zplus_mod_idemp_l. replace (char_code c + k + - k) with (char_code c) by lia.
  apply Z.mod_small, char_code_range.
Qed.

Lemma add_key_inverse_all k (s : bytes) : add_key (- k) <$> (add_key k <$> s) = s.
Proof.
  rewrite <- list_fmap_compose. rewrite <- (list_fmap_id s) at 2. apply list_fmap_ext.
  intros _ c _. apply add_key_inverse.
Qed.

#[export] Instance toy_laws : OpenSslLaws Z.
Proof.
  split; cbn.
  - intros. by rewrite length_fmap.
  - intros. by rewrite length_fmap.
  - intros k v s t _. rewrite fmap_app, add_key_inverse_all. apply take_app_length.
  - apply encode_length.
  - apply encode_printable.
  - intros s. by rewrite decode_encode.
Qed.

#[export] Instance toy_pair k : KeyPair k k.
Proof.
  split; cbn; intros m c.
  - case_decide as H; [|done]. intros [= <-]. unfold zlen, toy_pad.
    rewrite length_fmap, length_app. cbn. rewrite length_replicate. lia.
  - intros [= <-]. unfold zlen. rewrite length_take. lia.
  - case_decide as H; [|done]. intros [= <-]. rewrite add_key_inverse_all.
    unfold toy_pad. rewrite cstr_app_nul by apply H. rewrite take_ge by lia. done.
Qed.

Definition some_code : bytes := lit "0664064IGAL7IA7DYAH58HOJJA8O0547RFYJ7D1D".

Lemma act_code_roundtrip_witness :
  zlen some_code = 40 ∧
  ∃ text n, act_code_encrypt_encode (replicate 64 TAB) (Some (some_code ++ [NUL])) 40
      (Some (replicate 80 NUL)) (zlen (replicate 80 NUL)) = Ret (Some text, n) ∧
    ∃ out', act_code_decrypt_decode (replicate 64 TAB) text n (replicate 64 NUL) = Ret out' ∧
      c_string out' = Ret some_code.
Proof.
  split; [done|].
  apply (act_code_roundtrip (replicate 64 TAB) (replicate 64 TAB) some_code [NUL]
    (replicate 80 NUL) (replicate 64 NUL)); try done.
  - by apply (bool_decide_unpack _).
  - intros H. apply Z.mod_divide in H; done.
Defined.

Lemma rsa_base64_roundtrip_witness :
  let m := lit "DATE:20160831,HDCODE:C89EC44082CE64EA6F37347135C13848" in
  ∃ text n, rsa_base64 (lit "KEY") (lit "YEK") (m ++ [NUL]) (zlen m) None PUB_KEY =
      Ret (n, Some text) ∧
    c_string text = Ret (b64_encode (add_key 3 <$> toy_pad m)) ∧ n = 88 ∧
    ∃ plain, rsa_base64 (lit "KEY") (lit "YEK") text n None PRIV_KEY =
        Ret (zlen m, Some plain) ∧ c_string plain = Ret m.
Proof.
  intros m.
  refine (rsa_base64_roundtrip 3 3 (lit "KEY") (lit "YEK") m (add_key 3 <$> toy_pad m) [NUL] None
    _ _ _ _ _); try done.
  by apply (bool_decide_unpack _).
Defined.
