(* ===== verification/ErrLine.v ===== *)
(** Error lines: [src/trash/src/public/src/err.c], with [MAXLINE] of
    [src/trash/src/public/include/apue.h]. The text that [vsnprintf] makes of the
    format and its arguments and [strerror] are arguments; [buf] holds what the
    stack held. *)

From S2P Require Import Prelude CString Memory.

Open Scope Z_scope.

Definition MAXLINE : Z := 4096.

Section err.
Context (strerror : Z → bytes).

(** What goes to [stderr]. *)
Definition err_doit (buf : bytes) (errnoflag : bool) (error : Z) (text : bytes) : outcome bytes :=
  '(buf, _) ← snprintf_at buf 0 (MAXLINE - 1) text;
  buf ← (if errnoflag then
           s ← c_string buf;
           '(buf, _) ← snprintf_at buf (zlen s) (MAXLINE - zlen s - 1) (lit ": " ++ strerror error);
           mret buf
         else mret buf);
  s ← c_string buf;
  buf ← memcpy buf (zlen s) [LF; NUL];
  c_string buf.

(** What is printed and, for a function that does not return, the status. *)
Definition err_ret buf errno text : outcome (bytes * option Z) :=
  l ← err_doit buf true errno text; mret (l, None).
Definition err_sys buf errno text : outcome (bytes * option Z) :=
  l ← err_doit buf true errno text; mret (l, Some 1).
Definition err_cont buf (error : Z) text : outcome (bytes * option Z) :=
  l ← err_doit buf true error text; mret (l, None).
Definition err_exit buf (error : Z) text : outcome (bytes * option Z) :=
  l ← err_doit buf true error text; mret (l, Some 1).
Definition err_dump buf errno text : outcome (bytes * option Z) :=
  l ← err_doit buf true errno text; mret (l, Some SIGABRT_status).
Definition err_msg buf text : outcome (bytes * option Z) :=
  l ← err_doit buf false 0 text; mret (l, None).
Definition err_quit buf text : outcome (bytes * option Z) :=
  l ← err_doit buf false 0 text; mret (l, Some 1).

(** [snprintf] behind a text, with one byte of the array kept free. *)
Lemma formatted_text a rest k (t : bytes) :
  no_nul a → no_nul t → zlen t ≤ INT_MAX → 1 ≤ k → zlen a + k + 1 ≤ zlen (a ++ rest) →
  ∃ z, snprintf_at (a ++ rest) (zlen a) k t =
    Ret (a ++ take (Z.to_nat (k - 1)) t ++ NUL :: z, zlen t) ∧
    zlen (a ++ take (Z.to_nat (k - 1)) t ++ NUL :: z) = zlen (a ++ rest) ∧ (1 ≤ length z)%nat.
Proof.
  intros Ha Ht Hti Hk Hl. unfold snprintf_at. pose proof (zlen_nonneg a). pose proof (zlen_nonneg t).
  rewrite decide_True by lia. destruct (Z.eqb_spec k 0); [lia|].
  pose proof (zlen_snprintf k t Hk) as Hs. unfold snprintf in *.
  set (u := take (Z.to_nat (k - 1)) t) in *.
  assert (zlen (u ++ [NUL]) = zlen u + 1) as Hu by (by rewrite zlen_app).
  rewrite memcpy_ok, Ret_bind by lia.
  rewrite int_bind by (unfold in_int, INT_MIN, INT_MAX in *; lia).
  assert (blit (a ++ rest) (zlen a) (u ++ [NUL]) = a ++ u ++ NUL :: drop (S (length u)) rest) as Hb.
  { unfold blit, zlen. rewrite Nat2Z.id, take_app_length, <- app_assoc. do 2 f_equal. cbn.
    rewrite length_app, drop_app_ge by (cbn; lia). cbn. do 2 f_equal. lia. }
  rewrite Hb. eexists. split; [done|]. split.
  - rewrite <- Hb. apply zlen_blit; lia.
  - rewrite length_drop. rewrite zlen_app in Hl. unfold zlen in *. lia.
Qed.

(** An error line fits whatever is printed. For every message, every text of
    the error and whatever the buffer holds, [err_doit] stays inside its array,
    and the line is the message, with a colon and the text of the error where
    asked for, cut after 4094 characters, and the end of the line. *)
Theorem err_doit_line buf (errnoflag : bool) error text :
  zlen buf = MAXLINE → no_nul text → no_nul (strerror error) →
  zlen text ≤ INT_MAX → zlen (strerror error) + 2 ≤ INT_MAX →
  err_doit buf errnoflag error text =
  Ret (take (Z.to_nat (MAXLINE - 2))
         (text ++ if errnoflag then lit ": " ++ strerror error else []) ++ [LF]).
Proof.
  unfold MAXLINE. intros Hb Ht He Hti Hei. unfold err_doit, MAXLINE.
  destruct (formatted_text [] buf 4095 text) as (z & Hz & Hlz & Hz1);
    [by apply Forall_nil_2|done|done|done|unfold zlen in *; cbn [length app]; lia|].
  cbn [app] in *. change (zlen (@nil ascii)) with 0 in Hz. change (4096 - 1) with 4095.
  rewrite Hz, Ret_bind. change (Z.to_nat (4095 - 1)) with (Z.to_nat 4094) in *.
  change (Z.to_nat (4096 - 2)) with (Z.to_nat 4094). set (u := take (Z.to_nat 4094) text) in *.
  assert (Hun : no_nul u) by by apply Forall_take.
  assert (zlen u = Z.min 4094 (zlen text)) as Hul by (unfold u, zlen; rewrite length_take; lia).
  (* the end of the line behind a text of at most 4094 characters *)
  assert (Hend : ∀ v z, no_nul v → (1 ≤ length z)%nat →
    (s ← c_string (v ++ NUL :: z); b ← memcpy (v ++ NUL :: z) (zlen s) [LF; NUL]; c_string b) =
    Ret (v ++ [LF])).
  { intros v [|y z'] Hv Hlen; [cbn in Hlen; lia|]. rewrite c_string_app_nul, Ret_bind by done.
    pose proof (zlen_nonneg v). rewrite memcpy_ok, Ret_bind;
      [|lia|rewrite zlen_app; unfold zlen; cbn; lia].
    assert (blit (v ++ NUL :: y :: z') (zlen v) [LF; NUL] = (v ++ [LF]) ++ NUL :: z') as ->.
    { unfold blit, zlen. rewrite Nat2Z.id, take_app_length, <- app_assoc.
      rewrite drop_app_ge by lia. change (length [LF; NUL]) with 2%nat.
      by replace (length v + 2 - length v)%nat with 2%nat by lia. }
    apply c_string_app_nul, Forall_app. split; [done|]. repeat constructor. }
  destruct errnoflag.
  - rewrite c_string_app_nul, Ret_bind by done.
    destruct (formatted_text u (NUL :: z) (4096 - zlen u - 1) (lit ": " ++ strerror error))
      as (z2 & Hz2 & Hl2 & Hz21).
    + done.
    + apply Forall_app. split; [repeat constructor|done].
    + rewrite zlen_app. change (zlen (lit ": ")) with 2. lia.
    + lia.
    + rewrite Hlz. lia.
    + rewrite Hz2, Ret_bind, mret_bind, app_assoc, Hend; [|by apply Forall_app; split;
        [done|apply Forall_take, Forall_app; split; [repeat constructor|]]|done].
      do 2 f_equal. rewrite (take_app text). fold u. do 2 f_equal.
      unfold zlen in *. lia.
  - rewrite mret_bind, app_nil_r. fold u. by rewrite <- (Hend u z).
Qed.
End err.

Lemma err_doit_line_witness :
  err_doit (λ _, lit "No such file or directory") (replicate 4096 SP) true 2 (lit "open x") =
  Ret (lit "open x: No such file or directory" ++ [LF]).
Proof.
  rewrite (err_doit_line (λ _, lit "No such file or directory") (replicate 4096 SP) true 2
    (lit "open x")); try done; try by vm_compute; by apply (bool_decide_unpack _).
Defined.
