(* ===== verification/Tcp1.v ===== *)
(** The sender of TCP SYN packets: [src/src/network/libnet_code/tcp1.c].

    libnet is an argument: the resolution of names, whether each part of the packet
    can be built, and what each write answers. [getopt] delivers a list of options
    and their arguments. Integers are those of a 64-bit Linux: [u_long] has 64
    bits, while the addresses of libnet have 32. *)

From S2P Require Import Prelude CString.

Open Scope Z_scope.

(** What the program asks of libnet; [libnet_write] is -1 or the number of bytes of
    the [i]-th write. *)
Record libnet := {
  libnet_init : bool;
  libnet_name2addr4 : bytes → option Z;
  builds_options : bool; builds_tcp : bool; builds_ipv4 : bool; builds_ethernet : bool;
  libnet_write : nat → Z
}.

Definition LIBNET_TCP_H : Z := 20.
Definition LIBNET_IPV4_H : Z := 20.

Definition enet_src : list Z := [0x0d; 0x0e; 0x0a; 0x0d; 0x00; 0x00].
Definition enet_dst : list Z := [0x00; 0x10; 0x67; 0x00; 0xb1; 0x86].
Definition tcp_options : list Z :=
  [3; 3; 10; 1; 2; 4; 1; 9; 8; 10; 63; 63; 63; 63; 0; 0; 0; 0; 0; 0].

(** The variables that the options set. *)
Record settings := {
  src_ip : Z; dst_ip : Z; src_prt : Z; dst_prt : Z; payload : option bytes; payload_s : Z
}.
Definition settings_default : settings :=
  {| src_ip := 0; dst_ip := 0; src_prt := 12345; dst_prt := 54321; payload := None;
     payload_s := 0 |}.

Definition ULONG_MINUS_1 : Z := to_u 64 (-1).

(** An argument [ip.ip.ip.ip.port]: the port and the address, which an unknown name
    makes 2^32 - 1; [usage] returns. *)
Definition endpoint_option (l : libnet) (optarg : bytes) : outcome (Z * Z) :=
  match last_dot optarg with
  | None => Undef NullDeref
  | Some (ip, cp) =>
      n ← atoi cp;
      let addr := to_u 64 (default (2 ^ 32 - 1) (libnet_name2addr4 l ip)) in
      if decide (addr = ULONG_MINUS_1) then Exited 1
      else mret (to_u 16 n, addr)
  end.

Definition option_step (l : libnet) (s : settings) (o : ascii * bytes) : outcome settings :=
  let '(c, optarg) := o in
  if decide (c = "d"%char) then
    '(prt, addr) ← endpoint_option l optarg;
    mret {| src_ip := src_ip s; dst_ip := addr; src_prt := src_prt s; dst_prt := prt;
            payload := payload s; payload_s := payload_s s |}
  else if decide (c = "s"%char) then
    '(prt, addr) ← endpoint_option l optarg;
    mret {| src_ip := addr; dst_ip := dst_ip s; src_prt := prt; dst_prt := dst_prt s;
            payload := payload s; payload_s := payload_s s |}
  else if decide (c = "p"%char) then
    mret {| src_ip := src_ip s; dst_ip := dst_ip s; src_prt := src_prt s; dst_prt := dst_prt s;
            payload := Some optarg; payload_s := to_u 16 (zlen optarg) |}
  else Exited 1.

Fixpoint options_loop (l : libnet) (s : settings) (os : list (ascii * bytes)) : outcome settings :=
  match os with
  | [] => mret s
  | o :: os => s ← option_step l s o; options_loop l s os
  end.

(** What is asked to be built. *)
Record tcp_packet := {
  tcp_source : Z; tcp_dest : Z; tcp_seq : Z; tcp_ack : Z; tcp_control : Z; tcp_window : Z;
  tcp_urgent : Z; tcp_size : Z; tcp_payload : option bytes; tcp_payload_s : Z;
  ip_size : Z; ip_id : Z; ip_ttl : Z; ip_source : Z; ip_dest : Z;
  ethernet_dest : list Z; ethernet_source : list Z; options : list Z
}.

(** The arguments of type [u_int32_t] and [u_int16_t] are cut to their width. *)
Definition build (s : settings) : tcp_packet :=
  {| tcp_source := src_prt s; tcp_dest := dst_prt s; tcp_seq := 0x01010101;
     tcp_ack := 0x02020202; tcp_control := 2; tcp_window := 32767; tcp_urgent := 10;
     tcp_size := to_u 16 (LIBNET_TCP_H + 20 + payload_s s); tcp_payload := payload s;
     tcp_payload_s := payload_s s;
     ip_size := to_u 16 (LIBNET_IPV4_H + LIBNET_TCP_H + 20 + payload_s s); ip_id := 242;
     ip_ttl := 64; ip_source := to_u 32 (src_ip s); ip_dest := to_u 32 (dst_ip s);
     ethernet_dest := enet_dst; ethernet_source := enet_src; options := tcp_options |}.

(** The loop of twenty writes from the [i]-th on: the packets written and the
    status. *)
Fixpoint write_loop (l : libnet) (p : tcp_packet) (n i : nat) : list tcp_packet * Z :=
  match n with
  | O => ([], 0)
  | S n => if decide (libnet_write l i = -1) then ([], 1)
           else let '(ps, r) := write_loop l p n (S i) in (p :: ps, r)
  end.

Definition tcp1_main (l : libnet) (os : list (ascii * bytes)) : outcome (list tcp_packet * Z) :=
  if libnet_init l then
    s ← options_loop l settings_default os;
    if decide (src_ip s = 0 ∨ src_prt s = 0 ∨ dst_ip s = 0 ∨ dst_prt s = 0) then Exited 1
    else if builds_options l && builds_tcp l && builds_ipv4 l && builds_ethernet l
    then mret (write_loop l (build s) 20 0)
    else mret ([], 1)
  else Exited 1.

(** ** What is sent *)

Lemma print_d_no_dot n : Forall (λ c, c ≠ "."%char) (print_d n).
Proof. eapply Forall_impl; [apply print_d_chars|]. cbn. intros c Hc ->. by destruct Hc. Qed.

(** An address and a port, as the option [-s] or [-d] wants them. *)
Definition endpoint (name : bytes) (port : Z) : bytes := name ++ lit "." ++ print_d port.

Lemma endpoint_option_ok l name port addr :
  libnet_name2addr4 l name = Some addr → 0 ≤ addr < 2 ^ 32 → in_int port →
  endpoint_option l (endpoint name port) = Ret (to_u 16 port, addr).
Proof.
  intros Hn Ha Hp. unfold endpoint_option, endpoint.
  change (lit "." ++ print_d port) with ("."%char :: print_d port).
  rewrite last_dot_app by apply print_d_no_dot. rewrite atoi_print, Ret_bind, Hn by done. cbn [default id].
  assert (2 ^ 32 < 2 ^ 64 - 1) by done.
  rewrite (to_u_small 64) by lia. rewrite decide_False; [done|].
  change ULONG_MINUS_1 with (2 ^ 64 - 1). lia.
Qed.

Lemma write_loop_all l p n : ∀ i,
  (∀ j, (i ≤ j < i + n)%nat → libnet_write l j ≠ -1) → write_loop l p n i = (replicate n p, 0).
Proof.
  induction n as [|n IH]; intros i Hw; cbn; [done|].
  rewrite decide_False by (apply Hw; lia). rewrite IH; [done|]. intros j Hj. apply Hw. lia.
Qed.

(** The program sends what it is asked for. Given the endpoints of both sides
    with names that libnet knows and ports from 1 to 65535, and at most 65475
    bytes of payload, and as long as libnet does not fail, it ends with status 0
    after twenty equal packets, from the given source to the given destination,
    with the payload and the lengths of its headers. *)
Theorem tcp1_sends l src sport saddr dst dport daddr data :
  libnet_init l = true →
  builds_options l && builds_tcp l && builds_ipv4 l && builds_ethernet l = true →
  (∀ i, (i < 20)%nat → libnet_write l i ≠ -1) →
  libnet_name2addr4 l src = Some saddr → libnet_name2addr4 l dst = Some daddr →
  0 < saddr < 2 ^ 32 → 0 < daddr < 2 ^ 32 → 0 < sport < 2 ^ 16 → 0 < dport < 2 ^ 16 →
  zlen data ≤ 65475 →
  ∃ p, tcp1_main l [("s"%char, endpoint src sport); ("d"%char, endpoint dst dport);
                    ("p"%char, data)] = Ret (replicate 20 p, 0) ∧
    ip_source p = saddr ∧ ip_dest p = daddr ∧ tcp_source p = sport ∧ tcp_dest p = dport ∧
    tcp_payload p = Some data ∧ tcp_payload_s p = zlen data ∧
    tcp_size p = 40 + zlen data ∧ ip_size p = 60 + zlen data ∧
    tcp_control p = 2.
Proof.
  intros Hi Hb Hw Hs Hd Hsa Hda Hsp Hdp Hl. unfold tcp1_main. rewrite Hi.
  unfold options_loop, option_step.
  assert (in_int sport ∧ in_int dport) as [Hsi Hdi] by (unfold in_int, INT_MIN, INT_MAX; lia).
  rewrite decide_False, decide_True by done.
  rewrite (endpoint_option_ok l src sport saddr), Ret_bind by (done || lia).
  rewrite !mret_bind, decide_True by done.
  rewrite (endpoint_option_ok l dst dport daddr), Ret_bind by (done || lia).
  rewrite !mret_bind, decide_False, decide_False, decide_True by done. rewrite !mret_bind.
  cbn [src_ip dst_ip src_prt dst_prt]. rewrite !to_u_small by lia.
  rewrite decide_False by lia. rewrite Hb, write_loop_all by (intros j Hj; apply Hw; lia).
  pose proof (Zle_0_nat (length data)). unfold zlen in *.
  eexists. split; [done|]. cbn. unfold LIBNET_TCP_H, LIBNET_IPV4_H.
  rewrite (to_u_small 16 (Z.of_nat (length data))) by lia.
  rewrite !to_u_small by lia. split_and!; try done; lia.
Qed.

(** A name that libnet does not know is not noticed: the 32 bits of its answer never
    equal -1 of 64 bits, and the packets go to 255.255.255.255. *)
Lemma unknown_name_sends l name port :
  libnet_name2addr4 l name = None → in_int port →
  endpoint_option l (endpoint name port) = Ret (to_u 16 port, 2 ^ 32 - 1).
Proof.
  intros Hn Hp. unfold endpoint_option, endpoint.
  change (lit "." ++ print_d port) with ("."%char :: print_d port).
  rewrite last_dot_app by apply print_d_no_dot. by rewrite atoi_print, Ret_bind, Hn by done.
Qed.

(** Without a dot [usage] is printed and then [NULL] is written through. *)
Lemma no_dot_undefined l s c optarg :
  (c = "s"%char ∨ c = "d"%char) → Forall (λ x, x ≠ "."%char) optarg →
  option_step l s (c, optarg) = Undef NullDeref.
Proof.
  intros [-> | ->] Hd; unfold option_step, endpoint_option; rewrite (last_dot_none _ Hd);
    [rewrite decide_False by done|]; by rewrite decide_True.
Qed.

Definition lan : libnet := {|
  libnet_init := true;
  libnet_name2addr4 n := if decide (n = lit "10.0.0.1") then Some 16777226
                         else if decide (n = lit "gateway") then Some 33554442 else None;
  builds_options := true; builds_tcp := true; builds_ipv4 := true; builds_ethernet := true;
  libnet_write _ := 79
|}.

Lemma tcp1_sends_witness :
  ∃ p, tcp1_main lan [("s"%char, endpoint (lit "10.0.0.1") 1234);
                      ("d"%char, endpoint (lit "gateway") 80); ("p"%char, lit "hello")]
       = Ret (replicate 20 p, 0) ∧
    ip_source p = 16777226 ∧ ip_dest p = 33554442 ∧ tcp_source p = 1234 ∧ tcp_dest p = 80 ∧
    tcp_payload p = Some (lit "hello") ∧ tcp_payload_s p = 5 ∧ tcp_size p = 40 + 5 ∧ ip_size p = 60 + 5 ∧
    tcp_control p = 2.
Proof.
  apply (tcp1_sends lan (lit "10.0.0.1") 1234 16777226 (lit "gateway") 80 33554442 (lit "hello"));
    try done; by cbn.
Defined.

(** A port of 65616 is sent as port 80, and a text that is no number is port 0. *)
Example ports_cut :
  endpoint_option lan (lit "gateway.65616") = Ret (80, 33554442) ∧
  tcp1_main lan [("s"%char, lit "10.0.0.1.http"); ("d"%char, lit "gateway.80")] = Exited 1.
Proof. split; by vm_compute. Qed.
