(* ===== verification/TimeZoneTest.v ===== *)
(** The program that tests time zones:
    [log/muduo-clog/muduo/base/tests/TimeZone_unittest.cc].

    The zone files of the system are arguments, and so are [localtime_r], [timegm]
    and [gmtime]. [strptime] and [strftime] are modelled for the formats the
    program uses. What a run reports is the number of its lines that begin with
    WRONG; a failed [assert] leaves the program. *)

From S2P Require Import Prelude CString Memory MuduoDate TimeZone.

Open Scope Z_scope.

(** ** Times as text *)

(** A conversion of [strptime]: white space, a character, or a number of at most
    [w] digits in a range with the member it sets. *)
Inductive directive :=
  | DSpace
  | DChar (c : ascii)
  | DNum (w : nat) (lo hi : Z) (set : Z → utc_tm → utc_tm).

Definition no_tm : utc_tm :=
  {| utc_year := 0; utc_mon := 0; utc_mday := 0; utc_hour := 0; utc_min := 0; utc_sec := 0;
     utc_wday := 0; utc_yday := 0 |}.
Definition set_year y u := {| utc_year := y - 1900; utc_mon := utc_mon u; utc_mday := utc_mday u;
  utc_hour := utc_hour u; utc_min := utc_min u; utc_sec := utc_sec u; utc_wday := 0; utc_yday := 0 |}.
Definition set_mon m u := {| utc_year := utc_year u; utc_mon := m - 1; utc_mday := utc_mday u;
  utc_hour := utc_hour u; utc_min := utc_min u; utc_sec := utc_sec u; utc_wday := 0; utc_yday := 0 |}.
Definition set_mday d u := {| utc_year := utc_year u; utc_mon := utc_mon u; utc_mday := d;
  utc_hour := utc_hour u; utc_min := utc_min u; utc_sec := utc_sec u; utc_wday := 0; utc_yday := 0 |}.
Definition set_hour h u := {| utc_year := utc_year u; utc_mon := utc_mon u; utc_mday := utc_mday u;
  utc_hour := h; utc_min := utc_min u; utc_sec := utc_sec u; utc_wday := 0; utc_yday := 0 |}.
Definition set_min m u := {| utc_year := utc_year u; utc_mon := utc_mon u; utc_mday := utc_mday u;
  utc_hour := utc_hour u; utc_min := m; utc_sec := utc_sec u; utc_wday := 0; utc_yday := 0 |}.
Definition set_sec s u := {| utc_year := utc_year u; utc_mon := utc_mon u; utc_mday := utc_mday u;
  utc_hour := utc_hour u; utc_min := utc_min u; utc_sec := s; utc_wday := 0; utc_yday := 0 |}.

(** It stops at the first conversion that does not match. The days of the week and
    of the year, which are also derived, are never read from such a [tm]. *)
Fixpoint strptime (f : list directive) (s : bytes) (u : utc_tm) : utc_tm :=
  match f with
  | [] => u
  | DSpace :: f => strptime f (drop_while is_space s) u
  | DChar c :: f =>
      match s with
      | x :: s => if decide (x = c) then strptime f s u else u
      | [] => u
      end
  | DNum w lo hi set :: f =>
      let s := drop_while is_space s in
      let ds := take_while is_digit (take w s) in
      let v := scan_digits 0 ds in
      if decide (ds ≠ [] ∧ lo ≤ v ≤ hi) then strptime f (drop (length ds) s) (set v u) else u
  end.

(** "%F %T". *)
Definition format_FT : list directive :=
  [DNum 4 0 9999 set_year; DChar "-"%char; DNum 2 1 12 set_mon; DChar "-"%char;
   DNum 2 1 31 set_mday; DSpace; DNum 2 0 23 set_hour; DChar ":"%char; DNum 2 0 59 set_min;
   DChar ":"%char; DNum 2 0 61 set_sec].

Definition getTm (str : bytes) : utc_tm := strptime format_FT str no_tm.

(** "%F %T" the other way round. *)
Definition text_FT (u : utc_tm) : bytes :=
  print_d (utc_year u + 1900) ++ lit "-" ++ print_pad 2 (utc_mon u + 1) ++ lit "-" ++
  print_pad 2 (utc_mday u) ++ lit " " ++ print_pad 2 (utc_hour u) ++ lit ":" ++
  print_pad 2 (utc_min u) ++ lit ":" ++ print_pad 2 (utc_sec u).

(** "%z(%Z)". *)
Definition text_zZ (gmtoff : Z) (name : bytes) : bytes :=
  lit (if gmtoff <? 0 then "-" else "+") ++ print_pad 2 (Z.abs gmtoff / 3600) ++
  print_pad 2 (Z.abs gmtoff / 60 mod 60) ++ lit "(" ++ name ++ lit ")".

(** [strftime(buf, n, ...)]: where the text does not fit the buffer is
    indeterminate. *)
Definition strftime (n : Z) (text : bytes) : outcome bytes :=
  if decide (zlen text < n) then mret text else Undef Uninitialised.

(** [tm_zone] points into the names of the zone. *)
Definition zone_name (z : TimeZone) (i : Z) : outcome bytes :=
  d ← the_data z;
  c_string (drop (Z.to_nat i) ((byte_of <$> abbreviation d) ++ [NUL])).
Definition local_text (z : TimeZone) (t : local_tm) : outcome bytes :=
  name ← zone_name z (tm_zone t);
  strftime 256 (text_FT (tm t) ++ text_zZ (tm_gmtoff t) name).

(** ** The cases *)

Record TestCase := { tc_gmt : bytes; tc_local : bytes; tc_isdst : bool }.

Section test.
Context (localtime_r : Z → utc_tm) (timegm : utc_tm → Z).

Definition getGmt (str : bytes) : Z := timegm (getTm str).

Definition test (tz : TimeZone) (tc : TestCase) : outcome Z :=
  let gmt := getGmt (tc_gmt tc) in
  local ← toLocalTime localtime_r tz gmt;
  buf ← local_text tz local;
  let wrong := if decide (buf ≠ tc_local tc ∨ Z.b2z (tc_isdst tc) ≠ tm_isdst local)
               then 1 else 0 in
  let local := {| tm := getTm (tc_local tc); tm_isdst := Z.b2z (tc_isdst tc);
                  tm_gmtoff := 0; tm_zone := 0 |} in
  result ← fromLocalTime localtime_r timegm tz local;
  if decide (result ≠ gmt) then
    local2 ← toLocalTime localtime_r tz result;
    _ ← local_text tz local2;
    mret (wrong + 1)
  else mret wrong.

Fixpoint test_all (tz : TimeZone) (cases : list TestCase) : outcome Z :=
  match cases with
  | [] => mret 0
  | tc :: cases => w ← test tz tc; ws ← test_all tz cases; mret (w + ws)
  end.
End test.

Definition case (gmt local : string) (isdst : bool) : TestCase :=
  {| tc_gmt := lit gmt; tc_local := lit local; tc_isdst := isdst |}.

Definition cases_NewYork : list TestCase := [
  case "2006-03-07 00:00:00" "2006-03-06 19:00:00-0500(EST)" false;
  case "2006-04-02 06:59:59" "2006-04-02 01:59:59-0500(EST)" false;
  case "2006-04-02 07:00:00" "2006-04-02 03:00:00-0400(EDT)" true;
  case "2006-05-01 00:00:00" "2006-04-30 20:00:00-0400(EDT)" true;
  case "2006-05-02 01:00:00" "2006-05-01 21:00:00-0400(EDT)" true;
  case "2006-10-21 05:00:00" "2006-10-21 01:00:00-0400(EDT)" true;
  case "2006-10-29 05:59:59" "2006-10-29 01:59:59-0400(EDT)" true;
  case "2006-10-29 06:00:00" "2006-10-29 01:00:00-0500(EST)" false;
  case "2006-10-29 06:59:59" "2006-10-29 01:59:59-0500(EST)" false;
  case "2006-12-31 06:00:00" "2006-12-31 01:00:00-0500(EST)" false;
  case "2007-01-01 00:00:00" "2006-12-31 19:00:00-0500(EST)" false;
  case "2007-03-07 00:00:00" "2007-03-06 19:00:00-0500(EST)" false;
  case "2007-03-11 06:59:59" "2007-03-11 01:59:59-0500(EST)" false;
  case "2007-03-11 07:00:00" "2007-03-11 03:00:00-0400(EDT)" true;
  case "2007-05-01 00:00:00" "2007-04-30 20:00:00-0400(EDT)" true;
  case "2007-05-02 01:00:00" "2007-05-01 21:00:00-0400(EDT)" true;
  case "2007-10-31 05:00:00" "2007-10-31 01:00:00-0400(EDT)" true;
  case "2007-11-04 05:59:59" "2007-11-04 01:59:59-0400(EDT)" true;
  case "2007-11-04 06:00:00" "2007-11-04 01:00:00-0500(EST)" false;
  case "2007-11-04 06:59:59" "2007-11-04 01:59:59-0500(EST)" false;
  case "2007-12-31 06:00:00" "2007-12-31 01:00:00-0500(EST)" false;
  case "2008-01-01 00:00:00" "2007-12-31 19:00:00-0500(EST)" false;
  case "2009-03-07 00:00:00" "2009-03-06 19:00:00-0500(EST)" false;
  case "2009-03-08 06:59:59" "2009-03-08 01:59:59-0500(EST)" false;
  case "2009-03-08 07:00:00" "2009-03-08 03:00:00-0400(EDT)" true;
  case "2009-05-01 00:00:00" "2009-04-30 20:00:00-0400(EDT)" true;
  case "2009-05-02 01:00:00" "2009-05-01 21:00:00-0400(EDT)" true;
  case "2009-10-31 05:00:00" "2009-10-31 01:00:00-0400(EDT)" true;
  case "2009-11-01 05:59:59" "2009-11-01 01:59:59-0400(EDT)" true;
  case "2009-11-01 06:00:00" "2009-11-01 01:00:00-0500(EST)" false;
  case "2009-11-01 06:59:59" "2009-11-01 01:59:59-0500(EST)" false;
  case "2009-12-31 06:00:00" "2009-12-31 01:00:00-0500(EST)" false;
  case "2010-01-01 00:00:00" "2009-12-31 19:00:00-0500(EST)" false;
  case "2010-03-13 00:00:00" "2010-03-12 19:00:00-0500(EST)" false;
  case "2010-03-14 06:59:59" "2010-03-14 01:59:59-0500(EST)" false;
  case "2010-03-14 07:00:00" "2010-03-14 03:00:00-0400(EDT)" true;
  case "2010-05-01 00:00:00" "2010-04-30 20:00:00-0400(EDT)" true;
  case "2010-05-02 01:00:00" "2010-05-01 21:00:00-0400(EDT)" true;
  case "2010-11-06 05:00:00" "2010-11-06 01:00:00-0400(EDT)" true;
  case "2010-11-07 05:59:59" "2010-11-07 01:59:59-0400(EDT)" true;
  case "2010-11-07 06:00:00" "2010-11-07 01:00:00-0500(EST)" false;
  case "2010-11-07 06:59:59" "2010-11-07 01:59:59-0500(EST)" false;
  case "2010-12-31 06:00:00" "2010-12-31 01:00:00-0500(EST)" false;
  case "2011-01-01 00:00:00" "2010-12-31 19:00:00-0500(EST)" false;
  case "2011-03-01 00:00:00" "2011-02-28 19:00:00-0500(EST)" false;
  case "2011-03-13 06:59:59" "2011-03-13 01:59:59-0500(EST)" false;
  case "2011-03-13 07:00:00" "2011-03-13 03:00:00-0400(EDT)" true;
  case "2011-05-01 00:00:00" "2011-04-30 20:00:00-0400(EDT)" true;
  case "2011-05-02 01:00:00" "2011-05-01 21:00:00-0400(EDT)" true;
  case "2011-11-06 05:59:59" "2011-11-06 01:59:59-0400(EDT)" true;
  case "2011-11-06 06:00:00" "2011-11-06 01:00:00-0500(EST)" false;
  case "2011-11-06 06:59:59" "2011-11-06 01:59:59-0500(EST)" false;
  case "2011-12-31 06:00:00" "2011-12-31 01:00:00-0500(EST)" false;
  case "2012-01-01 00:00:00" "2011-12-31 19:00:00-0500(EST)" false].

Definition cases_London : list TestCase := [
  case "2011-03-26 00:00:00" "2011-03-26 00:00:00+0000(GMT)" false;
  case "2011-03-27 00:59:59" "2011-03-27 00:59:59+0000(GMT)" false;
  case "2011-03-27 01:00:00" "2011-03-27 02:00:00+0100(BST)" true;
  case "2011-10-30 00:59:59" "2011-10-30 01:59:59+0100(BST)" true;
  case "2011-10-30 01:00:00" "2011-10-30 01:00:00+0000(GMT)" false;
  case "2012-10-30 01:59:59" "2012-10-30 01:59:59+0000(GMT)" false;
  case "2011-12-31 22:00:00" "2011-12-31 22:00:00+0000(GMT)" false;
  case "2012-01-01 00:00:00" "2012-01-01 00:00:00+0000(GMT)" false;
  case "2012-03-24 00:00:00" "2012-03-24 00:00:00+0000(GMT)" false;
  case "2012-03-25 00:59:59" "2012-03-25 00:59:59+0000(GMT)" false;
  case "2012-03-25 01:00:00" "2012-03-25 02:00:00+0100(BST)" true;
  case "2012-10-28 00:59:59" "2012-10-28 01:59:59+0100(BST)" true;
  case "2012-10-28 01:00:00" "2012-10-28 01:00:00+0000(GMT)" false;
  case "2012-10-28 01:59:59" "2012-10-28 01:59:59+0000(GMT)" false;
  case "2012-12-31 22:00:00" "2012-12-31 22:00:00+0000(GMT)" false;
  case "2013-01-01 00:00:00" "2013-01-01 00:00:00+0000(GMT)" false].

Definition cases_HongKong : list TestCase := [
  case "2011-04-03 00:00:00" "2011-04-03 08:00:00+0800(HKT)" false].

Definition cases_Sydney : list TestCase := [
  case "2011-01-01 00:00:00" "2011-01-01 11:00:00+1100(EST)" true;
  case "2011-04-02 15:59:59" "2011-04-03 02:59:59+1100(EST)" true;
  case "2011-04-02 16:00:00" "2011-04-03 02:00:00+1000(EST)" false;
  case "2011-04-02 16:59:59" "2011-04-03 02:59:59+1000(EST)" false;
  case "2011-05-02 01:00:00" "2011-05-02 11:00:00+1000(EST)" false;
  case "2011-10-01 15:59:59" "2011-10-02 01:59:59+1000(EST)" false;
  case "2011-10-01 16:00:00" "2011-10-02 03:00:00+1100(EST)" true;
  case "2011-12-31 22:00:00" "2012-01-01 09:00:00+1100(EST)" true].

Section unittest.
Context (localtime_r : Z → utc_tm) (timegm : utc_tm → Z) (gmtime : Z → utc_tm).

(** [file] is the content of the zone file. *)
Definition test_file (file : option (list Z)) (cases : list TestCase) : outcome Z :=
  tz ← TimeZone_file file; test_all localtime_r timegm tz cases.
Definition testNewYork file : outcome Z := test_file file cases_NewYork.
Definition testLondon file : outcome Z := test_file file cases_London.
Definition testHongKong file : outcome Z := test_file file cases_HongKong.
Definition testSydney file : outcome Z := test_file file cases_Sydney.

Definition testFixedTimezone : outcome Z :=
  test_all localtime_r timegm (TimeZone_fixed (8 * 3600) (char_code <$> lit "CST"))
    [case "2014-04-03 00:00:00" "2014-04-03 08:00:00+0800(CST)" false].

(** "%F %T %u %j". *)
Definition text_FTuj (u : utc_tm) : bytes :=
  text_FT u ++ lit " " ++ print_d (if decide (utc_wday u = 0) then 7 else utc_wday u) ++
  lit " " ++ print_pad 3 (utc_yday u + 1).

Definition utc_turn (kRange t : Z) : outcome (turn Z unit) :=
  if decide (t ≤ kRange) then
    t2 ← toUtcTime t true;
    buf1 ← strftime 80 (text_FTuj (gmtime t));
    buf2 ← strftime 80 (text_FTuj t2);
    _ ← assertion (bool_decide (buf1 = buf2));
    t3 ← fromUtcTime_tm t2;
    _ ← assertion (bool_decide (t = t3));
    t ← long_ (t + 11);
    mret (Next t)
  else mret (Stop tt).
Definition testUtc (kRange : Z) : outcome unit :=
  loop (S (S (Z.to_nat (2 * kRange)))) (utc_turn kRange) (- kRange).

(** The number of lines with WRONG. *)
Definition TimeZone_unittest (new_york london sydney hong_kong : option (list Z)) : outcome Z :=
  a ← testNewYork new_york; b ← testLondon london; c ← testSydney sydney;
  d ← testHongKong hong_kong; e ← testFixedTimezone;
  _ ← testUtc (100 * 1000 * 1000);
  mret (a + b + c + d + e).
End unittest.

(** ** The rules of a zone *)

(** The second of UTC that a civil time names, for dates of the calendar. *)
Definition tm_date (u : utc_tm) : YearMonthDay :=
  {| ymd_year := utc_year u + 1900; ymd_month := utc_mon u + 1; ymd_day := utc_mday u |}.
Definition civil_second (u : utc_tm) : Z :=
  (jdn (tm_date u) - 2440588) * kSecondsPerDay + utc_hour u * 3600 + utc_min u * 60 + utc_sec u.

#[local] Opaque civil_second.

(** From a second of UTC on, an offset, whether it is summer time, and a name. *)
Record rule := { r_since : bytes; r_offset : Z; r_dst : bool; r_name : bytes }.
Definition since (t : string) (offset : Z) (dst : bool) (name : string) : rule :=
  {| r_since := lit t; r_offset := offset; r_dst := dst; r_name := lit name |}.

(** When a rule begins, on the clock of UTC or on its own. *)
Definition r_key (utc : bool) (r : rule) : Z :=
  let t := civil_second (getTm (r_since r)) in if utc then t else t + r_offset r.

(** The rule at a time: [r] until the next one begins. *)
Fixpoint rule_at (utc : bool) (r : rule) (rs : list rule) (time : Z) : rule :=
  match rs with
  | [] => r
  | r' :: rs => if r_key utc r' <=? time then rule_at utc r' rs time else r
  end.

(** An entry and a transition of a zone file as a rule says. *)
Record entry_of (d : Data) (r : rule) (l : Localtime) : Prop := {
  entry_offset : gmtOffset l = r_offset r;
  entry_dst : isDst l = r_dst r;
  entry_index : arrbIdx l ≤ zlen (abbreviation d);
  entry_name : zone_name (Some d) (arrbIdx l) = Ret (r_name r)
}.
Definition begins (d : Data) (r : rule) (t : Transition) : Prop :=
  gmttime t = r_key true r ∧ entry_of d r (rd (localtimes d) (localtimeIdx t)).

(** A zone file whose transitions up to [hi] end with the rules [r :: rs]. *)
Definition obeys (d : Data) (r : rule) (rs : list rule) (hi : Z) : Prop :=
  usable d ∧ ∃ before t mid after, transitions d = before ++ t :: mid ++ after ∧
    begins d r t ∧ Forall2 (begins d) rs mid ∧
    Forall (λ u, hi < gmttime u ∧ hi < localtime u) after.

Lemma in_force_past g e before t ts time :
  chronological g (before ++ t :: ts) → key g t ≤ time →
  in_force g e (before ++ t :: ts) time = in_force g (localtimeIdx t) ts time.
Proof.
  intros Hs Ht. revert e. induction before as [|b before IH]; intros e; cbn [app in_force].
  - by destruct (Z.leb_spec (key g t) time); [|lia].
  - inversion_clear Hs as [|? ? Hs' Hb]. rewrite Forall_forall in Hb.
    specialize (Hb t ltac:(set_solver)). destruct (Z.leb_spec (key g b) time); [|lia]. by apply IH.
Qed.

Lemma in_force_future g e mid after time :
  Forall (λ u, time < key g u) after →
  in_force g e (mid ++ after) time = in_force g e mid time.
Proof.
  intros Ha. revert e. induction mid as [|t mid IH]; intros e; cbn [app in_force].
  - destruct Ha as [|u after Hu]; [done|]. cbn. by destruct (Z.leb_spec (key g u) time); [lia|].
  - by rewrite !IH.
Qed.

Lemma begins_key d r t g :
  usable d → t ∈ transitions d → begins d r t → key g t = r_key g r.
Proof.
  intros ((_ & _ & _ & _ & Hts) & _) Hin [Ht [Ho _ _ _]].
  rewrite Forall_forall in Hts. destruct (Hts t Hin) as (_ & _ & Hl).
  unfold r_key in *. set (c := civil_second (getTm (r_since r))) in *. clearbody c.
  destruct g; cbn [key]; lia.
Qed.

Lemma in_force_rule d g r rs i mid time :
  usable d → (∀ u, u ∈ mid → u ∈ transitions d) → Forall2 (begins d) rs mid →
  entry_of d r (rd (localtimes d) i) →
  entry_of d (rule_at g r rs time) (rd (localtimes d) (in_force g i mid time)).
Proof.
  intros Hd Hin Hm. revert r i. induction Hm as [|r' t rs mid Hb _ IH]; intros r i Hr; [done|].
  cbn [in_force rule_at]. rewrite (begins_key d r' t g) by (auto; set_solver).
  destruct (r_key g r' <=? time); [|done]. apply IH; [set_solver|]. apply Hb.
Qed.

(** The look-up on either clock finds an entry as the rules say. *)
Definition follows (d : Data) (r : rule) (rs : list rule) (hi : Z) : Prop :=
  ∀ v g, r_key g r ≤ key g v ≤ hi →
  ∃ l, findLocaltime d v g = Ret l ∧ entry_of d (rule_at g r rs (key g v)) l.

Lemma obeys_follows d r rs hi : obeys d r rs hi → follows d r rs hi.
Proof.
  intros [Hd (before & t & mid & after & Et & Hb & Hm & Ha)] v g Hk.
  assert (Hkt : key g t = r_key g r).
  { apply (begins_key d); [done| |done]. rewrite Et. set_solver. }
  assert (Hs : chronological g (transitions d)) by (destruct Hd as (_ & _ & ? & ?); by destruct g).
  rewrite findLocaltime_eq by done.
  assert (Hi : in_force g 0 (transitions d) (key g v) = in_force g (localtimeIdx t) mid (key g v)).
  { rewrite Et in Hs |- *. rewrite in_force_past by (done || lia). apply in_force_future.
    eapply Forall_impl; [exact Ha|]. intros u Hu. destruct g; cbn [key] in *; lia. }
  eexists. split.
  - apply aget_ok. apply in_force_range.
    + destruct Hd as (_ & Hne & _). destruct (localtimes d); [done|]. unfold zlen. cbn. lia.
    + destruct Hd as ((_ & _ & _ & _ & Hts) & _). eapply Forall_impl; [exact Hts|]. by intros ? (_ & ? & _).
  - rewrite Hi. apply in_force_rule; [done| |done|apply Hb]. intros u Hu. rewrite Et. set_solver.
Qed.

(** ** A case by the rules *)

#[export] Instance utc_range_dec t : Decision (utc_range t).
Proof. unfold utc_range. apply _. Defined.

(** The time shown under a rule, and the conditions under which it is one. *)
Definition shown (r : rule) (t : Z) : utc_tm := utc_of (t + r_offset r) false.
Definition shown_text (r : rule) (t : Z) : bytes :=
  text_FT (shown r t) ++ text_zZ (r_offset r) (r_name r).
Definition in_window (utc : bool) (r : rule) (hi t : Z) : bool :=
  bool_decide (r_key utc r ≤ t ≤ hi) && bool_decide (utc_range t).
Definition can_show (r : rule) (t : Z) : bool :=
  bool_decide (utc_range (t + r_offset r)) && bool_decide (in_long (t + r_offset r)).

(** The second that a local time names; in an hour shown twice, the earlier one
    for a summer time. *)
Definition rule_second (r : rule) (rs : list rule) (dst : bool) (u : utc_tm) : Z :=
  let s := civil_second u in
  let l := rule_at false r rs s in
  let utc := s - r_offset l in
  let x := rule_at true r rs utc in
  if dst && negb (r_dst x) && (utc_hour (shown x utc) =? utc_hour u)
     && (utc_min (shown x utc) =? utc_min u)
  then utc - 3600 else utc.

(** What is expected of a case, decided by computation. *)
Definition case_right (r : rule) (rs : list rule) (hi : Z) (tc : TestCase) : bool :=
  let u := getTm (tc_gmt tc) in
  let gmt := civil_second u in
  let x := rule_at true r rs gmt in
  let v := getTm (tc_local tc) in
  let s := civil_second v in
  let l := rule_at false r rs s in
  let utc := s - r_offset l in
  let y := rule_at true r rs utc in
  bool_decide (valid_date (tm_date u)) && bool_decide (valid_date (tm_date v)) &&
  in_window true r hi gmt && can_show x gmt && in_window false r hi s &&
  in_window true r hi utc && can_show y utc &&
  bool_decide (zlen (shown_text x gmt) < 256) &&
  bool_decide (shown_text x gmt = tc_local tc) && Bool.eqb (tc_isdst tc) (r_dst x) &&
  (rule_second r rs (tc_isdst tc) v =? gmt).

Lemma hour_before_long t : utc_range t → in_long (t - 3600).
Proof.
  unfold utc_range, in_long, MIN_JDN, MAX_JDN, LONG_MIN, LONG_MAX, kSecondsPerDay.
  intros. Z.div_mod_to_equations. lia.
Qed.

Section rules.
Context (localtime_r : Z → utc_tm) (timegm : utc_tm → Z).
Context (localtime_utc : ∀ t, utc_range t → localtime_r t = utc_of t false).
Context (timegm_civil : ∀ u, valid_date (tm_date u) → timegm u = civil_second u).
Context (d : Data) (r : rule) (rs : list rule) (hi : Z) (Hd : follows d r rs hi).

Lemma toLocalTime_rule t :
  let x := rule_at true r rs t in
  in_window true r hi t = true → can_show x t = true →
  ∃ i, toLocalTime localtime_r (Some d) t =
    Ret {| tm := shown x t; tm_isdst := Z.b2z (r_dst x); tm_gmtoff := r_offset x; tm_zone := i |} ∧
    zone_name (Some d) i = Ret (r_name x).
Proof.
  intros x Hw Hc. unfold in_window, can_show in *. apply andb_true_iff in Hw as [Hw _], Hc as [Hr Hl].
  apply bool_decide_eq_true in Hw, Hr, Hl.
  destruct (Hd {| gmttime := t; localtime := 0; localtimeIdx := 0 |} true Hw)
    as (l & Hl' & [Ho Hdst Hi Hn]). cbn [key gmttime] in *.
  exists (arrbIdx l). split; [|done]. unfold toLocalTime, the_data. rewrite mret_bind, Hl', Ret_bind.
  fold x in Ho, Hdst, Hn. rewrite Ho, long_bind by done.
  destruct (Z.ltb_spec (zlen (abbreviation d)) (arrbIdx l)); [lia|].
  by rewrite localtime_utc, Hdst by done.
Qed.

Lemma fromLocalTime_rule u (dst : bool) :
  let s := civil_second u in
  let l := rule_at false r rs s in
  let utc := s - r_offset l in
  valid_date (tm_date u) → in_window false r hi s = true →
  in_window true r hi utc = true → can_show (rule_at true r rs utc) utc = true →
  fromLocalTime localtime_r timegm (Some d)
    {| tm := u; tm_isdst := Z.b2z dst; tm_gmtoff := 0; tm_zone := 0 |} =
  Ret (rule_second r rs dst u).
Proof.
  intros s l utc Hu Hs Hw Hc. unfold fromLocalTime, the_data. rewrite mret_bind. cbn [tm tm_isdst].
  rewrite timegm_civil by done. fold s. unfold in_window in Hs. apply andb_true_iff in Hs as [Hs Hr].
  apply bool_decide_eq_true in Hs, Hr.
  destruct (Hd {| gmttime := 0; localtime := s; localtimeIdx := 0 |} false Hs)
    as (e & -> & [Ho _ _ _]). cbn [key localtime] in Ho. fold l in Ho. rewrite Ret_bind, Ho.
  fold utc. destruct (toLocalTime_rule utc Hw Hc) as (i & Ht & _).
  assert (Hl : in_long utc).
  { unfold in_window in Hw. apply andb_true_iff in Hw as [_ Hw]. apply bool_decide_eq_true in Hw.
    by apply utc_range_long. }
  set (y := rule_at true r rs utc) in *. unfold rule_second. fold s l utc y.
  assert (Hl1 : in_long (s - 3600)) by by apply hour_before_long.
  assert (Hl2 : in_long (utc - 3600)).
  { unfold in_window in Hw. apply andb_true_iff in Hw as [_ Hw]. apply bool_decide_eq_true in Hw.
    by apply hour_before_long. }
  destruct dst; cbn [Z.b2z andb].
  - rewrite decide_True, long_bind, Ht, Ret_bind by done. cbn [tm tm_isdst].
    replace (Z.b2z (r_dst y) =? 0) with (negb (r_dst y)) by by destruct (r_dst y).
    destruct (negb (r_dst y) && _ && _).
    + rewrite long_bind by done. unfold long_. replace (s - 3600 - r_offset l) with (utc - 3600) by (subst utc; lia).
      by rewrite decide_True.
    + rewrite mret_bind. unfold long_. by rewrite decide_True.
  - rewrite decide_False, mret_bind by (intros H; by apply H). unfold long_. by rewrite decide_True.
Qed.

Lemma test_right tc : case_right r rs hi tc = true → test localtime_r timegm (Some d) tc = Ret 0.
Proof.
  unfold case_right. rewrite !andb_true_iff, !bool_decide_eq_true, Z.eqb_eq, Bool.eqb_true_iff.
  intros ((((((((((Hu & Hv) & Hw) & Hc) & Hs) & Hw') & Hc') & Hlen) & Htext) & Hdst) & Hsec).
  unfold test, getGmt. rewrite timegm_civil by done.
  destruct (toLocalTime_rule _ Hw Hc) as (i & -> & Hn). rewrite Ret_bind. unfold local_text.
  cbn [tm_zone tm tm_gmtoff tm_isdst]. rewrite Hn, Ret_bind. unfold strftime.
  change (text_FT (shown ?x ?t) ++ text_zZ (r_offset ?x) (r_name ?x)) with (shown_text x t).
  rewrite decide_True by done. rewrite mret_bind, fromLocalTime_rule, Ret_bind, Hsec by done.
  rewrite decide_False by (intros H; by apply H). rewrite decide_False; [done|].
  rewrite Htext, Hdst. intros [H|H]; by apply H.
Qed.

Lemma test_all_right cases :
  Forall (λ tc, case_right r rs hi tc = true) cases →
  test_all localtime_r timegm (Some d) cases = Ret 0.
Proof.
  induction 1 as [|tc cases Hc _ IH]; [done|]. cbn [test_all].
  by rewrite test_right, Ret_bind, IH by done.
Qed.
End rules.

(** ** The seconds of UTC *)

Lemma text_FT_short t yday :
  utc_range t → zlen (text_FT (utc_of t yday)) ≤ 36.
Proof.
  intros Ht. destruct (utc_of_fields t yday Ht) as ((_ & Hm & Hd) & Hh & Hmin & Hsec).
  cbn [ymd_year ymd_month ymd_day] in Hm, Hd.
  pose proof (days_in_month_bounds (utc_year (utc_of t yday) + 1900) (utc_mon (utc_of t yday) + 1)).
  unfold text_FT. rewrite !zlen_app, !print_pad_2 by lia.
  pose proof (print_d_short (utc_year (utc_of t yday) + 1900)).
  change (zlen (lit "-")) with 1. change (zlen (lit " ")) with 1. change (zlen (lit ":")) with 1. lia.
Qed.

Lemma text_FTuj_short t : utc_range t → zlen (text_FTuj (utc_of t true)) < 80.
Proof.
  intros Ht. unfold text_FTuj. rewrite !zlen_app. pose proof (text_FT_short t true Ht).
  pose proof (print_pad_short 3 (utc_yday (utc_of t true) + 1) ltac:(done)).
  assert (Hw : ∀ n, -7 < n < 8 → zlen (print_d n) ≤ 2).
  { intros n Hn. assert (F : Forall (λ n, zlen (print_d n) ≤ 2) (seqZ (-6) 14)).
    { apply (bool_decide_unpack _). by vm_compute. }
    rewrite Forall_forall in F. apply F, elem_of_seqZ. lia. }
  assert (-7 < utc_wday (utc_of t true) < 7).
  { unfold utc_of. cbn [utc_wday]. pose proof (Z.rem_bound_abs (t / kSecondsPerDay + 2440588 + 1) 7 ltac:(done)). lia. }
  assert (zlen (print_d (if decide (utc_wday (utc_of t true) = 0) then 7
                         else utc_wday (utc_of t true))) ≤ 2) by (apply Hw; case_decide; lia).
  change (zlen (lit " ")) with 1. lia.
Qed.

Lemma testUtc_passes gmtime kRange :
  (∀ t, utc_range t → gmtime t = utc_of t true) →
  0 ≤ kRange → utc_range (- kRange) → utc_range kRange →
  testUtc gmtime kRange = Ret tt.
Proof.
  intros Hg Hk Hlo Hhi.
  enough (wp (testUtc gmtime kRange) (λ _, True)) as (x & -> & _)%wp_iff by by destruct x.
  apply (wp_loop (λ t, - kRange ≤ t) (λ t, Z.to_nat (kRange + 1 - t))); [lia|lia|].
  intros t Ht. unfold utc_turn. case_decide as Hle; [|by apply wp_mret].
  assert (Hr : utc_range t).
  { unfold utc_range in *. pose proof (Z.div_le_mono (- kRange) t kSecondsPerDay ltac:(done) Ht).
    pose proof (Z.div_le_mono t kRange kSecondsPerDay ltac:(done) Hle). lia. }
  rewrite toUtcTime_ok, Ret_bind, Hg by done. unfold strftime.
  rewrite !decide_True by by apply text_FTuj_short. rewrite !mret_bind.
  rewrite bool_decide_true by done. rewrite fromUtcTime_utc_of by done.
  cbn [assertion]. rewrite mret_bind, Ret_bind, bool_decide_true by done. cbn [assertion]. rewrite mret_bind.
  rewrite long_bind; [apply wp_mret; lia|].
  pose proof (hour_before_long t Hr). pose proof (utc_range_long t Hr).
  revert Hr. unfold utc_range, in_long, MIN_JDN, MAX_JDN, LONG_MIN, LONG_MAX, kSecondsPerDay.
  intros. Z.div_mod_to_equations. lia.
Qed.

(** ** The rules of the zones that are tested *)

Definition standard_NewYork : rule := since "2005-10-30 06:00:00" (-18000) false "EST".
Definition rules_NewYork : list rule :=
  [since "2006-04-02 07:00:00" (-14400) true "EDT"; since "2006-10-29 06:00:00" (-18000) false "EST";
   since "2007-03-11 07:00:00" (-14400) true "EDT"; since "2007-11-04 06:00:00" (-18000) false "EST";
   since "2008-03-09 07:00:00" (-14400) true "EDT"; since "2008-11-02 06:00:00" (-18000) false "EST";
   since "2009-03-08 07:00:00" (-14400) true "EDT"; since "2009-11-01 06:00:00" (-18000) false "EST";
   since "2010-03-14 07:00:00" (-14400) true "EDT"; since "2010-11-07 06:00:00" (-18000) false "EST";
   since "2011-03-13 07:00:00" (-14400) true "EDT"; since "2011-11-06 06:00:00" (-18000) false "EST"].
Definition standard_London : rule := since "2010-10-31 01:00:00" 0 false "GMT".
Definition rules_London : list rule :=
  [since "2011-03-27 01:00:00" 3600 true "BST"; since "2011-10-30 01:00:00" 0 false "GMT";
   since "2012-03-25 01:00:00" 3600 true "BST"; since "2012-10-28 01:00:00" 0 false "GMT"].
Definition summer_Sydney : rule := since "2010-10-02 16:00:00" 39600 true "EST".
Definition rules_Sydney : list rule :=
  [since "2011-04-02 16:00:00" 36000 false "EST"; since "2011-10-01 16:00:00" 39600 true "EST"].
Definition standard_HongKong : rule := since "1979-10-20 18:30:00" 28800 false "HKT".
Definition fixed_CST : rule := since "1970-01-01 00:00:00" 28800 false "CST".

(** The second that a text names. *)
Definition at_ (t : string) : Z := civil_second (getTm (lit t)).

(** A zone file whose transitions up to [until] end with the rules. *)
Definition holds_rules (file : option (list Z)) (r : rule) (rs : list rule) (until : string) : Prop :=
  ∃ d, TimeZone_file file = Ret (Some d) ∧ obeys d r rs (at_ until).

Lemma fixed_follows hi :
  follows {| transitions := []; localtimes := [{| gmtOffset := 8 * 3600; isDst := false; arrbIdx := 0 |}];
             abbreviation := char_code <$> lit "CST" |} fixed_CST [] hi.
Proof. intros v g _. eexists. split; [done|]. by split. Qed.

Section passes.
Context (localtime_r : Z → utc_tm) (timegm : utc_tm → Z) (gmtime : Z → utc_tm).
Context (localtime_utc : ∀ t, utc_range t → localtime_r t = utc_of t false).
Context (timegm_civil : ∀ u, valid_date (tm_date u) → timegm u = civil_second u).
Context (gmtime_utc : ∀ t, utc_range t → gmtime t = utc_of t true).

Lemma test_file_right file r rs until cases :
  holds_rules file r rs until →
  forallb (case_right r rs (at_ until)) cases = true →
  test_file localtime_r timegm file cases = Ret 0.
Proof.
  intros (d & Hf & Hd) Hc. unfold test_file. rewrite Hf, Ret_bind.
  apply (test_all_right _ _ localtime_utc timegm_civil d r rs (at_ until)).
  - by apply obeys_follows.
  - apply Forall_forall. rewrite forallb_forall in Hc. intros tc Htc. apply Hc. by apply list_elem_of_In.
Qed.

End passes.

(** ** A witness: files that hold just the rules *)

Definition rule_data (rs : list rule) : Data := {|
  transitions := zip_with (λ i r, {| gmttime := r_key true r; localtime := r_key false r;
                                     localtimeIdx := i |}) (seqZ 0 (zlen rs)) rs;
  localtimes := zip_with (λ i r, {| gmtOffset := r_offset r; isDst := r_dst r;
                                    arrbIdx := 4 * i |}) (seqZ 0 (zlen rs)) rs;
  abbreviation := rs ≫= λ r, (char_code <$> r_name r) ++ [0]
|}.
Definition rule_file (rs : list rule) : option (list Z) := Some (zone_file 0 0 0 (rule_data rs)).

#[export] Instance usable_dec d : Decision (usable d).
Proof. unfold usable, zone_ok, chronological, in_int. apply _. Defined.
Definition begins_check (d : Data) (r : rule) (t : Transition) : bool :=
  let l := rd (localtimes d) (localtimeIdx t) in
  (gmttime t =? r_key true r) && (gmtOffset l =? r_offset r) && Bool.eqb (isDst l) (r_dst r) &&
  (arrbIdx l <=? zlen (abbreviation d)) &&
  match zone_name (Some d) (arrbIdx l) with Ret n => bool_decide (n = r_name r) | _ => false end.

Lemma begins_checked d r t : begins_check d r t = true → begins d r t.
Proof.
  unfold begins_check. rewrite !andb_true_iff, !Z.eqb_eq, Bool.eqb_true_iff, Z.leb_le.
  intros ((((? & ?) & ?) & ?) & E). split; [done|]. split; try done.
  destruct (zone_name _ _); try done. by apply bool_decide_eq_true in E as ->.
Qed.

Lemma begins_all d rs ts :
  forallb id (zip_with (begins_check d) rs ts) = true → length ts = length rs →
  Forall2 (begins d) rs ts.
Proof.
  revert ts. induction rs as [|r rs IH]; intros [|t ts] Hb Hl; try done. cbn in Hb, Hl.
  apply andb_true_iff in Hb as [Hb Hbs]. constructor; [by apply begins_checked|].
  apply IH; [done|lia].
Qed.

Lemma rule_file_holds r rs until :
  let d := rule_data (r :: rs) in
  bool_decide (usable d) && forallb id (zip_with (begins_check d) (r :: rs) (transitions d)) &&
    (length (transitions d) =? S (length rs))%nat = true →
  holds_rules (rule_file (r :: rs)) r rs until.
Proof.
  intros d. rewrite !andb_true_iff, bool_decide_eq_true, Nat.eqb_eq. intros [[Hu Hb] Hl].
  exists d. split.
  - unfold TimeZone_file, readTimeZoneFile, rule_file. rewrite <- (app_nil_r (zone_file _ _ _ _)).
    by rewrite read_zone_reads by (apply Hu || by split).
  - split; [done|].
    assert (Ht : Forall2 (begins d) (r :: rs) (transitions d)).
    { apply begins_all; [done|]. by rewrite Hl. }
    destruct (transitions _) as [|t mid]; [by apply Forall2_cons_nil_inv in Ht|].
    apply Forall2_cons in Ht as [Ht Hm]. exists [], t, mid, []. rewrite app_nil_r. split; [done|]. split; [done|]. split; [done|constructor].
Qed.

