(* ===== verification/QueueTest.v ===== *)
(** The programs that test the blocking queues:
    [log/muduo-clog/muduo/base/tests/BlockingQueue_test.cc] and
    [BoundedBlockingQueue_test.cc].

    The steps of the queue (BlockingQueue.v) and of the latch (Thread.v) are put
    together: client [i] of both is worker [i], and client [n] is the main thread.
    [PutDone] of a client that is in no call stands for that. What is printed is
    left out. *)

From stdpp Require Import relations.
From S2P Require Import Prelude CString Monitor BlockingQueue Thread.

Open Scope Z_scope.

Section queue_test.
Context {T : Type} `{!EqDecision T} (capacity : option nat) (stop : T).

(** The main thread: in [latch_.wait()], with calls of [put] still to make, in
    [joinAll], and behind it. *)
Inductive main_pc := MLatch | MPuts (rest : list T) | MJoin (i : nat) | MDone.

Record test_state := { t_queue : queue_state T; t_latch : latch; t_main : main_pc }.

(** What [run(times)] and [joinAll] put. *)
Definition program (xs : list T) (n : nat) : list T := xs ++ replicate n stop.

Definition set_client (q : queue_state T) (i : nat) (c : client) : queue_state T :=
  with_clients q (<[i:=c]> (clients q)).

(** [n] workers; [xs] are the values of [run]. *)
Inductive test_step (xs : list T) (n : nat) (s : test_state) : test_state → Prop :=
  | latch_moves l :
      latch_step (t_latch s) l →
      test_step xs n s {| t_queue := t_queue s; t_latch := l; t_main := t_main s |}
  | queue_moves q :
      queue_step capacity (t_queue s) q →
      test_step xs n s {| t_queue := q; t_latch := t_latch s; t_main := t_main s |}
  | worker_enters i :                       (* past latch_.countDown() *)
      (i < n)%nat → latch_clients (t_latch s) !! i = Some DownDone →
      clients (t_queue s) !! i = Some PutDone →
      test_step xs n s {| t_queue := set_client (t_queue s) i TakeReady;
                          t_latch := t_latch s; t_main := t_main s |}
  | worker_loops i x :                      (* running = (d != "stop") *)
      (i < n)%nat → clients (t_queue s) !! i = Some (TakeDone x) → x ≠ stop →
      test_step xs n s {| t_queue := set_client (t_queue s) i TakeReady;
                          t_latch := t_latch s; t_main := t_main s |}
  | main_passes :
      t_main s = MLatch → latch_clients (t_latch s) !! n = Some WaitDone →
      test_step xs n s {| t_queue := t_queue s; t_latch := t_latch s;
                          t_main := MPuts (program xs n) |}
  | main_puts x rest :
      t_main s = MPuts (x :: rest) → clients (t_queue s) !! n = Some PutDone →
      test_step xs n s {| t_queue := set_client (t_queue s) n (PutReady x);
                          t_latch := t_latch s; t_main := MPuts rest |}
  | main_has_put :
      t_main s = MPuts [] → clients (t_queue s) !! n = Some PutDone →
      test_step xs n s {| t_queue := t_queue s; t_latch := t_latch s; t_main := MJoin 0 |}
  | main_joins i :                          (* the thread function has returned *)
      t_main s = MJoin i → (i < n)%nat → clients (t_queue s) !! i = Some (TakeDone stop) →
      test_step xs n s {| t_queue := t_queue s; t_latch := t_latch s; t_main := MJoin (S i) |}
  | main_ends :
      t_main s = MJoin n →
      test_step xs n s {| t_queue := t_queue s; t_latch := t_latch s; t_main := MDone |}.

Definition test_start (n : nat) : test_state :=
  {| t_queue := {| queue_ := []; clients := replicate (S n) PutDone; puts := []; takes := [] |};
     t_latch := latch_start (Z.of_nat n) n 1; t_main := MLatch |}.

(** ** The invariant *)

Definition rest_of (xs : list T) (n : nat) (m : main_pc) : list T :=
  match m with MLatch => program xs n | MPuts rest => rest | _ => [] end.

(** Workers only take and the main thread only puts. *)
Definition role (n i : nat) (c : client (T:=T)) : Prop :=
  match c with
  | PutDone => True
  | PutReady _ | PutWaiting _ => i = n
  | TakeReady | TakeWaiting | TakeDone _ => (i < n)%nat
  end.

Definition took_stop (c : client) : Z :=
  match c with TakeDone x => if decide (x = stop) then 1 else 0 | _ => 0 end.
Definition is_stop (x : T) : Z := if decide (x = stop) then 1 else 0.

Definition main_ok (xs : list T) (n : nat) (s : test_state) : Prop :=
  match t_main s with
  | MLatch | MPuts _ => True
  | MJoin i => (i ≤ n)%nat ∧ clients (t_queue s) !! n = Some PutDone
  | MDone => clients (t_queue s) !! n = Some PutDone
  end.

Record test_ok (xs : list T) (n : nat) (s : test_state) : Prop := {
  ok_queue : ∃ started k, queue_ok capacity started k (t_queue s);
  ok_latch : rtc (λ l l', latch_step l l' ∨ latch_spurious l l')
               (latch_start (Z.of_nat n) n 1) (t_latch s);
  ok_length : length (clients (t_queue s)) = S n;
  ok_roles : ∀ i c, clients (t_queue s) !! i = Some c → role n i c;
  ok_order : puts (t_queue s) ++ option_list (clients (t_queue s) !! n ≫= put_value) ++
             rest_of xs n (t_main s) = program xs n;
  ok_stops : tally is_stop (takes (t_queue s)) = tally took_stop (clients (t_queue s));
  ok_main : main_ok xs n s
}.

(** The calls in progress are those of the invariant of the queue, which a new
    call extends. *)
Lemma queue_ok_take started k q i c :
  queue_ok capacity started k q → clients q !! i = Some c → (c = PutDone ∨ ∃ x, c = TakeDone x) →
  queue_ok capacity started (S k) (set_client q i TakeReady).
Proof.
  intros (Hfifo & Hval & Hcount & Htake & Hput) Hi Hc.
  unfold queue_ok, set_client. cbn [clients queue_ puts takes with_clients].
  assert (E : put_value c = put_value (T:=T) TakeReady ∧ take_ready c = 0 ∧ take_waiting c = 0 ∧
              put_ready c = 0 ∧ put_waiting c = 0) by by destruct Hc as [->|[x ->]].
  destruct E as (Ev & E1 & E2 & E3 & E4).
  rewrite (omap_insert_same put_value _ i _ _ Hi Ev), !(tally_insert _ _ _ _ _ Hi), E1, E2, E3, E4.
  cbn [put_ready put_waiting take_ready take_waiting].
  split_and!; [done|done|lia|lia|]. destruct capacity; [split|]; lia.
Qed.

Lemma queue_ok_put started k q i x :
  queue_ok capacity started k q → clients q !! i = Some PutDone →
  queue_ok capacity (x :: started) k (set_client q i (PutReady x)).
Proof.
  intros (Hfifo & Hval & Hcount & Htake & Hput) Hi.
  unfold queue_ok, set_client. cbn [clients queue_ puts takes with_clients].
  pose proof (omap_insert_perm put_value _ i _ (PutReady x) Hi) as Hv. cbn in Hv.
  rewrite Hv, !(tally_insert _ _ _ _ _ Hi).
  cbn [put_ready put_waiting take_ready take_waiting].
  split_and!; [done|by rewrite <- Hval|lia|lia|]. destruct capacity; [split|]; lia.
Qed.

Lemma fmap_bind_eq (cs cs' : list client) i :
  put_value (T:=T) <$> cs' !! i = put_value <$> cs !! i → cs' !! i ≫= put_value = cs !! i ≫= put_value.
Proof. destruct (cs' !! i), (cs !! i); cbn; congruence. Qed.

(** A notification of the queue leaves the clients their roles and values. *)
Lemma notify_clients n wake cs cs' :
  wake = wake_put ∨ wake = wake_take → notify wake cs cs' →
  (∀ i c, cs !! i = Some c → role n i c) →
  length cs' = length cs ∧ (∀ i c, cs' !! i = Some c → role n i c) ∧
  (∀ i, cs !! i = Some PutDone → cs' !! i = Some PutDone) ∧
  cs' !! n ≫= put_value = cs !! n ≫= put_value ∧ tally took_stop cs' = tally took_stop cs.
Proof.
  intros Hw Hn Hr.
  assert (Hat : ∀ B (f : client (T:=T) → B), (∀ x, f (PutWaiting x) = f (PutReady x)) →
    f TakeWaiting = f TakeReady → ∀ c c', wake c = Some c' → f c = f c').
  { intros B f Hp Ht c c' Hc. destruct Hw as [->| ->]; destruct c; simplify_eq/=; auto. }
  split_and!.
  - by eapply notify_length.
  - intros i c Hi. destruct (notify_lookup _ _ _ _ _ Hn Hi) as [H|(c0 & H & Hc)]; [by apply Hr|].
    apply Hr in H. destruct Hw as [->| ->]; destruct c0; simplify_eq/=; done.
  - intros i Hi. set (idle := λ c : client (T:=T), match c with PutDone => true | _ => false end).
    pose proof (notify_at idle _ _ _ i (Hat _ idle ltac:(done) ltac:(done)) Hn) as E.
    rewrite Hi in E. cbn in E. by destruct (cs' !! i) as [[]|].
  - apply fmap_bind_eq. eapply notify_at; [by apply Hat|exact Hn].
  - eapply notify_other; [by apply Hat|exact Hn].
Qed.

(** What a step of the queue leaves of the clients. *)
Lemma queue_step_clients n q q' :
  queue_step capacity q q' → (∀ i c, clients q !! i = Some c → role n i c) →
  length (clients q') = length (clients q) ∧
  (∀ i c, clients q' !! i = Some c → role n i c) ∧
  (∀ i, clients q !! i = Some PutDone → clients q' !! i = Some PutDone) ∧
  puts q' ++ option_list (clients q' !! n ≫= put_value) =
    puts q ++ option_list (clients q !! n ≫= put_value) ∧
  tally is_stop (takes q') - tally took_stop (clients q') =
    tally is_stop (takes q) - tally took_stop (clients q).
Proof.
  intros Hs Hrole.
  assert (Hins : ∀ i c0 c, clients q !! i = Some c0 → role n i c →
    ∀ j d, <[i:=c]> (clients q) !! j = Some d → role n j d)
    by (intros i c0 c Hi; apply insert_everywhere; [by eapply lookup_lt_Some|done]).
  assert (Hidle : ∀ i c0 c, clients q !! i = Some c0 → c0 ≠ PutDone →
    ∀ j, clients q !! j = Some PutDone → <[i:=c]> (clients q) !! j = Some PutDone).
  { intros i c0 c Hi Hne j Hj. rewrite list_lookup_insert_ne; [done|]. intros ->. congruence. }
  destruct Hs as [i x Hi Hf|i x cs Hi Hf Hnot|i Hi Hq|i x l cs Hi Hq Hnot];
    cbn [clients puts takes with_clients].
  - pose proof (Hrole _ _ Hi) as Hr. cbn in Hr. subst i. split_and!.
    + by rewrite length_insert.
    + by eapply Hins.
    + by eapply Hidle.
    + by rewrite list_lookup_insert_eq, Hi by by eapply lookup_lt_Some.
    + rewrite (tally_insert _ _ _ _ _ Hi). cbn. lia.
  - pose proof (Hrole _ _ Hi) as Hr. cbn in Hr. subst i.
    destruct (notify_clients n wake_take _ cs ltac:(by right) Hnot) as (H1 & H2 & H3 & H4 & H5);
      [by eapply Hins|]. split_and!; [by rewrite H1, length_insert|done|..].
    + intros i Hi'. apply H3. by eapply Hidle.
    + rewrite H4, list_lookup_insert_eq, Hi by by eapply lookup_lt_Some. cbn. by rewrite app_nil_r.
    + rewrite H5, (tally_insert _ _ _ _ _ Hi). cbn. lia.
  - pose proof (Hrole _ _ Hi) as Hr. cbn in Hr. split_and!.
    + by rewrite length_insert.
    + by eapply Hins.
    + by eapply Hidle.
    + by rewrite list_lookup_insert_ne by lia.
    + rewrite (tally_insert _ _ _ _ _ Hi). cbn. lia.
  - pose proof (Hrole _ _ Hi) as Hr. cbn in Hr.
    destruct (notify_clients n wake_put _ cs ltac:(by left) Hnot) as (H1 & H2 & H3 & H4 & H5);
      [by eapply Hins|]. split_and!; [by rewrite H1, length_insert|done|..].
    + intros j Hj. apply H3. by eapply Hidle.
    + by rewrite H4, list_lookup_insert_ne by lia.
    + rewrite H5, (tally_insert _ _ _ _ _ Hi). rewrite tally_app. unfold tally at 2.
      cbn [foldr took_stop]. unfold is_stop at 2. lia.
Qed.

(** A worker calls [take]. *)
Lemma worker_takes_ok xs n s i c :
  test_ok xs n s → (i < n)%nat → clients (t_queue s) !! i = Some c →
  c = PutDone ∨ (∃ x, c = TakeDone x ∧ x ≠ stop) →
  test_ok xs n {| t_queue := set_client (t_queue s) i TakeReady; t_latch := t_latch s;
                  t_main := t_main s |}.
Proof.
  intros [(started & k & Hq) Hl Hlen Hrole Hord Hstop Hmain] Hi Hc Hidle.
  pose proof (lookup_lt_Some _ _ _ Hc) as Hlt.
  assert (Hn : <[i:=TakeReady]> (clients (t_queue s)) !! n = clients (t_queue s) !! n)
    by (apply list_lookup_insert_ne; lia).
  split; cbn [t_queue t_latch t_main set_client with_clients clients puts takes queue_].
  - exists started, (S k). eapply queue_ok_take; [done|done|].
    destruct Hidle as [?|(x & ? & _)]; eauto.
  - done.
  - by rewrite length_insert.
  - by apply insert_everywhere.
  - by rewrite Hn.
  - rewrite Hstop, (tally_insert _ _ _ _ _ Hc).
    destruct Hidle as [->|(x & -> & Hx)]; cbn; [lia|]. rewrite decide_False by done. lia.
  - unfold main_ok in *. cbn [t_queue t_main set_client with_clients clients]. by rewrite Hn.
Qed.

(** The main thread goes on without the queue. *)
Lemma main_moves_ok xs n s m :
  test_ok xs n s → rest_of xs n m = rest_of xs n (t_main s) →
  main_ok xs n {| t_queue := t_queue s; t_latch := t_latch s; t_main := m |} →
  test_ok xs n {| t_queue := t_queue s; t_latch := t_latch s; t_main := m |}.
Proof.
  intros [Hq Hl Hlen Hrole Hord Hstop Hmain] Hr Hm. split; cbn [t_queue t_latch t_main]; try done.
  by rewrite Hr.
Qed.

Lemma main_puts_ok xs n s x rest :
  test_ok xs n s → t_main s = MPuts (x :: rest) → clients (t_queue s) !! n = Some PutDone →
  test_ok xs n {| t_queue := set_client (t_queue s) n (PutReady x); t_latch := t_latch s;
                  t_main := MPuts rest |}.
Proof.
  intros [(started & k & Hq) Hl Hlen Hrole Hord Hstop Hmain] Hm Hc.
  pose proof (lookup_lt_Some _ _ _ Hc) as Hlt.
  split; cbn [t_queue t_latch t_main set_client with_clients clients puts takes queue_].
  - exists (x :: started), k. by apply queue_ok_put.
  - done.
  - by rewrite length_insert.
  - by apply insert_everywhere.
  - rewrite list_lookup_insert_eq by done. rewrite <- Hord, Hm, Hc. done.
  - rewrite Hstop, (tally_insert _ _ _ _ _ Hc). cbn. lia.
  - done.
Qed.

Lemma test_step_ok xs n s s' : test_ok xs n s → test_step xs n s s' → test_ok xs n s'.
Proof.
  intros Hok Hs. pose proof Hok as [(started & k & Hq) Hl Hlen Hrole Hord Hstop Hmain].
  destruct Hs as [l Hs|q Hs|i Hi Hd Hc|i x Hi Hc Hx|Hm Hw|x rest Hm Hc|Hm Hc|i Hm Hi Hc|Hm].
  - split; try done; [by exists started, k|]. cbn [t_latch]. eapply rtc_r; [done|by left].
  - destruct (queue_step_clients n _ _ Hs Hrole) as (H1 & H2 & H3 & H4 & H5).
    split; cbn [t_queue t_latch t_main]; [|done|lia|done| |lia|].
    + exists started, k. by eapply step_ok.
    + by rewrite app_assoc, H4, <- app_assoc.
    + unfold main_ok in *. cbn [t_queue t_main]. destruct (t_main s); naive_solver.
  - by apply (worker_takes_ok _ _ _ _ _ Hok Hi Hc); left.
  - apply (worker_takes_ok _ _ _ _ _ Hok Hi Hc). eauto.
  - apply main_moves_ok; [done|by rewrite Hm|done].
  - by apply main_puts_ok.
  - apply main_moves_ok; [done|by rewrite Hm|]. split; [lia|done].
  - apply main_moves_ok; [done|by rewrite Hm|]. unfold main_ok in *. rewrite Hm in Hmain.
    split; [lia|apply Hmain].
  - apply main_moves_ok; [done|by rewrite Hm|]. unfold main_ok in *. rewrite Hm in Hmain. apply Hmain.
Qed.

Lemma test_start_ok xs n : test_ok xs n (test_start n).
Proof.
  assert (Ht : ∀ w, w PutDone = 0 → tally w (replicate (S n) (PutDone (T:=T))) = 0).
  { intros w Hw. generalize (S n) as m. induction m as [|m IH]; cbn; [done|].
    unfold tally in IH. lia. }
  assert (Ho : omap put_value (replicate (S n) PutDone) = @nil T)
    by (generalize (S n) as m; induction m; done).
  split; cbn [t_queue t_latch t_main test_start clients puts takes queue_ rest_of app].
  - exists [], 0%nat. unfold queue_ok. cbn [clients puts takes queue_]. rewrite Ho, !Ht by done.
    split_and!; [done|done|done|done|]. destruct capacity; cbn; [lia|done].
  - apply rtc_refl.
  - by rewrite length_replicate.
  - intros i c Hi. by apply lookup_replicate in Hi as [-> _].
  - by rewrite lookup_replicate_2 by lia.
  - rewrite Ht by done. done.
  - done.
Qed.

(** ** The work that is left *)

(** What a client has in store beyond its call. *)
Definition credit (c : client) : Z :=
  match c with
  | PutDone => 3
  | PutReady _ | PutWaiting _ => 4
  | TakeReady | TakeWaiting => 0
  | TakeDone x => if decide (x = stop) then 0 else 3
  end.
Definition main_left (xs : list T) (n : nat) (m : main_pc) : Z :=
  match m with
  | MLatch => 6 * zlen (program xs n) + Z.of_nat n + 4
  | MPuts rest => 6 * zlen rest + Z.of_nat n + 3
  | MJoin i => Z.of_nat n - Z.of_nat i + 2
  | MDone => 0
  end.
Definition test_work (xs : list T) (n : nat) (s : test_state) : Z :=
  latch_work (t_latch s) + work (t_queue s) + tally credit (clients (t_queue s)) +
  3 * (zlen (program xs n) - zlen (takes (t_queue s))) + main_left xs n (t_main s).

Lemma notify_credit wake (cs cs' : list client) :
  wake = wake_put ∨ wake = wake_take → notify wake cs cs' → tally credit cs' = tally credit cs.
Proof.
  intros Hw. apply notify_other. intros c c' Hc.
  destruct Hw as [->| ->]; destruct c; by simplify_eq/=.
Qed.

Lemma queue_step_credit q q' :
  queue_step capacity q q' →
  tally credit (clients q') - 3 * zlen (takes q') ≤ tally credit (clients q) - 3 * zlen (takes q).
Proof.
  intros [i x Hi Hf|i x cs Hi Hf Hn|i Hi Hq|i x l cs Hi Hq Hn]; cbn [clients takes with_clients];
    [| |by rewrite (tally_insert _ _ _ _ _ Hi); cbn; lia|].
  - rewrite (tally_insert _ _ _ _ _ Hi). cbn. lia.
  - rewrite (notify_credit _ _ _ (or_intror eq_refl) Hn), (tally_insert _ _ _ _ _ Hi). cbn. lia.
  - rewrite (notify_credit _ _ _ (or_introl eq_refl) Hn), (tally_insert _ _ _ _ _ Hi).
    unfold zlen. rewrite length_app. cbn. case_decide; lia.
Qed.

Lemma set_client_work q i c c' :
  clients q !! i = Some c →
  work (set_client q i c') + tally credit (clients (set_client q i c')) =
  work q + tally credit (clients q) - (pending c + awake c + credit c)
    + (pending c' + awake c' + credit c').
Proof.
  intros Hi. unfold work, set_client. cbn [clients with_clients].
  rewrite !(tally_insert _ _ _ _ _ Hi). lia.
Qed.

Lemma test_step_work xs n s s' :
  test_ok xs n s → test_step xs n s s' → test_work xs n s' < test_work xs n s.
Proof.
  intros Hok Hs. unfold test_work.
  destruct Hs as [l Hs|q Hs|i Hi Hd Hc|i x Hi Hc Hx|Hm Hw|x rest Hm Hc|Hm Hc|i Hm Hi Hc|Hm];
    cbn [t_queue t_latch t_main].
  - apply latch_step_work in Hs. lia.
  - pose proof (queue_step_credit _ _ Hs). apply step_work in Hs. lia.
  - pose proof (set_client_work _ _ _ TakeReady Hc) as E. cbn [pending awake credit] in E.
    cbn [set_client with_clients takes] in *. lia.
  - pose proof (set_client_work _ _ _ TakeReady Hc) as E. cbn [pending awake credit] in E.
    rewrite decide_False in E by done. cbn [set_client with_clients takes] in *. lia.
  - rewrite Hm. cbn. lia.
  - pose proof (set_client_work _ _ _ (PutReady x) Hc) as E. cbn [pending awake credit] in E.
    rewrite Hm. unfold zlen. cbn [set_client with_clients takes main_left length] in *.
    unfold zlen. cbn [length]. lia.
  - rewrite Hm. unfold zlen. cbn. unfold zlen. cbn. lia.
  - rewrite Hm. cbn. lia.
  - rewrite Hm. cbn. lia.
Qed.

Lemma test_work_nonneg xs n s : test_ok xs n s → 0 ≤ test_work xs n s.
Proof.
  intros [(started & k & (Hfifo & _)) Hl Hlen Hrole Hord Hstop Hmain]. unfold test_work.
  pose proof (work_nonneg (t_queue s)). pose proof (latch_work_nonneg (t_latch s)).
  assert (0 ≤ tally credit (clients (t_queue s)))
    by (apply tally_nonneg; intros []; cbn; try case_decide; lia).
  assert (0 ≤ main_left xs n (t_main s)).
  { unfold main_ok in Hmain. unfold zlen. destruct (t_main s); cbn; unfold zlen; lia. }
  apply (f_equal length) in Hord. rewrite Hfifo, !length_app in Hord. unfold zlen in *. lia.
Qed.

(** ** Where it ends *)

Lemma tally_le {A} (w : A → Z) l : (∀ x, w x ≤ 1) → tally w l ≤ zlen l.
Proof.
  intros Hw. unfold zlen, tally. induction l as [|x l IH]; cbn [foldr length]; [lia|].
  specialize (Hw x). lia.
Qed.

Lemma stop_count xs n : stop ∉ xs → tally is_stop (program xs n) = Z.of_nat n.
Proof.
  intros Hx. unfold program. rewrite tally_app. assert (tally is_stop xs = 0) as ->.
  { induction xs as [|x xs IH]; [done|]. apply not_elem_of_cons in Hx as [Hx Hxs].
    unfold tally in *. cbn. rewrite IH by done. unfold is_stop. by rewrite decide_False. }
  clear Hx. induction n as [|n IH]; [done|]. unfold tally in *. cbn [replicate foldr].
  unfold is_stop at 1. rewrite decide_True by done. lia.
Qed.

(** Where every stop has been taken, everything has. *)
Lemma stops_taken xs n l k :
  stop ∉ xs → (0 < n)%nat → l ++ k = program xs n → tally is_stop l = Z.of_nat n → k = [].
Proof.
  intros Hx Hn E Hl. pose proof (stop_count xs n Hx) as Hp.
  rewrite <- E, tally_app, Hl in Hp. destruct k as [|y k _] using rev_ind; [done|].
  destruct n as [|n]; [lia|]. unfold program in E. rewrite replicate_S_end, !app_assoc in E.
  apply app_inj_tail in E as [_ ->]. rewrite tally_app in Hp. change (tally is_stop [stop]) with (is_stop stop + 0) in Hp.
  assert (is_stop stop = 1) by (unfold is_stop; by rewrite decide_True).
  assert (0 ≤ tally is_stop k) by (apply tally_nonneg; intros x; unfold is_stop; case_decide; lia).
  lia.
Qed.

(** The latch is open when nothing can move. *)
Lemma latch_open n l :
  rtc (λ l l', latch_step l l' ∨ latch_spurious l l') (latch_start (Z.of_nat n) n 1) l →
  (¬ ∃ l', latch_step l l') →
  (∀ i, (i < n)%nat → latch_clients l !! i = Some DownDone) ∧ latch_clients l !! n = Some WaitDone.
Proof.
  intros Hr Hstuck. pose proof (latch_kinds _ _ Hr) as Hk.
  pose proof (latch_opens _ _ _ _ Hr ltac:(lia) Hstuck) as Hf. rewrite Forall_lookup in Hf.
  cbn [latch_start latch_clients] in Hk. rewrite fmap_app, !fmap_replicate in Hk.
  assert (Hi : ∀ i b, (replicate n true ++ replicate 1 false) !! i = Some b →
    ∃ c, latch_clients l !! i = Some c ∧ is_down c = b).
  { intros i b Hb. change (is_down DownReady) with true in Hk. change (is_down WaitReady) with false in Hk.
    rewrite <- Hk, list_lookup_fmap in Hb.
    destruct (latch_clients l !! i) as [c|]; [|done]. injection Hb as <-. eauto. }
  split.
  - intros i Hlt. destruct (Hi i true) as (c & Hc & Hd).
    { rewrite lookup_app_l by by rewrite length_replicate. by apply lookup_replicate_2. }
    by destruct (Hf _ _ Hc) as [->| ->].
  - destruct (Hi n false) as (c & Hc & Hd).
    { rewrite lookup_app_r; rewrite length_replicate; [|lia]. by rewrite Nat.sub_diag. }
    by destruct (Hf _ _ Hc) as [->| ->].
Qed.

(** Nothing can move: no call is awake, and a worker waits or has stopped. *)
Lemma stuck_clients xs n s :
  test_ok xs n s → (¬ ∃ s', test_step xs n s s') →
  tally awake (clients (t_queue s)) = 0 ∧ latch_clients (t_latch s) !! n = Some WaitDone ∧
  (∀ i, (i < n)%nat → clients (t_queue s) !! i = Some TakeWaiting ∨
                      clients (t_queue s) !! i = Some (TakeDone stop)) ∧
  (clients (t_queue s) !! n = Some PutDone ∨ ∃ x, clients (t_queue s) !! n = Some (PutWaiting x)).
Proof.
  intros [(started & k & Hq) Hl Hlen Hrole Hord Hstop Hmain] Hstuck.
  assert (Hawake : tally awake (clients (t_queue s)) = 0).
  { assert (0 ≤ tally awake (clients (t_queue s))) by (apply tally_nonneg; by intros []).
    destruct (decide (0 < tally awake (clients (t_queue s)))) as [Ha|]; [|lia].
    destruct (awake_steps capacity _ Ha) as [q Hs]. destruct Hstuck. eexists. by apply queue_moves. }
  destruct (latch_open n (t_latch s) Hl) as [Hdown Hwait].
  { intros [l Hs]. apply Hstuck. eexists. by apply latch_moves. }
  assert (Hc : ∀ i, (i ≤ n)%nat → ∃ c, clients (t_queue s) !! i = Some c ∧ role n i c ∧ awake c = 0).
  { intros i Hi. destruct (lookup_lt_is_Some_2 (clients (t_queue s)) i) as [c Hc]; [lia|].
    exists c. split; [done|]. split; [by apply Hrole|].
    apply (tally_zero awake (clients (t_queue s))); [by intros []|done|].
    by eapply list_elem_of_lookup_2. }
  split; [done|]. split; [done|]. split.
  - intros i Hi. destruct (Hc i ltac:(lia)) as (c & Hci & Hr & Ha).
    destruct c as [| | | | |x]; cbn in Hr, Ha; try lia; [|by left|].
    + destruct Hstuck. eexists. by apply (worker_enters _ _ _ i); [|apply Hdown|].
    + destruct (decide (x = stop)) as [->|Hx]; [by right|].
      destruct Hstuck. eexists. by apply (worker_loops _ _ _ i x).
  - destruct (Hc n ltac:(lia)) as (c & Hcn & Hr & Ha). destruct c; cbn in Hr, Ha; try lia; eauto.
Qed.

(** Then no worker waits: it would wait for a value that the main thread has put. *)
Lemma stuck_no_wait xs n s i :
  capacity ≠ Some 0%nat → stop ∉ xs → test_ok xs n s → (¬ ∃ s', test_step xs n s s') →
  (i < n)%nat → clients (t_queue s) !! i ≠ Some TakeWaiting.
Proof.
  intros Hcap Hx Hok Hstuck Hi Hw. destruct (stuck_clients _ _ _ Hok Hstuck) as (Ha & Hlatch & _ & Hn).
  destruct Hok as [(started & k & (Hfifo & _ & _ & Htake & Hput)) Hl Hlen Hrole Hord Hstop Hmain].
  set (cs := clients (t_queue s)) in *. rewrite awake_count in Ha.
  pose proof (tallies_nonneg cs) as Hpos.
  assert (Hq : queue_ (t_queue s) = []).
  { pose proof (tally_at take_waiting cs i _ (λ x, proj2 (proj2 (proj2 (weights_nonneg x)))) Hw) as H.
    cbn in H. apply nil_length_inv. lia. }
  rewrite Hq in *. cbn [length] in *.
  assert (Hidle : cs !! n = Some PutDone).
  { destruct Hn as [?|[y Hy]]; [done|].
    pose proof (tally_at put_waiting cs n _ (λ x, proj1 (proj2 (weights_nonneg x))) Hy) as H.
    cbn in H. destruct capacity as [m|]; [|lia]. assert (m ≠ 0)%nat by congruence. lia. }
  assert (Hrest : rest_of xs n (t_main s) = []).
  { unfold main_ok in Hmain. destruct (t_main s) as [|[|x rest]| |] eqn:Em; try done.
    - destruct Hstuck. eexists. by apply main_passes.
    - destruct Hstuck. eexists. by eapply main_puts. }
  rewrite Hidle, Hrest, app_nil_r in Hord. cbn in Hord. rewrite app_nil_r in *.
  rewrite Hfifo in Hord. rewrite Hord in Hstop.
  pose proof (tally_le took_stop (<[n:=TakeDone stop]> (<[i:=TakeDone stop]> cs))) as Hle.
  assert (Hn' : <[i:=TakeDone stop]> cs !! n = Some PutDone)
    by (rewrite list_lookup_insert_ne by lia; done).
  unfold zlen in Hle. rewrite !length_insert, Hlen in Hle.
  rewrite (tally_insert _ _ _ _ _ Hn'), (tally_insert _ _ _ _ _ Hw) in Hle. cbn in Hle.
  rewrite decide_True in Hle by done.
  pose proof (stop_count xs n Hx). specialize (Hle ltac:(intros []; cbn; try case_decide; lia)). lia.
Qed.

Lemma workers_then_main {A} (l : list A) n x y :
  length l = S n → (∀ i, (i < n)%nat → l !! i = Some x) → l !! n = Some y → l = replicate n x ++ [y].
Proof.
  intros Hl Hx Hy. apply list_eq. intros i. destruct (decide (i < n)%nat) as [Hi|Hi].
  - by rewrite Hx, lookup_app_l, lookup_replicate_2 by (rewrite ?length_replicate; done).
  - rewrite lookup_app_r; rewrite length_replicate; [|lia].
    destruct (decide (i = n)) as [->|]; [by rewrite Nat.sub_diag, Hy|].
    rewrite !lookup_ge_None_2; [done|cbn; lia|lia].
Qed.

(** So every worker has stopped, everything was taken, and the main thread is
    through. *)
Lemma stuck_done xs n s :
  capacity ≠ Some 0%nat → (0 < n)%nat → stop ∉ xs → test_ok xs n s →
  (¬ ∃ s', test_step xs n s s') →
  t_main s = MDone ∧ takes (t_queue s) = program xs n ∧ queue_ (t_queue s) = [] ∧
  (∀ i, (i < n)%nat → clients (t_queue s) !! i = Some (TakeDone stop)).
Proof.
  intros Hcap H0 Hx Hok Hstuck.
  pose proof (stuck_clients _ _ _ Hok Hstuck) as (_ & Hlatch & Hworkers & Hn).
  assert (Hw : ∀ i, (i < n)%nat → clients (t_queue s) !! i = Some (TakeDone stop)).
  { intros i Hi. destruct (Hworkers i Hi) as [H|]; [|done].
    by destruct (stuck_no_wait xs n s i Hcap Hx Hok Hstuck Hi). }
  pose proof Hok as [(started & k & (Hfifo & _)) Hl Hlen Hrole Hord Hstop Hmain].
  assert (Hall : tally is_stop (takes (t_queue s)) = Z.of_nat n).
  { rewrite Hstop. destruct (lookup_lt_is_Some_2 (clients (t_queue s)) n) as [c Hc]; [lia|].
    rewrite (workers_then_main _ n _ c Hlen Hw Hc).
    rewrite tally_app. assert (took_stop c = 0) by (destruct Hn as [Hn|[x Hn]]; rewrite Hc in Hn; by injection Hn as ->).
    unfold tally at 2. cbn. rewrite H. clear -H. induction n as [|n IH]; [done|].
    unfold tally in *. cbn. rewrite decide_True by done. lia. }
  rewrite Hfifo, <- app_assoc in Hord.
  pose proof (stops_taken xs n _ _ Hx H0 Hord Hall) as Hnil.
  apply app_nil in Hnil as [Hq Hnil]. apply app_nil in Hnil as [Hp Hr].
  rewrite Hq, Hp, Hr, !app_nil_r in Hord.
  assert (Hidle : clients (t_queue s) !! n = Some PutDone).
  { destruct Hn as [?|[x Hn]]; [done|]. by rewrite Hn in Hp. }
  split; [|done]. unfold main_ok in Hmain. destruct (t_main s) as [|[|x rest]|j|] eqn:Em; try done.
  - destruct Hstuck. eexists. by apply main_passes.
  - destruct Hstuck. eexists. by apply main_has_put.
  - destruct Hstuck. destruct (decide (j = n)) as [->|Hj]; eexists; [by apply main_ends|].
    apply (main_joins _ _ _ j); [done|lia|apply Hw; lia].
Qed.

Lemma test_run_ok xs n k s s' :
  test_ok xs n s → nsteps (test_step xs n) k s s' →
  test_ok xs n s' ∧ Z.of_nat k + test_work xs n s' ≤ test_work xs n s.
Proof.
  intros Hok Hk. induction Hk as [s|k s s1 s2 Hs _ IH]; [split; [done|lia]|].
  pose proof (test_step_work _ _ _ _ Hok Hs). apply test_step_ok in Hs; [|done].
  destruct (IH Hs). split; [done|lia].
Qed.

Lemma test_work_start xs n :
  test_work xs n (test_start n) =
  Z.of_nat n * Z.of_nat n + 15 * Z.of_nat n + 9 * zlen xs + 9.
Proof.
  assert (Ht : ∀ w, tally w (replicate (S n) (PutDone (T:=T))) = (Z.of_nat n + 1) * w PutDone).
  { intros w. replace (Z.of_nat n + 1) with (Z.of_nat (S n)) by lia. generalize (S n) as m.
    induction m as [|m IH]; cbn [replicate]; [done|]. unfold tally in *. cbn [foldr]. lia. }
  unfold test_work, latch_work, work. cbn [t_queue t_latch t_main test_start clients takes main_left].
  rewrite !Ht, !latch_tally_start. unfold program, zlen, latch_start. cbn [latch_clients].
  rewrite !length_app, !length_replicate. cbn [pending awake credit down_ready wait_left length]. lia.
Qed.

(** C22: The test of the queues ends, and its values arrive in order. For a queue
    without bound or with places, at least one worker and any values other than
    the one that stops them: whatever the scheduler and the notifications choose,
    a run has at most n^2 + 15 n + 9 m + 9 steps for n workers and m values, and
    where it cannot go on, the main thread has joined every worker, each has
    stopped by a stop of its own, the queue is empty, and what was taken is what
    was put, in that order. *)
Theorem queue_test_ends xs n k s :
  capacity ≠ Some 0%nat → (0 < n)%nat → stop ∉ xs →
  nsteps (test_step xs n) k (test_start n) s →
  (k ≤ n * n + 15 * n + 9 * length xs + 9)%nat ∧
  ((¬ ∃ s', test_step xs n s s') →
   t_main s = MDone ∧ takes (t_queue s) = xs ++ replicate n stop ∧ queue_ (t_queue s) = [] ∧
   (∀ i, (i < n)%nat → clients (t_queue s) !! i = Some (TakeDone stop))).
Proof.
  intros Hcap Hn Hx Hk. destruct (test_run_ok _ _ _ _ _ (test_start_ok xs n) Hk) as [Hok Hw].
  rewrite test_work_start in Hw. pose proof (test_work_nonneg _ _ _ Hok). unfold zlen in *.
  split; [lia|]. by apply stuck_done.
Qed.
End queue_test.
Arguments test_state : clear implicits.

(** ** The values of the programs *)

Definition hello (i : Z) : bytes := lit "hello " ++ print_d i.
Definition hellos (times : Z) : list bytes := hello <$> seqZ 0 times.

Lemma hellos_go_on times : lit "stop" ∉ hellos times.
Proof. unfold hellos. intros H. by apply list_elem_of_fmap in H as (i & ? & _). Qed.

(** Five workers and a hundred values; a queue of 20 places in the second. *)
Definition BlockingQueue_test : test_state bytes → test_state bytes → Prop :=
  test_step None (lit "stop") (hellos 100) 5.
Definition BoundedBlockingQueue_test : test_state bytes → test_state bytes → Prop :=
  test_step (Some 20%nat) (lit "stop") (hellos 100) 5.

(** One step of a concrete run, with the state it leads to in normal form. *)
Local Ltac run_step tac :=
  eapply nsteps_l; [tac|];
  cbn [t_queue t_latch t_main clients queue_ puts takes with_clients set_client latch_count
       latch_clients app insert list_insert Z.sub Z.opp Z.add Z.pos_sub].

Lemma queue_test_ends_witness :
  let s := {| t_queue := {| queue_ := []; clients := [TakeDone (lit "stop"); PutDone];
                            puts := [hello 0; lit "stop"]; takes := [hello 0; lit "stop"] |};
              t_latch := {| latch_count := 0; latch_clients := [DownDone; WaitDone] |};
              t_main := MDone |} in
  (14 ≤ 34)%nat ∧
  ((¬ ∃ s', test_step (Some 20%nat) (lit "stop") (hellos 1) 1 s s') →
   t_main s = MDone ∧ takes (t_queue s) = hellos 1 ++ [lit "stop"] ∧ queue_ (t_queue s) = [] ∧
   (∀ i, (i < 1)%nat → clients (t_queue s) !! i = Some (TakeDone (lit "stop")))).
Proof.
  intros s. apply (queue_test_ends (Some 20%nat) (lit "stop") (hellos 1) 1 14 s);
    [done|lia|apply hellos_go_on|].
  run_step ltac:(apply latch_moves, (latch_down _ 0); done).
  run_step ltac:(apply latch_moves, (latch_passes _ 1); done).
  run_step ltac:(by apply main_passes).
  run_step ltac:(apply (worker_enters _ _ _ _ _ 0); [lia|done|done]).
  run_step ltac:(apply (main_puts _ _ _ _ _ (hello 0) [lit "stop"]); exact eq_refl).
  run_step ltac:(apply queue_moves, (put_stores _ _ 1 (hello 0));
                    [done|cbn; lia|apply notify_none; repeat constructor]).
  run_step ltac:(apply queue_moves, (take_returns _ _ 0 (hello 0) []);
                    [done|done|apply notify_none; repeat constructor]).
  run_step ltac:(apply (worker_loops _ _ _ _ _ 0 (hello 0)); [lia|done|done]).
  run_step ltac:(apply (main_puts _ _ _ _ _ (lit "stop") []); exact eq_refl).
  run_step ltac:(apply queue_moves, (put_stores _ _ 1 (lit "stop"));
                    [done|cbn; lia|apply notify_none; repeat constructor]).
  run_step ltac:(apply queue_moves, (take_returns _ _ 0 (lit "stop") []);
                    [done|done|apply notify_none; repeat constructor]).
  run_step ltac:(apply main_has_put; [exact eq_refl|by vm_compute]).
  run_step ltac:(apply (main_joins _ _ _ _ _ 0); [done|lia|done]).
  run_step ltac:(apply main_ends; exact eq_refl).
  apply nsteps_O.
Defined.
