(* ===== verification/PoolTest.v ===== *)
(** The program that tests the thread pool:
    [log/muduo-clog/muduo/base/tests/ThreadPool_test.cc].

    The pool is ThreadPool.v with [n] workers; thread [n] of it is the main thread,
    which calls [run] for one task after another, the last of which counts a latch
    of one down, waits for the latch, and stops the pool. The latch is open when
    that task was executed (Thread.v shows this of every latch). The program logs
    with [LOG_WARN << ...], which the macros of [Logging.h] no longer allow; these
    lines are left out. *)

From stdpp Require Import relations.
From S2P Require Import Prelude CString Monitor ThreadPool.

Open Scope Z_scope.

Section pool_test.
Context {Task : Type} (maxSize : nat) (count_down : Task).

(** The main thread: with calls of [run] still to make, the last of them with the
    task of the latch; in [latch.wait()] when there are none; in the joins of
    [pool.stop()]; behind it. *)
Inductive test_pc := TRuns (rest : list Task) | TJoins | TDone.

Record pool_test := { pt_pool : pool Task; pt_main : test_pc }.

Definition run_call (p : pool Task) (n : nat) (t : Task) : pool Task :=
  with_threads p (<[n:=Producer (RReady t)]> (threads p)).

Inductive pool_test_step (n : nat) (s : pool_test) : pool_test → Prop :=
  | pool_moves p :
      pool_step maxSize (pt_pool s) p →
      pool_test_step n s {| pt_pool := p; pt_main := pt_main s |}
  | main_runs t rest :
      pt_main s = TRuns (t :: rest) → threads (pt_pool s) !! n = Some (Producer RDone) →
      pool_test_step n s {| pt_pool := run_call (pt_pool s) n t; pt_main := TRuns rest |}
  | main_stops :                            (* past latch.wait() *)
      pt_main s = TRuns [] → threads (pt_pool s) !! n = Some (Producer RDone) →
      count_down ∈ executed (pt_pool s) →
      pool_test_step n s {| pt_pool := stop (pt_pool s); pt_main := TJoins |}
  | main_joined :
      pt_main s = TJoins → joined (pt_pool s) →
      pool_test_step n s {| pt_pool := pt_pool s; pt_main := TDone |}.

Definition pool_test_start (n : nat) (tasks : list Task) : pool_test :=
  {| pt_pool := {| queue_ := []; running_ := true;
                   threads := replicate n (Worker WLoop) ++ [Producer RDone];
                   accepted := []; started := []; executed := [] |};
     pt_main := TRuns (tasks ++ [count_down]) |}.

(** ** The invariant *)

Definition tasks_left (m : test_pc) : list Task :=
  match m with TRuns rest => rest | _ => [] end.

(** The first [n] threads are workers, the last calls [run]. *)
Definition pool_role (n i : nat) (c : pool_thread (Task:=Task)) : Prop :=
  match c with Worker _ => (i < n)%nat | Producer _ => i = n end.

Record pool_test_ok (n : nat) (tasks : list Task) (s : pool_test) : Prop := {
  pt_ok : ∃ called, pool_ok maxSize n called (pt_pool s);
  pt_roles : ∀ i c, threads (pt_pool s) !! i = Some c → pool_role n i c;
  pt_length : length (threads (pt_pool s)) = S n;
  pt_order : accepted (pt_pool s) ++ option_list (threads (pt_pool s) !! n ≫= to_store) ++
             tasks_left (pt_main s) = tasks ++ [count_down];
  pt_phase : match pt_main s with
             | TRuns _ => running_ (pt_pool s) = true
             | _ => running_ (pt_pool s) = false ∧ queue_ (pt_pool s) = [] ∧
                    threads (pt_pool s) !! n = Some (Producer RDone)
             end;
  pt_end : pt_main s = TDone → joined (pt_pool s)
}.

(** What a notification of the pool leaves of the threads. *)
Lemma notify_threads n wake ts ts' :
  wake = wake_not_empty ∨ wake = wake_not_full → notify wake ts ts' →
  (∀ i c, ts !! i = Some c → pool_role n i c) →
  length ts' = length ts ∧ (∀ i c, ts' !! i = Some c → pool_role n i c) ∧
  (∀ i, ts !! i = Some (Producer RDone) → ts' !! i = Some (Producer RDone)) ∧
  ts' !! n ≫= to_store = ts !! n ≫= to_store.
Proof.
  intros Hw Hn Hr.
  assert (Hat : ∀ B (f : pool_thread (Task:=Task) → B),
    (∀ t, f (Producer (RWaiting t)) = f (Producer (RReady t))) →
    f (Worker WWaiting) = f (Worker WTake) → ∀ c c', wake c = Some c' → f c = f c').
  { intros B f Hp Ht c c' Hc. destruct Hw as [->| ->]; destruct c as [[]|[]]; simplify_eq/=; auto. }
  split_and!.
  - by eapply notify_length.
  - intros i c Hi. destruct (notify_lookup _ _ _ _ _ Hn Hi) as [H|(c0 & H & Hc)]; [by apply Hr|].
    apply Hr in H. destruct Hw as [->| ->]; destruct c0 as [[]|[]]; simplify_eq/=; done.
  - intros i Hi.
    set (idle := λ c : pool_thread (Task:=Task), match c with Producer RDone => true | _ => false end).
    pose proof (notify_at idle _ _ _ i (Hat _ idle ltac:(done) ltac:(done)) Hn) as E.
    rewrite Hi in E. cbn in E. by destruct (ts' !! i) as [[[]|[]]|].
  - pose proof (notify_at to_store _ _ _ n (Hat _ to_store ltac:(done) ltac:(done)) Hn) as E.
    destruct (ts' !! n), (ts !! n); cbn in *; congruence.
Qed.

(** What a step of the pool leaves of them. *)
Lemma pool_step_threads n p p' :
  pool_step maxSize p p' → (∀ i c, threads p !! i = Some c → pool_role n i c) →
  length (threads p') = length (threads p) ∧
  (∀ i c, threads p' !! i = Some c → pool_role n i c) ∧
  (∀ i, threads p !! i = Some (Producer RDone) → threads p' !! i = Some (Producer RDone)) ∧
  accepted p' ++ option_list (threads p' !! n ≫= to_store) =
    accepted p ++ option_list (threads p !! n ≫= to_store).
Proof.
  intros Hs Hr.
  assert (Hins : ∀ i c0 c, threads p !! i = Some c0 → c0 ≠ Producer RDone → pool_role n i c →
    length (<[i:=c]> (threads p)) = length (threads p) ∧
    (∀ j d, <[i:=c]> (threads p) !! j = Some d → pool_role n j d) ∧
    (∀ j, threads p !! j = Some (Producer RDone) → <[i:=c]> (threads p) !! j = Some (Producer RDone)) ∧
    <[i:=c]> (threads p) !! n ≫= to_store = if decide (i = n) then to_store c else threads p !! n ≫= to_store).
  { intros i c0 c Hi Hne Hc. pose proof (lookup_lt_Some _ _ _ Hi). split_and!.
    - by rewrite length_insert.
    - by apply insert_everywhere.
    - intros j Hj. rewrite list_lookup_insert_ne; [done|]. intros ->. congruence.
    - case_decide as E; [subst i; by rewrite list_lookup_insert_eq|by rewrite list_lookup_insert_ne]. }
  destruct Hs as [i t Hi Hf|i t ts Hi Hf Hn|i Hi|i t Hi|i Hi Hq Hrun|i Hi Hq Hrun|i t q ts Hi Hq Hn];
    pose proof (Hr _ _ Hi) as Hri; cbn in Hri; cbn [threads accepted with_threads].
  - subst i. destruct (Hins n _ (Producer (RWaiting t)) Hi ltac:(done) ltac:(done)) as (? & ? & ? & E).
    rewrite decide_True in E by done. split_and!; try done. by rewrite E, Hi.
  - subst i. destruct (Hins n _ (Producer RDone) Hi ltac:(done) ltac:(done)) as (H1 & H2 & H3 & E).
    rewrite decide_True in E by done.
    destruct (notify_threads n _ _ _ (or_introl eq_refl) Hn H2) as (H1' & H2' & H3' & E').
    split_and!; [congruence|done|auto|]. rewrite E', E, Hi. cbn. by rewrite app_nil_r.
  - destruct (Hins i _ (Worker (if running_ p then WTake else WExit)) Hi ltac:(done) Hri) as (? & ? & ? & E).
    rewrite decide_False in E by lia. split_and!; try done. by rewrite E.
  - destruct (Hins i _ (Worker WLoop) Hi ltac:(done) Hri) as (? & ? & ? & E).
    rewrite decide_False in E by lia. split_and!; try done. by rewrite E.
  - destruct (Hins i _ (Worker WWaiting) Hi ltac:(done) Hri) as (? & ? & ? & E).
    rewrite decide_False in E by lia. split_and!; try done. by rewrite E.
  - destruct (Hins i _ (Worker WLoop) Hi ltac:(done) Hri) as (? & ? & ? & E).
    rewrite decide_False in E by lia. split_and!; try done. by rewrite E.
  - destruct (Hins i _ (Worker (WRun t)) Hi ltac:(done) Hri) as (H1 & H2 & H3 & E).
    rewrite decide_False in E by lia.
    destruct (decide (0 < maxSize)%nat); [|subst ts; split_and!; try done; by rewrite E].
    destruct (notify_threads n _ _ _ (or_intror eq_refl) Hn H2) as (H1' & H2' & H3' & E').
    split_and!; [congruence|done|auto|]. by rewrite E', E.
Qed.

Lemma stop_threads n (p : pool Task) :
  (∀ i c, threads p !! i = Some c → pool_role n i c) →
  length (threads (stop p)) = length (threads p) ∧
  (∀ i c, threads (stop p) !! i = Some c → pool_role n i c) ∧
  (∀ i, threads p !! i = Some (Producer RDone) → threads (stop p) !! i = Some (Producer RDone)).
Proof.
  intros Hr. unfold stop, notify_all. cbn [threads]. split_and!.
  - by rewrite length_fmap.
  - intros i c Hi. rewrite list_lookup_fmap in Hi.
    destruct (threads p !! i) as [d|] eqn:E; [|done]. apply Hr in E. injection Hi as <-.
    by destruct d as [[]|[]].
  - intros i Hi. by rewrite list_lookup_fmap, Hi.
Qed.

(** Where the task of the latch was executed, everything has been taken. *)
Lemma count_down_last (l k tasks : list Task) :
  count_down ∉ tasks → l ++ k = tasks ++ [count_down] → count_down ∈ l → k = [].
Proof.
  intros Hc E Hl. destruct k as [|x k _] using rev_ind; [done|].
  rewrite app_assoc in E. apply app_inj_tail in E as [E _]. destruct Hc. rewrite <- E.
  apply elem_of_app. by left.
Qed.

(** The pool moves on after [stop]: the queue stays empty. *)
Lemma stopped_step n p p' :
  pool_step maxSize p p' → (∀ i c, threads p !! i = Some c → pool_role n i c) →
  queue_ p = [] → threads p !! n = Some (Producer RDone) → queue_ p' = [] ∧ ¬ joined p.
Proof.
  intros Hs Hr Hq Hn.
  assert (Hrun : ∀ i t, threads p !! i ≠ Some (Producer (RReady t))).
  { intros i t Hi. pose proof (Hr _ _ Hi) as ->. congruence. }
  destruct Hs as [i t Hi|i t ts Hi|i Hi|i t Hi|i Hi|i Hi|i t q ts Hi Hq'];
    try (by destruct (Hrun i t)); try congruence; (split; [done|]);
    intros Hj; unfold joined in Hj; rewrite Forall_lookup in Hj; exact (Hj _ _ Hi).
Qed.

Lemma pool_test_step_ok n tasks s s' :
  count_down ∉ tasks → pool_test_ok n tasks s → pool_test_step n s s' → pool_test_ok n tasks s'.
Proof.
  intros Hc [(called & Hok) Hr Hlen Hord Hph Hend] Hs.
  destruct Hs as [p Hs|t rest Hm Hn|Hm Hn Hx|Hm Hj].
  - destruct (pool_step_threads n _ _ Hs Hr) as (H1 & H2 & H3 & H4).
    pose proof (pool_step_work _ _ _ Hs) as [_ Hrun].
    split; cbn [pt_pool pt_main]; [exists called; by eapply pool_step_ok|done|lia|..].
    + by rewrite app_assoc, H4, <- app_assoc.
    + destruct (pt_main s); [congruence|..]; destruct Hph as (Hrn & Hq & Hn);
        (split_and!; [congruence|by eapply stopped_step|auto]).
    + intros Hm. rewrite Hm in *. destruct Hph as (_ & Hq & Hn).
      destruct (stopped_step _ _ _ Hs Hr Hq Hn) as [_ []]. by apply Hend.
  - pose proof (lookup_lt_Some _ _ _ Hn) as Hlt.
    split; cbn [pt_pool pt_main run_call with_threads threads accepted running_]; try done.
    + exists (t :: called). by apply run_call_ok.
    + by apply insert_everywhere.
    + by rewrite length_insert.
    + rewrite list_lookup_insert_eq by done. rewrite <- Hord, Hm, Hn. done.
    + by rewrite Hm in Hph.
  - destruct (stop_threads n _ Hr) as (H1 & H2 & H3). rewrite Hm in *.
    split; cbn [pt_pool pt_main]; try done; [exists called; by apply stop_ok|lia|..].
    + rewrite (H3 _ Hn), <- Hord, Hn. done.
    + split_and!; [done| |auto]. cbn [stop queue_].
      destruct Hok as (Hfifo & Hex & _). rewrite Hn, Hfifo in Hord. cbn in Hord.
      rewrite app_nil_r in Hord. apply (count_down_last _ _ _ Hc Hord).
      rewrite Hex. apply elem_of_app. by left.
  - rewrite Hm in *. split; cbn [pt_pool pt_main]; try done. by exists called.
Qed.

Lemma pool_test_start_ok n tasks : pool_test_ok n tasks (pool_test_start n tasks).
Proof.
  pose proof (pool_start_ok maxSize n (@nil Task)) as Hok.
  split; cbn [pt_pool pt_main pool_test_start threads accepted running_]; try done.
  - exists []. unfold pool_ok, pool_start in Hok. cbn [threads queue_ running_ accepted started executed fmap list_fmap] in Hok.
    rewrite !app_nil_r in Hok. unfold pool_ok. cbn [threads queue_ running_ accepted started executed].
    rewrite !omap_app, !tally_app. cbn in *. rewrite !app_nil_r, !Z.add_0_r. exact Hok.
  - intros i c Hi. destruct (decide (i < n)%nat) as [Hlt|Hge].
    + rewrite lookup_app_l, lookup_replicate_2 in Hi by (rewrite ?length_replicate; done).
      by injection Hi as <-.
    + rewrite lookup_app_r, length_replicate in Hi by (rewrite length_replicate; lia).
      apply list_lookup_singleton_Some in Hi as [Hi <-]. cbn. lia.
  - rewrite length_app, length_replicate. cbn. lia.
  - rewrite lookup_app_r, length_replicate, Nat.sub_diag by (rewrite length_replicate; lia). done.
Qed.

(** ** The work that is left *)

Definition main_work (n : nat) (m : test_pc) : Z :=
  match m with
  | TRuns rest => 9 * zlen rest + 2 * Z.of_nat (S n) + 2
  | TJoins => 1
  | TDone => 0
  end.
Definition pool_test_work (n : nat) (s : pool_test) : Z :=
  pool_work (pt_pool s) + main_work n (pt_main s).

Lemma stop_work (p : pool Task) :
  pool_work (stop p) ≤ pool_work p + 2 * zlen (threads p).
Proof.
  unfold pool_work, stop, zlen, notify_all. cbn [threads running_ queue_].
  enough (tally (thread_work false) (notify_all wake_not_empty (threads p)) ≤
          tally (thread_work (running_ p)) (threads p) + 2 * Z.of_nat (length (threads p)))
    by (unfold notify_all in *; lia).
  unfold notify_all. induction (threads p) as [|c ts IH]; [done|]. unfold tally in *.
  cbn [fmap list_fmap foldr length]. destruct (running_ p), c as [[]|[]]; cbn in *; lia.
Qed.

Lemma pool_test_step_work n tasks s s' :
  pool_test_ok n tasks s → pool_test_step n s s' → pool_test_work n s' < pool_test_work n s.
Proof.
  intros [_ _ Hlen _ _ _] Hs. unfold pool_test_work.
  destruct Hs as [p Hs|t rest Hm Hn|Hm Hn Hx|Hm Hj]; cbn [pt_pool pt_main]; rewrite ?Hm.
  - apply pool_step_work in Hs as [Hs _]. lia.
  - unfold run_call, pool_work. cbn [threads running_ queue_ with_threads].
    rewrite (tally_insert _ _ _ _ _ Hn). cbn [thread_work main_work]. unfold zlen. cbn [length]. lia.
  - pose proof (stop_work (pt_pool s)) as Hw. unfold zlen in *. cbn. unfold zlen. cbn. lia.
  - cbn. lia.
Qed.

Lemma pool_test_run n tasks k s s' :
  count_down ∉ tasks → pool_test_ok n tasks s → nsteps (pool_test_step n) k s s' →
  pool_test_ok n tasks s' ∧ Z.of_nat k + pool_test_work n s' ≤ pool_test_work n s.
Proof.
  intros Hc Hok Hk. induction Hk as [s|k s s1 s2 Hs _ IH]; [split; [done|lia]|].
  pose proof (pool_test_step_work _ _ _ _ Hok Hs). apply (pool_test_step_ok _ tasks) in Hs; [|done..].
  destruct (IH Hs). split; [done|lia].
Qed.

Lemma pool_test_work_nonneg n s : 0 ≤ pool_test_work n s.
Proof.
  unfold pool_test_work. pose proof (pool_work_nonneg (pt_pool s)).
  enough (0 ≤ main_work n (pt_main s)) by lia. destruct (pt_main s); cbn; unfold zlen; lia.
Qed.

Lemma pool_test_work_start n tasks :
  pool_test_work n (pool_test_start n tasks) = 4 * Z.of_nat n + 9 * Z.of_nat (length tasks) + 13.
Proof.
  unfold pool_test_work, pool_work. cbn [pt_pool pt_main pool_test_start threads running_ queue_].
  cbn [main_work]. unfold zlen. rewrite length_app, tally_app.
  enough (tally (thread_work true) (replicate n (Worker (Task:=Task) WLoop)) = 2 * Z.of_nat n) as ->
    by (cbn; lia).
  induction n as [|n IH]; [done|]. unfold tally in *. cbn [replicate foldr thread_work]. lia.
Qed.

(** ** Where it ends *)

Lemma pool_test_stuck n tasks s :
  (0 < n)%nat → pool_test_ok n tasks s → (¬ ∃ s', pool_test_step n s s') →
  pt_main s = TDone ∧ executed (pt_pool s) ≡ₚ tasks ++ [count_down] ∧
  queue_ (pt_pool s) = [] ∧ joined (pt_pool s).
Proof.
  intros H0 [(called & Hok) Hr Hlen Hord Hph Hend] Hstuck.
  assert (Hp : ¬ ∃ p, pool_step maxSize (pt_pool s) p).
  { intros [p Hs]. apply Hstuck. eexists. by apply pool_moves. }
  destruct (pt_main s) as [rest| |] eqn:Hm.
  - destruct (stuck_executed maxSize n called _ ltac:(lia) Hok Hph Hp) as (Hex & Hq & Hall).
    destruct (lookup_lt_is_Some_2 (threads (pt_pool s)) n) as [c Hn]; [lia|].
    pose proof (Hr _ _ Hn) as Hc. rewrite Forall_lookup in Hall.
    destruct (Hall _ _ Hn) as [->| ->]; [cbn in Hc; lia|]. destruct Hstuck.
    destruct rest as [|t rest]; [|eexists; by apply (main_runs _ _ t rest)].
    eexists. apply main_stops; [done..|]. rewrite Hn in Hord. cbn in Hord. rewrite app_nil_r in Hord.
    destruct Hok as (Hfifo & Hst & Hacc & _).
    rewrite (omap_nil to_store), Hord in Hacc.
    + rewrite Hex, <- Hacc. set_solver.
    + intros d Hd. apply list_elem_of_lookup in Hd as [i Hd]. by destruct (Hall _ _ Hd) as [->| ->].
  - destruct Hph as (Hrun & Hq & Hn). destruct Hstuck. eexists. apply main_joined; [done|].
    by eapply stuck_joined.
  - destruct Hph as (Hrun & Hq & Hn). split_and!; [done| |done|by apply Hend].
    destruct (stuck_joined maxSize n called _ Hok Hrun Hp) as [_ Hex].
    rewrite Hn in Hord. cbn in Hord. rewrite app_nil_r in Hord.
    by rewrite Hq, app_nil_r, Hord in Hex.
Qed.

(** C23: The test of the thread pool ends. For any bound of the queue, at least
    one worker and any tasks other than the one of the latch: whatever the
    scheduler and the notifications choose, a run has at most 4 n + 9 m + 13 steps
    for n workers and m tasks, and where it cannot go on, the main thread is
    through, every task has been executed exactly once, the queue is empty and
    the workers have ended. *)
Theorem pool_test_ends n tasks k s :
  (0 < n)%nat → count_down ∉ tasks → nsteps (pool_test_step n) k (pool_test_start n tasks) s →
  (k ≤ 4 * n + 9 * length tasks + 13)%nat ∧
  ((¬ ∃ s', pool_test_step n s s') →
   pt_main s = TDone ∧ executed (pt_pool s) ≡ₚ tasks ++ [count_down] ∧
   queue_ (pt_pool s) = [] ∧ joined (pt_pool s)).
Proof.
  intros Hn Hc Hk. destruct (pool_test_run _ _ _ _ _ Hc (pool_test_start_ok n tasks) Hk) as [Hok Hw].
  split; [|by apply pool_test_stuck]. pose proof (pool_test_work_nonneg n s).
  rewrite pool_test_work_start in Hw. lia.
Qed.
End pool_test.
Arguments pool_test : clear implicits.

(** ** The program *)

(** [print] twice, [printString] a hundred times, and the task of the latch. *)
Inductive test_task := Print | PrintString (str : bytes) | CountDown.

Definition test_tasks : list test_task :=
  Print :: Print :: ((λ i, PrintString (lit "task " ++ print_d i)) <$> seqZ 0 100).

(** [test(maxSize)], which [main] calls with 0, 1, 5, 10 and 50. *)
Definition ThreadPool_test (maxSize : nat) : pool_test test_task → pool_test test_task → Prop :=
  pool_test_step maxSize CountDown 5.
Definition ThreadPool_test_start : pool_test test_task := pool_test_start CountDown 5 test_tasks.

Lemma count_down_only_last : CountDown ∉ test_tasks.
Proof.
  unfold test_tasks. rewrite !elem_of_cons. intros [?|[?|H]]; try done.
  by apply list_elem_of_fmap in H as (i & ? & _).
Qed.

(** It ends whatever the size. *)
Lemma ThreadPool_tests_end maxSize k s :
  nsteps (ThreadPool_test maxSize) k ThreadPool_test_start s →
  (k ≤ 951)%nat ∧ ((¬ ∃ s', ThreadPool_test maxSize s s') → pt_main s = TDone).
Proof.
  intros Hk. destruct (pool_test_run maxSize CountDown 5 test_tasks k _ _ count_down_only_last
    (pool_test_start_ok _ _ _ _) Hk) as [Hok Hw].
  split; [|intros Hs; by eapply (pool_test_stuck maxSize CountDown 5); [lia|..]].
  pose proof (pool_test_work_nonneg 5 s). rewrite pool_test_work_start in Hw.
  replace (length test_tasks) with 102%nat in Hw by (by vm_compute). lia.
Qed.

(** One step of a concrete run, with the state it leads to in normal form. *)
Local Ltac run_step tac :=
  eapply nsteps_l; [tac|];
  cbn [pt_pool pt_main queue_ running_ threads accepted started executed with_threads run_call
       stop notify_all wake_not_empty default fmap list_fmap app insert list_insert].

(** One worker and one task. *)
Lemma pool_test_ends_witness :
  let s := {| pt_pool := {| queue_ := []; running_ := false;
                            threads := [Worker WExit; Producer RDone];
                            accepted := [Print; CountDown]; started := [Print; CountDown];
                            executed := [Print; CountDown] |};
              pt_main := TDone |} in
  (13 ≤ 26)%nat ∧
  ((¬ ∃ s', pool_test_step 0 CountDown 1 s s') →
   pt_main s = TDone ∧ executed (pt_pool s) ≡ₚ [Print] ++ [CountDown] ∧
   queue_ (pt_pool s) = [] ∧ joined (pt_pool s)).
Proof.
  intros s. apply (pool_test_ends 0 CountDown 1 [Print] 13 s); [lia|set_solver|].
  run_step ltac:(apply (main_runs _ _ _ _ Print [CountDown]); done).
  run_step ltac:(apply pool_moves, (run_stores _ _ 1 Print);
                    [done|cbv; lia|apply notify_none; repeat constructor]).
  run_step ltac:(apply (main_runs _ _ _ _ CountDown []); done).
  run_step ltac:(apply pool_moves, (run_stores _ _ 1 CountDown);
                    [done|cbv; lia|apply notify_none; repeat constructor]).
  run_step ltac:(apply pool_moves, (loop_test _ _ 0); done).
  run_step ltac:(apply pool_moves; by eapply (take_task _ _ 0 Print [CountDown])).
  run_step ltac:(apply pool_moves, (task_runs _ _ 0 Print); done).
  run_step ltac:(apply pool_moves, (loop_test _ _ 0); done).
  run_step ltac:(apply pool_moves; by eapply (take_task _ _ 0 CountDown [])).
  run_step ltac:(apply pool_moves, (task_runs _ _ 0 CountDown); done).
  run_step ltac:(apply main_stops; [done|done|set_solver]).
  run_step ltac:(apply pool_moves, (loop_test _ _ 0); done).
  run_step ltac:(apply main_joined; [done|by repeat constructor]).
  apply nsteps_O.
Defined.
