(* ===== verification/ClientServer.v ===== *)
(** A server and its clients: [src/src/network/client_server/server_test.c] and
    [client_test.c].

    The threads of the server take turns in [accept] and read from the connection
    they got until a read returns OVER, or nineteen times. A client connects, sends
    ten messages, the ninth of which is OVER, and keeps the connection open. What
    a client writes is a stream of bytes: the network hands over any part of what
    is on its way, and [read] returns all that has arrived, up to the size of the
    buffer. A failing call of the system is a step of its own ([net_fault]). *)

From stdpp Require Import relations.
From S2P Require Import Prelude CString Monitor.

Open Scope nat_scope.

(** ** The data *)

Definition MAX_BUF_SIZE : nat := Z.to_nat 7000.
Definition MAX_PTHREAD_SIZE : nat := 50.

(** [memset(rcv_buf, 0, ...)] and the bytes that were read. *)
Definition rcv_buf (r : bytes) : bytes := r ++ replicate (MAX_BUF_SIZE - length r) NUL.
(** [strcmp(rcv_buf, "OVER") == 0]. *)
Definition over (r : bytes) : Prop := cstr (rcv_buf r) = lit "OVER".
#[global] Instance over_dec r : Decision (over r).
Proof. unfold over. apply _. Defined.

(** A thread of the server: about to lock the mutex; in [accept]; in the read of
    turn [i] of the loop on connection [c]; about to close the connection. *)
Inductive srv_pc :=
  | SLock
  | SAccept
  | SRead (c i : nat)
  | SClose (c : nat).

Definition after_read (c i : nat) (r : bytes) : srv_pc :=
  if decide (over r) then SClose c
  else if decide (S i = 20) then SClose c else SRead c (S i).

(** A client that has sent [j] messages, and one that closed its socket. *)
Inductive cli_pc := CSend (j : nat) | CGone.

Definition client_msg (j : nat) : bytes :=
  if decide (j = 9) then lit "OVER" else replicate 80 "G"%char.

(** A connection; [reads] is what the reads of the server returned. *)
Record conn := {
  peer : cli_pc;
  flight : bytes;
  arrived : bytes;
  reads : list bytes;
  closed : bool             (* by the server *)
}.

(** [connecting] clients have still to connect; [taken] connections were
    accepted, in the order in which they were made. *)
Record net := {
  connecting : nat;
  conns : list conn;
  taken : nat;
  pth_mutex : option nat;
  pth : list srv_pc
}.

Definition set_conn (s : net) (c : nat) (cn : conn) : net :=
  {| connecting := connecting s; conns := <[c:=cn]> (conns s); taken := taken s;
     pth_mutex := pth_mutex s; pth := pth s |}.
Definition set_pth (s : net) (t : nat) (p : srv_pc) : net :=
  {| connecting := connecting s; conns := conns s; taken := taken s;
     pth_mutex := pth_mutex s; pth := <[t:=p]> (pth s) |}.
Definition set_mutex (s : net) (m : option nat) : net :=
  {| connecting := connecting s; conns := conns s; taken := taken s;
     pth_mutex := m; pth := pth s |}.

(** [connect]: the kernel completes it before the server accepts. *)
Definition connected (s : net) (k : nat) : net :=
  {| connecting := k;
     conns := conns s ++ [{| peer := CSend 0; flight := []; arrived := []; reads := [];
                             closed := false |}];
     taken := taken s; pth_mutex := pth_mutex s; pth := pth s |}.

Definition write (cn : conn) (j : nat) : conn :=
  {| peer := CSend (S j); flight := flight cn ++ client_msg (S j); arrived := arrived cn;
     reads := reads cn; closed := closed cn |}.
Definition deliver (cn : conn) (k : nat) : conn :=
  {| peer := peer cn; flight := drop k (flight cn); arrived := arrived cn ++ take k (flight cn);
     reads := reads cn; closed := closed cn |}.
Definition read (cn : conn) : conn :=
  {| peer := peer cn; flight := flight cn; arrived := drop MAX_BUF_SIZE (arrived cn);
     reads := reads cn ++ [take MAX_BUF_SIZE (arrived cn)]; closed := closed cn |}.
(** A read without data. *)
Definition read_none (cn : conn) : conn :=
  {| peer := peer cn; flight := flight cn; arrived := arrived cn; reads := reads cn ++ [[]];
     closed := closed cn |}.
Definition close (cn : conn) : conn :=
  {| peer := peer cn; flight := flight cn; arrived := arrived cn; reads := reads cn;
     closed := true |}.
Definition gone (cn : conn) : conn :=
  {| peer := CGone; flight := flight cn; arrived := arrived cn; reads := reads cn;
     closed := closed cn |}.

Definition accepted (s : net) (t : nat) : net :=
  {| connecting := connecting s; conns := conns s; taken := S (taken s); pth_mutex := None;
     pth := <[t:=SRead (taken s) 1]> (pth s) |}.

(** ** The steps *)

Inductive net_step (s : net) : net → Prop :=
  (** [pth_func] of the client. *)
  | client_connects k :
      connecting s = S k → net_step s (connected s k)
  | client_writes c cn j :
      conns s !! c = Some cn → peer cn = CSend j → j < 10 →
      net_step s (set_conn s c (write cn j))
  | net_delivers c cn k :
      conns s !! c = Some cn → 0 < k → k ≤ length (flight cn) →
      net_step s (set_conn s c (deliver cn k))
  (** [pth_handle_conn_func]. *)
  | srv_locks t :
      pth s !! t = Some SLock → pth_mutex s = None →
      net_step s (set_mutex (set_pth s t SAccept) (Some t))
  | srv_accepts t :                         (* and unlocks *)
      pth s !! t = Some SAccept → taken s < length (conns s) →
      net_step s (accepted s t)
  | srv_reads t c i cn :
      pth s !! t = Some (SRead c i) → conns s !! c = Some cn → arrived cn ≠ [] →
      net_step s (set_pth (set_conn s c (read cn)) t
                    (after_read c i (take MAX_BUF_SIZE (arrived cn))))
  | srv_eof t c i cn :
      pth s !! t = Some (SRead c i) → conns s !! c = Some cn →
      peer cn = CGone → flight cn = [] → arrived cn = [] →
      net_step s (set_pth (set_conn s c (read_none cn)) t (after_read c i []))
  | srv_closes t c cn :
      pth s !! t = Some (SClose c) → conns s !! c = Some cn →
      net_step s (set_pth (set_conn s c (close cn)) t SLock).

(** What may go wrong: [connect] and [accept] fail, [read] fails (the loop goes
    on), and a client ends. *)
Inductive net_fault (s : net) : net → Prop :=
  | connect_fails k :
      connecting s = S k →
      net_fault s {| connecting := k; conns := conns s; taken := taken s;
                     pth_mutex := pth_mutex s; pth := pth s |}
  | accept_fails t :
      pth s !! t = Some SAccept → net_fault s (set_mutex (set_pth s t SLock) None)
  | read_fails t c i cn :
      pth s !! t = Some (SRead c i) → conns s !! c = Some cn →
      net_fault s (set_pth (set_conn s c (read_none cn)) t (after_read c i []))
  | client_ends c cn j :
      conns s !! c = Some cn → peer cn = CSend j → net_fault s (set_conn s c (gone cn)).

Definition net_start (n m : nat) : net :=
  {| connecting := m; conns := []; taken := 0; pth_mutex := None; pth := replicate n SLock |}.

(** [main] of the server, for what [socket] and [bind] return; then it spins. *)
Definition server_main (listen_fd bind_ret : Z) (m : nat) : Z + net :=
  if decide (listen_fd < 0)%Z then inl (-1)%Z
  else if decide (bind_ret < 0)%Z then inl (-1)%Z
  else inr (net_start MAX_PTHREAD_SIZE m).

(** ** The invariant *)

(** The first [j] messages of a client. *)
Definition sent (j : nat) : bytes := concat (client_msg <$> seq 1 j).

Definition handles (p : srv_pc) : option nat :=
  match p with SRead c _ | SClose c => Some c | _ => None end.

(** The reads after which a thread closes its connection. *)
Definition served (rs : list bytes) : Prop :=
  ∃ l r, rs = l ++ [r] ∧ Forall (λ r, ¬ over r) l ∧ length l < 19 ∧ (over r ∨ length l = 18).

(** What a thread knows of the connection it handles. *)
Definition pc_ok (p : srv_pc) (rs : list bytes) : Prop :=
  match p with
  | SRead c i => S (length rs) = i ∧ i < 20 ∧ Forall (λ r, ¬ over r) rs
  | SClose c => served rs
  | _ => True
  end.

(** Every byte a client has sent was read, has arrived or is on its way. *)
Definition stream_ok (cn : conn) : Prop :=
  ∃ j, j ≤ 10 ∧ (peer cn = CSend j ∨ peer cn = CGone) ∧
       concat (reads cn) ++ arrived cn ++ flight cn = sent j.

Record net_ok (s : net) : Prop := {
  ok_mutex : ∀ t, pth s !! t = Some SAccept ↔ pth_mutex s = Some t;
  ok_taken : taken s ≤ length (conns s);
  ok_stream : ∀ c cn, conns s !! c = Some cn → stream_ok cn;
  ok_waiting : ∀ c cn, conns s !! c = Some cn → taken s ≤ c → reads cn = [] ∧ closed cn = false;
  ok_handled : ∀ t p c, pth s !! t = Some p → handles p = Some c →
    c < taken s ∧ ∃ cn, conns s !! c = Some cn ∧ closed cn = false ∧ pc_ok p (reads cn);
  ok_alone : ∀ t t' p p' c, pth s !! t = Some p → pth s !! t' = Some p' →
    handles p = Some c → handles p' = Some c → t = t';
  ok_served : ∀ c cn, conns s !! c = Some cn → c < taken s →
    (closed cn = true ∧ served (reads cn)) ∨ ∃ t p, pth s !! t = Some p ∧ handles p = Some c
}.

Lemma sent_S j : sent (S j) = sent j ++ client_msg (S j).
Proof. unfold sent. rewrite seq_S, fmap_app, concat_app. cbn. by rewrite app_nil_r. Qed.

(** A connection changes outside the server. *)
Lemma set_conn_ok s c cn cn' :
  net_ok s → conns s !! c = Some cn → reads cn' = reads cn → closed cn' = closed cn →
  stream_ok cn' → net_ok (set_conn s c cn').
Proof.
  intros [Hm Ht Hs Hw Hh Ha Hd] Hc Hr Hcl Hst. pose proof (lookup_lt_Some _ _ _ Hc) as Hlt.
  assert (Hcase : ∀ d dn, <[c:=cn']> (conns s) !! d = Some dn →
    d = c ∧ dn = cn' ∨ conns s !! d = Some dn).
  { intros d dn Hd'. destruct (decide (d = c)) as [->|Hne].
    - rewrite list_lookup_insert_eq in Hd' by done. injection Hd' as <-. by left.
    - rewrite list_lookup_insert_ne in Hd' by done. by right. }
  split; cbn [set_conn conns taken pth pth_mutex]; try done.
  - by rewrite length_insert.
  - intros d dn Hd'. destruct (Hcase _ _ Hd') as [[-> ->]|]; eauto.
  - intros d dn Hd' Hle. destruct (Hcase _ _ Hd') as [[-> ->]|]; [|by eauto].
    rewrite Hr, Hcl. eauto.
  - intros t p d Hp Hhd. destruct (Hh _ _ _ Hp Hhd) as (Hd1 & dn & Hd2 & Hd3 & Hd4). split; [done|].
    destruct (decide (d = c)) as [->|Hne]; [|exists dn; by rewrite list_lookup_insert_ne].
    assert (dn = cn) as -> by congruence. exists cn'. rewrite list_lookup_insert_eq by done.
    by rewrite Hcl, Hr.
  - intros d dn Hd' Hlt'. destruct (Hcase _ _ Hd') as [[-> ->]|]; [|by eauto].
    rewrite Hr, Hcl. eauto.
Qed.

(** A thread works on its connection. *)
Lemma handle_ok s t p c cn p' cn' :
  net_ok s → pth s !! t = Some p → handles p = Some c → conns s !! c = Some cn →
  stream_ok cn' → p' ≠ SAccept →
  (handles p' = Some c ∧ closed cn' = false ∧ pc_ok p' (reads cn')) ∨
  (handles p' = None ∧ closed cn' = true ∧ served (reads cn')) →
  net_ok (set_pth (set_conn s c cn') t p').
Proof.
  intros [Hm Ht Hs Hw Hh Ha Hd] Hp Hpc Hc Hst Hne Hcase.
  pose proof (lookup_lt_Some _ _ _ Hc) as Hlt. pose proof (lookup_lt_Some _ _ _ Hp) as Hltt.
  destruct (Hh _ _ _ Hp Hpc) as (Hct & _).
  assert (Hconn : ∀ d dn, <[c:=cn']> (conns s) !! d = Some dn →
    d = c ∧ dn = cn' ∨ d ≠ c ∧ conns s !! d = Some dn).
  { intros d dn Hd'. destruct (decide (d = c)) as [->|Hdc].
    - rewrite list_lookup_insert_eq in Hd' by done. injection Hd' as <-. by left.
    - rewrite list_lookup_insert_ne in Hd' by done. by right. }
  assert (Hthr : ∀ u q, <[t:=p']> (pth s) !! u = Some q → u = t ∧ q = p' ∨ u ≠ t ∧ pth s !! u = Some q).
  { intros u q Hu. destruct (decide (u = t)) as [->|Hut].
    - rewrite list_lookup_insert_eq in Hu by done. injection Hu as <-. by left.
    - rewrite list_lookup_insert_ne in Hu by done. by right. }
  split; cbn [set_conn set_pth conns taken pth pth_mutex].
  - intros u. rewrite <- Hm. split; intros Hu.
    + destruct (Hthr _ _ Hu) as [[-> <-]|[_ ?]]; done.
    + rewrite list_lookup_insert_ne; [done|]. intros ->. rewrite Hp in Hu. injection Hu as ->. done.
  - by rewrite length_insert.
  - intros d dn Hd'. destruct (Hconn _ _ Hd') as [[-> ->]|[_ ?]]; eauto.
  - intros d dn Hd' Hle. destruct (Hconn _ _ Hd') as [[-> ->]|[_ ?]]; [lia|eauto].
  - intros u q d Hu Hq. destruct (Hthr _ _ Hu) as [[-> ->]|[Hut Hu']].
    + destruct Hcase as [(H1 & H2 & H3)|(H1 & _)]; [|congruence].
      assert (d = c) as -> by congruence. split; [done|]. exists cn'.
      by rewrite list_lookup_insert_eq.
    + destruct (Hh _ _ _ Hu' Hq) as (H1 & dn & H2 & H3). split; [done|]. exists dn.
      rewrite list_lookup_insert_ne; [done|]. intros ->. by destruct Hut; eapply Ha.
  - intros u u' q q' d Hu Hu' Hq Hq'.
    assert (Hd' : ∀ v r, <[t:=p']> (pth s) !! v = Some r → handles r = Some d →
      ∃ r', pth s !! v = Some r' ∧ handles r' = Some d).
    { intros v r Hv Hr. destruct (Hthr _ _ Hv) as [[-> ->]|[_ ?]]; [|eauto].
      exists p. split; [done|]. destruct Hcase as [(H1 & _)|(H1 & _)]; congruence. }
    destruct (Hd' _ _ Hu Hq) as (r & Hr1 & Hr2), (Hd' _ _ Hu' Hq') as (r' & Hr1' & Hr2').
    by eapply Ha.
  - intros d dn Hd' Hdt. destruct (Hconn _ _ Hd') as [[-> ->]|[Hdc Hd'']].
    + destruct Hcase as [(H1 & _)|(_ & H2 & H3)]; [right|by left]. exists t, p'.
      by rewrite list_lookup_insert_eq.
    + destruct (Hd _ _ Hd'' Hdt) as [?|(u & q & Hu & Hq)]; [by left|right]. exists u, q.
      rewrite list_lookup_insert_ne; [done|]. intros <-. congruence.
Qed.

(** A turn of the loop. *)
Lemma after_read_ok c i rs r :
  pc_ok (SRead c i) rs → pc_ok (after_read c i r) (rs ++ [r]) ∧ handles (after_read c i r) = Some c ∧
  after_read c i r ≠ SAccept.
Proof.
  intros (Hi & Hlt & Hno). unfold after_read. destruct (decide (over r)) as [Ho|Ho].
  - split_and!; try done. exists rs, r. split_and!; [done|done|lia|by left].
  - destruct (decide (S i = 20)) as [E|E]; (split_and!; try done).
    + exists rs, r. split_and!; [done|done|lia|right; lia].
    + cbn. rewrite length_app. cbn. split_and!; [lia|lia|]. apply Forall_app. split; [done|by constructor].
Qed.

(** A thread that handles nothing, before and behind the lock and the accept. *)
Lemma idle_ok s t p p' m :
  net_ok s → pth s !! t = Some p → handles p = None → handles p' = None →
  (∀ u, <[t:=p']> (pth s) !! u = Some SAccept ↔ m = Some u) →
  net_ok (set_mutex (set_pth s t p') m).
Proof.
  intros [Hm Ht Hs Hw Hh Ha Hd] Hp Hn Hn' Hacc. pose proof (lookup_lt_Some _ _ _ Hp) as Hltt.
  assert (Hthr : ∀ u q c, handles q = Some c → <[t:=p']> (pth s) !! u = Some q ↔ pth s !! u = Some q).
  { intros u q c Hq. destruct (decide (u = t)) as [->|Hut]; [|by rewrite list_lookup_insert_ne].
    rewrite list_lookup_insert_eq by done. split; congruence. }
  split; cbn [set_pth set_mutex conns taken pth pth_mutex]; try done.
  - intros u q d Hu Hq. rewrite (Hthr _ _ _ Hq) in Hu. eauto.
  - intros u u' q q' d Hu Hu' Hq Hq'. rewrite (Hthr _ _ _ Hq) in Hu. rewrite (Hthr _ _ _ Hq') in Hu'. eauto.
  - intros d dn Hd' Hdt. destruct (Hd _ _ Hd' Hdt) as [?|(u & q & Hu & Hq)]; [by left|right].
    exists u, q. by rewrite (Hthr _ _ _ Hq).
Qed.

Lemma accepted_ok s t :
  net_ok s → pth s !! t = Some SAccept → taken s < length (conns s) → net_ok (accepted s t).
Proof.
  intros [Hm Ht Hs Hw Hh Ha Hd] Hp Hlt. pose proof (lookup_lt_Some _ _ _ Hp) as Hltt.
  destruct (lookup_lt_is_Some_2 (conns s) (taken s) Hlt) as [cn Hcn].
  destruct (Hw _ _ Hcn) as [Hr Hcl]; [lia|].
  assert (Hthr : ∀ u q, <[t:=SRead (taken s) 1]> (pth s) !! u = Some q →
    u = t ∧ q = SRead (taken s) 1 ∨ u ≠ t ∧ pth s !! u = Some q).
  { intros u q Hu. destruct (decide (u = t)) as [->|Hut].
    - rewrite list_lookup_insert_eq in Hu by done. injection Hu as <-. by left.
    - rewrite list_lookup_insert_ne in Hu by done. by right. }
  split; cbn [accepted conns taken pth pth_mutex].
  - intros u. split; [|done]. intros Hu. destruct (Hthr _ _ Hu) as [[_ ?]|[Hut Hu']]; [done|].
    apply Hm in Hu', Hp. congruence.
  - lia.
  - done.
  - intros d dn Hd' Hle. apply (Hw _ _ Hd'). lia.
  - intros u q d Hu Hq. destruct (Hthr _ _ Hu) as [[-> ->]|[_ Hu']].
    + injection Hq as <-. split; [lia|]. exists cn. rewrite Hr. cbn. split_and!; done || lia.
    + destruct (Hh _ _ _ Hu' Hq) as (? & ?). split; [lia|done].
  - intros u u' q q' d Hu Hu' Hq Hq'.
    destruct (Hthr _ _ Hu) as [[-> ->]|[_ H]], (Hthr _ _ Hu') as [[-> ->]|[_ H']]; [done|..].
    + injection Hq as <-. destruct (Hh _ _ _ H' Hq'). lia.
    + injection Hq' as <-. destruct (Hh _ _ _ H Hq). lia.
    + eauto.
  - intros d dn Hd' Hdt. destruct (decide (d = taken s)) as [->|Hne].
    + right. exists t, (SRead (taken s) 1). by rewrite list_lookup_insert_eq.
    + destruct (Hd _ _ Hd') as [?|(u & q & Hu & Hq)]; [lia|by left|right]. exists u, q.
      rewrite list_lookup_insert_ne; [done|]. intros <-. rewrite Hp in Hu. by injection Hu as <-.
Qed.

Lemma connected_ok s k : net_ok s → net_ok (connected s k).
Proof.
  intros [Hm Ht Hs Hw Hh Ha Hd].
  assert (Hc : ∀ c cn, conns (connected s k) !! c = Some cn →
    conns s !! c = Some cn ∨ c = length (conns s) ∧
    cn = {| peer := CSend 0; flight := []; arrived := []; reads := []; closed := false |}).
  { intros c cn Hc. cbn in Hc. apply lookup_snoc_Some in Hc as [[_ ?]|[-> <-]]; auto. }
  split; cbn [connected taken pth pth_mutex]; try done.
  - cbn. rewrite length_app. lia.
  - intros c cn Hcn. destruct (Hc _ _ Hcn) as [?|[_ ->]]; [by eauto|]. exists 0. cbn. split_and!; [lia|by left|done].
  - intros c cn Hcn Hle. destruct (Hc _ _ Hcn) as [?|[_ ->]]; [by eauto|done].
  - intros t p c Hp Hpc. destruct (Hh _ _ _ Hp Hpc) as (Hlt & cn & Hcn & ?). split; [done|].
    exists cn. split; [|done]. cbn. by apply lookup_app_l_Some.
  - intros c cn Hcn Hlt. destruct (Hc _ _ Hcn) as [?|[-> _]]; [by eauto|lia].
Qed.

Lemma net_any_ok s s' : net_ok s → net_step s s' ∨ net_fault s s' → net_ok s'.
Proof.
  intros Hok Hs. pose proof Hok as [Hm Ht Hst Hw Hh Ha Hd].
  assert (Hread : ∀ t c i cn r cn', pth s !! t = Some (SRead c i) → conns s !! c = Some cn →
    reads cn' = reads cn ++ [r] → closed cn' = closed cn → stream_ok cn' →
    net_ok (set_pth (set_conn s c cn') t (after_read c i r))).
  { intros t c i cn r cn' Hp Hc Hr Hcl Hs'.
    destruct (Hh _ _ _ Hp eq_refl) as (_ & dn & Hdn & Hdc & Hpc). assert (dn = cn) as -> by congruence.
    destruct (after_read_ok _ _ _ r Hpc) as (H1 & H2 & H3).
    eapply handle_ok; try done. left. by rewrite Hcl, Hr. }
  destruct Hs as [[k Hk|c cn j Hc Hp Hj|c cn k Hc Hk Hle|t Hp Hfree|t Hp Hlt|t c i cn Hp Hc Hne
                  |t c i cn Hp Hc Hg Hf Hn|t c cn Hp Hc]|[k Hk|t Hp|t c i cn Hp Hc|c cn j Hc Hp]];
    try (destruct (Hst _ _ Hc) as (j0 & Hj0 & Hpeer & Hsent)).
  - by apply connected_ok.
  - eapply set_conn_ok; try done. exists (S j). cbn [write peer reads arrived flight]. destruct Hpeer as [Hpeer|Hpeer]; [|congruence].
    assert (j0 = j) as -> by congruence. split_and!; [lia|by left|]. by rewrite sent_S, <- Hsent, <- !app_assoc.
  - eapply set_conn_ok; try done. exists j0. cbn. split_and!; try done.
    by rewrite <- app_assoc, take_drop.
  - eapply (idle_ok _ _ SLock SAccept); try done. intros u. pose proof (lookup_lt_Some _ _ _ Hp) as Hlt.
    destruct (decide (u = t)) as [->|Hut]; [by rewrite list_lookup_insert_eq|].
    rewrite list_lookup_insert_ne, Hm, Hfree by done. split; congruence.
  - by apply accepted_ok.
  - eapply Hread; try done. exists j0. cbn. split_and!; try done.
    rewrite concat_app. cbn. rewrite app_nil_r, <- app_assoc, (app_assoc (take _ _)), take_drop. done.
  - eapply Hread; try done. exists j0. cbn. rewrite concat_app. cbn. by rewrite app_nil_r.
  - destruct (Hh _ _ _ Hp eq_refl) as (_ & dn & Hdn & _ & Hpc). assert (dn = cn) as -> by congruence.
    eapply handle_ok; try done; [by exists j0|by right].
  - by split.
  - eapply (idle_ok _ _ SAccept SLock); try done. intros u. pose proof (lookup_lt_Some _ _ _ Hp) as Hlt.
    split; [|done]. intros Hu. destruct (decide (u = t)) as [->|Hut].
    + by rewrite list_lookup_insert_eq in Hu.
    + rewrite list_lookup_insert_ne in Hu by done. apply Hm in Hu, Hp. congruence.
  - eapply Hread; try done. exists j0. cbn. rewrite concat_app. cbn. by rewrite app_nil_r.
  - eapply set_conn_ok; try done. exists j0. cbn. by auto.
Qed.

Lemma net_start_ok n m : net_ok (net_start n m).
Proof.
  assert (Ht : ∀ t p, replicate n SLock !! t = Some p → p = SLock)
    by (intros t p Hp; by apply lookup_replicate in Hp as [-> _]).
  split; cbn [net_start conns taken pth pth_mutex]; try done.
  - intros t. split; [|done]. intros Hp. by apply Ht in Hp.
  - intros t p c Hp Hc. by apply Ht in Hp as ->.
  - intros t t' p p' c Hp _ Hc. by apply Ht in Hp as ->.
Qed.

Lemma net_reach_ok n m s :
  rtc (λ s s', net_step s s' ∨ net_fault s s') (net_start n m) s → net_ok s.
Proof.
  pose proof (net_start_ok n m) as Hok. revert Hok. generalize (net_start n m). intros s0 Hok Hr.
  induction Hr as [|s0 s1 s2 Hs _ IH]; [done|]. eauto using net_any_ok.
Qed.

(** ** The work that is left *)

Definition pc_work (p : srv_pc) : Z :=
  match p with SLock => 1 | SAccept => 0 | SRead _ i => 22 - Z.of_nat i | SClose _ => 2 end.
Definition conn_work (cn : conn) : Z :=
  (match peer cn with CSend j => 81 * (10 - Z.of_nat j) | CGone => 0 end + zlen (flight cn))%Z.
Definition net_work (s : net) : Z :=
  (834 * Z.of_nat (connecting s) + tally conn_work (conns s) +
   23 * (Z.of_nat (length (conns s)) - Z.of_nat (taken s)) + tally pc_work (pth s))%Z.

Lemma client_msg_length j : length (client_msg j) ≤ 80.
Proof. unfold client_msg. case_decide; [cbn; lia|by rewrite length_replicate]. Qed.

Lemma after_read_work c i r : i < 20 → (pc_work (after_read c i r) < 22 - Z.of_nat i)%Z.
Proof. intros Hi. unfold after_read. repeat case_decide; cbn; lia. Qed.

Lemma net_step_work s s' : net_ok s → net_step s s' → (net_work s' < net_work s)%Z.
Proof.
  intros [Hm Ht Hst Hw Hh Ha Hd] Hs. unfold net_work.
  destruct Hs as [k Hk|c cn j Hc Hp Hj|c cn k Hc Hk Hle|t Hp Hfree|t Hp Hlt|t c i cn Hp Hc Hne
                 |t c i cn Hp Hc Hg Hf Hn|t c cn Hp Hc];
    cbn [connected set_conn set_pth set_mutex accepted conns connecting taken pth];
    rewrite ?length_insert, ?(tally_insert _ _ _ _ _ Hc), ?(tally_insert _ _ _ _ _ Hp).
  - rewrite Hk, tally_app, length_app. unfold tally at 2, conn_work at 2, zlen. cbn [foldr peer flight length]. lia.
  - unfold conn_work, write, zlen. rewrite Hp. cbn [peer flight].
    rewrite length_app. pose proof (client_msg_length (S j)). lia.
  - unfold conn_work, deliver, zlen. cbn [peer flight]. rewrite length_drop. lia.
  - cbn. lia.
  - cbn. lia.
  - destruct (Hh _ _ _ Hp eq_refl) as (_ & ? & _ & _ & _ & Hi & _).
    pose proof (after_read_work c i (take MAX_BUF_SIZE (arrived cn)) Hi).
    unfold conn_work. cbn [read peer flight pc_work] in *. lia.
  - destruct (Hh _ _ _ Hp eq_refl) as (_ & ? & _ & _ & _ & Hi & _).
    pose proof (after_read_work c i [] Hi).
    unfold conn_work. cbn [read_none peer flight pc_work] in *. lia.
  - unfold conn_work. cbn [close peer flight pc_work]. lia.
Qed.

Lemma net_work_nonneg s : net_ok s → (0 ≤ net_work s)%Z.
Proof.
  intros [Hm Ht Hst Hw Hh Ha Hd]. unfold net_work.
  assert (H1 : ∀ l, Forall (λ cn, 0 ≤ conn_work cn)%Z l → (0 ≤ tally conn_work l)%Z).
  { intros l Hl. induction Hl as [|cn l ? _ IH]; [done|]. unfold tally in *. cbn. lia. }
  assert (H2 : ∀ l, Forall (λ p, 0 ≤ pc_work p)%Z l → (0 ≤ tally pc_work l)%Z).
  { intros l Hl. induction Hl as [|p l ? _ IH]; [done|]. unfold tally in *. cbn. lia. }
  enough (0 ≤ tally conn_work (conns s) ∧ 0 ≤ tally pc_work (pth s))%Z by lia. split.
  - apply H1, Forall_lookup. intros c cn Hc. destruct (Hst _ _ Hc) as (j & Hj & Hpeer & _).
    unfold conn_work, zlen. destruct Hpeer as [->| ->]; lia.
  - apply H2, Forall_lookup. intros t p Hp. destruct p as [| |c i|c]; cbn; try lia.
    destruct (Hh _ _ _ Hp eq_refl) as (_ & ? & _ & _ & _ & Hi & _). lia.
Qed.

Lemma net_run_ok k s s' :
  net_ok s → nsteps net_step k s s' → net_ok s' ∧ (Z.of_nat k + net_work s' ≤ net_work s)%Z.
Proof.
  intros Hok Hk. induction Hk as [s|k s s1 s2 Hs _ IH]; [split; [done|lia]|].
  pose proof (net_step_work _ _ Hok Hs). destruct IH; [eauto using net_any_ok|]. split; [done|lia].
Qed.

(** ** Where a run ends *)

(** A connection is closed; or its thread waits for a client that stays and has
    no more to say; or every thread does so and nobody accepts it. *)
Definition conn_end (s : net) (c : nat) (cn : conn) : Prop :=
  (closed cn = true ∧ served (reads cn)) ∨
  (∃ t i, pth s !! t = Some (SRead c i) ∧ peer cn = CSend 10 ∧
     concat (reads cn) = sent 10 ∧ Forall (λ r, ¬ over r) (reads cn)) ∨
  (reads cn = [] ∧ ∀ t p, pth s !! t = Some p → ∃ c' i, p = SRead c' i).

Lemma net_stuck s :
  net_ok s → (¬ ∃ s', net_step s s') →
  connecting s = 0 ∧ ∀ c cn, conns s !! c = Some cn → flight cn = [] ∧ conn_end s c cn.
Proof.
  intros [Hm Ht Hst Hw Hh Ha Hd] Hstuck. split.
  { destruct (connecting s) as [|k] eqn:Hk; [done|]. destruct Hstuck. eexists. by eapply client_connects. }
  intros c cn Hc. assert (Hf : flight cn = []).
  { destruct (flight cn) as [|x l] eqn:Hf; [done|]. destruct Hstuck. eexists.
    apply (net_delivers _ c cn 1); [done|lia|]. rewrite Hf. cbn. lia. }
  split; [done|].
  assert (Hclose : ∀ t d, pth s !! t ≠ Some (SClose d)).
  { intros t d Hp. destruct (Hh _ _ _ Hp eq_refl) as (_ & dn & Hdn & _).
    destruct Hstuck. eexists. by eapply srv_closes. }
  destruct (decide (c < taken s)) as [Hlt|Hge].
  - destruct (Hd _ _ Hc Hlt) as [?|(t & p & Hp & Hpc)]; [by left|right; left].
    destruct p as [| |c' i|c']; try done; [|by destruct (Hclose t c')].
    injection Hpc as ->. destruct (Hh _ _ _ Hp eq_refl) as (_ & dn & Hdn & _ & _ & _ & Hno).
    assert (dn = cn) as -> by congruence. exists t, i.
    destruct (Hst _ _ Hc) as (j & Hj & Hpeer & Hsent).
    assert (Har : arrived cn = []).
    { destruct (decide (arrived cn = [])) as [|Hne]; [done|].
      destruct Hstuck. eexists. by eapply srv_reads. }
    destruct Hpeer as [Hpeer|Hpeer]; [|destruct Hstuck; eexists; by eapply srv_eof].
    assert (j = 10) as ->.
    { destruct (decide (j < 10)); [|lia]. destruct Hstuck. eexists. by eapply client_writes. }
    rewrite Hf, Har, !app_nil_r in Hsent. done.
  - right; right. destruct (Hw _ _ Hc) as [Hr _]; [lia|]. split; [done|]. intros t p Hp.
    pose proof (lookup_lt_Some _ _ _ Hc) as Hlen.
    assert (Hacc : ∀ u, pth s !! u ≠ Some SAccept).
    { intros u Hu. destruct Hstuck. eexists. apply (srv_accepts _ u); [done|lia]. }
    destruct p as [| |c' i|c']; [|by destruct (Hacc t)|by eauto|by destruct (Hclose t c')].
    destruct (pth_mutex s) as [u|] eqn:Hmu; [by destruct (Hacc u (proj2 (Hm u) eq_refl))|].
    destruct Hstuck. eexists. by eapply srv_locks.
Qed.

(** ** Clients that are never left *)

(** A client that has sent [j] messages before anything arrived, and one whose
    messages arrived together. *)
Definition sending (j : nat) : conn :=
  {| peer := CSend j; flight := sent j; arrived := []; reads := []; closed := false |}.
Definition arrived_together : conn :=
  {| peer := CSend 10; flight := []; arrived := sent 10; reads := []; closed := false |}.
Definition read_together : conn :=
  {| peer := CSend 10; flight := []; arrived := []; reads := [sent 10]; closed := false |}.

Lemma sent_length : length (sent 10) = 724.
Proof. by vm_compute. Qed.

Lemma take_sent : take MAX_BUF_SIZE (sent 10) = sent 10.
Proof. apply take_ge. rewrite sent_length. unfold MAX_BUF_SIZE. lia. Qed.

Lemma read_all : read arrived_together = read_together.
Proof.
  unfold read, arrived_together. cbn [peer flight arrived reads closed].
  rewrite take_sent, drop_ge by (rewrite sent_length; unfold MAX_BUF_SIZE; lia). done.
Qed.

(** OVER is in the middle of what was read. *)
Lemma sent_not_over : ¬ over (sent 10).
Proof. apply (bool_decide_unpack (¬ over (sent 10))). by vm_compute. Qed.

Definition net_of (rest : nat) (l : list conn) (k : nat) (m : option nat) (ts : list srv_pc) : net :=
  {| connecting := rest; conns := l; taken := k; pth_mutex := m; pth := ts |}.

(** [n] threads, the first [k] of which wait for a client. *)
Definition waiting_threads (n k : nat) : list srv_pc :=
  ((λ c, SRead c 2) <$> seq 0 k) ++ replicate (n - k) SLock.

Lemma insert_last {A} (l : list A) x y : <[length l:=y]> (l ++ [x]) = l ++ [y].
Proof. by rewrite insert_app_r_alt, Nat.sub_diag by lia. Qed.

Lemma lookup_last {A} (l : list A) x : (l ++ [x]) !! length l = Some x.
Proof. by rewrite lookup_app_r, Nat.sub_diag by lia. Qed.

(** A client connects and sends everything at once. *)
Lemma client_runs rest l k m ts :
  rtc net_step (net_of (S rest) l k m ts) (net_of rest (l ++ [arrived_together]) k m ts).
Proof.
  eapply rtc_l; [by apply (client_connects _ rest)|].
  assert (Hj : ∀ j, j ≤ 10 → rtc net_step (net_of rest (l ++ [sending 0]) k m ts)
                                          (net_of rest (l ++ [sending j]) k m ts)).
  { induction j as [|j IH]; intros Hle; [apply rtc_refl|]. eapply rtc_r; [apply IH; lia|].
    assert (net_of rest (l ++ [sending (S j)]) k m ts =
            set_conn (net_of rest (l ++ [sending j]) k m ts) (length l) (write (sending j) j)) as ->.
    { unfold set_conn, net_of. cbn [conns connecting taken pth pth_mutex]. rewrite insert_last.
      unfold write, sending. cbn [peer flight arrived reads closed]. by rewrite sent_S. }
    apply client_writes; [apply lookup_last|done|lia]. }
  eapply rtc_r; [by apply (Hj 10)|].
  assert (net_of rest (l ++ [arrived_together]) k m ts =
          set_conn (net_of rest (l ++ [sending 10]) k m ts) (length l)
            (deliver (sending 10) (length (sent 10)))) as ->.
  { unfold set_conn, net_of. cbn [conns connecting taken pth pth_mutex]. by rewrite insert_last. }
  apply net_delivers; [apply lookup_last|rewrite sent_length; lia|done].
Qed.

(** Thread [k] takes it, reads once, and waits for more. *)
Lemma thread_waits n k rest :
  k < n →
  rtc net_step (net_of (S rest) (replicate k read_together) k None (waiting_threads n k))
               (net_of rest (replicate (S k) read_together) (S k) None (waiting_threads n (S k))).
Proof.
  intros Hk. etrans; [apply client_runs|].
  set (ts := (λ c, SRead c 2) <$> seq 0 k). set (l := replicate k read_together).
  assert (Hl : length l = k) by apply length_replicate.
  assert (Ht : length ts = k) by (unfold ts; by rewrite length_fmap, length_seq).
  assert (Hw : waiting_threads n k = ts ++ SLock :: replicate (n - S k) SLock).
  { unfold waiting_threads, ts. f_equal. replace (n - k) with (S (n - S k)) by lia. done. }
  assert (Hw' : waiting_threads n (S k) = ts ++ SRead k 2 :: replicate (n - S k) SLock).
  { unfold waiting_threads, ts. by rewrite seq_S, fmap_app, <- app_assoc. }
  assert (Hat : ∀ p, (ts ++ p :: replicate (n - S k) SLock) !! k = Some p)
    by (intros p; by rewrite lookup_app_r, Ht, Nat.sub_diag by lia).
  assert (Hins : ∀ p q, <[k:=q]> (ts ++ p :: replicate (n - S k) SLock) = ts ++ q :: replicate (n - S k) SLock)
    by (intros p q; by rewrite insert_app_r_alt, Ht, Nat.sub_diag by lia).
  rewrite Hw, Hw', replicate_S_end. fold l.
  eapply rtc_l; [apply (srv_locks _ k); [apply Hat|done]|]. unfold set_mutex, set_pth, net_of.
  cbn [connecting conns taken pth pth_mutex]. rewrite Hins.
  eapply rtc_l; [apply (srv_accepts _ k); cbn; [apply Hat|rewrite length_app; cbn; lia]|].
  unfold accepted. cbn [connecting conns taken pth pth_mutex]. rewrite Hins.
  apply rtc_once.
  assert ({| connecting := rest; conns := l ++ [read_together]; taken := S k; pth_mutex := None;
             pth := ts ++ SRead k 2 :: replicate (n - S k) SLock |} =
    set_pth (set_conn {| connecting := rest; conns := l ++ [arrived_together]; taken := S k;
                         pth_mutex := None; pth := ts ++ SRead k 1 :: replicate (n - S k) SLock |}
               k (read arrived_together)) k
      (after_read k 1 (take MAX_BUF_SIZE (arrived arrived_together)))) as ->.
  { unfold set_pth, set_conn. cbn [connecting conns taken pth pth_mutex].
    rewrite Hins, <- Hl, insert_last, read_all. cbn [arrived arrived_together]. rewrite take_sent. unfold after_read.
    by rewrite decide_False by apply sent_not_over. }
  apply srv_reads; [apply Hat|cbn; rewrite <- Hl; apply lookup_last|done].
Qed.

Lemma threads_wait n k rest :
  k ≤ n →
  rtc net_step (net_start n (k + rest))
               (net_of rest (replicate k read_together) k None (waiting_threads n k)).
Proof.
  revert rest. induction k as [|k IH]; intros rest Hk.
  - unfold waiting_threads. rewrite Nat.sub_0_r. apply rtc_refl.
  - replace (S k + rest) with (k + S rest) by lia. etrans; [apply IH; lia|]. by apply thread_waits.
Qed.

(** A client whose messages arrive one by one. *)
Definition slow_client (j : nat) : conn :=
  {| peer := CSend j; flight := []; arrived := []; reads := client_msg <$> seq 1 j; closed := false |}.

Lemma slow_turn j :
  j < 9 →
  rtc net_step (net_of 0 [slow_client j] 1 None [SRead 0 (S j)])
    (net_of 0 [slow_client (S j)] 1 None
       [if decide (S j = 9) then SClose 0 else SRead 0 (S (S j))]).
Proof.
  intros Hj. eapply rtc_l; [apply (client_writes _ 0 (slow_client j) j); [done|done|lia]|].
  assert (Hlen : 0 < length (client_msg (S j)) ≤ MAX_BUF_SIZE).
  { unfold client_msg, MAX_BUF_SIZE. case_decide; [cbn; lia|]. rewrite length_replicate. lia. }
  eapply rtc_l; [apply (net_delivers _ 0 (write (slow_client j) j) (length (client_msg (S j))));
                 [done|lia|done]|].
  set (cn := deliver _ _).
  assert (Hcn : arrived cn = client_msg (S j)).
  { unfold cn, deliver, write. cbn [arrived flight slow_client app]. by apply take_ge. }
  assert (Hfl : flight cn = []).
  { unfold cn, deliver, write. cbn [arrived flight slow_client app]. by apply drop_ge. }
  assert (Ht : take MAX_BUF_SIZE (arrived cn) = client_msg (S j)) by (rewrite Hcn; apply take_ge; lia).
  apply rtc_once.
  assert (E : slow_client (S j) = read cn).
  { unfold read. rewrite Hfl, Ht, (drop_ge (arrived cn)) by (rewrite Hcn; lia).
    unfold slow_client. rewrite seq_S, fmap_app. done. }
  assert (Hp : (if decide (S j = 9) then SClose 0 else SRead 0 (S (S j))) =
               after_read 0 (S j) (take MAX_BUF_SIZE (arrived cn))).
  { rewrite Ht. unfold after_read, client_msg. destruct (decide (S j = 9)) as [Hj'|Hj'].
    - assert (over (lit "OVER")) by (apply (bool_decide_unpack (over (lit "OVER"))); by vm_compute). by rewrite decide_True.
    - assert (¬ over (replicate 80 "G"%char)) as Hno
        by (apply (bool_decide_unpack (¬ over (replicate 80 "G"%char))); by vm_compute).
      rewrite decide_False by done. by rewrite decide_False by lia. }
  rewrite E, Hp. apply (srv_reads (net_of 0 [cn] 1 None [SRead 0 (S j)]) 0 0 (S j) cn); [done|done|].
  intros Hnil. rewrite Hcn in Hnil. rewrite Hnil in Hlen. cbn in Hlen. lia.
Qed.

(** Then OVER is read by itself, and the server leaves the client behind the
    ninth message. *)
Lemma slow_client_served :
  rtc net_step (net_start 1 1)
    (net_of 0 [close (slow_client 9)] 1 None [SLock]).
Proof.
  eapply rtc_l; [by apply (client_connects _ 0)|].
  eapply rtc_l; [by apply (srv_locks _ 0)|].
  eapply rtc_l; [apply (srv_accepts _ 0); [done|cbn; lia]|].
  assert (Hj : ∀ j, j ≤ 8 → rtc net_step (net_of 0 [slow_client 0] 1 None [SRead 0 1])
                                         (net_of 0 [slow_client j] 1 None [SRead 0 (S j)])).
  { induction j as [|j IH]; intros Hj; [apply rtc_refl|]. etrans; [apply IH; lia|].
    pose proof (slow_turn j) as H. rewrite decide_False in H by lia. apply H. lia. }
  etrans; [apply (Hj 8); lia|]. etrans; [apply slow_turn; lia|].
  apply rtc_once. by apply (srv_closes (net_of 0 [slow_client 9] 1 None [SClose 0]) 0 0 (slow_client 9)).
Qed.

(** ** Theorems *)

(** The server at every moment of every run, failing calls included: at most
    one thread is in [accept]; no two threads have the same connection; what was
    read from a connection is, in order, the beginning of what its client sends;
    an accepted connection has a thread or is closed; and it is only closed
    behind a read of OVER or the nineteenth read. *)
Theorem client_server_serves n m s :
  rtc (λ s s', net_step s s' ∨ net_fault s s') (net_start n m) s →
  (∀ t t', pth s !! t = Some SAccept → pth s !! t' = Some SAccept → t = t') ∧
  (∀ t t' p p' c, pth s !! t = Some p → pth s !! t' = Some p' →
     handles p = Some c → handles p' = Some c → t = t') ∧
  (∀ c cn, conns s !! c = Some cn →
     concat (reads cn) `prefix_of` sent 10 ∧
     (c < taken s → closed cn = true ∨ ∃ t p, pth s !! t = Some p ∧ handles p = Some c) ∧
     (closed cn = true → served (reads cn))).
Proof.
  intros Hr. apply net_reach_ok in Hr as [Hm Ht Hs Hw Hh Ha Hd]. split_and!; [|done|].
  - intros t t' Hp Hp'. apply Hm in Hp, Hp'. congruence.
  - intros c cn Hc. split_and!.
    + destruct (Hs _ _ Hc) as (j & Hj & _ & Hsent). trans (sent j).
      * rewrite <- Hsent. by eexists.
      * unfold sent. replace 10 with (j + (10 - j)) by lia. rewrite seq_app, fmap_app, concat_app.
        by eexists.
    + intros Hlt. destruct (Hd _ _ Hc Hlt) as [[? _]|?]; auto.
    + intros Hcl. destruct (decide (c < taken s)) as [Hlt|Hge].
      * destruct (Hd _ _ Hc Hlt) as [[_ ?]|(t & p & Hp & Hpc)]; [done|].
        destruct (Hh _ _ _ Hp Hpc) as (_ & dn & Hdn & ? & _). congruence.
      * destruct (Hw _ _ Hc); [lia|congruence].
Qed.



(** The slow client is served, by a single thread. *)
Lemma client_server_serves_witness :
  let s := net_of 0 [close (slow_client 9)] 1 None [SLock] in
  (∀ t t', pth s !! t = Some SAccept → pth s !! t' = Some SAccept → t = t') ∧
  (∀ t t' p p' c, pth s !! t = Some p → pth s !! t' = Some p' →
     handles p = Some c → handles p' = Some c → t = t') ∧
  (∀ c cn, conns s !! c = Some cn →
     concat (reads cn) `prefix_of` sent 10 ∧
     (c < taken s → closed cn = true ∨ ∃ t p, pth s !! t = Some p ∧ handles p = Some c) ∧
     (closed cn = true → served (reads cn))).
Proof.
  intros s. apply (client_server_serves 1 1 s).
  apply (rtc_subrel net_step); [by left|]. exact slow_client_served.
Defined.

