(* ===== verification/LogTest.v ===== *)
(** Sequences of messages of a process, and the program
    [log/iridiumSysLog/logtest/test.c] that writes one.

    IridiumLog.v has a single message; here a process without configuration file
    writes up to five hundred of them, to any names, before the first check of
    the size of a file. *)

From S2P Require Import Prelude CString GHash ConfText ConfCore LogConfCore LogConf IridiumLog.

(** A call of [iridium_write_log], with what the macro adds. *)
Record message := {
  m_func : bytes; m_line : Z;
  m_file : option bytes; m_level : Z; m_text : bytes
}.

Section program.
Context {T : Type → Type → Type} `{!GHashTable T}.
Context (env : log_env) (fileName : bytes).

(** The calls one after another, with what they return. *)
Fixpoint write_all (ms : list message) (s : log_state (T:=T)) : outcome (list Z * log_state) :=
  match ms with
  | [] => mret ([], s)
  | m :: ms =>
      '(ret, s) ← transparent_iridium_write_log env fileName (m_func m) (m_line m) (m_file m)
                    (m_level m) (m_text m) s;
      '(rets, s) ← write_all ms s;
      mret (ret :: rets, s)
  end.
End program.

(** ** What the log files hold *)

(** The name a message goes under, and the line it becomes. *)
Definition target (m : message) : bytes := default DEFAULT_LOG_FILE_NAME (m_file m).
Definition line_of (t : tm) (fileName : bytes) (m : message) : bytes :=
  match build_parts (irilog_switch default_info) t fileName (m_func m) (m_line m) (m_level m) (m_text m) with
  | Ret p => file_text (irilog_switch default_info) p (m_level m)
  | _ => []
  end.

(** Without configuration the debug level is off. *)
Definition shown_messages (ms : list message) : list message :=
  filter (λ m, m_level m ≠ IRILOG_DEBUG) ms.

Definition message_ok (m : message) : Prop :=
  zlen (target m) < FILE_NAME_LEN - 1 ∧ IRILOG_DEBUG ≤ m_level m ≤ IRILOG_FATAL.

#[global] Instance message_ok_dec m : Decision (message_ok m).
Proof. unfold message_ok. apply _. Defined.

Definition write_event (e : event) : option (Z * bytes) :=
  match e with WriteFile fd text => Some (fd, text) | _ => None end.
Definition open_fd (e : event) : option Z :=
  match e with Open _ fd => Some fd | _ => None end.

(** [open] succeeds with a descriptor that is not in use; nothing is closed. *)
Class OpenLaws (env : log_env) := {
  open_positive : ∀ tr p, 0 < sys_open env tr p;
  open_fresh : ∀ tr p, sys_open env tr p ∉ omap open_fd tr
}.

Lemma aget_lookup {A} `{!Inhabited A} (l : list A) n x : l !! n = Some x → aget l (Z.of_nat n) = Ret x.
Proof.
  intros H. pose proof (lookup_lt_Some _ _ _ H). rewrite aget_ok by (unfold zlen; lia).
  unfold rd. rewrite Nat2Z.id. by rewrite (list_lookup_total_correct _ _ _ H).
Qed.

Lemma aset_lookup {A} `{!Inhabited A} (l : list A) n x y :
  l !! n = Some x → aset l (Z.of_nat n) y = Ret (<[n:=y]> l).
Proof.
  intros H. pose proof (lookup_lt_Some _ _ _ H). rewrite aset_ok by (unfold zlen; lia).
  unfold upd. by rewrite Nat2Z.id.
Qed.
Section log.
Context {T : Type → Type → Type} `{!GHashTable T, !GHashTableLaws T}.
Context (env : log_env) `{!OpenLaws env} (fileName : bytes) (t : tm).
Context (Htime : ∀ tr, sys_localtime env tr = t) (Hmon : 0 ≤ tm_mon t).
Implicit Types (s : log_state (T:=T)).

(** The state of an initialised process: [names] have files, [fd] is their
    descriptor, [ws] was written, and no file was written more than [k] times. *)
Record logged (names_ : list bytes) (k : Z) (ws : list (Z * bytes)) (fd : bytes → Z)
    (s : log_state (T:=T)) (i : log_conf_infos_t (T:=T)) (tab : T unit nat) : Prop := {
  lg_inited : init_flag s = HAS_INITED ∧ close_log_flag s = 0 ∧ debug_dead_time s = 0 ∧
              global_log_path s = IRILOG_PATH;
  lg_infos : infos s = ILive i ∧ load_info i INFOS_ID_CTL = Ret (set_control zero_info 1 0 0) ∧
             load_info i INFOS_ID_DEFAULT = Ret default_info ∧
             get_log_conf_info (Some i) INFOS_ID_DEFAULT = Ret (Some default_info) ∧
             ∀ f k id, gh_lookup f (names i) = Some (k, id) → id = INFOS_ID_DEFAULT;
  lg_table : log_file_nodes s = TLive tab;
  lg_known : ∀ f, f ∈ names_ → ∃ n node, gh_lookup f tab = Some (tt, n) ∧
    nodes s !! n = Some node ∧ node_fd node = fd f ∧ 0 < fd f ∧ node_times node ≤ k ∧
    fd f ∈ omap open_fd (trace s);
  lg_unknown : ∀ f, f ∉ names_ → gh_lookup f tab = None;
  lg_distinct : ∀ f g, f ∈ names_ → g ∈ names_ → fd f = fd g → f = g;
  lg_writes : omap write_event (trace s) = ws
}.

Lemma parts_exist m :
  ∃ p, build_parts (irilog_switch default_info) t fileName (m_func m) (m_line m) (m_level m) (m_text m) = Ret p.
Proof using Hmon.
  unfold build_parts, date_text, aget.
  rewrite (decide_True (P:=f_date _ ≠ 0 ∨ _)) by (left; cbn; lia).
  rewrite (decide_True (P:=0 ≤ _ < _)); [by eexists|]. unfold zlen, MONTH_ARRAY_MAX_INDEX. simpl.
  case_decide; lia.
Qed.

Lemma shown_snoc ms m :
  shown_messages (ms ++ [m]) =
  shown_messages ms ++ if decide (m_level m = IRILOG_DEBUG) then [] else [m].
Proof.
  unfold shown_messages. rewrite filter_app. f_equal. rewrite filter_cons, filter_nil.
  repeat case_decide; done.
Qed.


(** The node of a name: found, or made with a new file. *)
Lemma node_found names_ k ws fd s i tab f :
  logged names_ k ws fd s i tab → zlen f < FILE_NAME_LEN - 1 → 0 ≤ k → f ∈ names_ →
  ∃ n node, get_log_file_node env f default_info INFOS_ID_DEFAULT s = Ret (Some n, s) ∧
    nodes s !! n = Some node ∧ gh_lookup f tab = Some (tt, n) ∧ node_fd node = fd f.
Proof.
  intros [(H1 & H2 & H3 & Hp) Hi Ht Hk Hu Hd Hw] Hlen H0 Hf.
  destruct (Hk f Hf) as (n & node & Hl & Hn & Hfd & Hpos & _).
  exists n, node. split; [|done]. unfold get_log_file_node. rewrite Ht, decide_False.
  - rewrite Hl, (aget_lookup _ _ _ Hn). cbn [mbind outcome_bind].
    by rewrite decide_False by lia.
  - rewrite Hp. unfold FILE_NAME_LEN, LOGPATH_MAX_LEN, zlen in *. cbn. lia.
Qed.

Lemma node_made names_ k ws fd s i tab f :
  logged names_ k ws fd s i tab → zlen f < FILE_NAME_LEN - 1 → 0 ≤ k → f ∉ names_ →
  ∃ n node s' tab' fd', get_log_file_node env f default_info INFOS_ID_DEFAULT s = Ret (Some n, s') ∧
    nodes s' !! n = Some node ∧ gh_lookup f tab' = Some (tt, n) ∧ node_fd node = fd' f ∧
    logged (f :: names_) k ws fd' s' i tab' ∧ ∀ g, g ∈ names_ → fd' g = fd g.
Proof.
  intros [(H1 & H2 & H3 & Hp) Hi Ht Hk Hu Hd Hw] Hlen H0 Hf.
  unfold get_log_file_node. rewrite Ht, decide_False by
    (rewrite Hp; unfold FILE_NAME_LEN, LOGPATH_MAX_LEN, zlen in *; cbn; lia).
  rewrite Hu by done. unfold new_log_file_node, create_log_file_fd.
  cbn [node_fd node_name node_date node_times node_file_size node_id].
  rewrite (decide_False (P:=0 > 0)) by lia.
  set (path := global_log_path s ++ _). set (nfd := sys_open env (trace s) path).
  pose proof (open_positive (trace s) path) as Hpos. pose proof (open_fresh (trace s) path) as Hfresh.
  fold nfd in Hpos, Hfresh. rewrite (decide_True (P:=nfd > 0)) by lia. cbn zeta.
  set (node := {| node_name := _ |}).
  assert (Hne : ∀ g, g ∈ names_ → g ≠ f) by (intros g Hg ->; done).
  assert (Hne' : ∀ g, g ∈ names_ → f ≠ g) by (intros g Hg ->; done).
  eexists _, node, _, _, (λ g, if decide (g = f) then nfd else fd g). split; [reflexivity|].
  cbn [set_nodes emit nodes log_file_nodes trace].
  split; [by rewrite lookup_app_r, Nat.sub_diag|].
  split; [by rewrite gh_lookup_insert, Hu|]. split; [by rewrite decide_True|]. split; [|].
  2:{ intros g Hg. by rewrite decide_False by auto. }
  split; cbn [set_nodes emit nodes log_file_nodes trace init_flag close_log_flag debug_dead_time
              global_log_path infos]; try done.
  - intros g Hg. apply elem_of_cons in Hg as [->|Hg].
    + exists (length (nodes s)), node. rewrite gh_lookup_insert, Hu, decide_True by done.
      split_and!; try done; [by rewrite lookup_app_r, Nat.sub_diag|].
      rewrite omap_app. cbn. apply elem_of_app. right. by left.
    + destruct (Hk g Hg) as (n & nd & Hl & Hn & Hfd & Hgp & Htm & Hop). exists n, nd.
      rewrite gh_lookup_insert_ne, decide_False by auto.
      split_and!; try done; [by apply lookup_app_l_Some|].
      rewrite omap_app. apply elem_of_app. by left.
  - intros g Hg. apply not_elem_of_cons in Hg as [Hgf Hg]. rewrite gh_lookup_insert_ne by auto. auto.
  - assert (Hop : ∀ g, g ∈ names_ → fd g ≠ nfd).
    { intros g Hg E. destruct (Hk g Hg) as (_ & _ & _ & _ & _ & _ & _ & Hin). by rewrite E in Hin. }
    intros g h Hg Hh. apply elem_of_cons in Hg as [->|Hg], Hh as [->|Hh]; [done|..].
    + rewrite decide_True, decide_False by auto. intros E. by destruct (Hop h Hh).
    + rewrite decide_False, decide_True by auto. intros E. by destruct (Hop g Hg).
    + rewrite !decide_False by auto. auto.
  - rewrite omap_app. cbn. by rewrite app_nil_r.
Qed.

(** The write to it. *)
Lemma node_written names_ k ws fd s i tab f n node text :
  logged names_ k ws fd s i tab → 0 ≤ k < WRITE_TIMES → f ∈ names_ →
  gh_lookup f tab = Some (tt, n) → nodes s !! n = Some node → node_fd node = fd f →
  ∃ s', write_node env n default_info text s = Ret s' ∧
    logged names_ (k + 1) (ws ++ [(fd f, text)]) fd s' i tab.
Proof.
  intros [Hinit Hi Ht Hk Hu Hd Hw] Hk0 Hf Hl Hn Hfd.
  destruct (Hk f Hf) as (n' & nd' & Hl' & Hn' & Hfd' & Hpos & Htm & Hop).
  assert (n' = n) as -> by congruence. assert (nd' = node) as -> by congruence.
  unfold write_node. rewrite (aget_lookup _ _ _ Hn). cbn [mbind outcome_bind].
  rewrite bool_decide_eq_false_2 by (by intros []).
  unfold rotate. rewrite (decide_False (P:=_ ∧ _)) by (intros [? _]; lia).
  set (written := sys_write _ _ _ _). cbn [emit nodes].
  rewrite (aset_lookup _ _ _ _ Hn). cbn [mbind outcome_bind mret outcome_ret].
  set (node' := if decide (written < 0) then node else _).
  assert (Hnode : node_fd node' = fd f ∧ node_times node' ≤ k + 1)
    by (unfold node'; case_decide; cbn; lia).
  eexists. split; [reflexivity|].
  split; cbn [set_nodes emit nodes log_file_nodes trace init_flag close_log_flag debug_dead_time
              global_log_path infos]; try done.
  - intros g Hg. destruct (Hk g Hg) as (n1 & nd & Hl1 & Hn1 & Hfd1 & Hp1 & Htm1 & Hop1).
    assert (fd g ∈ omap open_fd (trace s ++ [WriteFile (node_fd node) text])).
    { rewrite omap_app. apply elem_of_app. by left. }
    destruct (decide (n1 = n)) as [->|Hne].
    + assert (nd = node) as -> by congruence. exists n, node'.
      rewrite list_lookup_insert_eq by by eapply lookup_lt_Some.
      destruct Hnode. split_and!; try done; congruence.
    + exists n1, nd. rewrite list_lookup_insert_ne by done. split_and!; try done. lia.
  - rewrite omap_app. cbn. by rewrite Hw, Hfd.
Qed.

(** The name a message is filtered and stored under. *)
Lemma message_target i m :
  load_info i INFOS_ID_CTL = Ret (set_control zero_info 1 0 0) →
  load_info i INFOS_ID_DEFAULT = Ret default_info →
  (∀ f k id, gh_lookup f (names i) = Some (k, id) → id = INFOS_ID_DEFAULT) →
  message_ok m →
  (∀ b, select_info_id (T:=T) i b (set_control zero_info 1 0 0) (m_file m) = INFOS_ID_DEFAULT) ∧
  real_log_file_of i (m_file m) = Ret (Some (target m)).
Proof.
  intros Hctl Hdef Hn [Hlen _]. unfold target, real_log_file_of in *.
  destruct (m_file m) as [f|]; cbn [default] in *.
  - split; [intros b; by apply select_default|]. by rewrite decide_True.
  - split; [done|]. by rewrite Hdef.
Qed.

(** A message to a process that is initialised. *)
Lemma message_written names_ k ws fd s i tab m :
  logged names_ k ws fd s i tab → 0 ≤ k < WRITE_TIMES → message_ok m →
  ∃ s' tab' fd' names', 
    transparent_iridium_write_log env fileName (m_func m) (m_line m) (m_file m) (m_level m) (m_text m) s
      = Ret (0, s') ∧
    logged names' (k + 1) (ws ++ (if decide (m_level m = IRILOG_DEBUG) then []
                                  else [(fd' (target m), line_of t fileName m)])) fd' s' i tab' ∧
    (∀ g, g ∈ names' ↔ g ∈ names_ ∨ m_level m ≠ IRILOG_DEBUG ∧ g = target m) ∧
    ∀ g, g ∈ names_ → fd' g = fd g.
Proof using All.
  intros Hlog Hk Hm. pose proof Hlog as [(H1 & H2 & H3 & Hp) (Hi & Hctl & Hdef & Hget & Hn) Ht _ _ _ _].
  destruct (message_target i m Hctl Hdef Hn Hm) as [Hsel Hreal]. destruct Hm as [Hlen Hlevel].
  unfold transparent_iridium_write_log, open_iridiumlog. rewrite H1, decide_False by done.
  cbn [mbind outcome_bind mret outcome_ret]. rewrite decide_False by done. rewrite H2, decide_False by done.
  rewrite H3, decide_False by lia. rewrite Hi, Hctl. cbn [mbind outcome_bind].
  rewrite Hreal. cbn [mbind outcome_bind]. rewrite Hsel, Hget. cbn [mbind outcome_bind].
  rewrite (decide_False (P:=log_file _ = 0 ∧ _)) by (by intros [[=] _]).
  destruct (decide (m_level m = IRILOG_DEBUG)) as [Hd|Hd].
  - rewrite Hd. change (level_open _ _) with false. cbn [mbind outcome_bind mret outcome_ret].
    exists s, tab, fd, names_. rewrite app_nil_r. split_and!; try done; [|intros g; tauto].
    destruct Hlog as [? ? ? Hknown ? ? ?]. split; try done. intros f Hf.
    destruct (Hknown f Hf) as (n & node & ? & ? & ? & ? & ? & ?). exists n, node. split_and!; try done. lia.
  - assert (level_open (irilog_switch default_info) (m_level m) = true) as ->.
    { unfold level_open, IRILOG_DEBUG, IRILOG_INFO, IRILOG_ERR, IRILOG_FATAL in *.
      repeat case_decide; try done; lia. }
    destruct (parts_exist m) as [p Hparts]. unfold line_of. rewrite Hparts.
    unfold write_line. rewrite Htime, Hparts. cbn [mbind outcome_bind].
    rewrite (decide_False (P:=log_terminal _ ≠ 0)) by (by intros []).
    rewrite (decide_True (P:=log_file _ ≠ 0)) by done.
    assert (Hnode : ∃ n node s1 tab' fd' names', 
      get_log_file_node env (target m) default_info INFOS_ID_DEFAULT s = Ret (Some n, s1) ∧
      nodes s1 !! n = Some node ∧ gh_lookup (target m) tab' = Some (tt, n) ∧
      node_fd node = fd' (target m) ∧ logged names' k ws fd' s1 i tab' ∧
      (∀ g, g ∈ names' ↔ g ∈ names_ ∨ g = target m) ∧ ∀ g, g ∈ names_ → fd' g = fd g).
    { destruct (decide (target m ∈ names_)) as [Hin|Hin].
      - destruct (node_found _ _ _ _ _ _ _ _ Hlog Hlen ltac:(lia) Hin) as (n & node & ? & ? & ? & ?).
        exists n, node, s, tab, fd, names_. split_and!; try done.
        intros g. split; [by left|by intros [?| ->]].
      - destruct (node_made _ _ _ _ _ _ _ _ Hlog Hlen ltac:(lia) Hin)
          as (n & node & s1 & tab' & fd' & ? & ? & ? & ? & ? & ?).
        exists n, node, s1, tab', fd', (target m :: names_). split_and!; try done.
        intros g. rewrite elem_of_cons. tauto. }
    destruct Hnode as (n & node & s1 & tab' & fd' & names' & Hg & Hnn & Hl & Hfd & Hlog1 & Hnames & Hold).
    rewrite Hg. cbn [mbind outcome_bind]. rewrite (aget_lookup _ _ _ Hnn). cbn [mbind outcome_bind].
    assert (Hin : target m ∈ names') by (apply Hnames; by right).
    destruct (lg_known _ _ _ _ _ _ _ Hlog1 _ Hin) as (_ & _ & _ & _ & _ & Hpos & _).
    rewrite (decide_False (P:=node_fd node ≤ 0)) by lia.
    destruct (node_written _ _ _ _ _ _ _ _ _ _ (file_text (irilog_switch default_info) p (m_level m))
      Hlog1 Hk Hin Hl Hnn Hfd) as (s' & Hw & Hlog').
    rewrite Hw. cbn [mbind outcome_bind mret outcome_ret].
    exists s', tab', fd', names'. split_and!; try done. intros g. rewrite Hnames. tauto.
Qed.

(** What [ms] leave, whatever was there before. *)
Lemma messages_written ms : ∀ names_ k ws fd s i tab,
  logged names_ k ws fd s i tab → 0 ≤ k → k + Z.of_nat (length ms) ≤ WRITE_TIMES →
  Forall message_ok ms →
  ∃ s' tab' fd' names',
    write_all env fileName ms s = Ret (replicate (length ms) 0, s') ∧
    logged names' (k + Z.of_nat (length ms))
      (ws ++ ((λ m, (fd' (target m), line_of t fileName m)) <$> shown_messages ms)) fd' s' i tab' ∧
    (∀ g, g ∈ names' ↔ g ∈ names_ ∨ g ∈ target <$> shown_messages ms) ∧
    ∀ g, g ∈ names_ → fd' g = fd g.
Proof using All.
  induction ms as [|m ms IH]; intros names_ k ws fd s i tab Hlog Hk Hle Hok.
  { exists s, tab, fd, names_. cbn. rewrite app_nil_r, Z.add_0_r. split_and!; try done.
    intros g. rewrite elem_of_nil. tauto. }
  apply Forall_cons in Hok as [Hm Hms]. cbn [length] in Hle.
  destruct (message_written _ _ _ _ _ _ _ m Hlog ltac:(lia) Hm)
    as (s1 & tab1 & fd1 & names1 & Hw1 & Hlog1 & Hn1 & Hold1).
  destruct (IH _ _ _ _ _ _ _ Hlog1 ltac:(lia) ltac:(lia) Hms)
    as (s2 & tab2 & fd2 & names2 & Hw2 & Hlog2 & Hn2 & Hold2).
  exists s2, tab2, fd2, names2. cbn [write_all]. rewrite Hw1. cbn [mbind outcome_bind].
  rewrite Hw2. cbn [mbind outcome_bind mret outcome_ret length replicate]. split; [done|].
  split_and!.
  - replace (k + Z.of_nat (S (length ms))) with (k + 1 + Z.of_nat (length ms)) by lia.
    rewrite <- app_assoc in Hlog2.
    assert (E : shown_messages (m :: ms) =
      (if decide (m_level m = IRILOG_DEBUG) then [] else [m]) ++ shown_messages ms).
    { unfold shown_messages. rewrite filter_cons. by repeat case_decide. }
    rewrite E, fmap_app. destruct (decide (m_level m = IRILOG_DEBUG)) as [Hd|Hd]; [done|].
    cbn. rewrite Hold2; [done|]. apply Hn1. right. done.
  - intros g. rewrite Hn2, Hn1. unfold shown_messages. rewrite filter_cons.
    destruct (decide (m_level m ≠ IRILOG_DEBUG)); rewrite ?fmap_cons, ?elem_of_cons; tauto.
  - intros g Hg. rewrite Hold2; [by apply Hold1|]. apply Hn1. by left.
Qed.

(** The first message initialises the process. *)
Lemma first_initialises m ms :
  sys_access env [] IRILOG_PATH = true → conf_file (sys_conf env) = None →
  ∃ i s, logged [] 0 [] (λ _, 0) s i gh_new ∧ trace s = [StartClock] ∧
    write_all env fileName (m :: ms) (initial_state (T:=T)) = write_all env fileName (m :: ms) s.
Proof using All.
  intros Ha Hf.
  destruct (init_missing_conf env initial_state) as (i&s&Hinit&Hi&Hfl&Hns&Hnodes&Hn&Hc&Hdd&Hp&Htr&
    Hctl&Hdef&Hget&Hnames); [done..|].
  exists i, s. split_and!; [|done|].
  - split; try done; try set_solver; [intros f _; apply gh_lookup_new|by rewrite Htr].
  - cbn [write_all]. unfold transparent_iridium_write_log, open_iridiumlog.
    rewrite (decide_True (P:=init_flag initial_state = NO_INIT)) by done.
    rewrite Hinit, Hfl, (decide_False (P:=HAS_INITED = NO_INIT)) by done. done.
Qed.

End log.

(** ** The program *)

Definition LOG_NAME : bytes := lit "example_default".

(** A call in function [func] at line [line] of the program. *)
Definition msg (func : bytes) (line : Z) (file : option bytes) (level : Z) (text : bytes) : message :=
  {| m_func := func; m_line := line; m_file := file; m_level := level; m_text := text |}.

Definition test_default_log_file : list message :=
  let f := lit "test_default_log_file" in
  [msg f 24 None IRILOG_DEBUG (lit "Test the filename debug log");
   msg f 25 None IRILOG_INFO (lit "Test the filename info log");
   msg f 26 None IRILOG_FATAL (lit "Test the filename warning log");
   msg f 27 None IRILOG_ERR (lit "Test the filename err log")].

Definition test_conf_log_file : list message :=
  let f := lit "test_conf_log_file" in
  let name := Some (lit "your_log_file_name") in
  [msg f 36 name IRILOG_DEBUG (lit "Test the filename debug log");
   msg f 37 name IRILOG_INFO (lit "Test the filename debug log");
   msg f 38 name IRILOG_FATAL (lit "Test the filename warning log");
   msg f 39 name IRILOG_ERR (lit "Test the filename err log")].

Definition test_no_conf_log_file : list message :=
  let f := lit "test_no_conf_log_file" in
  [msg f 49 (Some LOG_NAME) IRILOG_DEBUG (lit "Test the filename debug log");
   msg f 50 (Some LOG_NAME) IRILOG_INFO (lit "Test the filename debug log");
   msg f 51 (Some LOG_NAME) IRILOG_FATAL (lit "Test the filename warning log");
   msg f 52 (Some LOG_NAME) IRILOG_ERR (lit "Test the filename err log")].

Definition test_handle_processing : list message :=
  let f := lit "test_handle_processing" in
  [msg f 58 (Some LOG_NAME) IRILOG_ERR (lit "Test the filename err log");
   msg f 60 (Some (lit "your_log_file_name")) IRILOG_DEBUG (lit "Test the filename debug log");
   msg f 62 None IRILOG_DEBUG (lit "Test the filename debug log");
   msg f 64 (Some (lit "xxx")) IRILOG_DEBUG (lit "Test the filename err log");
   msg f 65 (Some (lit "xxxx")) IRILOG_DEBUG (lit "Test the filename err log");
   msg f 66 (Some (lit "444")) IRILOG_DEBUG (lit "Test the filename err log");
   msg f 67 (Some (lit "434")) IRILOG_DEBUG (lit "Test the filename err log");
   msg f 68 (Some (lit "4674")) IRILOG_DEBUG (lit "Test the filename err log");
   msg f 69 (Some (lit "123")) IRILOG_ERR (lit "Test the filename err log")].

Definition test_messages : list message :=
  test_handle_processing ++ test_default_log_file ++ test_conf_log_file ++ test_no_conf_log_file.

(** [main], without the version it prints. *)
Definition logtest_main {T : Type → Type → Type} `{!GHashTable T} (env : log_env) (fileName : bytes)
    : outcome (log_state (T:=T)) :=
  '(_, s) ← write_all env fileName test_messages initial_state;
  iridium_destroy_log s.

Lemma test_messages_ok : Forall message_ok test_messages.
Proof. apply (bool_decide_unpack (Forall message_ok test_messages)). by vm_compute. Qed.

(** Eleven of its twenty-one messages are written, to four files. *)
Lemma test_messages_shown :
  target <$> shown_messages test_messages =
  [LOG_NAME; lit "123"] ++ replicate 3 DEFAULT_LOG_FILE_NAME ++
  replicate 3 (lit "your_log_file_name") ++ replicate 3 LOG_NAME.
Proof. by vm_compute. Qed.

(** The program writes them in this order and ends by stopping the clock. *)
Lemma logtest_main_writes {T : Type → Type → Type} `{!GHashTable T, !GHashTableLaws T}
    (env : log_env) `{!OpenLaws env} fileName t :
  (∀ tr, sys_localtime env tr = t) → 0 ≤ tm_mon t →
  sys_access env [] IRILOG_PATH = true → conf_file (sys_conf env) = None →
  wp (logtest_main (T:=T) env fileName) (λ s, ∃ fd,
    omap write_event (trace s) =
      (λ m, (fd (target m), line_of t fileName m)) <$> shown_messages test_messages).
Proof.
  intros Ht Hmon Ha Hf. unfold logtest_main. pose proof test_messages_ok as Hms.
  assert (Hlen : Z.of_nat (length test_messages) ≤ WRITE_TIMES) by (by vm_compute).
  assert (∃ m ms, test_messages = m :: ms) as (m & ms & E) by (do 2 eexists; reflexivity).
  rewrite E in *.
  destruct (first_initialises env fileName t Ht Hmon m ms Ha Hf) as (i & s & Hlog & _ & ->).
  destruct (messages_written env fileName t Ht Hmon _ _ _ _ _ _ _ _ Hlog ltac:(lia) Hlen Hms)
    as (s' & tab & fd & names' & -> & [_ (Hi & _) Htab _ _ _ Hw] & _).
  rewrite Ret_bind. unfold iridium_destroy_log. rewrite Hi, Htab. cbn [wp mret outcome_ret trace].
  exists fd. rewrite omap_app, Hw. by case_decide; rewrite app_nil_r.
Qed.

(** A system with fresh descriptors. *)
Definition fresh_open (tr : list event) (p : bytes) : Z := 1 + foldr Z.max 0 (omap open_fd tr).
Definition fresh_env : log_env :=
  {| sys_access := λ _ _, true; sys_mkdir := λ _ _, false; sys_open := fresh_open;
     sys_fstat := λ _ _, true; sys_write := λ _ _ t, zlen t; sys_time := λ _, 1000;
     sys_localtime := λ _, sample_tm; sys_pid := 42;
     sys_proc_name := Some (lit "logtest"); sys_host_name := Some (lit "host");
     sys_thread := 1;
     sys_conf := {| conf_file := None; buf_ok := true; block_ok := λ _, true |} |}.

#[export] Instance fresh_env_laws : OpenLaws fresh_env.
Proof.
  assert (Hmax : ∀ l : list Z, 0 ≤ foldr Z.max 0 l ∧ ∀ x, x ∈ l → x ≤ foldr Z.max 0 l).
  { induction l as [|y l [IH1 IH2]]; cbn; [split; [lia|set_solver]|]. split; [lia|].
    intros x Hx. apply elem_of_cons in Hx as [->|Hx]; [lia|]. specialize (IH2 x Hx). lia. }
  split; intros tr p; cbn; unfold fresh_open; destruct (Hmax (omap open_fd tr)) as [H1 H2]; [lia|].
  intros Hin. specialize (H2 _ Hin). lia.
Qed.

