(* ===== verification/NodeThreads.v ===== *)
(** Several threads that log, [src/src/log/iridiumSysLog/iridiumlog.c], and the
    program [logtest/multiThreadTest.c].

    IridiumLog.v has one thread; here are the parts of a call that concern the
    others: the test of [init_flag] and the initialisation behind [init_lock], the
    look-up of the file node, its creation behind [hash_lock], the lock of the node
    and the write. A message is the name of its file and its line; messages that
    the switches refuse take no part, the initialisation succeeds, files can be
    opened, and rotation is left out. Single operations of the hash table are steps,
    although the look-up takes no lock: what is shown to go wrong goes wrong even
    so. [log_file_nodes] was made by [g_hash_table_new_full(..., g_free, g_free)]:
    an insertion under a key of the table frees the value it replaces. *)

From stdpp Require Import relations.
From S2P Require Import Prelude CString Monitor.

Open Scope Z_scope.

Definition log_entry : Type := bytes * bytes.

(** Where a thread is in [transparent_iridium_write_log], with its message and the
    calls it has still to make. *)
Inductive log_pc :=
  | LCalls (rest : list log_entry)                 (* in no call *)
  | LInit (m : log_entry) (rest : list log_entry)  (* wants init_lock *)
  | LLookup (m : log_entry) (rest : list log_entry) (* at g_hash_table_lookup *)
  | LCreate (m : log_entry) (rest : list log_entry) (* no node; wants hash_lock *)
  | LHas (n : nat) (m : log_entry) (rest : list log_entry) (* has the node; wants its lock *)
  | LWrites (n : nat) (m : log_entry) (rest : list log_entry) (* holds the lock of the node *)
  | LFreed.                                        (* has used a node after g_free *)

(** A node and what its file holds, with the threads that wrote it. *)
Record shared_node := { sn_name : bytes; sn_freed : bool; sn_text : list (nat * bytes) }.

Record log_threads := {
  lt_flag : bool;                  (* init_flag *)
  lt_inits : nat;                  (* how often the table was made *)
  lt_table : gmap bytes nat;       (* log_file_nodes *)
  lt_nodes : list shared_node;
  lt_threads : list log_pc
}.

Definition set_thread (s : log_threads) (t : nat) (c : log_pc) : log_threads :=
  {| lt_flag := lt_flag s; lt_inits := lt_inits s; lt_table := lt_table s;
     lt_nodes := lt_nodes s; lt_threads := <[t:=c]> (lt_threads s) |}.

Definition new_shared_node (f : bytes) : shared_node :=
  {| sn_name := f; sn_freed := false; sn_text := [] |}.
Definition free_node (nd : shared_node) : shared_node :=
  {| sn_name := sn_name nd; sn_freed := true; sn_text := sn_text nd |}.
Definition add_line (nd : shared_node) (t : nat) (text : bytes) : shared_node :=
  {| sn_name := sn_name nd; sn_freed := sn_freed nd; sn_text := sn_text nd ++ [(t, text)] |}.

(** The initialisation of [iridium_init_log], which tests [init_flag] again. *)
Definition init_log (s : log_threads) : log_threads :=
  if lt_flag s then s
  else {| lt_flag := true; lt_inits := S (lt_inits s); lt_table := ∅;
          lt_nodes := lt_nodes s; lt_threads := lt_threads s |}.

(** [g_hash_table_insert(log_file_nodes, key_name, new_node)] *)
Definition insert_node (s : log_threads) (f : bytes) : log_threads :=
  {| lt_flag := lt_flag s; lt_inits := lt_inits s;
     lt_table := <[f:=length (lt_nodes s)]> (lt_table s);
     lt_nodes := (match lt_table s !! f with
                  | Some n => alter free_node n (lt_nodes s)
                  | None => lt_nodes s
                  end) ++ [new_shared_node f];
     lt_threads := lt_threads s |}.

Definition put_line (s : log_threads) (t n : nat) (nd : shared_node) (text : bytes) : log_threads :=
  {| lt_flag := lt_flag s; lt_inits := lt_inits s; lt_table := lt_table s;
     lt_nodes := <[n:=add_line nd t text]> (lt_nodes s); lt_threads := lt_threads s |}.

Inductive log_step (s : log_threads) : log_threads → Prop :=
  | call_inits t m rest :                    (* NO_INIT == init_flag *)
      lt_threads s !! t = Some (LCalls (m :: rest)) → lt_flag s = false →
      log_step s (set_thread s t (LInit m rest))
  | call_goes_on t m rest :
      lt_threads s !! t = Some (LCalls (m :: rest)) → lt_flag s = true →
      log_step s (set_thread s t (LLookup m rest))
  | init_returns t m rest :
      lt_threads s !! t = Some (LInit m rest) →
      log_step s (set_thread (init_log s) t (LLookup m rest))
  | lookup_finds t m rest n :
      lt_threads s !! t = Some (LLookup m rest) → lt_table s !! m.1 = Some n →
      log_step s (set_thread s t (LHas n m rest))
  | lookup_fails t m rest :
      lt_threads s !! t = Some (LLookup m rest) → lt_table s !! m.1 = None →
      log_step s (set_thread s t (LCreate m rest))
  | node_created t m rest :
      lt_threads s !! t = Some (LCreate m rest) →
      log_step s (set_thread (insert_node s m.1) t (LHas (length (lt_nodes s)) m rest))
  | node_locked t n m rest nd :
      lt_threads s !! t = Some (LHas n m rest) →
      lt_nodes s !! n = Some nd → sn_freed nd = false →
      (∀ u m' rest', lt_threads s !! u ≠ Some (LWrites n m' rest')) →
      log_step s (set_thread s t (LWrites n m rest))
  | node_gone t n m rest nd :
      lt_threads s !! t = Some (LHas n m rest) ∨ lt_threads s !! t = Some (LWrites n m rest) →
      lt_nodes s !! n = Some nd → sn_freed nd = true →
      log_step s (set_thread s t LFreed)
  | line_written t n m rest nd :
      lt_threads s !! t = Some (LWrites n m rest) →
      lt_nodes s !! n = Some nd → sn_freed nd = false →
      log_step s (set_thread (put_line s t n nd m.2) t (LCalls rest)).

(** The threads begin where the files [known] have their nodes already; without
    any, the process has not logged. *)
Definition threads_start (known : list bytes) (progs : list (list log_entry)) : log_threads :=
  {| lt_flag := bool_decide (known ≠ []);
     lt_inits := if decide (known = []) then 0 else 1;
     lt_table := list_to_map (imap (λ n f, (f, n)) known);
     lt_nodes := new_shared_node <$> known;
     lt_threads := LCalls <$> progs |}.

(** ** multiThreadTest *)

Definition LOG_C : bytes := lit "iridium_analysis_start".
Definition LOG_D : bytes := lit "iridium_analysis_fatal".
Definition THREAD_NUM : nat := 70.

(** ["%d%d%d%d%d"], and the text of the messages with the thread's identifier. *)
Definition thread_info (i : nat) : bytes := mjoin (replicate 5 (print_d (Z.of_nat i))).
Definition thread_message (i : nat) (self : Z) : bytes :=
  thread_info i ++ lit "--" ++ print_d (to_s 64 self).

(** The first [times] messages of each thread. *)
Definition multiThreadTest (times : nat) (self : nat → Z) : list (list log_entry) :=
  (λ i, replicate times
          (if decide (i < THREAD_NUM / 3 * 2)%nat then LOG_C else LOG_D, thread_message i (self i)))
  <$> seq 0 THREAD_NUM.

(** ** The invariant *)

(** The messages of a thread that are not written. *)
Definition unwritten (c : log_pc) : list log_entry :=
  match c with
  | LCalls rest => rest
  | LInit m rest | LLookup m rest | LCreate m rest | LHas _ m rest | LWrites _ m rest => m :: rest
  | LFreed => []
  end.

(** The node a thread has, with the name it is for. *)
Definition holds (c : log_pc) : option (nat * bytes) :=
  match c with LHas n m _ | LWrites n m _ => Some (n, m.1) | _ => None end.

Definition before_lookup (c : log_pc) : Prop :=
  match c with LCalls _ | LInit _ _ => True | _ => False end.

Definition lines_of (t : nat) (l : list (nat * bytes)) : list bytes :=
  omap (λ e, if decide (e.1 = t) then Some e.2 else None) l.
Definition lines_for (f : bytes) (l : list log_entry) : list bytes := (filter (λ m, m.1 = f) l).*2.

(** What the file of a name holds. *)
Definition file_lines (s : log_threads) (f : bytes) : list (nat * bytes) :=
  default [] (n ← lt_table s !! f; sn_text <$> lt_nodes s !! n).

(** A name of several threads has its node from the beginning. *)
Definition shared_known (known : list bytes) (progs : list (list log_entry)) : Prop :=
  ∀ t u p q f, t ≠ u → progs !! t = Some p → progs !! u = Some q →
    f ∈ p.*1 → f ∈ q.*1 → f ∈ known.

Record threads_ok (progs : list (list log_entry)) (s : log_threads) : Prop := {
  ok_table : ∀ f n, lt_table s !! f = Some n →
    ∃ nd, lt_nodes s !! n = Some nd ∧ sn_name nd = f ∧ sn_freed nd = false;
  ok_holds : ∀ t c n f, lt_threads s !! t = Some c → holds c = Some (n, f) →
    lt_table s !! f = Some n;
  ok_create : ∀ t m rest, lt_threads s !! t = Some (LCreate m rest) → lt_table s !! m.1 = None;
  ok_shared : ∀ t u c d f, t ≠ u → lt_threads s !! t = Some c → lt_threads s !! u = Some d →
    f ∈ (unwritten c).*1 → f ∈ (unwritten d).*1 → is_Some (lt_table s !! f);
  ok_flag : if lt_flag s then lt_inits s = 1%nat
            else lt_inits s = 0%nat ∧ lt_table s = ∅ ∧ Forall before_lookup (lt_threads s);
  ok_live : LFreed ∉ lt_threads s;
  ok_order : ∀ t f, lines_of t (file_lines s f) ++
    lines_for f (default [] (unwritten <$> lt_threads s !! t)) = lines_for f (default [] (progs !! t))
}.

Lemma lines_of_app t l k : lines_of t (l ++ k) = lines_of t l ++ lines_of t k.
Proof. apply omap_app. Qed.

Lemma lines_for_cons f m l :
  lines_for f (m :: l) = if decide (m.1 = f) then m.2 :: lines_for f l else lines_for f l.
Proof. unfold lines_for. rewrite filter_cons. by case_decide. Qed.

Lemma file_text_at s f n nd :
  lt_table s !! f = Some n → lt_nodes s !! n = Some nd → file_lines s f = sn_text nd.
Proof. unfold file_lines. intros -> Hn. cbn. by rewrite Hn. Qed.

Lemma ok_flag_true progs s t c :
  threads_ok progs s → lt_threads s !! t = Some c → ¬ before_lookup c → lt_flag s = true.
Proof.
  intros Hok Ht Hc. pose proof (ok_flag _ _ Hok) as Hf. destruct (lt_flag s); [done|].
  destruct Hf as (_ & _ & Hall). rewrite Forall_lookup in Hall. by destruct Hc; eapply Hall.
Qed.

Lemma ok_not_freed progs s f n nd :
  threads_ok progs s → lt_table s !! f = Some n → lt_nodes s !! n = Some nd → sn_freed nd = false.
Proof. intros Hok Ht Hn. destruct (ok_table _ _ Hok f n Ht) as (nd' & Hn' & _ & ?). by simplify_eq. Qed.

Lemma insert_cases {A} (l : list A) t c u d :
  <[t:=c]> l !! u = Some d → (u = t ∧ d = c) ∨ (u ≠ t ∧ l !! u = Some d).
Proof.
  intros H. destruct (decide (u = t)) as [->|Hne].
  - left. split; [done|]. apply list_lookup_insert_Some in H as [(_ & -> & _)|[]]; done.
  - right. split; [done|]. by rewrite list_lookup_insert_ne in H.
Qed.

(** A step that changes the place of one thread. *)
Lemma threads_ok_moves progs s t c0 c :
  threads_ok progs s → lt_threads s !! t = Some c0 → unwritten c = unwritten c0 →
  (∀ n f, holds c = Some (n, f) → lt_table s !! f = Some n) →
  (∀ m rest, c = LCreate m rest → lt_table s !! m.1 = None) →
  (lt_flag s = true ∨ before_lookup c) → c ≠ LFreed →
  threads_ok progs (set_thread s t c).
Proof.
  intros Hok Ht Hu Hh Hc Hb Hl.
  pose proof (insert_cases (lt_threads s) t c) as Hlk.
  assert (Hun : ∀ u d, <[t:=c]> (lt_threads s) !! u = Some d →
    ∃ d0, lt_threads s !! u = Some d0 ∧ unwritten d0 = unwritten d).
  { intros u d [[-> ->]|[_ Hd]]%Hlk; eauto. }
  split; cbn [set_thread lt_table lt_nodes lt_threads lt_flag lt_inits].
  - apply (ok_table _ _ Hok).
  - intros u d n f [[-> ->]|[_ Hd]]%Hlk; [apply Hh|by eapply ok_holds].
  - intros u m rest [[-> <-]|[_ Hd]]%Hlk; [by eapply Hc|by eapply ok_create].
  - intros u v d e f Huv (d0 & Hd & <-)%Hun (e0 & He & <-)%Hun. by eapply ok_shared.
  - pose proof (ok_flag _ _ Hok) as Hf. destruct (lt_flag s); [done|].
    destruct Hf as (? & ? & Hall). split_and!; [done..|]. apply Forall_insert; [done|].
    by destruct Hb.
  - intros [u [[-> <-]|[_ Hd]]%Hlk]%list_elem_of_lookup; [done|].
    by eapply (ok_live _ _ Hok), list_elem_of_lookup_2.
  - intros u f. rewrite <- (ok_order _ _ Hok u f). do 3 f_equal.
    destruct (decide (u = t)) as [->|Hut].
    + rewrite list_lookup_insert_eq by (by eapply lookup_lt_Some). rewrite Ht. cbn. by rewrite Hu.
    + by rewrite list_lookup_insert_ne.
Qed.

Lemma init_log_ok progs s : threads_ok progs s → threads_ok progs (init_log s) ∧ lt_flag (init_log s) = true.
Proof.
  intros Hok. unfold init_log. pose proof (ok_flag _ _ Hok) as Hf.
  destruct (lt_flag s) eqn:E; [done|]. destruct Hf as (Hi & Ht & Hb). split; [|done].
  split; cbn [lt_table lt_nodes lt_threads lt_flag lt_inits]; rewrite <- ?Ht; try by apply Hok.
  by rewrite Hi.
Qed.

(** A new node under a name that has none and that no other thread is about to
    create. *)
Lemma insert_node_ok progs s f :
  threads_ok progs s → lt_flag s = true → lt_table s !! f = None →
  (∀ u m rest, lt_threads s !! u = Some (LCreate m rest) → m.1 ≠ f) →
  threads_ok progs (insert_node s f).
Proof.
  intros Hok Hflag Hf Hno. unfold insert_node. rewrite Hf.
  assert (Hother : ∀ g n, lt_table s !! g = Some n → f ≠ g) by (intros g n Hg ->; congruence).
  split; cbn [lt_table lt_nodes lt_threads lt_flag lt_inits].
  - intros g n [[<- <-]|[Hne Hg]]%lookup_insert_Some.
    + exists (new_shared_node f). by rewrite lookup_app_r, Nat.sub_diag.
    + destruct (ok_table _ _ Hok g n Hg) as (nd & Hnd & ? & ?). exists nd.
      split_and!; [by apply lookup_app_l_Some|done..].
  - intros t c n g Ht Hc. pose proof (ok_holds _ _ Hok t c n g Ht Hc) as Hg.
    rewrite lookup_insert_ne; [done|by eapply Hother].
  - intros t m rest Ht. rewrite lookup_insert_ne; [by eapply ok_create|].
    intros E. by eapply (Hno t m rest).
  - intros t u c d g Htu Ht Hu Hg Hg'. destruct (decide (g = f)) as [->|Hne].
    + rewrite lookup_insert_eq. by eexists.
    + rewrite lookup_insert_ne by done. by eapply ok_shared.
  - pose proof (ok_flag _ _ Hok) as H. by rewrite Hflag in *.
  - apply (ok_live _ _ Hok).
  - intros t g. rewrite <- (ok_order _ _ Hok t g). do 2 f_equal. unfold file_lines.
    cbn [lt_table lt_nodes]. destruct (decide (g = f)) as [->|Hne].
    + rewrite lookup_insert_eq, Hf. cbn. by rewrite lookup_app_r, Nat.sub_diag.
    + rewrite lookup_insert_ne by done. destruct (lt_table s !! g) as [n|] eqn:E; [|done]. cbn.
      destruct (ok_table _ _ Hok g n E) as (nd & Hnd & _). by rewrite (lookup_app_l_Some _ _ _ _ Hnd), Hnd.
Qed.

Lemma line_written_ok progs s t n m rest nd :
  threads_ok progs s → lt_threads s !! t = Some (LWrites n m rest) →
  lt_nodes s !! n = Some nd →
  threads_ok progs (set_thread (put_line s t n nd m.2) t (LCalls rest)).
Proof.
  intros Hok Ht Hn. pose proof (ok_holds _ _ Hok t _ n m.1 Ht eq_refl) as Hm.
  destruct (ok_table _ _ Hok _ _ Hm) as (nd' & Hn' & Hname & Hfree). simplify_eq.
  assert (Hflag : lt_flag s = true) by (eapply ok_flag_true; [done..|by intros []]).
  pose proof (insert_cases (lt_threads s) t (LCalls rest)) as Hlk.
  assert (Hun : ∀ u d, <[t:=LCalls rest]> (lt_threads s) !! u = Some d →
    ∃ d0, lt_threads s !! u = Some d0 ∧ ∀ f, f ∈ (unwritten d).*1 → f ∈ (unwritten d0).*1).
  { intros u d [[-> ->]|[_ Hd]]%Hlk; [|by eauto]. eexists. split; [done|]. intros f. apply list_elem_of_further. }
  assert (Htext : ∀ g, file_lines (set_thread (put_line s t n nd m.2) t (LCalls rest)) g =
      file_lines s g ++ if decide (m.1 = g) then [(t, m.2)] else []).
    { intros g. case_decide as E.
      - subst g. rewrite (file_text_at s _ n nd Hm Hn).
        rewrite (file_text_at _ _ n (add_line nd t m.2)); [done|done|].
        cbn. by rewrite list_lookup_insert_eq by (by eapply lookup_lt_Some).
      - rewrite app_nil_r. unfold file_lines. cbn [set_thread put_line lt_table lt_nodes].
        destruct (lt_table s !! g) as [k|] eqn:Eg; [|done]. cbn.
        rewrite list_lookup_insert_ne; [done|]. intros <-.
        destruct (ok_table _ _ Hok g _ Eg) as (nd' & Hk & ? & _). by simplify_eq. }
  split; [cbn [set_thread put_line lt_table lt_nodes lt_threads lt_flag lt_inits]..|].
  - intros g k Hg. destruct (ok_table _ _ Hok g k Hg) as (nd' & Hk & ? & ?).
    destruct (decide (k = n)) as [->|Hkn].
    + exists (add_line nd t m.2). rewrite list_lookup_insert_eq by (by eapply lookup_lt_Some).
      by simplify_eq.
    + exists nd'. by rewrite list_lookup_insert_ne.
  - intros u d k g [[-> ->]|[_ Hd]]%Hlk; [done|by eapply ok_holds].
  - intros u m' r [[-> ?]|[_ Hd]]%Hlk; [done|by eapply ok_create].
  - intros u v d e g Huv (d0 & Hd & Hd')%Hun (e0 & He & He')%Hun ??. eapply (ok_shared _ _ Hok u v); eauto.
  - pose proof (ok_flag _ _ Hok) as H. by rewrite Hflag in *.
  - intros [u [[-> ?]|[_ Hd]]%Hlk]%list_elem_of_lookup; [done|].
    by eapply (ok_live _ _ Hok), list_elem_of_lookup_2.
  - intros u g. rewrite <- (ok_order _ _ Hok u g).
    rewrite Htext, lines_of_app, <- app_assoc. f_equal.
    cbn [set_thread put_line lt_threads].
    destruct (decide (u = t)) as [->|Hut].
    + rewrite list_lookup_insert_eq by (by eapply lookup_lt_Some). rewrite Ht.
      cbn [fmap option_fmap option_map default from_option unwritten id].
      rewrite lines_for_cons. case_decide; [|done]. unfold lines_of. cbn. by rewrite decide_True.
    + rewrite list_lookup_insert_ne by done. case_decide; [|done].
      unfold lines_of. cbn. by rewrite decide_False by congruence.
Qed.

Lemma log_step_ok progs s s' : threads_ok progs s → log_step s s' → threads_ok progs s'.
Proof.
  intros Hok Hstep.
  assert (Hfl : ∀ t c, lt_threads s !! t = Some c → ¬ before_lookup c → lt_flag s = true)
    by (intros; by eapply ok_flag_true).
  destruct Hstep as [t m rest Ht Hf|t m rest Ht Hf|t m rest Ht|t m rest n Ht Hn|t m rest Ht Hn
    |t m rest Ht|t n m rest nd Ht Hn Hf Hex|t n m rest nd Ht Hn Hf|t n m rest nd Ht Hn Hf].
  - eapply threads_ok_moves; [done..| | |by right|done]; done.
  - eapply threads_ok_moves; [done..| | |by left|done]; done.
  - destruct (init_log_ok progs s Hok) as [Hok' Hf].
    assert (lt_threads (init_log s) = lt_threads s) as E by (unfold init_log; by destruct (lt_flag s)).
    eapply threads_ok_moves; [done|rewrite E; exact Ht|done| | |by left|done]; done.
  - eapply threads_ok_moves; [done..| | |left; exact (Hfl _ _ Ht (λ H, H))|done]; [|done].
    intros k f [= <- <-]. done.
  - eapply threads_ok_moves; [done..| | |left; exact (Hfl _ _ Ht (λ H, H))|done]; [done|].
    intros m' r [= <- <-]. done.
  - pose proof (ok_create _ _ Hok t m rest Ht) as Hnone.
    assert (Hflag : lt_flag s = true) by exact (Hfl _ _ Ht (λ H, H)).
    assert (Hok1 : threads_ok progs (set_thread s t (LLookup m rest)))
      by (eapply threads_ok_moves; [done..| | |by left|done]; done).
    assert (Hok2 : threads_ok progs (insert_node (set_thread s t (LLookup m rest)) m.1)).
    { apply insert_node_ok; [done..|]. cbn [set_thread lt_threads].
      intros u m' r [[-> ?]|[Hut Hu]]%insert_cases E; [done|].
      destruct (ok_shared _ _ Hok t u _ _ m.1 (not_eq_sym Hut) Ht Hu) as [n' Hn'];
        [by left|rewrite <- E; by left|congruence]. }
    assert (E : set_thread (insert_node s m.1) t (LHas (length (lt_nodes s)) m rest) =
      set_thread (insert_node (set_thread s t (LLookup m rest)) m.1) t (LHas (length (lt_nodes s)) m rest)).
    { unfold set_thread, insert_node. cbn. by rewrite list_insert_insert_eq. }
    rewrite E. apply (threads_ok_moves _ _ t (LLookup m rest)); [done| |done| |done|by left|done].
    + cbn. by rewrite list_lookup_insert_eq by (by eapply lookup_lt_Some).
    + intros k f [= <- <-]. cbn. by rewrite lookup_insert_eq.
  - pose proof (ok_holds _ _ Hok t _ n m.1 Ht eq_refl).
    eapply threads_ok_moves; [done..| | |left; exact (Hfl _ _ Ht (λ H, H))|done]; [|done].
    intros k f [= <- <-]. done.
  - exfalso. assert (Hm : lt_table s !! m.1 = Some n) by (destruct Ht as [Ht|Ht]; by eapply (ok_holds _ _ Hok t)).
    pose proof (ok_not_freed _ _ _ _ _ Hok Hm Hn). congruence.
  - by eapply line_written_ok.
Qed.

(** ** Runs *)

(** The steps a thread has before it, six for a message. *)
Definition pc_left (c : log_pc) : nat :=
  match c with
  | LCalls rest => 6 * length rest
  | LInit _ rest => 6 * length rest + 5
  | LLookup _ rest => 6 * length rest + 4
  | LCreate _ rest => 6 * length rest + 3
  | LHas _ _ rest => 6 * length rest + 2
  | LWrites _ _ rest => 6 * length rest + 1
  | LFreed => 0
  end.
Definition steps_left (s : log_threads) : Z := tally (λ c, Z.of_nat (pc_left c)) (lt_threads s).

Lemma log_step_left s s' : log_step s s' → steps_left s' < steps_left s.
Proof.
  assert (Hmove : ∀ l t c0 c, l !! t = Some c0 → (pc_left c < pc_left c0)%nat →
    tally (λ c, Z.of_nat (pc_left c)) (<[t:=c]> l) < tally (λ c, Z.of_nat (pc_left c)) l).
  { intros l t c0 c Ht Hc. rewrite (tally_insert _ _ _ _ _ Ht). lia. }
  unfold steps_left. intros [t m rest Ht Hf|t m rest Ht Hf|t m rest Ht|t m rest n Ht Hn|t m rest Ht Hn
    |t m rest Ht|t n m rest nd Ht Hn Hf Hex|t n m rest nd [Ht|Ht] Hn Hf|t n m rest nd Ht Hn Hf];
    cbn [set_thread insert_node put_line lt_threads];
    try (eapply Hmove; [exact Ht|cbn; lia]).
  unfold init_log. destruct (lt_flag s); (eapply Hmove; [exact Ht|cbn; lia]).
Qed.

Lemma threads_start_ok known progs :
  NoDup known → shared_known known progs → threads_ok progs (threads_start known progs).
Proof.
  intros Hnd Hsh.
  assert (Htab : ∀ f n, lt_table (threads_start known progs) !! f = Some n ↔ known !! n = Some f).
  { intros f n. cbn [threads_start lt_table]. rewrite <- elem_of_list_to_map.
    - rewrite list_elem_of_lookup. setoid_rewrite list_lookup_imap. split.
      + intros [i Hi]. destruct (known !! i) eqn:E; [|done]. cbn in Hi. by simplify_eq.
      + intros H. exists n. by rewrite H.
    - replace ((imap (λ n f, (f, n)) known).*1) with known; [done|].
      rewrite fmap_imap. clear. induction known as [|f l IH] using rev_ind; [done|].
      rewrite imap_app. cbn. by rewrite <- IH. }
  assert (Hthr : ∀ t c, lt_threads (threads_start known progs) !! t = Some c →
    ∃ p, progs !! t = Some p ∧ c = LCalls p).
  { intros t c. cbn. rewrite list_lookup_fmap. destruct (progs !! t) as [p|]; [|done].
    intros [= <-]. by exists p. }
  split.
  - intros f n Hn%Htab. exists (new_shared_node f). cbn. by rewrite list_lookup_fmap, Hn.
  - by intros t c n f (p & _ & ->)%Hthr.
  - by intros t m rest (p & _ & ?)%Hthr.
  - intros t u c d f Htu (p & Hp & ->)%Hthr (q & Hq & ->)%Hthr Hf Hf'.
    assert (f ∈ known) as [n Hn]%list_elem_of_lookup by (by eapply Hsh). exists n. by apply Htab.
  - destruct known as [|f known]; [|done]. cbn.
    split_and!; [done..|]. by apply Forall_fmap, Forall_true.
  - intros [t (p & _ & ?)%Hthr]%list_elem_of_lookup; done.
  - intros t f. assert (file_lines (threads_start known progs) f = []) as ->.
    { unfold file_lines. destruct (lt_table _ !! f) as [n|] eqn:E; [|done]. apply Htab in E. cbn.
      by rewrite list_lookup_fmap, E. }
    cbn. rewrite list_lookup_fmap. by destruct (progs !! t).
Qed.

Lemma stuck_calls_done progs s t c :
  threads_ok progs s → (¬ ∃ s', log_step s s') → lt_threads s !! t = Some c → c = LCalls [].
Proof.
  intros Hok Hstuck Ht.
  assert (Hw : ∀ u n m rest, lt_threads s !! u ≠ Some (LWrites n m rest)).
  { intros u n m rest Hu. pose proof (ok_holds _ _ Hok u _ n m.1 Hu eq_refl) as Hm.
    destruct (ok_table _ _ Hok _ _ Hm) as (nd & Hn & _ & Hf). destruct Hstuck. eexists.
    by eapply line_written. }
  destruct c as [[|m rest]|m rest|m rest|m rest|n m rest|n m rest|]; [done|exfalso..];
    try (destruct Hstuck; eexists; by eauto using log_step).
  - destruct Hstuck. destruct (lt_flag s) eqn:E; eexists; [by eapply call_goes_on|by eapply call_inits].
  - destruct Hstuck. destruct (lt_table s !! m.1) eqn:E; eexists; [by eapply lookup_finds|by eapply lookup_fails].
  - pose proof (ok_holds _ _ Hok t _ n m.1 Ht eq_refl) as Hm.
    destruct (ok_table _ _ Hok _ _ Hm) as (nd & Hn & _ & Hf). destruct Hstuck. eexists.
    by eapply node_locked.
  - by eapply Hw.
  - by eapply (ok_live _ _ Hok), list_elem_of_lookup_2.
Qed.

Lemma log_run_ok progs k s s' :
  threads_ok progs s → nsteps log_step k s s' →
  threads_ok progs s' ∧ steps_left s' + Z.of_nat k ≤ steps_left s.
Proof.
  intros Hok Hr. induction Hr as [s|k s s1 s2 Hstep Hr IH]; [split; [done|lia]|].
  destruct (IH (log_step_ok _ _ _ Hok Hstep)) as [? ?]. split; [done|].
  pose proof (log_step_left _ _ Hstep). lia.
Qed.

Lemma steps_left_start known progs :
  steps_left (threads_start known progs) = 6 * zlen (concat progs).
Proof.
  unfold steps_left. cbn [threads_start lt_threads]. induction progs as [|p progs IH]; [done|].
  unfold tally in *. cbn [fmap list_fmap foldr concat pc_left]. rewrite IH. unfold zlen.
  rewrite length_app. lia.
Qed.

(** ** What the threads write *)


(** A thread reaches the look-up of its next message. *)
Lemma reach_lookup s t m rest :
  lt_threads s !! t = Some (LCalls (m :: rest)) → (lt_flag s = false → lt_table s = ∅) →
  ∃ s', rtc log_step s s' ∧ lt_flag s' = true ∧ lt_table s' = lt_table s ∧
    lt_nodes s' = lt_nodes s ∧ lt_threads s' = <[t:=LLookup m rest]> (lt_threads s).
Proof.
  intros Ht Htab. destruct (lt_flag s) eqn:E.
  - eexists. split; [apply rtc_once; by eapply call_goes_on|]. by cbn.
  - eexists. split.
    + eapply rtc_l; [by apply call_inits|]. apply rtc_once. eapply init_returns. cbn.
      apply list_lookup_insert_eq. by eapply lookup_lt_Some.
    + unfold init_log. cbn. rewrite E. cbn. rewrite list_insert_insert_eq. split_and!; try done.
      by rewrite Htab.
Qed.

Lemma thread_at (l : list log_pc) t c0 c : l !! t = Some c0 → <[t:=c]> l !! t = Some c.
Proof. intros H. apply list_lookup_insert_eq. by eapply lookup_lt_Some. Qed.

(** Two threads have both missed the node of a name: the second insertion frees the
    node of the first, which then uses it. *)
Lemma second_creation_frees s t u (m1 m2 : log_entry) (p1 p2 : list log_entry) :
  t ≠ u → lt_threads s !! t = Some (LCreate m1 p1) → lt_threads s !! u = Some (LCreate m2 p2) →
  m1.1 = m2.1 → lt_table s !! m1.1 = None →
  ∃ s', rtc log_step s s' ∧ lt_threads s' !! t = Some LFreed.
Proof.
  intros Htu Ht Hu Hm Hnone. set (n := length (lt_nodes s)).
  set (s1 := set_thread (insert_node s m1.1) t (LHas n m1 p1)).
  assert (Ht1 : lt_threads s1 !! t = Some (LHas n m1 p1)) by (by eapply thread_at).
  assert (Hu1 : lt_threads s1 !! u = Some (LCreate m2 p2)) by (cbn; by rewrite list_lookup_insert_ne).
  assert (Hm1 : lt_table s1 !! m2.1 = Some n) by (cbn; by rewrite <- Hm, lookup_insert_eq).
  assert (Hn1 : lt_nodes s1 !! n = Some (new_shared_node m1.1)).
  { cbn. rewrite Hnone. unfold n. by rewrite lookup_app_r, Nat.sub_diag. }
  set (s2 := set_thread (insert_node s1 m2.1) u (LHas (length (lt_nodes s1)) m2 p2)).
  assert (Ht2 : lt_threads s2 !! t = Some (LHas n m1 p1)).
  { unfold s2. cbn [set_thread insert_node lt_threads]. by rewrite list_lookup_insert_ne. }
  assert (Hn2 : lt_nodes s2 !! n = Some (free_node (new_shared_node m1.1))).
  { unfold s2. cbn [set_thread insert_node lt_nodes]. rewrite Hm1. apply lookup_app_l_Some.
    by rewrite list_lookup_alter_eq, Hn1. }
  exists (set_thread s2 t LFreed). split; [|by eapply thread_at].
  eapply rtc_l; [exact (node_created s t m1 p1 Ht)|].
  eapply rtc_l; [exact (node_created s1 u m2 p2 Hu1)|].
  apply rtc_once. eapply node_gone; [left; exact Ht2|exact Hn2|done].
Qed.

(** C28: Two threads that are the first to use a name, in a process that has not logged
    or has logged to other names. There is a run in which both miss the node, both
    create one, and one of them writes through a node that was freed. *)
Theorem first_use_races known progs t u (m1 m2 : log_entry) (p1 p2 : list log_entry) :
  t ≠ u → progs !! t = Some (m1 :: p1) → progs !! u = Some (m2 :: p2) →
  m1.1 = m2.1 → m1.1 ∉ known →
  ∃ s, rtc log_step (threads_start known progs) s ∧ lt_threads s !! t = Some LFreed.
Proof.
  intros Htu Ht Hu Hm Hnew. set (s0 := threads_start known progs).
  assert (Hnone : lt_table s0 !! m1.1 = None).
  { cbn. apply not_elem_of_list_to_map. rewrite list_elem_of_lookup. intros [i Hi].
    rewrite list_lookup_fmap, list_lookup_imap in Hi. destruct (known !! i) as [g|] eqn:E; [|done].
    cbn in Hi. simplify_eq. by apply list_elem_of_lookup_2 in E. }
  assert (Hempty : lt_flag s0 = false → lt_table s0 = ∅) by (by destruct known).
  assert (Hp : ∀ v (p : list log_entry), progs !! v = Some p → lt_threads s0 !! v = Some (LCalls p)).
  { intros v p Hv. unfold s0. cbn [threads_start lt_threads]. by rewrite list_lookup_fmap, Hv. }
  destruct (reach_lookup s0 t m1 p1 (Hp _ _ Ht) Hempty) as (s1 & R1 & F1 & T1 & _ & H1).
  assert (Hu1 : lt_threads s1 !! u = Some (LCalls (m2 :: p2)))
    by (rewrite H1, list_lookup_insert_ne by done; by apply Hp).
  destruct (reach_lookup s1 u m2 p2 Hu1) as (s2 & R2 & _ & T2 & _ & H2); [by rewrite F1|].
  assert (Ht2 : lt_threads s2 !! t = Some (LLookup m1 p1)).
  { rewrite H2, list_lookup_insert_ne, H1 by done. eapply thread_at. by apply Hp. }
  assert (Hu2 : lt_threads s2 !! u = Some (LLookup m2 p2)) by (rewrite H2; by eapply thread_at).
  set (s3 := set_thread s2 t (LCreate m1 p1)).
  assert (Hu3 : lt_threads s3 !! u = Some (LLookup m2 p2)) by (cbn; by rewrite list_lookup_insert_ne).
  destruct (second_creation_frees (set_thread s3 u (LCreate m2 p2)) t u m1 m2 p1 p2)
    as (s' & R & Hs'); [done|..].
  - cbn. rewrite list_lookup_insert_ne by done. by eapply thread_at.
  - by eapply thread_at.
  - done.
  - cbn. by rewrite T2, T1.
  - exists s'. split; [|done]. etrans; [exact R1|]. etrans; [exact R2|].
    eapply rtc_l; [by apply lookup_fails; [exact Ht2|rewrite T2, T1]|].
    eapply rtc_l; [|exact R]. apply lookup_fails; [done|]. cbn. by rewrite T2, T1, <- Hm.
Qed.

(** ** Witnesses *)

(** The program of the tests: its first forty-six threads race for one file. *)
Lemma first_use_races_witness :
  ∃ s, rtc log_step (threads_start [] (multiThreadTest 1 Z.of_nat)) s ∧
       lt_threads s !! 0%nat = Some LFreed.
Proof.
  apply (first_use_races [] (multiThreadTest 1 Z.of_nat) 0 45
    (LOG_C, lit "00000--0") (LOG_C, lit "4545454545--45") [] []);
    [done|by vm_compute|by vm_compute|done|by apply not_elem_of_nil].
Defined.

(** One step of a concrete run, with the state it leads to in normal form. *)
Local Tactic Notation "log_run" uconstr(c) :=
  eapply nsteps_l; [apply c; try (by vm_compute); intros [|[|u]]; by vm_compute|];
  unfold set_thread, insert_node, put_line;
  cbn [lt_flag lt_inits lt_table lt_nodes lt_threads insert list_insert app length add_line
       sn_name sn_freed sn_text new_shared_node fst snd].

