(* ===== verification/BaseTests.v ===== *)
(** Test programs of the base library, run on the models of what they test:
    [log/muduo-clog/muduo/base/tests/Atomic_unittest.cc], [ThreadLocal_test.cc],
    [ThreadLocalSingleton_test.cc], [SingletonThreadLocal_test.cc], [Fork_test.cc],
    [Mutex_test.cc] and [Timestamp_unittest.cc]. Addresses are left out of what they print. *)

From stdpp Require Import relations.
From S2P Require Import Prelude CString Memory Double DoubleText Timestamp CurrentThread Monitor Mutex.

Open Scope Z_scope.

(** ** Atomic_unittest *)

(** The block for one of the two types. *)
Definition Atomic_block (w : Z) (arith : Z → outcome Z) : outcome unit :=
  let a := 0 in
  _ ← assertion (atomic_get a =? 0);
  let '(r, a) := getAndAdd w a 1 in
  _ ← assertion (r =? 0);
  _ ← assertion (atomic_get a =? 1);
  '(r, a) ← addAndGet w arith a 2;
  _ ← assertion (r =? 3);
  _ ← assertion (atomic_get a =? 3);
  '(r, a) ← incrementAndGet w arith a;
  _ ← assertion (r =? 4);
  _ ← assertion (atomic_get a =? 4);
  a ← atomic_increment w arith a;
  _ ← assertion (atomic_get a =? 5);
  '(r, a) ← addAndGet w arith a (-3);
  _ ← assertion (r =? 2);
  let '(r, a) := getAndSet a 100 in
  _ ← assertion (r =? 2);
  assertion (atomic_get a =? 100).

Definition Atomic_unittest : outcome unit := _ ← Atomic_block 64 long_; Atomic_block 32 int_.

Lemma Atomic_unittest_passes : Atomic_unittest = Ret tt.
Proof. by vm_compute. Qed.

(** ** Fork_test *)

(** A process with one thread: its number, [x], and what the thread caches. *)
Record process := { p_pid : Z; p_x : Z; p_thread : CurrentThread }.

(** [ThreadNameInitializer init], before [main]. *)
Definition ThreadNameInitializer (pid : Z) : outcome process :=
  '(c, _) ← tid pid {| t_cachedTid := t_cachedTid CurrentThread_new;
                       t_tidString := t_tidString CurrentThread_new;
                       t_tidStringLength := t_tidStringLength CurrentThread_new;
                       t_threadName := lit "main" |};
  mret {| p_pid := pid; p_x := 0; p_thread := c |}.

Definition set_x (s : process) (x : Z) : process :=
  {| p_pid := p_pid s; p_x := x; p_thread := p_thread s |}.

(** [print()]: the numbers of the line; the thread of a process has its number. *)
Definition print_ids (s : process) : outcome (process * (Z * Z * Z)) :=
  '(c, t) ← tid (p_pid s) (p_thread s);
  mret ({| p_pid := p_pid s; p_x := p_x s; p_thread := c |}, (p_pid s, t, p_x s)).

(** The child of a [fork], with the handler [pthread_atfork] was given. *)
Definition forked (s : process) (child : Z) : outcome process :=
  c ← afterFork child (p_thread s);
  mret {| p_pid := child; p_x := p_x s; p_thread := c |}.

(** [main], where both calls of [fork] succeed: the lines of [print()] of the three
    processes, without the ones that announce them. *)
Definition Fork_test (parent child grandchild : Z)
    : outcome (list (Z * Z * Z) * list (Z * Z * Z) * list (Z * Z * Z)) :=
  s ← ThreadNameInitializer parent;
  '(s, l1) ← print_ids s;
  '(s, l2) ← print_ids (set_x s 1);
  c ← forked s child;
  '(s, l3) ← print_ids s;
  '(c, k1) ← print_ids c;
  '(c, k2) ← print_ids (set_x c 2);
  g ← forked c grandchild;
  '(g, m1) ← print_ids g;
  '(g, m2) ← print_ids (set_x g 3);
  mret ([l1; l2; l3], [k1; k2], [m1; m2]).

Lemma tid_again pid c : t_cachedTid c = pid → pid ≠ 0 → tid pid c = Ret (c, pid).
Proof.
  intros Hc Hp. unfold tid. assert ((t_cachedTid c =? 0) = false) as -> by lia. cbn. by rewrite Hc.
Qed.

Lemma forked_ok s child :
  0 < child ≤ INT_MAX → tid_ok (p_pid s) (p_thread s) →
  ∃ s', forked s child = Ret s' ∧ p_pid s' = child ∧ p_x s' = p_x s ∧ tid_ok child (p_thread s').
Proof.
  intros Hc (_ & _ & _ & Hlen). unfold forked, afterFork, tid. cbn [t_cachedTid Z.eqb].
  destruct (cacheTid_ok child {| t_cachedTid := 0; t_tidString := t_tidString (p_thread s);
    t_tidStringLength := t_tidStringLength (p_thread s); t_threadName := lit "main" |} Hc eq_refl Hlen)
    as (c & -> & Hok & _).
  cbn. eexists. split; [reflexivity|]. by split_and!.
Qed.

Lemma print_ids_ok s :
  0 < p_pid s → tid_ok (p_pid s) (p_thread s) → print_ids s = Ret (s, (p_pid s, p_pid s, p_x s)).
Proof.
  intros Hp (Hc & _). unfold print_ids. rewrite (tid_again _ _ Hc) by lia.
  by destruct s.
Qed.

(** Every process prints its own number as the identifier of its thread, and the
    [x] it inherited and set: the cache does not survive [fork]. *)
Lemma Fork_test_lines p c g :
  0 < p ≤ INT_MAX → 0 < c ≤ INT_MAX → 0 < g ≤ INT_MAX →
  Fork_test p c g = Ret ([(p, p, 0); (p, p, 1); (p, p, 1)], [(c, c, 1); (c, c, 2)],
                         [(g, g, 2); (g, g, 3)]).
Proof.
  intros Hp Hc Hg. unfold Fork_test, ThreadNameInitializer.
  destruct (cacheTid_ok p {| t_cachedTid := 0; t_tidString := replicate 32 NUL;
    t_tidStringLength := 6; t_threadName := lit "main" |} Hp eq_refl eq_refl) as (t & Ht & Hok & _).
  unfold tid at 1. cbn [t_cachedTid CurrentThread_new Z.eqb t_tidString t_tidStringLength].
  rewrite Ht. rewrite !Ret_bind.
  set (s := {| p_pid := p |}). assert (Hs : tid_ok (p_pid s) (p_thread s)) by exact Hok.
  rewrite (print_ids_ok s) by (try done; cbn; lia). rewrite Ret_bind.
  rewrite (print_ids_ok (set_x s 1)) by (try done; cbn; lia). rewrite Ret_bind.
  destruct (forked_ok (set_x s 1) c Hc Hs) as (s1 & -> & Hp1 & Hx1 & Hok1). rewrite Ret_bind.
  rewrite (print_ids_ok (set_x s 1)) by (try done; cbn; lia). rewrite Ret_bind.
  rewrite <- Hp1 in Hok1. rewrite (print_ids_ok s1) by (try done; lia). rewrite Ret_bind.
  rewrite (print_ids_ok (set_x s1 2)) by (try done; cbn; lia). rewrite Ret_bind.
  destruct (forked_ok (set_x s1 2) g Hg Hok1) as (s2 & -> & Hp2 & Hx2 & Hok2). rewrite Ret_bind.
  rewrite <- Hp2 in Hok2. rewrite (print_ids_ok s2) by (try done; lia). rewrite Ret_bind.
  rewrite (print_ids_ok (set_x s2 3)) by (try done; cbn; lia). rewrite Ret_bind.
  cbn. by rewrite Hp1, Hx1, Hp2, Hx2.
Qed.

(** ** Objects of threads *)

(** What the threads of the three tests do: print the name of the object of a
    variable, or set it. *)
Inductive name_op := PrintName (v : Z) | SetName (v : Z) (n : bytes).

(** The objects by variable, and the names of the objects. *)
Record locals := { vars : gmap Z ThreadLocal; obj_names : gmap (Z * Z) bytes }.
Definition locals_start : locals := {| vars := ∅; obj_names := ∅ |}.

Definition var_of (l : locals) (v : Z) : ThreadLocal := default ThreadLocal_new (vars l !! v).

Definition name_step (t : Z) (op : name_op) (l : locals) : locals * list bytes :=
  let v := match op with PrintName v | SetName v _ => v end in
  let '(tl, o) := value t (var_of l v) in
  let l := {| vars := <[v:=tl]> (vars l); obj_names := obj_names l |} in
  match op with
  | PrintName _ => (l, [default [] (obj_names l !! (v, o))])
  | SetName _ n => ({| vars := vars l; obj_names := <[(v, o):=n]> (obj_names l) |}, [])
  end.

(** The operations of several threads one after another, with what each prints. *)
Fixpoint name_run (evs : list (Z * name_op)) (l : locals) : list (Z * bytes) :=
  match evs with
  | [] => []
  | (t, op) :: evs => let '(l, out) := name_step t op l in (pair t <$> out) ++ name_run evs l
  end.

(** A thread alone, with names of its own. *)
Fixpoint own_run (ops : list name_op) (cur : Z → bytes) : list bytes :=
  match ops with
  | [] => []
  | PrintName v :: ops => cur v :: own_run ops cur
  | SetName v n :: ops => own_run ops (λ u, if decide (u = v) then n else cur u)
  end.

Definition of_thread {A} (t : Z) (l : list (Z * A)) : list A :=
  omap (λ e, if decide (e.1 = t) then Some e.2 else None) l.

(** [cur] is what each thread sees. *)
Definition names_ok (cur : Z → Z → bytes) (l : locals) : Prop :=
  (∀ v, local_ok (var_of l v)) ∧
  (∀ v o, next_object (var_of l v) ≤ o → obj_names l !! (v, o) = None) ∧
  ∀ t v, cur t v = match specific (var_of l v) !! t with
                   | Some o => default [] (obj_names l !! (v, o))
                   | None => []
                   end.

Lemma value_spec t s :
  local_ok s →
  let '(s', o) := value t s in
  local_ok s' ∧ specific s' !! t = Some o ∧ next_object s ≤ next_object s' ∧ o < next_object s' ∧
  (∀ u, u ≠ t → specific s' !! u = specific s !! u) ∧
  (specific s !! t = Some o ∨ specific s !! t = None ∧ o = next_object s).
Proof.
  intros Hok. pose proof (value_ok t s Hok) as Hok'. unfold value in *.
  destruct (specific s !! t) as [o|] eqn:E; cbn [fst specific next_object] in *.
  - destruct Hok as (H1 & H2). destruct (H1 t o E). split_and!; try done; by left.
  - rewrite lookup_insert_eq. split_and!; try done; try lia; [|by right].
    intros u Hu. by rewrite lookup_insert_ne.
Qed.

Lemma var_of_insert l v tl ns u :
  var_of {| vars := <[v:=tl]> (vars l); obj_names := ns |} u = if decide (u = v) then tl else var_of l u.
Proof.
  unfold var_of. cbn. case_decide as E; [subst; by rewrite lookup_insert_eq|].
  by rewrite lookup_insert_ne.
Qed.

Lemma name_step_ok cur t op l :
  names_ok cur l →
  let '(l', out) := name_step t op l in
  names_ok (λ u v, match op with
                   | SetName w n => if decide (u = t ∧ v = w) then n else cur u v
                   | PrintName _ => cur u v
                   end) l' ∧
  out = match op with PrintName v => [cur t v] | SetName _ _ => [] end.
Proof.
  intros (H1 & H2 & H3). unfold name_step.
  set (v := match op with PrintName v | SetName v _ => v end).
  pose proof (value_spec t (var_of l v) (H1 v)) as Hv. destruct (value t (var_of l v)) as [tl o].
  destruct Hv as (Hok & Ht & Hnext & Hlt & Hother & Hcase).
  assert (Hsee : cur t v = default [] (obj_names l !! (v, o))).
  { rewrite H3. destruct Hcase as [->|[-> ->]]; [done|]. by rewrite H2 by lia. }
  assert (Hsame : ∀ u w, match specific (if decide (w = v) then tl else var_of l w) !! u with
    | Some p => default [] (obj_names l !! (w, p)) | None => [] end = cur u w).
  { intros u w. case_decide as Ew; [subst w|by rewrite H3].
    destruct (decide (u = t)) as [->|Hu]; [by rewrite Ht|]. by rewrite Hother, H3. }
  destruct op as [w|w n]; subst v; cbn [obj_names vars]; (split; [|by rewrite ?Hsee]); split_and!;
    cbn [obj_names].
  - intros u. rewrite var_of_insert. by case_decide.
  - intros u p. rewrite var_of_insert. case_decide as E; [subst u; intros; apply H2; lia|apply H2].
  - intros u x. by rewrite var_of_insert, Hsame.
  - intros u. rewrite var_of_insert. by case_decide.
  - intros u p. rewrite var_of_insert. case_decide as E; [subst u|].
    + intros Hp. rewrite lookup_insert_ne by (intros [=]; lia). apply H2. lia.
    + intros Hp. rewrite lookup_insert_ne by (intros [=]; congruence). by apply H2.
  - intros u x. rewrite var_of_insert, <- Hsame. destruct (decide (x = w)) as [->|Hx].
    + destruct (decide (u = t)) as [->|Hu].
      * rewrite decide_True, Ht by done. by rewrite lookup_insert_eq.
      * rewrite decide_False by (by intros []). destruct (specific tl !! u) as [p|] eqn:E; [|done].
        rewrite lookup_insert_ne; [done|]. intros [= <-]. destruct Hok as (_ & Hinj & _).
        destruct Hu. by eapply Hinj.
    + rewrite decide_False by (by intros []). cbn. destruct (specific (var_of l x) !! u); [|done].
      by rewrite lookup_insert_ne by (intros [=]; congruence).
Qed.

Lemma own_run_ext ops cur cur' : (∀ v, cur v = cur' v) → own_run ops cur = own_run ops cur'.
Proof.
  revert cur cur'. induction ops as [|[v|v n] ops IH]; intros cur cur' H; cbn; [done|..].
  - by rewrite H, (IH _ _ H).
  - apply IH. intros u. by case_decide.
Qed.

Lemma of_thread_app {A} t (l k : list (Z * A)) : of_thread t (l ++ k) = of_thread t l ++ of_thread t k.
Proof. apply omap_app. Qed.

Lemma name_run_own evs t cur l :
  names_ok cur l → of_thread t (name_run evs l) = own_run (of_thread t evs) (cur t).
Proof.
  revert cur l. induction evs as [|[u op] evs IH]; intros cur l Hok; [done|]. cbn [name_run].
  pose proof (name_step_ok cur u op l Hok) as Hs. destruct (name_step u op l) as [l' out].
  destruct Hs as [Hok' ->]. rewrite of_thread_app, (IH _ _ Hok').
  unfold of_thread at 3. cbn [omap list_omap fst snd]. fold (of_thread (A:=name_op) t evs).
  destruct op as [v|v n]; cbn [fmap list_fmap app].
  - unfold of_thread at 1. cbn. by destruct (decide (u = t)) as [->|Hu].
  - change (of_thread t (@nil (Z * bytes))) with (@nil bytes).
    destruct (decide (u = t)) as [->|Hu]; cbn.
    + apply own_run_ext. intros w. destruct (decide (w = v)) as [->|Hw].
      * by rewrite decide_True.
      * rewrite decide_False; [done|]. by intros [].
    + apply own_run_ext. intros w. rewrite decide_False; [done|]. by intros [].
Qed.

(** However the operations of the threads are mixed, a thread prints what it would
    print alone: the objects of the others do not matter. *)
Lemma locals_do_not_interfere evs t :
  of_thread t (name_run evs locals_start) = own_run (of_thread t evs) (λ _, []).
Proof.
  apply (name_run_own evs t (λ _ _, [])). split_and!; try done.
  intros v. unfold var_of. cbn. unfold local_ok. cbn. split_and!; [set_solver..|inversion 1|constructor].
Qed.

(** *** The programs *)

Definition print_both : list name_op := [PrintName 1; PrintName 2].

(** [ThreadLocal_test.cc]: the thread (1) runs while [main] (0) waits for it. *)
Definition ThreadLocal_test : list (Z * name_op) :=
  (pair 0 <$> (SetName 1 (lit "main one") :: print_both)) ++
  (pair 1 <$> (print_both ++ [SetName 1 (lit "changed 1"); SetName 2 (lit "changed 42")] ++ print_both)) ++
  (pair 0 <$> (SetName 2 (lit "main two") :: print_both)).

Lemma ThreadLocal_test_prints :
  name_run ThreadLocal_test locals_start =
    [(0, lit "main one"); (0, []); (1, []); (1, []); (1, lit "changed 1"); (1, lit "changed 42");
     (0, lit "main one"); (0, lit "main two")].
Proof. by vm_compute. Qed.

(** [ThreadLocalSingleton_test.cc] and [SingletonThreadLocal_test.cc]: the
    function of the threads, and [main]. *)
Definition threadFunc (changeTo : bytes) : list name_op := [PrintName 1; SetName 1 changeTo; PrintName 1].
Definition main_ops : list name_op := [SetName 1 (lit "main one"); PrintName 1].

(** Whatever the schedule, each thread first finds no name and then its own, and
    [main] finds the name it gave. *)
Lemma singleton_tests_print evs :
  of_thread 0 evs = main_ops → of_thread 1 evs = threadFunc (lit "thread1") →
  of_thread 2 evs = threadFunc (lit "thread2") →
  let out := name_run evs locals_start in
  of_thread 0 out = [lit "main one"] ∧ of_thread 1 out = [[]; lit "thread1"] ∧
  of_thread 2 out = [[]; lit "thread2"].
Proof. intros H0 H1 H2 out. subst out. by rewrite !locals_do_not_interfere, H0, H1, H2. Qed.

(** ** Timestamp_unittest *)

(** [passByValue] and [passByConstReference]: the line of a time stamp. *)
Definition stamp_line (x : Z) : bytes := Timestamp_toString x ++ [LF].

(** A turn of the loop of [benchmark()]: [start], [increments] and what is
    printed. *)
Definition benchmark_turn (next : Z) (st : Z * list Z * bytes) : outcome (Z * list Z * bytes) :=
  let '(start, increments, out) := st in
  inc ← long_ (next - start);
  if inc <? 0 then mret (next, increments, out ++ lit "reverse!" ++ [LF])
  else if inc <? 100 then
    n ← aget increments inc; n ← int_ (n + 1); incs ← aset increments inc n;
    mret (next, incs, out)
  else mret (next, increments, out ++ lit "big gap " ++ print_d (to_s 32 inc) ++ [LF]).

Fixpoint benchmark_loop (stamps : list Z) (st : Z * list Z * bytes) : outcome (Z * list Z * bytes) :=
  match stamps with
  | [] => mret st
  | x :: stamps => st ← benchmark_turn x st; benchmark_loop stamps st
  end.

(** The table: ["%2d: %d\n"]. *)
Definition benchmark_table (increments : list Z) : bytes :=
  concat (imap (λ i n, print_space 2 (Z.of_nat i) ++ lit ": " ++ print_d n ++ [LF]) increments).

(** [benchmark()] on the answers of [now()], with its histogram. *)
Definition benchmark (front : Z) (stamps : list Z) : outcome (bytes * list Z) :=
  let back := default front (last stamps) in
  d ← timeDifference back front;
  let head := stamp_line front ++ stamp_line back ++ print_f 6 d ++ [LF] in
  '(_, increments, out) ← benchmark_loop stamps (front, replicate 100 0, []);
  mret (head ++ out ++ benchmark_table increments, increments).

(** [main] on the answers of [now()]: the same line three times, and the benchmark. *)
Definition Timestamp_unittest (now front : Z) (stamps : list Z) : outcome bytes :=
  '(out, _) ← benchmark front stamps;
  mret (stamp_line now ++ stamp_line now ++ stamp_line now ++ out).

(** The gaps between successive time stamps. *)
Fixpoint gaps (start : Z) (stamps : list Z) : list Z :=
  match stamps with [] => [] | x :: stamps => (x - start) :: gaps x stamps end.

Definition count_of (d : Z) (l : list Z) : Z := zlen (filter (λ x, x = d) l).

Lemma count_of_cons d x l : count_of d (x :: l) = (if decide (x = d) then 1 else 0) + count_of d l.
Proof. unfold count_of, zlen. rewrite filter_cons. case_decide; cbn [length]; lia. Qed.

Lemma count_of_bound d l : 0 ≤ count_of d l ≤ zlen l.
Proof. unfold count_of, zlen. pose proof (length_filter (λ x, x = d) l). lia. Qed.

Lemma benchmark_loop_counts stamps start incs out :
  zlen incs = 100 → (∀ d, 0 ≤ d < 100 → 0 ≤ rd incs d ∧ rd incs d + zlen stamps ≤ INT_MAX) →
  Forall in_long (gaps start stamps) →
  wp (benchmark_loop stamps (start, incs, out)) (λ '(_, incs', _),
    zlen incs' = 100 ∧ ∀ d, 0 ≤ d < 100 → rd incs' d = rd incs d + count_of d (gaps start stamps)).
Proof.
  revert start incs out. induction stamps as [|x stamps IH]; intros start incs out Hl Hb Hg.
  { cbn. split; [done|]. intros d _. unfold count_of, zlen. cbn. lia. }
  cbn [gaps] in *. apply Forall_cons in Hg as [Hgap Hg].
  assert (Hz : zlen (x :: stamps) = 1 + zlen stamps) by (unfold zlen; cbn [length]; lia).
  cbn [benchmark_loop]. unfold benchmark_turn. rewrite long_bind by done.
  assert (Hskip : ∀ out, ¬ (0 ≤ x - start < 100) →
    wp (benchmark_loop stamps (x, incs, out)) (λ '(_, incs', _),
      zlen incs' = 100 ∧ ∀ d, 0 ≤ d < 100 → rd incs' d = rd incs d + count_of d (x - start :: gaps x stamps))).
  { intros o Hno. eapply wp_mono; [apply IH; [done| |done]|].
    - intros d Hd. destruct (Hb d Hd). lia.
    - intros [[y incs'] out'] [Hl' Hc]. split; [done|]. intros d Hd. rewrite Hc by done.
      rewrite count_of_cons, decide_False by lia. lia. }
  destruct (Z.ltb_spec (x - start) 0); [apply Hskip; lia|].
  destruct (Z.ltb_spec (x - start) 100); [|apply Hskip; lia].
  destruct (Hb (x - start)) as [Hn1 Hn2]; [lia|]. rewrite Hz in Hn2.
  assert (0 ≤ zlen stamps) by (unfold zlen; lia).
  rewrite aget_ok, Ret_bind by lia. rewrite int_bind by (unfold in_int, INT_MIN; lia).
  rewrite aset_ok, Ret_bind by lia. rewrite Ret_bind || cbn [mbind outcome_bind mret outcome_ret].
  eapply wp_mono; [apply IH; [by rewrite zlen_upd| |done]|].
  - intros d Hd. rewrite rd_upd by lia. destruct (Hb d Hd). case_decide; lia.
  - intros [[y incs'] out'] [Hl' Hc]. split; [done|]. intros d Hd. rewrite Hc by done.
    rewrite count_of_cons, rd_upd by lia. case_decide; subst; lia.
Qed.

(** The histogram of [benchmark()] counts, for every gap of less than a hundred
    microseconds, the pairs of successive time stamps that lie that far apart. *)
Lemma benchmark_counts front stamps :
  zlen stamps ≤ INT_MAX → Forall in_long (gaps front stamps) →
  in_long (default front (last stamps) - front) →
  wp (benchmark front stamps) (λ '(_, increments),
    ∀ d, 0 ≤ d < 100 → rd increments d = count_of d (gaps front stamps)).
Proof.
  intros Hlen Hg Hlast. unfold benchmark, timeDifference. rewrite long_bind by done.
  rewrite mret_bind. apply wp_bind.
  assert (H0 : ∀ d, 0 ≤ d < 100 → rd (replicate 100 0) d = 0)
    by (intros d Hd; unfold rd; apply lookup_total_replicate_2; lia).
  eapply wp_mono; [apply benchmark_loop_counts; [done| |done]|].
  - intros d Hd. rewrite H0 by done. lia.
  - intros [[y incs] out] [_ Hc] d Hd. rewrite Hc, H0 by done. lia.
Qed.

Example benchmark_prints :
  benchmark 1527000000000000 [1527000000000001; 1527000000000001; 1527000000000201; 1527000000000200] =
  Ret (stamp_line 1527000000000000 ++ stamp_line 1527000000000200 ++ lit "0.000200" ++ [LF] ++
       lit "big gap 200" ++ [LF] ++ lit "reverse!" ++ [LF] ++
       benchmark_table (1 :: 1 :: replicate 98 0), 1 :: 1 :: replicate 98 0).
Proof. by vm_compute. Qed.

(** ** Mutex_test *)

(** [foo()] of thread [t], where [m] is the mutex behind the constructor of the
    guard: the result and [g_count]. *)
Definition foo {A} (t : Z) (m : MutexLock (A:=A)) (g_count : Z) : outcome (Z * Z) :=
  if negb (isLockedByThisThread t m) then mret (-1, g_count)
  else g_count ← int_ (g_count + 1); mret (0, g_count).

(** It never prints FAIL, and [main] finds a count of one. *)
Lemma foo_succeeds {A} tid (d : A) n m i sec :
  (∀ i, 0 < tid i) → (∀ i j, tid i = tid j → i = j) →
  rtc (mutex_step tid) (mutex_start d n) m → threads m !! i = Some (MInside sec) →
  foo (tid i) m 0 = Ret (0, 1).
Proof.
  intros Hpos Hinj Hr Hi. destruct (holder_is_exact tid d n m Hpos Hinj Hr) as [H _].
  unfold foo. by rewrite (H i _ Hi).
Qed.

(** The loops of [threadFunc] over the vector they share: where each of them is,
    and what was appended. A turn is one critical section (Mutex.v). *)
Record vec_state := { vec_next : list Z; g_vec : list Z }.

Inductive vec_step (kCount : Z) (s : vec_state) : vec_state → Prop :=
  | vec_pushes t i :
      vec_next s !! t = Some i → i < kCount →
      vec_step kCount s {| vec_next := <[t:=i + 1]> (vec_next s); g_vec := g_vec s ++ [i] |}.

(** A turn of the last loop of [main]: the threads begin with an empty vector. *)
Definition vec_start (nthreads : nat) : vec_state := {| vec_next := replicate nthreads 0; g_vec := [] |}.

Definition past (v i : Z) : Z := if decide (v < i) then 1 else 0.

Record vec_ok (kCount : Z) (n : nat) (s : vec_state) : Prop := {
  vec_bounds : Forall (λ i, 0 ≤ i ≤ kCount) (vec_next s);
  vec_threads : length (vec_next s) = n;
  vec_counts : ∀ v, 0 ≤ v → count_of v (g_vec s) = tally (past v) (vec_next s);
  vec_total : zlen (g_vec s) = tally id (vec_next s)
}.

Lemma count_of_app d l k : count_of d (l ++ k) = count_of d l + count_of d k.
Proof. unfold count_of. by rewrite filter_app, zlen_app. Qed.

Lemma vec_step_ok kCount n s s' : vec_ok kCount n s → vec_step kCount s s' → vec_ok kCount n s'.
Proof.
  intros [Hb Ht Hc Hl] [t i Hi Hlt]. rewrite Forall_lookup in Hb. pose proof (Hb t i Hi).
  split; cbn [vec_next g_vec].
  - apply Forall_insert; [by apply Forall_lookup|lia].
  - by rewrite length_insert.
  - intros v Hv. rewrite count_of_app, count_of_cons, (tally_insert _ _ _ _ _ Hi), Hc by done.
    change (count_of v []) with 0. unfold past. repeat case_decide; lia.
  - rewrite zlen_app, (tally_insert _ _ _ _ _ Hi), Hl. change (zlen [i]) with 1. cbn [id]. lia.
Qed.

Lemma tally_const {A} (w : A → Z) l c : Forall (λ x, w x = c) l → tally w l = zlen l * c.
Proof.
  induction 1 as [|x l Hx Hl IH]; [done|].
  unfold tally in *. cbn [foldr]. rewrite IH, Hx. unfold zlen. cbn [length]. lia.
Qed.

Lemma vec_start_ok kCount n : 0 ≤ kCount → vec_ok kCount n (vec_start n).
Proof.
  intros Hk. split; cbn [vec_next g_vec vec_start].
  - apply Forall_replicate. lia.
  - apply length_replicate.
  - intros v Hv. rewrite (tally_const _ _ 0); [change (count_of v []) with 0; lia|].
    apply Forall_replicate. unfold past. by rewrite decide_False by lia.
  - rewrite (tally_const _ _ 0); [change (zlen (@nil Z)) with 0; lia|]. by apply Forall_replicate.
Qed.

(** The vector of a run: no more than [nthreads * kCount] pushes, and when the
    threads have ended it holds every number below [kCount] once for every
    thread, and nothing was lost. *)
Lemma threads_fill_vector kCount n k s :
  0 ≤ kCount → nsteps (vec_step kCount) k (vec_start n) s →
  zlen (g_vec s) = Z.of_nat k ∧ Z.of_nat k ≤ Z.of_nat n * kCount ∧
  ((¬ ∃ s', vec_step kCount s s') →
   Z.of_nat k = Z.of_nat n * kCount ∧ ∀ v, 0 ≤ v < kCount → count_of v (g_vec s) = Z.of_nat n).
Proof.
  intros Hk Hr.
  assert (vec_ok kCount n s ∧ zlen (g_vec s) = zlen (g_vec (vec_start n)) + Z.of_nat k) as [Hok Hz].
  { pose proof (vec_start_ok kCount n Hk) as H0. revert Hr H0. generalize (vec_start n). intros s0 Hr.
    induction Hr as [s0|k s0 s1 s2 Hstep Hr IH]; intros H0; [split; [done|lia]|].
    destruct (IH (vec_step_ok _ _ _ _ H0 Hstep)) as [? E]. split; [done|].
    destruct Hstep as [t i Hi Hlt]. cbn [g_vec] in E. rewrite zlen_app in E.
    change (zlen [i]) with 1 in E. lia. }
  change (zlen (g_vec (vec_start n))) with 0 in Hz. rewrite Z.add_0_l in Hz. destruct Hok as [Hb Ht Hc Hl].
  split; [done|]. split.
  { rewrite <- Hz, Hl, <- Ht. clear -Hb. induction Hb as [|i l Hi Hl IH]; [done|].
    unfold tally in *. cbn [foldr length]. change (id i) with i. lia. }
  intros Hstuck. assert (Hall : Forall (λ i, i = kCount) (vec_next s)).
  { apply Forall_lookup. intros t i Hi. rewrite Forall_lookup in Hb. specialize (Hb t i Hi).
    destruct (decide (i < kCount)); [|lia]. destruct Hstuck. eexists. by eapply vec_pushes. }
  rewrite <- Ht. split.
  - rewrite <- Hz, Hl. by rewrite (tally_const _ _ kCount).
  - intros v Hv. rewrite Hc by lia. rewrite (tally_const _ _ 1); [unfold zlen; lia|].
    eapply Forall_impl; [exact Hall|]. intros i ->. unfold past. by rewrite decide_True by lia.
Qed.
