(* ===== verification/Programs.v ===== *)
(** Small programs beside the libraries: the delays measured by
    [muduo/base/tests/BlockingQueue_bench.cc] and [Thread_bench.cc], the times of
    [muduo/clog/tests/simple_test.c], and the interfaces listed by
    [src/src/network/libpcap/self_ifaddrlist.c]. *)

From stdpp Require Import sorting.
From S2P Require Import Prelude CString Double Timestamp QueueTest.

Open Scope Z_scope.

(** ** Delays *)

(** [static_cast<int>(x)]. *)
Definition double_to_int (x : double) : outcome Z :=
  match double_trunc x with
  | Some z => if decide (in_int z) then mret z else Undef BadConversion
  | None => Undef BadConversion
  end.

(** [static_cast<int>(timeDifference(now, t) * 1000000)]. *)
Definition bench_delay (now t : Z) : outcome Z :=
  d ← timeDifference now t;
  double_to_int (dmul d (double_of_Z 1000000)).

(** [++delays[delay]] *)
Definition count_delay (delay : Z) (delays : gmap Z Z) : outcome (gmap Z Z) :=
  n ← int_ (default 0 (delays !! delay) + 1);
  mret (<[delay:=n]> delays).

(** [threadFunc2] of [Thread_bench.cc]. *)
Definition threadFunc2 (start now : Z) (g_delays : gmap Z Z) : outcome (gmap Z Z) :=
  delay ← bench_delay now start;
  count_delay delay g_delays.

(** The loop of [Bench::threadFunc] on the values it takes, each with the time it
    was taken at. *)
Fixpoint bench_worker (taken : list (Z * Z)) (delays : gmap Z Z) : outcome (gmap Z Z) :=
  match taken with
  | [] => mret delays
  | (t, now) :: taken =>
      delays ← (if Timestamp_valid t then threadFunc2 t now delays else mret delays);
      if Timestamp_valid t then bench_worker taken delays else mret delays
  end.

Definition delay_line (tid : Z) (e : Z * Z) : bytes :=
  lit "tid = " ++ print_d tid ++ lit ", delay = " ++ print_d e.1 ++ lit ", count = " ++
  print_d e.2 ++ [LF].

Definition key_le (e f : Z * Z) : Prop := e.1 ≤ f.1.
#[global] Instance key_le_dec e f : Decision (key_le e f).
Proof. unfold key_le. apply _. Defined.

(** What a worker prints behind its loop, in the order of [std::map]. *)
Definition delay_lines (tid : Z) (delays : gmap Z Z) : bytes :=
  mjoin (delay_line tid <$> merge_sort key_le (map_to_list delays)).

(** The queue of [Bench] with [n] workers: [run] puts the time stamps and
    [joinAll] the invalid one, once for every worker. *)
Definition BlockingQueue_bench (stamps : list Z) (n : nat) : test_state Z → test_state Z → Prop :=
  test_step None Timestamp_invalid stamps n.

(** The number of measurements in a table. *)
Definition measured (delays : gmap Z Z) : Z := map_fold (λ _ n total, n + total) 0 delays.

Lemma measured_insert d n delays :
  measured (<[d:=n]> delays) = n - default 0 (delays !! d) + measured delays.
Proof.
  unfold measured. rewrite <- insert_delete_eq.
  rewrite map_fold_insert_L by (rewrite ?lookup_delete_eq; done || (intros; lia)).
  destruct (delays !! d) as [m|] eqn:E; cbn [default from_option id].
  - rewrite (map_fold_delete_L _ _ d m delays) by (done || (intros; lia)). lia.
  - rewrite delete_id by done. lia.
Qed.

(** A count never exceeds the number of measurements. *)
Definition counts_ok (delays : gmap Z Z) : Prop :=
  map_Forall (λ _ n, 0 ≤ n ≤ measured delays) delays.

Lemma count_delay_ok d delays :
  counts_ok delays → 0 ≤ measured delays < INT_MAX →
  wp (count_delay d delays) (λ delays', counts_ok delays' ∧ measured delays' = 1 + measured delays).
Proof.
  intros Hok Hm. unfold count_delay.
  assert (Hd : 0 ≤ default 0 (delays !! d) ≤ measured delays).
  { destruct (delays !! d) as [n|] eqn:E; cbn; [exact (Hok d n E)|lia]. }
  rewrite int_bind by (unfold in_int, INT_MIN, INT_MAX in *; lia). apply wp_mret.
  assert (E : measured (<[d:=default 0 (delays !! d) + 1]> delays) = 1 + measured delays)
    by (rewrite measured_insert; lia).
  split; [|exact E]. unfold counts_ok. rewrite E. intros k n Hk.
  apply lookup_insert_Some in Hk as [[_ <-]|[_ Hk]]; [lia|]. specialize (Hok k n Hk). cbn in Hok. lia.
Qed.

(** A worker that measures whatever it takes before the invalid time stamp counts
    every one of these measurements. *)
Lemma bench_worker_counts taken now rest :
  Forall (λ e, Timestamp_valid e.1 = true ∧ ∃ d, bench_delay e.2 e.1 = Ret d) taken →
  zlen taken ≤ INT_MAX →
  wp (bench_worker (taken ++ (Timestamp_invalid, now) :: rest) ∅) (λ delays,
    measured delays = zlen taken).
Proof.
  intros Ht Hlen. assert (H : ∀ delays, counts_ok delays → 0 ≤ measured delays →
    measured delays + zlen taken ≤ INT_MAX →
    wp (bench_worker (taken ++ (Timestamp_invalid, now) :: rest) delays) (λ delays',
      measured delays' = measured delays + zlen taken)).
  { clear Hlen. induction Ht as [|[t n] taken [Hv [d Hd]] Ht IH]; intros delays Hok H0 Hmax.
    { cbn. unfold zlen. cbn. lia. }
    assert (E : zlen ((t, n) :: taken) = 1 + zlen taken) by (unfold zlen; cbn [length]; lia).
    rewrite E in *. assert (0 ≤ zlen taken) by (unfold zlen; lia). cbn [fst snd] in Hv, Hd.
    cbn [app bench_worker]. rewrite Hv. unfold threadFunc2. rewrite Hd, Ret_bind. apply wp_bind.
    eapply wp_mono; [apply count_delay_ok; [done|lia]|]. intros delays' [Hok' Hm'].
    eapply wp_mono; [apply IH; [done|lia..]|]. cbn. lia. }
  eapply wp_mono; [apply H|]; [by intros ? ?|done|by change (measured ∅) with 0|].
  intros delays ->. by change (measured ∅) with 0.
Qed.

(** Delays of whole seconds are exact, *)
Lemma bench_delay_seconds t n :
  in_int (n * kMicroSecondsPerSecond) → in_long (t + n * kMicroSecondsPerSecond) → in_long t →
  bench_delay (t + n * kMicroSecondsPerSecond) t = Ret (n * kMicroSecondsPerSecond).
Proof.
  intros Hn Hhigh Ht. unfold bench_delay.
  assert (Hn' : - 2 ^ 31 ≤ n * kMicroSecondsPerSecond < 2 ^ 31)
    by (unfold in_int, INT_MIN, INT_MAX in Hn; lia).
  destruct (whole_seconds_exact t n) as [_ Hd]; [lia|done|done|].
  apply wp_iff in Hd as (d & -> & Hd & _). rewrite Ret_bind.
  pose proof (dmul_integer d (double_of_Z 1000000) n 1000000 Hd
    (double_of_Z_integer 1000000 eq_refl)) as Hm.
  change kMicroSecondsPerSecond with 1000000 in *. specialize (Hm ltac:(lia)).
  unfold double_to_int. rewrite (double_trunc_integer _ _ Hm). by rewrite decide_True.
Qed.

(** and one of 249 microseconds is counted as 248. *)
Example bench_delay_low :
  bench_delay 1527000000000249 1527000000000000 = Ret 248 ∧
  bench_delay 1527000000000250 1527000000000000 = Ret 250.
Proof. by vm_compute. Qed.

Example bench_worker_prints :
  (delays ← bench_worker
     [(1527000000000000, 1527000000000250); (1527000000001000, 1527000000001003);
      (1527000000002000, 1527000000002249); (1527000000003000, 1527000000003250);
      (Timestamp_invalid, 1527000000004000)] ∅;
   mret (delay_lines 7 delays)) =
  Ret (lit "tid = 7, delay = 3, count = 1" ++ [LF] ++ lit "tid = 7, delay = 248, count = 1" ++ [LF] ++
       lit "tid = 7, delay = 250, count = 2" ++ [LF]).
Proof. by vm_compute. Qed.

(** ** simple_test *)

(** [get_time_gap] on [(tv_sec, tv_nsec)]: what it leaves in [*new_tp] and
    [*out_tp]. The difference in its first line is not stored. *)
Definition get_time_gap (old_tp new_tp : Z * Z) : outcome ((Z * Z) * (Z * Z)) :=
  new_tp ← (if new_tp.2 <? old_tp.2
            then
              _ ← long_ (new_tp.1 - 1);
              nsec ← long_ (new_tp.2 + 999999999);
              mret (new_tp.1, nsec)
            else mret new_tp);
  sec ← long_ (new_tp.1 - old_tp.1);
  nsec ← long_ (new_tp.2 - old_tp.2);
  mret (new_tp, (sec, nsec)).

Definition LOG_WRITE_NUM : Z := 1000000.

(** A turn of the outer loop, on what the clock answers around the messages. *)
Definition inner_line (old_tp new_tp : Z * Z) : outcome ((Z * Z) * bytes) :=
  '(new_tp, out_tp) ← get_time_gap old_tp new_tp;
  ns ← long_ (out_tp.1 * 1000000000);
  ns ← long_ (ns + out_tp.2);
  mret (new_tp, lit "inner : " ++ print_d out_tp.1 ++ lit "." ++ print_pad 9 out_tp.2 ++
                lit ", per: " ++ print_d (Z.quot ns LOG_WRITE_NUM) ++ lit "(ns)" ++ [LF]).

Fixpoint inner_lines (clocks : list ((Z * Z) * (Z * Z))) (new_tp : option (Z * Z))
    : outcome (option (Z * Z) * bytes) :=
  match clocks with
  | [] => mret (new_tp, [])
  | (old, new) :: clocks =>
      '(new, line) ← inner_line old new;
      '(new_tp, out) ← inner_lines clocks (Some new);
      mret (new_tp, line ++ out)
  end.

(** What [main] prints, where the argument is the number of the pairs of answers;
    [new_tp] has no value before the first turn. *)
Definition simple_test (clocks : list ((Z * Z) * (Z * Z))) : outcome bytes :=
  '(new_tp, out) ← inner_lines clocks None;
  match new_tp with
  | None => Undef Uninitialised
  | Some t => mret (out ++ lit "total " ++ print_d t.1 ++ lit "." ++ print_pad 9 t.2 ++ [LF])
  end.

Definition nanoseconds (t : Z * Z) : Z := t.1 * 1000000000 + t.2.
Definition time_ok (t : Z * Z) : Prop := 0 ≤ t.1 ≤ INT_MAX ∧ 0 ≤ t.2 < 1000000000.

(** The gap is right where the nanoseconds grow, and otherwise a second less one
    nanosecond too long. *)
Lemma get_time_gap_spec old new :
  time_ok old → time_ok new →
  wp (get_time_gap old new) (λ '(_, out),
    nanoseconds out = nanoseconds new - nanoseconds old +
                      (if new.2 <? old.2 then 999999999 else 0)).
Proof.
  unfold time_ok, INT_MAX, nanoseconds. intros Ho Hn. unfold get_time_gap.
  assert (in_long (new.1 - old.1) ∧ in_long (new.2 - old.2) ∧ in_long (new.1 - 1) ∧
    in_long (new.2 + 999999999) ∧ in_long (new.2 + 999999999 - old.2)) as (H1 & H2 & H3 & H4 & H5)
    by (unfold in_long, LONG_MIN, LONG_MAX; lia).
  destruct (new.2 <? old.2); rewrite ?long_bind, ?mret_bind by done; cbn [fst snd];
    rewrite !long_bind by done; apply wp_mret; cbn [fst snd]; lia.
Qed.

Example simple_test_prints :
  simple_test [((0, 999999990), (1, 10))] =
    Ret (lit "inner : 1.000000019, per: 1000(ns)" ++ [LF] ++ lit "total 1.1000000009" ++ [LF]) ∧
  simple_test [] = Undef Uninitialised.
Proof. by vm_compute. Qed.

(** ** self_ifaddrlist *)

(** A device of [pcap_findalldevs]: its name and the number of its addresses. *)
Record pcap_if := { dev_name : bytes; addresses : nat }.

(** The result and what is printed on the two streams; [devlist] is the answer of
    [pcap_findalldevs], [None] for -1 with the text of [err]. The lines that count
    addresses are not compiled. *)
Definition self_getaddrlist (devlist : option (list pcap_if)) (err : bytes) : Z * bytes * bytes :=
  let nipaddr := 0 in
  match devlist with
  | None => (-1, [], lit "error in pcap_findalldevs:" ++ cstr err)
  | Some devs =>
      (nipaddr,
       mjoin ((λ d, mjoin (replicate (addresses d) (lit "--->name : " ++ dev_name d ++ [LF]))) <$> devs),
       [])
  end.

(** The answer says nothing of the addresses: it is 0 for every list of devices. *)
Lemma self_getaddrlist_counts_nothing devs err :
  (self_getaddrlist (Some devs) err).1.1 = 0.
Proof. done. Qed.

Example self_getaddrlist_prints :
  self_getaddrlist (Some [{| dev_name := lit "lo"; addresses := 2 |};
                          {| dev_name := lit "usbmon0"; addresses := 0 |};
                          {| dev_name := lit "eth0"; addresses := 1 |}]) [] =
  (0, lit "--->name : lo" ++ [LF] ++ lit "--->name : lo" ++ [LF] ++ lit "--->name : eth0" ++ [LF], []).
Proof. by vm_compute. Qed.
